(** * Minesweeper: a shallow embedding of [minesweeper.py] and
      [nyankosweeper.py], and the properties of their board logic.

    The two scripts are terminal games.  What is embedded here is their
    model code: mine placement, adjacency counting, the recursive reveal,
    mark toggling, the win test and the turn loops.  Drawing calls
    ([addstr], [refresh]) change nothing in the model and are left out
    of the loops; the one-line status messages are kept in a log.  The
    drawing code itself is embedded apart, as functions from the state
    of a game to the calls of [addstr] it makes.

    Conventions.
    - Python integers are [Z]; Python lists are [list], read and written
      through [getitem] and [setitem], which follow Python for negative
      and out-of-range subscripts.
    - An operation that can raise returns an [outcome].
    - [random.randint] and [getkey] are fed from explicit lists: the
      draws of the random source and the keys typed by the player. *)

From stdpp Require Import base list list_numbers strings.
From Stdlib Require Import ZArith Lia Ascii.

Local Open Scope Z_scope.

(** ** Outcomes of Python calls *)

Inductive exn : Type :=
| IndexError                                (* subscript out of range *)
| ValueError                                (* [str.index], [int] *)
| RecursionError                            (* call depth budget used up *)
| SystemExit (status : Z) (printed : string) (* [print(msg); exit(status)] *)
| NoMoreDraws                               (* the list of draws is used up *)
| NoMoreKeys                                (* [getkey] waits for a key *)
| LoopBudget.                               (* iteration budget of a loop model *)

Inductive outcome (A : Type) : Type :=
| Done (a : A)
| Raise (e : exn).
Arguments Done {A} a.
Arguments Raise {A} e.

Definition bind {A B : Type} (m : outcome A) (k : A → outcome B) : outcome B :=
  match m with
  | Done a => k a
  | Raise e => Raise e
  end.

Notation "'do' x <- m ; k" := (bind m (fun x => k))
  (at level 10, x name, m at level 100, k at level 200).
Notation "'do' ' p <- m ; k" := (bind m (fun x => match x with p => k end))
  (at level 10, p strict pattern, m at level 100, k at level 200).

(** Two outcomes that agree: two results that are related, or the same
    exception. *)
Definition outcomes_agree {A B : Type} (R : A → B → Prop)
    (m1 : outcome A) (m2 : outcome B) : Prop :=
  match m1, m2 with
  | Done a, Done b => R a b
  | Raise e1, Raise e2 => e1 = e2
  | _, _ => False
  end.

(** [for a in l: s = body a s], stopping at the first exception. *)
Section Loops.
Context {A St : Type}.
Variable body : A → St → outcome St.

Fixpoint for_ (l : list A) (s : St) : outcome St :=
    match l with
    | [] => Done s
    | a :: l' =>
        match body a s with
        | Done s' => for_ l' s'
        | Raise e => Raise e
        end
    end.
End Loops.

(** [range(n)] and [range(a, b)]. *)
Definition range (n : Z) : list Z := seqZ 0 n.
Definition range2 (a b : Z) : list Z := seqZ a (b - a).

(** ** Python lists *)

(** A negative subscript counts from the end; anything still outside
    [0 .. len-1] raises [IndexError]. *)
Definition subscript {A : Type} (l : list A) (i : Z) : outcome nat :=
  let n := Z.of_nat (length l) in
  let j := if i <? 0 then i + n else i in
  if (0 <=? j) && (j <? n) then Done (Z.to_nat j) else Raise IndexError.

Definition getitem {A : Type} (l : list A) (i : Z) : outcome A :=
  do j <- subscript l i;
  match l !! j with
  | Some a => Done a
  | None => Raise IndexError
  end.

Definition setitem {A : Type} (l : list A) (i : Z) (v : A) : outcome (list A) :=
  do j <- subscript l i;
  Done (<[j := v]> l).

(** [g[x][y]] and [g[x][y] = v] on a list of columns. *)
Definition get2 {A : Type} (g : list (list A)) (x y : Z) : outcome A :=
  do col <- getitem g x;
  getitem col y.

Definition set2 {A : Type} (g : list (list A)) (x y : Z) (v : A)
  : outcome (list (list A)) :=
  do col <- getitem g x;
  do col' <- setitem col y v;
  setitem g x col'.

(** [[[v for _ in range(h)] for _ in range(w)]] *)
Definition fresh_grid {A : Type} (w h : Z) (v : A) : list (list A) :=
  replicate (Z.to_nat w) (replicate (Z.to_nat h) v).

(** The console: keys still to be read, messages shown so far. *)
Record tty : Type := mkTty { keys : list string; shown : list string }.

Definition getkey_raw (t : tty) : outcome (string * tty) :=
  match keys t with
  | [] => Raise NoMoreKeys
  | k :: rest => Done (k, mkTty rest (shown t))
  end.

Definition show_message (msg : string) (t : tty) : tty :=
  mkTty (keys t) (shown t ++ [msg]).

(** The screen: the calls [addstr(y, x, text, attr)] made so far, the
    latest last.  [w_reverse] is the attribute [curses.A_REVERSE]; the
    window is taken to be large enough for every call. *)
Record write : Type := mkWrite {
  w_row : Z;
  w_col : Z;
  w_text : string;
  w_reverse : bool
}.

Definition addstr (y x : Z) (s : string) (attr : bool) (scr : list write)
  : list write :=
  scr ++ [mkWrite y x s attr].

(** What [int(sys.argv[i])] makes of a command-line word: the integer it
    denotes, or [ValueError]. *)
Inductive word : Type :=
| Numeral (n : Z)
| Text (s : string).

Definition int (w : word) : outcome Z :=
  match w with
  | Numeral n => Done n
  | Text _ => Raise ValueError
  end.

(** Exit status of a script whose body ended with [r]: normal end is 0,
    [exit(n)] is [n], an uncaught exception is 1.  A script that still
    waits for input has no status. *)
Definition exit_status {A : Type} (r : outcome A) : option Z :=
  match r with
  | Done _ => Some 0
  | Raise (SystemExit n _) => Some n
  | Raise NoMoreKeys | Raise NoMoreDraws | Raise LoopBudget => None
  | Raise _ => Some 1
  end.

(** ** Geometry shared by both games *)

Definition inb (w h x y : Z) : Prop := 0 ≤ x < w ∧ 0 ≤ y < h.
Definition inbb (w h x y : Z) : bool :=
  (0 <=? x) && (x <? w) && (0 <=? y) && (y <? h).

(** Chebyshev distance. *)
Definition cheb (p q : Z * Z) : Z :=
  Z.max (Z.abs (p.1 - q.1)) (Z.abs (p.2 - q.2)).

(** All the cells of a [w] by [h] board, column by column. *)
Definition cells (w h : Z) : list (Z * Z) :=
  x ← range w; (λ y, (x, y)) <$> range h.

(** The cells of the board at Chebyshev distance 1 from [p]: its up to
    eight neighbours, none across an edge. *)
Definition neighbours (w h : Z) (p : Z * Z) : list (Z * Z) :=
  filter (λ q, cheb p q = 1) (cells w h).

(** A [w] by [h] list of columns. *)
Definition rect {A : Type} (w h : Z) (g : list (list A)) : Prop :=
  Z.of_nat (length g) = w ∧ Forall (λ col, Z.of_nat (length col) = h) g.

(** The cell at [(x, y)], when there is one at a non-negative subscript. *)
Definition at2 {A : Type} (g : list (list A)) (x y : Z) : option A :=
  if (0 <=? x) && (0 <=? y) then
    match g !! Z.to_nat x with
    | Some col => col !! Z.to_nat y
    | None => None
    end
  else None.

(** The 3x3 block, as the two nested [range(-1, 2)] loops walk it. *)
Definition block : list (Z * Z) :=
  dx ← range2 (-1) 2; (λ dy, (dx, dy)) <$> range2 (-1) 2.

(** [g[x][y] = v] as a function of the grid. *)
Definition put2 {A : Type} (g : list (list A)) (x y : Z) (v : A) : list (list A) :=
  alter (λ col, <[Z.to_nat y := v]> col) (Z.to_nat x) g.

(** ** The flood scheme behind both [reveal] functions

    Both games uncover a cell and, when it has no mine around it, call
    themselves on the nine cells of the 3x3 block around it that lie on
    the board.  They differ in what stops a call ([covered]), in what a
    zero cell is ([spreads]) and in how a cell is uncovered ([uncover]).
    [depth] is the number of nested calls still allowed. *)
Module Flood.
Section Scheme.
Context {St : Type}.
Variables w h : Z.
Variable covered : St → Z → Z → bool.
Variable spreads : St → Z → Z → bool.
Variable uncover : St → Z → Z → St.

Fixpoint flood (depth : nat) (s : St) (x y : Z) : outcome St :=
    match depth with
    | O => Raise RecursionError
    | S depth' =>
        if covered s x y then
          let s1 := uncover s x y in
          if spreads s x y then
            for_ (λ dx s,
              for_ (λ dy s,
                if inbb w h (x + dx) (y + dy)
                then flood depth' s (x + dx) (y + dy)
                else Done s)
              (range2 (-1) 2) s)
            (range2 (-1) 2) s1
          else Done s1
        else Done s
    end.

  (** [q] lies in the 3x3 block around [p], on the board. *)
Definition near (p q : Z * Z) : Prop :=
    inb w h q.1 q.2 ∧ cheb p q ≤ 1.

  (** The cells a call on [p] gets to: [p] itself when it is covered, and
      from a covered zero cell every cell reached from one of its
      neighbours. *)
Inductive reach (s : St) : Z * Z → Z * Z → Prop :=
  | reach_here p :
      inb w h p.1 p.2 → covered s p.1 p.2 = true → reach s p p
  | reach_step p q r :
      inb w h p.1 p.2 → covered s p.1 p.2 = true →
      spreads s p.1 p.2 = true → near p q → reach s q r → reach s p r.

  (** Number of cells a call could still uncover. *)
Definition pending (s : St) : nat :=
    length (filter (λ p, covered s p.1 p.2 = true) (cells w h)).

  (** The connected region of zero cells around [p], whatever is covered. *)
Inductive zero_region (s : St) (p : Z * Z) : Z * Z → Prop :=
  | zero_region_start :
      inb w h p.1 p.2 → spreads s p.1 p.2 = true → zero_region s p p
  | zero_region_step q r :
      zero_region s p q → near q r → spreads s r.1 r.2 = true →
      zero_region s p r.

  (** The zero region around [p] and the cells that border it. *)
Definition region_with_border (s : St) (p c : Z * Z) : Prop :=
    ∃ q, zero_region s p q ∧ near q c.

  (** [s'] has no more covered cells than [s], and the same zero cells. *)
Definition later (s s' : St) : Prop :=
    ∀ x y, inb w h x y →
      (covered s' x y = true → covered s x y = true)
      ∧ spreads s' x y = spreads s x y.

  (** [ok] is what the game guarantees about its states. *)
Variable ok : St → Prop.

  (** What one call has done when it returns [s']. *)
Record flooded (s : St) (p : Z * Z) (s' : St) : Prop := {
    flooded_ok : ok s';
    flooded_later : later s s';
    flooded_here : covered s' p.1 p.2 = false;
    flooded_sound : ∀ c, inb w h c.1 c.2 →
      covered s c.1 c.2 = true → covered s' c.1 c.2 = false → reach s p c;
    flooded_closed : ∀ c q, inb w h c.1 c.2 →
      covered s c.1 c.2 = true → covered s' c.1 c.2 = false →
      spreads s c.1 c.2 = true → near c q → covered s' q.1 q.2 = false
  }.
End Scheme.
End Flood.

(** ** nyankosweeper.py *)
Module Nyankosweeper.

Module Config.
Definition XSIZE : Z := 40.
Definition BOARD_HEIGHT : Z := 22.
Definition YSIZE : Z := BOARD_HEIGHT + 1.
Definition MARKS : list string := ["＃"; "🚩"; "？"]%string.
  (** [DIGITS], character by character. *)
Definition DIGITS : list string :=
    ["　"; "１"; "２"; "３"; "４"; "５"; "６"; "７"; "８"; "９"]%string.
Definition MAX_MINES : Z := 300.

Definition DIRECTIONS : list (string * (Z * Z)) :=
    [("LEFT", (-1, 0)); ("RIGHT", (1, 0)); ("UP", (0, -1)); ("DOWN", (0, 1))]%string.

Definition KEY_BINDINGS : list (string * string) :=
    [("4", "LEFT"); ("h", "LEFT"); ("KEY_LEFT", "LEFT");
     ("6", "RIGHT"); ("l", "RIGHT"); ("KEY_RIGHT", "RIGHT");
     ("8", "UP"); ("k", "UP"); ("KEY_UP", "UP");
     ("2", "DOWN"); ("j", "DOWN"); ("KEY_DOWN", "DOWN")]%string.
End Config.

(** [d.get(k)] on a dictionary written as its list of items. *)
Fixpoint dict_get {V : Type} (d : list (string * V)) (k : string) : option V :=
  match d with
  | [] => None
  | (k', v) :: d' => if String.eqb k' k then Some v else dict_get d' k
  end.

Record Cell : Type := mkCell {
  mine : bool;
  revealed : bool;
  mark : Z;
  adjacent : Z
}.

(** [Cell()] *)
Definition Cell_init : Cell := mkCell false false 0 0.

Definition set_mine (v : bool) (c : Cell) : Cell :=
  mkCell v (revealed c) (mark c) (adjacent c).
Definition set_revealed (v : bool) (c : Cell) : Cell :=
  mkCell (mine c) v (mark c) (adjacent c).
Definition set_mark (v : Z) (c : Cell) : Cell :=
  mkCell (mine c) (revealed c) v (adjacent c).
Definition set_adjacent (v : Z) (c : Cell) : Cell :=
  mkCell (mine c) (revealed c) (mark c) v.

Record Board : Type := mkBoard {
  width : Z;
  height : Z;
  mines : Z;
  grid : list (list Cell)
}.

Definition with_grid (b : Board) (g : list (list Cell)) : Board :=
  mkBoard (width b) (height b) (mines b) g.

(** [Board.place_mines]: the [while placed < self.mines] loop, one draw
    [(x, y)] of the random source per turn. *)
Fixpoint place_mines_from (b : Board) (placed : Z) (draws : list (Z * Z))
  : outcome Board :=
  if placed <? mines b then
    match draws with
    | [] => Raise NoMoreDraws
    | (x, y) :: rest =>
        do cell <- get2 (grid b) x y;
        if negb (mine cell) then
          do g <- set2 (grid b) x y (set_mine true cell);
          place_mines_from (with_grid b g) (placed + 1) rest
        else place_mines_from b placed rest
    end
  else Done b.

Definition place_mines (b : Board) (draws : list (Z * Z)) : outcome Board :=
  place_mines_from b 0 draws.

(** The generator summed in [calculate_adjacents]. *)
Definition count_around (b : Board) (g : list (list Cell)) (x y : Z) : outcome Z :=
  for_ (λ dx n,
    for_ (λ dy n,
      let nx := x + dx in
      let ny := y + dy in
      if (negb (dx =? 0) || negb (dy =? 0))
         && ((0 <=? nx) && (nx <? width b))
         && ((0 <=? ny) && (ny <? height b))
      then do c <- get2 g nx ny; Done (n + (if mine c then 1 else 0))
      else Done n)
    [-1; 0; 1] n)
  [-1; 0; 1] 0.

Definition calculate_adjacents (b : Board) : outcome Board :=
  do g <- for_ (λ x g,
            for_ (λ y g,
              do c <- get2 g x y;
              if mine c then Done g
              else
                do count <- count_around b g x y;
                set2 g x y (set_adjacent count c))
            (range (height b)) g)
          (range (width b)) (grid b);
  Done (with_grid b g).

(** [Board.__init__] *)
Definition Board_init (mines : Z) (draws : list (Z * Z)) : outcome Board :=
  let b := mkBoard Config.XSIZE Config.BOARD_HEIGHT mines
             (fresh_grid Config.XSIZE Config.BOARD_HEIGHT Cell_init) in
  do b <- place_mines b draws;
  calculate_adjacents b.

(** [cell.revealed or Config.MARKS[cell.mark] != '＃'] *)
Definition reveal_stops (cell : Cell) : outcome bool :=
  if revealed cell then Done true
  else do m <- getitem Config.MARKS (mark cell);
       Done (negb (String.eqb m "＃")).

(** [Board.reveal] *)
Fixpoint reveal (depth : nat) (b : Board) (x y : Z) : outcome Board :=
  match depth with
  | O => Raise RecursionError
  | S depth' =>
      do cell <- get2 (grid b) x y;
      do stop <- reveal_stops cell;
      if stop then Done b
      else
        do g <- set2 (grid b) x y (set_revealed true cell);
        let b1 := with_grid b g in
        if (adjacent cell =? 0) && negb (mine cell) then
          for_ (λ dx b,
            for_ (λ dy b,
              let nx := x + dx in
              let ny := y + dy in
              if ((0 <=? nx) && (nx <? width b)) && ((0 <=? ny) && (ny <? height b))
              then reveal depth' b nx ny
              else Done b)
            (range2 (-1) 2) b)
          (range2 (-1) 2) b1
        else Done b1
  end.

(** The grid as the flood scheme sees it: a call goes on at a cell that
    is neither revealed nor marked, spreads from a cell with no mine in it
    or around it, and uncovers by setting [revealed]. *)
Definition covered (g : list (list Cell)) (x y : Z) : bool :=
  match at2 g x y with
  | Some c => negb (revealed c) && (mark c =? 0)
  | None => false
  end.

Definition spreads (g : list (list Cell)) (x y : Z) : bool :=
  match at2 g x y with
  | Some c => (adjacent c =? 0) && negb (mine c)
  | None => false
  end.

Definition uncover (g : list (list Cell)) (x y : Z) : list (list Cell) :=
  match at2 g x y with
  | Some c => put2 g x y (set_revealed true c)
  | None => g
  end.

(** A grid of the board's size whose marks are subscripts of [MARKS]. *)
Definition valid (w h : Z) (g : list (list Cell)) : Prop :=
  rect w h g ∧ ∀ x y c, at2 g x y = Some c → 0 ≤ mark c < 3.

Definition Board_ok (b : Board) : Prop := valid (width b) (height b) (grid b).

(** [g'] is [g] with some unrevealed, unmarked cells revealed, and nothing
    else changed. *)
Definition only_revealed (g g' : list (list Cell)) : Prop :=
  ∀ x y c, at2 g x y = Some c →
    at2 g' x y = Some c
    ∨ (revealed c = false ∧ mark c = 0 ∧ at2 g' x y = Some (set_revealed true c)).

(** Where the mines are, and how many lie around a cell. *)
Definition is_mine (g : list (list Cell)) (p : Z * Z) : bool :=
  match at2 g p.1 p.2 with
  | Some c => mine c
  | None => false
  end.

Definition mine_cells (b : Board) : list (Z * Z) :=
  filter (λ p, is_mine (grid b) p = true) (cells (width b) (height b)).

Definition mines_around (b : Board) (p : Z * Z) : nat :=
  length (filter (λ q, is_mine (grid b) q = true)
            (neighbours (width b) (height b) p)).

(** Every cell without a mine carries the number of mines around it. *)
Definition counts_ok (b : Board) : Prop :=
  ∀ x y c, at2 (grid b) x y = Some c → mine c = false →
    adjacent c = Z.of_nat (mines_around b (x, y)).

(** What a run of [reveal] from the grid [g0] keeps. *)
Definition ok (w h : Z) (g0 g : list (list Cell)) : Prop :=
  valid w h g ∧ only_revealed g0 g.

Definition cell_at (b : Board) (x y : Z) : option Cell := at2 (grid b) x y.

(** The flood notions on a board. *)
Definition reached (b : Board) (p c : Z * Z) : Prop :=
  Flood.reach (width b) (height b) covered spreads (grid b) p c.
Definition zero_region (b : Board) (p q : Z * Z) : Prop :=
  Flood.zero_region (width b) (height b) spreads (grid b) p q.
Definition region_with_border (b : Board) (p c : Z * Z) : Prop :=
  Flood.region_with_border (width b) (height b) spreads (grid b) p c.
Definition cells_left (b : Board) : nat :=
  Flood.pending (width b) (height b) covered (grid b).

(** [Board.toggle_mark] *)
Definition toggle_mark (b : Board) (x y : Z) : outcome Board :=
  do cell <- get2 (grid b) x y;
  if negb (revealed cell) then
    do g <- set2 (grid b) x y
              (set_mark ((mark cell + 1) `mod` Z.of_nat (length Config.MARKS)) cell);
    Done (with_grid b g)
  else Done b.

(** [Board.all_clear] *)
Definition all_clear (b : Board) : bool :=
  forallb (λ row, forallb (λ cell, revealed cell || mine cell) row) (grid b).

(** [for x in range(width): for y in range(height): cell = grid[x][y]; ...]
    with a body that only rewrites the cell. *)
Definition each_cell (f : Cell → Cell) (b : Board) : outcome Board :=
  do g <- for_ (λ x g,
            for_ (λ y g, do c <- get2 g x y; set2 g x y (f c))
            (range (height b)) g)
          (range (width b)) (grid b);
  Done (with_grid b g).

(** [GameState] and [Game] share one board object; the renderer and the
    screen are not part of the model. *)
Record Game : Type := mkGame {
  board : Board;
  cursor_x : Z;
  cursor_y : Z;
  game_over : bool
}.

(** [Game.__init__] *)
Definition Game_init (mines : Z) (draws : list (Z * Z)) : outcome Game :=
  do b <- Board_init mines draws;
  Done (mkGame b (width b `div` 2) (height b `div` 2) false).

(** [Game.reveal_all] *)
Definition reveal_all (show_mines : bool) (gm : Game) : outcome Game :=
  do b <- each_cell (λ cell,
            if show_mines then
              if mine cell then
                if negb (mark cell =? 1) then set_revealed true cell else cell
              else set_revealed true cell
            else set_revealed true cell) (board gm);
  Done (mkGame b (cursor_x gm) (cursor_y gm) (game_over gm)).

(** [Game.handle_win] *)
Definition handle_win (gm : Game) (t : tty) : outcome (Game * tty) :=
  do b <- each_cell (λ cell,
            if mine cell then set_revealed false (set_mark 1 cell)
            else set_revealed true cell) (board gm);
  let t := show_message "You win. hit key" t in
  do '(_, t) <- getkey_raw t;
  Done (mkGame b (cursor_x gm) (cursor_y gm) (game_over gm), t).

(** [Game.handle_reveal]; [depth] is the call depth left for [reveal]. *)
Definition handle_reveal (depth : nat) (gm : Game) (t : tty) : outcome (Game * tty) :=
  let x := cursor_x gm in
  let y := cursor_y gm in
  do cell <- get2 (grid (board gm)) x y;
  if mine cell then
    let gm := mkGame (board gm) (cursor_x gm) (cursor_y gm) true in
    do gm <- reveal_all true gm;
    let t := show_message "You lose. hit key" t in
    do '(_, t) <- getkey_raw t;
    Done (gm, t)
  else
    do b <- reveal depth (board gm) x y;
    Done (mkGame b (cursor_x gm) (cursor_y gm) (game_over gm), t).

(** [Game.handle_key] *)
Definition handle_key (depth : nat) (gm : Game) (key : string) (t : tty)
  : outcome (bool * Game * tty) :=
  match dict_get Config.KEY_BINDINGS key with
  | Some action =>
      match dict_get Config.DIRECTIONS action with
      | Some (dx, dy) =>
          let cx := Z.max 0 (Z.min (width (board gm) - 1) (cursor_x gm + dx)) in
          let cy := Z.max 0 (Z.min (height (board gm) - 1) (cursor_y gm + dy)) in
          Done (true, mkGame (board gm) cx cy (game_over gm), t)
      | None => Raise IndexError
      end
  | None =>
      if String.eqb key "z" || String.eqb key "m" then
        do b <- toggle_mark (board gm) (cursor_x gm) (cursor_y gm);
        Done (true, mkGame b (cursor_x gm) (cursor_y gm) (game_over gm), t)
      else if String.eqb key " " then
        do '(gm, t) <- handle_reveal depth gm t;
        Done (true, gm, t)
      else if String.eqb key "q" then Done (false, gm, t)
      else Done (true, gm, t)
  end.

(** [Game.run]: the [while True] loop, [turns] iterations at most.  The
    result is the returned code with the final game and console. *)
Fixpoint run_turns (turns depth : nat) (gm : Game) (t : tty)
  : outcome (Z * Game * tty) :=
  match turns with
  | O => Raise LoopBudget
  | S turns' =>
      if negb (game_over gm) && all_clear (board gm) then
        do '(gm, t) <- handle_win gm t;
        Done (0, gm, t)
      else
        do '(key, t) <- getkey_raw t;
        do '(continue, gm, t) <- handle_key depth gm key t;
        if continue then run_turns turns' depth gm t
        else Done (1, gm, t)
  end.

(** Every turn that goes round the loop has read a key, so one turn more
    than there are keys is enough. *)
Definition Game_run (depth : nat) (gm : Game) (t : tty) : outcome (Z * Game * tty) :=
  run_turns (S (length (keys t))) depth gm t.

(** [get_mine_count], from [sys.argv] *)
Definition get_mine_count (argv : list word) : outcome Z :=
  if Z.of_nat (length argv) =? 2 then
    match (do a <- getitem argv 1; int a) with
    | Done count =>
        if count >? Config.MAX_MINES
        then Raise (SystemExit 1 "too many nyankos")
        else Done count
    | Raise ValueError => Raise (SystemExit 1 "not a number")
    | Raise e => Raise e
    end
  else Done 56.

(** [run(stdscr)], which is all [main] does: the value of [game.run()]
    is dropped. *)
Definition run (depth : nat) (argv : list word) (draws : list (Z * Z)) (t : tty)
  : outcome unit :=
  do mines <- get_mine_count argv;
  do game <- Game_init mines draws;
  do _ <- Game_run depth game t;
  Done tt.

(** ** Drawing *)

(** [Cell.display] *)
Definition display (game_over : bool) (c : Cell) : outcome string :=
  if negb (revealed c) then
    if game_over && negb (mine c) && (mark c =? 1) then Done "Ｘ"%string
    else getitem Config.MARKS (mark c)
  else if mine c then Done "😺"%string
  else if adjacent c <? Z.of_nat (length Config.DIGITS)
       then getitem Config.DIGITS (adjacent c)
       else Done "？"%string.

(** [Renderer.draw_cell] *)
Definition draw_cell (x y : Z) (gm : Game) (scr : list write)
  : outcome (list write) :=
  do cell <- get2 (grid (board gm)) x y;
  do ch <- display (game_over gm) cell;
  let attr := (x =? cursor_x gm) && (y =? cursor_y gm) in
  Done (addstr y (x * 2) ch attr scr).

(** [Renderer.draw] *)
Definition draw (gm : Game) (scr : list write) : outcome (list write) :=
  for_ (λ x scr,
    for_ (λ y scr, draw_cell x y gm scr) (range (height (board gm))) scr)
  (range (width (board gm))) scr.

(** What one cell of the board looks like on the screen. *)
Definition drawn_as (gm : Game) (p : Z * Z) (wr : write) : Prop :=
  w_row wr = p.2 ∧ w_col wr = p.1 * 2
  ∧ w_reverse wr = bool_decide (p = (cursor_x gm, cursor_y gm))
  ∧ ∃ c, cell_at (board gm) p.1 p.2 = Some c
         ∧ display (game_over gm) c = Done (w_text wr).

(** ** What play keeps *)

(** No cell with a mine is revealed. *)
Definition mines_hidden (b : Board) : Prop :=
  ∀ x y c, cell_at b x y = Some c → mine c = true → revealed c = false.

(** A game in play: a valid board that carries its counts, the cursor on
    it; while the game is on no mine is revealed, and once it is over
    every cell without a mine is. *)
Definition Game_ok (gm : Game) : Prop :=
  Board_ok (board gm) ∧ counts_ok (board gm)
  ∧ inb (width (board gm)) (height (board gm)) (cursor_x gm) (cursor_y gm)
  ∧ (game_over gm = false → mines_hidden (board gm))
  ∧ (game_over gm = true → all_clear (board gm) = true).

(** [b'] has the mines and the counts of [b], and every cell without a
    mine that [b] has revealed is still revealed. *)
Definition keeps (b b' : Board) : Prop :=
  width b' = width b ∧ height b' = height b ∧ mines b' = mines b
  ∧ ∀ x y c, at2 (grid b) x y = Some c →
      ∃ c', at2 (grid b') x y = Some c'
        ∧ mine c' = mine c ∧ adjacent c' = adjacent c
        ∧ (mine c = false → revealed c = true → revealed c' = true).

(** Two cells that look the same while the game is on: both covered with
    the same mark, or both revealed with the same content. *)
Definition shows_same (c1 c2 : Cell) : Prop :=
  revealed c1 = revealed c2
  ∧ (revealed c1 = false → mark c1 = mark c2)
  ∧ (revealed c1 = true →
       mine c1 = mine c2 ∧ (mine c1 = false → adjacent c1 = adjacent c2)).

(** Two games that look the same to the player. *)
Definition same_view (gm1 gm2 : Game) : Prop :=
  width (board gm1) = width (board gm2)
  ∧ height (board gm1) = height (board gm2)
  ∧ cursor_x gm1 = cursor_x gm2 ∧ cursor_y gm1 = cursor_y gm2
  ∧ game_over gm1 = false ∧ game_over gm2 = false
  ∧ ∀ x y, match cell_at (board gm1) x y, cell_at (board gm2) x y with
           | Some c1, Some c2 => shows_same c1 c2
           | None, None => True
           | _, _ => False
           end.

End Nyankosweeper.

(** ** minesweeper.py *)
Module Minesweeper.

Definition xsize : Z := 40.
Definition ysize : Z := 23.

(** An entry of [vvram]: an integer, or the string ['*']. *)
Inductive value : Type :=
| Int (n : Z)
| Str (s : string).

Definition is_zero (v : value) : bool :=
  match v with Int 0 => true | _ => false end.
Definition is_star (v : value) : bool :=
  match v with Str s => String.eqb s "*" | _ => false end.

(** [aca = "#@?"], one character per mark; [mask] holds these characters,
    or a blank for an uncovered cell. *)
Definition aca : list ascii := ["#"; "@"; "?"]%char.
Definition blank : ascii := " "%char.

(** [aca.index(c)] *)
Fixpoint index_of (l : list ascii) (c : ascii) : outcome Z :=
  match l with
  | [] => Raise ValueError
  | a :: l' => if Ascii.eqb a c then Done 0 else do i <- index_of l' c; Done (i + 1)
  end.

(** The module globals: [mines] is set once from the command line,
    [vvram] and [mask] are the two grids. *)
Record world : Type := mkWorld {
  mines : Z;
  vvram : list (list value);
  mask : list (list ascii)
}.

Definition with_vvram (w : world) (v : list (list value)) : world :=
  mkWorld (mines w) v (mask w).
Definition with_mask (w : world) (m : list (list ascii)) : world :=
  mkWorld (mines w) (vvram w) m.

(** The globals as the script first sets them. *)
Definition world_init (mines : Z) : world :=
  mkWorld mines (fresh_grid xsize ysize (Int 0)) (fresh_grid xsize ysize "#"%char).

(** [getkey]: the arrow keys read as their digits. *)
Definition keymap (c : string) : string :=
  (if String.eqb c "KEY_UP" then "8"
   else if String.eqb c "KEY_DOWN" then "2"
   else if String.eqb c "KEY_RIGHT" then "6"
   else if String.eqb c "KEY_LEFT" then "4"
   else c)%string.

Definition getkey (t : tty) : outcome (string * tty) :=
  do '(c, t) <- getkey_raw t;
  Done (keymap c, t).

(** The [while(True)] loop of [putmines]: draws until a free cell comes. *)
Fixpoint putmine (w : world) (draws : list (Z * Z)) : outcome (world * list (Z * Z)) :=
  match draws with
  | [] => Raise NoMoreDraws
  | (x, y) :: rest =>
      do v <- get2 (vvram w) x y;
      if is_zero v then
        do vv <- set2 (vvram w) x y (Str "*");
        Done (with_vvram w vv, rest)
      else putmine w rest
  end.

(** [putmines(n)] *)
Definition putmines (n : Z) (w : world) (draws : list (Z * Z))
  : outcome (world * list (Z * Z)) :=
  for_ (λ _ '(w, draws), putmine w draws) (range n) (w, draws).

(** [calccell(x, y)]; the count it returns is not used by its caller. *)
Definition calccell (w : world) (x y : Z) : outcome world :=
  do v <- get2 (vvram w) x y;
  if is_zero v then
    do cnt <- for_ (λ dx cnt,
                for_ (λ dy cnt,
                  if (x + dx >=? 0) && (y + dy >=? 0)
                     && (x + dx <? xsize) && (y + dy <? ysize)
                  then do u <- get2 (vvram w) (x + dx) (y + dy);
                       Done (cnt + (if is_star u then 1 else 0))
                  else Done cnt)
                (range2 (-1) 2) cnt)
              (range2 (-1) 2) 0;
    do vv <- set2 (vvram w) x y (Int cnt);
    Done (with_vvram w vv)
  else Done w.

(** [calcfield()] *)
Definition calcfield (w : world) : outcome world :=
  for_ (λ x w, for_ (λ y w, calccell w x y) (range ysize) w) (range xsize) w.

(** [reveal(x, y)] *)
Fixpoint reveal (depth : nat) (w : world) (x y : Z) : outcome world :=
  match depth with
  | O => Raise RecursionError
  | S depth' =>
      do v <- get2 (vvram w) x y;
      do m <- get2 (mask w) x y;
      if negb (is_zero v) && negb (Ascii.eqb m blank) then
        do mk <- set2 (mask w) x y blank;
        Done (with_mask w mk)
      else if is_zero v && negb (Ascii.eqb m blank) then
        do mk <- set2 (mask w) x y blank;
        for_ (λ dx w,
          for_ (λ dy w,
            if (x + dx >=? 0) && (y + dy >=? 0)
               && (x + dx <? xsize) && (y + dy <? ysize)
            then reveal depth' w (x + dx) (y + dy)
            else Done w)
          (range2 (-1) 2) w)
        (range2 (-1) 2) (with_mask w mk)
      else Done w
  end.

(** Where the mines are, and how many lie around a cell. *)
Definition is_mine (w : world) (p : Z * Z) : bool :=
  match at2 (vvram w) p.1 p.2 with
  | Some v => is_star v
  | None => false
  end.

Definition mine_cells (w : world) : list (Z * Z) :=
  filter (λ p, is_mine w p = true) (cells xsize ysize).

Definition mines_around (w : world) (p : Z * Z) : nat :=
  length (filter (λ q, is_mine w q = true) (neighbours xsize ysize p)).

(** The field before [calcfield]: every entry is 0 or ['*']. *)
Definition uncounted (w : world) : Prop :=
  ∀ x y v, at2 (vvram w) x y = Some v → v = Int 0 ∨ v = Str "*".

(** Every cell without a mine carries the number of mines around it. *)
Definition counts_ok (w : world) : Prop :=
  ∀ x y v, at2 (vvram w) x y = Some v → is_star v = false →
    v = Int (Z.of_nat (mines_around w (x, y))).

(** The globals as the flood scheme sees them: a call goes on at a cell
    whose mask is not blank, whatever the mark; it spreads from a cell
    whose [vvram] entry is 0. *)
Definition covered (w : world) (x y : Z) : bool :=
  match at2 (mask w) x y with
  | Some m => negb (Ascii.eqb m blank)
  | None => false
  end.

Definition spreads (w : world) (x y : Z) : bool :=
  match at2 (vvram w) x y with
  | Some v => is_zero v
  | None => false
  end.

Definition uncover (w : world) (x y : Z) : world :=
  with_mask w (put2 (mask w) x y blank).

(** Both grids have the size of the field. *)
Definition valid (w : world) : Prop :=
  rect xsize ysize (vvram w) ∧ rect xsize ysize (mask w).

(** [w'] is [w] with some more cells blanked, and nothing else changed. *)
Definition only_revealed (w w' : world) : Prop :=
  mines w' = mines w ∧ vvram w' = vvram w
  ∧ ∀ x y m, at2 (mask w) x y = Some m →
      at2 (mask w') x y = Some m
      ∨ (m ≠ blank ∧ at2 (mask w') x y = Some blank).

Definition ok (w0 w : world) : Prop := valid w ∧ only_revealed w0 w.

Definition reached (w : world) (p c : Z * Z) : Prop :=
  Flood.reach xsize ysize covered spreads w p c.
Definition zero_region (w : world) (p q : Z * Z) : Prop :=
  Flood.zero_region xsize ysize spreads w p q.
Definition region_with_border (w : world) (p c : Z * Z) : Prop :=
  Flood.region_with_border xsize ysize spreads w p c.
Definition cells_left (w : world) : nat :=
  Flood.pending xsize ysize covered w.

(** The cells [endcheck] counts: masked by ['#'] or ['@']. *)
Definition counted (w : world) (p : Z * Z) : bool :=
  match at2 (mask w) p.1 p.2 with
  | Some m => Ascii.eqb m "#" || Ascii.eqb m "@"
  | None => false
  end.

(** [endcheck()] *)
Definition endcheck (w : world) : outcome bool :=
  do a0 <- getitem aca 0;
  do a1 <- getitem aca 1;
  do c <- for_ (λ x c,
            for_ (λ y c,
              do m <- get2 (mask w) x y;
              Done (c + (if Ascii.eqb m a0 || Ascii.eqb m a1 then 1 else 0)))
            (range ysize) c)
          (range xsize) 0;
  Done (c =? mines w).

(** The mark after ['#'], ['@'] and ['?'] in [aca], going round. *)
Definition next_mark (m : ascii) : ascii :=
  if Ascii.eqb m "#" then "@"%char
  else if Ascii.eqb m "@" then "?"%char
  else "#"%char.

(** The ['z'] branch of [mainloop], taken when [mask[x][y] != ' ']. *)
Definition toggle (w : world) (x y : Z) : outcome world :=
  do m <- get2 (mask w) x y;
  do i <- index_of aca m;
  do a <- getitem aca ((i + 1) `mod` 3);
  do mk <- set2 (mask w) x y a;
  Done (with_mask w mk).

(** [mainloop()], from cursor [(x, y)]: the returned code with the final
    cursor, globals and console.  Each turn that goes round reads a key. *)
Fixpoint mainloop_from (depth : nat) (pending : list string)
    (x y : Z) (w : world) (log : list string)
  : outcome (Z * (Z * Z) * world * tty) :=
  do won <- endcheck w;
  if won then
    do '(_, t) <- getkey (show_message "You win. hit key" (mkTty pending log));
    Done (0, (x, y), w, t)
  else
    match pending with
    | [] => Raise NoMoreKeys
    | k :: rest =>
        let c := keymap k in
        if String.eqb c "4" then
          mainloop_from depth rest (x - (if negb (x =? 0) then 1 else 0)) y w log
        else if String.eqb c "6" then
          mainloop_from depth rest (x + (if negb (x =? xsize - 1) then 1 else 0)) y w log
        else if String.eqb c "8" then
          mainloop_from depth rest x (y - (if negb (y =? 0) then 1 else 0)) w log
        else if String.eqb c "2" then
          mainloop_from depth rest x (y + (if negb (y =? ysize - 1) then 1 else 0)) w log
        else
          do m <- (if String.eqb c "z" then get2 (mask w) x y else Done blank);
          if String.eqb c "z" && negb (Ascii.eqb m blank) then
            do w <- toggle w x y;
            mainloop_from depth rest x y w log
          else if String.eqb c " " then
            do v <- get2 (vvram w) x y;
            if is_star v then
              do '(_, t) <- getkey (show_message "You lose. hit key" (mkTty rest log));
              Done (-1, (x, y), w, t)
            else
              do w <- reveal depth w x y;
              mainloop_from depth rest x y w log
          else if String.eqb c "q" then Done (1, (x, y), w, mkTty rest log)
          else mainloop_from depth rest x y w log
    end.

Definition mainloop (depth : nat) (w : world) (t : tty)
  : outcome (Z * (Z * Z) * world * tty) :=
  mainloop_from depth (keys t) (xsize `div` 2) (ysize `div` 2) w (shown t).

(** [game()]: the value of [mainloop()] is dropped. *)
Definition game (depth : nat) (w : world) (draws : list (Z * Z)) (t : tty)
  : outcome unit :=
  do '(w, _) <- putmines (mines w) w draws;
  do w <- calcfield w;
  do _ <- mainloop depth w t;
  Done tt.

(** The script: the argument check, then [game()]. *)
Definition startup (argv : list word) : outcome Z :=
  if Z.of_nat (length argv) =? 2 then
    do a <- getitem argv 1;
    do mines <- int a;
    if mines >? 300 then Raise (SystemExit 1 "too many mines")
    else Done mines
  else Done 60.

Definition script (depth : nat) (argv : list word) (draws : list (Z * Z)) (t : tty)
  : outcome unit :=
  do mines <- startup argv;
  game depth (world_init mines) draws t.

(** ** Drawing *)

(** [itod] and [ac], character by character. *)
Definition itod : list string :=
  ["０"; "１"; "２"; "３"; "４"; "５"; "６"; "７"; "８"; "９"]%string.
Definition ac : list string := ["＃"; "＠"; "？"]%string.

(** The drawing code can fail in one more way than the rest: with a
    [TypeError], when a string is compared with an integer or [addstr] is
    given [None]. *)
Inductive drawn (A : Type) : Type :=
| Drawn (a : A)
| TypeError
| Failed (e : exn).
Arguments Drawn {A} a.
Arguments TypeError {A}.
Arguments Failed {A} e.

Definition lift {A : Type} (m : outcome A) : drawn A :=
  match m with
  | Done a => Drawn a
  | Raise e => Failed e
  end.

Definition and_then {A B : Type} (m : drawn A) (k : A → drawn B) : drawn B :=
  match m with
  | Drawn a => k a
  | TypeError => TypeError
  | Failed e => Failed e
  end.

Notation "'render' x <- m ; k" := (and_then m (fun x => k))
  (at level 10, x name, m at level 100, k at level 200).

(** [for a in l: scr = body a scr] in the drawing code. *)
Fixpoint each {A St : Type} (body : A → St → drawn St) (l : list A) (s : St)
  : drawn St :=
  match l with
  | [] => Drawn s
  | a :: l' => render s' <- body a s; each body l' s'
  end.

(** [retchar(x, y)]: the glyph of a cell, [None] when the function falls
    off its end.  On a ['*'] in [vvram] the test [c == 0] is false and
    [c >= 1] raises. *)
Definition retchar (w : world) (x y : Z) : drawn (option string) :=
  render m <- lift (get2 (mask w) x y);
  render a0 <- lift (getitem aca 0);
  if Ascii.eqb m a0 then render s <- lift (getitem ac 0); Drawn (Some s)
  else
    render a1 <- lift (getitem aca 1);
    if Ascii.eqb m a1 then render s <- lift (getitem ac 1); Drawn (Some s)
    else
      render a2 <- lift (getitem aca 2);
      if Ascii.eqb m a2 then render s <- lift (getitem ac 2); Drawn (Some s)
      else
        render c <- lift (get2 (vvram w) x y);
        match c with
        | Int n =>
            if n =? 0 then Drawn (Some "　"%string)
            else if (n >=? 1) && (n <=? 9)
                 then render s <- lift (getitem itod n); Drawn (Some s)
                 else Drawn None
        | Str _ => TypeError
        end.

(** [putchar] and [putcharr]; [addstr] does not take [None]. *)
Definition putchar (x y : Z) (a : option string) (scr : list write)
  : drawn (list write) :=
  match a with
  | Some s => Drawn (addstr y (x * 2) s true scr)
  | None => TypeError
  end.

Definition putcharr (x y : Z) (a : option string) (scr : list write)
  : drawn (list write) :=
  match a with
  | Some s => Drawn (addstr y (x * 2) s false scr)
  | None => TypeError
  end.

(** [drawchar(x, y)] *)
Definition drawchar (w : world) (x y : Z) (scr : list write)
  : drawn (list write) :=
  render a <- retchar w x y;
  putchar x y a scr.

(** [drawscreen()] *)
Definition drawscreen (w : world) (scr : list write) : drawn (list write) :=
  each (λ x scr, each (λ y scr, drawchar w x y scr) (range ysize) scr)
    (range xsize) scr.

(** [cursor(x, y)] *)
Definition cursor (w : world) (x y : Z) (scr : list write)
  : drawn (list write) :=
  render a <- retchar w x y;
  putcharr x y a scr.

(** [printmines()] *)
Definition printmines (w : world) (scr : list write) : drawn (list write) :=
  each (λ x scr,
    each (λ y scr,
      render c <- lift (get2 (vvram w) x y);
      if is_star c then putchar x y (Some "＊"%string) scr
      else
        match c with
        | Int n =>
            if n =? 0 then putchar x y (Some "　"%string) scr
            else if (n >=? 1) && (n <=? 9)
                 then render s <- lift (getitem itod n); putchar x y (Some s) scr
                 else Drawn scr
        | Str _ => TypeError
        end)
    (range ysize) scr)
  (range xsize) scr.

(** What one cell of the field looks like on the screen. *)
Definition drawn_char (w : world) (p : Z * Z) (wr : write) : Prop :=
  w_row wr = p.2 ∧ w_col wr = p.1 * 2 ∧ w_reverse wr = true
  ∧ retchar w p.1 p.2 = Drawn (Some (w_text wr)).

(** ** What play keeps *)

(** Every entry of [mask] is one of ['#'], ['@'], ['?'] and the blank. *)
Definition marks_ok (w : world) : Prop :=
  ∀ x y m, at2 (mask w) x y = Some m → m ∈ blank :: aca.

(** A field in play: both grids of the right size, the counts in place,
    only marks and blanks in [mask], and every mine covered. *)
Definition playable (w : world) : Prop :=
  valid w ∧ counts_ok w ∧ marks_ok w
  ∧ ∀ p, is_mine w p = true → covered w p.1 p.2 = true.

(** The cells marked ['?'], and the covered cells without a mine. *)
Definition questioned (w : world) (p : Z * Z) : bool :=
  match at2 (mask w) p.1 p.2 with
  | Some m => Ascii.eqb m "?"
  | None => false
  end.

Definition covered_safe (w : world) (p : Z * Z) : bool :=
  covered w p.1 p.2 && negb (is_mine w p).

End Minesweeper.

(** ** The two games side by side *)

(** A grid of nyankosweeper without marks and the globals of
    minesweeper.py that show the same field: cell by cell the same
    mine, the same count, and revealed where the mask is blank.  The
    grid has the size of the field of minesweeper.py. *)
Definition mirrors (g : list (list Nyankosweeper.Cell)) (w : Minesweeper.world)
  : Prop :=
  Nyankosweeper.valid Minesweeper.xsize Minesweeper.ysize g
  ∧ Minesweeper.valid w
  ∧ ∀ x y, inb Minesweeper.xsize Minesweeper.ysize x y →
      ∃ c v m,
        at2 g x y = Some c
        ∧ at2 (Minesweeper.vvram w) x y = Some v
        ∧ at2 (Minesweeper.mask w) x y = Some m
        ∧ Nyankosweeper.mark c = 0
        ∧ Nyankosweeper.revealed c = Ascii.eqb m Minesweeper.blank
        ∧ Nyankosweeper.mine c = Minesweeper.is_star v
        ∧ (Nyankosweeper.mine c = false
           → v = Minesweeper.Int (Nyankosweeper.adjacent c)).

(** ** Boards and fields used in the examples *)
Module Plays.

(** [nyankosweeper.py 0]: a board without mines. *)
Definition board_empty : Nyankosweeper.Board :=
  Eval vm_compute in
    match Nyankosweeper.Board_init 0 [] with
    | Done b => b
    | Raise _ => Nyankosweeper.mkBoard 0 0 0 []
    end.

(** The same board with a flag on (20, 11). *)
Definition board_flagged : Nyankosweeper.Board :=
  Eval vm_compute in
    match Nyankosweeper.toggle_mark board_empty 20 11 with
    | Done b => b
    | Raise _ => Nyankosweeper.mkBoard 0 0 0 []
    end.

(** [nyankosweeper.py 1], the mine drawn at (20, 11), where the cursor
    starts. *)
Definition game_centre : Nyankosweeper.Game :=
  Eval vm_compute in
    match Nyankosweeper.Game_init 1 [(20, 11)] with
    | Done g => g
    | Raise _ => Nyankosweeper.mkGame (Nyankosweeper.mkBoard 0 0 0 []) 0 0 false
    end.

(** [nyankosweeper.py 0] at its start, and after the reveal key there:
    every cell is revealed. *)
Definition game_empty : Nyankosweeper.Game :=
  Nyankosweeper.mkGame board_empty 20 11 false.

Definition game_cleared : Nyankosweeper.Game :=
  Eval vm_compute in
    match Nyankosweeper.handle_key 1000 game_empty " " (mkTty [] []) with
    | Done (_, g, _) => g
    | Raise _ => game_empty
    end.

(** [nyankosweeper.py 1] lost at once: the reveal key on the mine under
    the cursor, one more key, then ['q']. *)
Definition game_lost : Nyankosweeper.Game :=
  Eval vm_compute in
    match Nyankosweeper.Game_run 1000 game_centre
            (mkTty [" "; "x"; "q"]%string []) with
    | Done (_, g, _) => g
    | Raise _ => game_centre
    end.

(** [nyankosweeper.py 1] with the mine at (20, 11): two steps to the
    left and the reveal key there, which clears the board; the game is
    won, and the last key ends it. *)
Definition game_played : Nyankosweeper.Game :=
  Eval vm_compute in
    match Nyankosweeper.Game_run 1000 game_centre
            (mkTty ["4"; "4"; " "; "q"]%string []) with
    | Done (_, g, _) => g
    | Raise _ => game_centre
    end.

(** The start of [nyankosweeper.py 0] with a mine hidden under (0, 0). *)
Definition game_hidden_mine : Nyankosweeper.Game :=
  Nyankosweeper.mkGame
    (Nyankosweeper.with_grid board_empty
       (put2 (Nyankosweeper.grid board_empty) 0 0
          (Nyankosweeper.mkCell true false 0 0)))
    20 11 false.

(** The globals of [minesweeper.py n] after [putmines] and [calcfield],
    for the given draws. *)
Definition field_of (n : Z) (draws : list (Z * Z)) : Minesweeper.world :=
  match Minesweeper.putmines n (Minesweeper.world_init n) draws with
  | Done (w, _) =>
      match Minesweeper.calcfield w with
      | Done w' => w'
      | Raise _ => Minesweeper.world_init n
      end
  | Raise _ => Minesweeper.world_init n
  end.

(** [minesweeper.py 1], the mine at (20, 11), where the cursor starts. *)
Definition field_centre : Minesweeper.world :=
  Eval vm_compute in field_of 1 [(20, 11)].

(** [minesweeper.py 1], the mine at (0, 0). *)
Definition field_origin : Minesweeper.world :=
  Eval vm_compute in field_of 1 [(0, 0)].

(** [minesweeper.py 2], the mines at (0, 1) and (1, 0): the corner (0, 0)
    has no zero cell next to it. *)
Definition field_corner : Minesweeper.world :=
  Eval vm_compute in field_of 2 [(0, 1); (1, 0)].

(** Reveal at the start, walk to the corner (0, 0), mark it ['?'] and hit
    one more key. *)
Definition keys_corner : list string :=
  [" "] ++ replicate 20 "4" ++ replicate 11 "8" ++ ["z"; "z"; "x"].

End Plays.


(** * Proofs *)

(** * Python lists and grids *)

Lemma getitem_nonneg {A : Type} (l : list A) (i : Z) :
  0 ≤ i →
  getitem l i = match l !! Z.to_nat i with Some a => Done a | None => Raise IndexError end.
Proof.
  intros Hi. unfold getitem, subscript.
  destruct (Z.ltb_spec i 0) as [|_]; [lia|].
  destruct (Z.leb_spec 0 i) as [_|]; [|lia].
  destruct (Z.ltb_spec i (Z.of_nat (length l))) as [Hlt|Hge]; simpl.
  - destruct (l !! Z.to_nat i) eqn:E; [done|].
    apply lookup_ge_None in E. lia.
  - rewrite (proj2 (lookup_ge_None l (Z.to_nat i))); [done|lia].
Qed.

Lemma setitem_nonneg {A : Type} (l : list A) (i : Z) (v : A) :
  0 ≤ i →
  setitem l i v = match l !! Z.to_nat i with
                  | Some _ => Done (<[Z.to_nat i := v]> l)
                  | None => Raise IndexError
                  end.
Proof.
  intros Hi. unfold setitem, subscript.
  destruct (Z.ltb_spec i 0) as [|_]; [lia|].
  destruct (Z.leb_spec 0 i) as [_|]; [|lia].
  destruct (Z.ltb_spec i (Z.of_nat (length l))) as [Hlt|Hge]; simpl.
  - destruct (l !! Z.to_nat i) eqn:E; [done|].
    apply lookup_ge_None in E. lia.
  - rewrite (proj2 (lookup_ge_None l (Z.to_nat i))); [done|lia].
Qed.

Lemma at2_nonneg {A : Type} (g : list (list A)) (x y : Z) :
  0 ≤ x → 0 ≤ y →
  at2 g x y = match g !! Z.to_nat x with Some col => col !! Z.to_nat y | None => None end.
Proof.
  intros Hx Hy. unfold at2.
  destruct (Z.leb_spec 0 x); [|lia]. destruct (Z.leb_spec 0 y); [|lia]. done.
Qed.

Lemma get2_nonneg {A : Type} (g : list (list A)) (x y : Z) :
  0 ≤ x → 0 ≤ y →
  get2 g x y = match at2 g x y with Some c => Done c | None => Raise IndexError end.
Proof.
  intros Hx Hy. unfold get2. rewrite at2_nonneg, getitem_nonneg by done.
  destruct (g !! Z.to_nat x) as [col|]; simpl; [|done].
  by rewrite getitem_nonneg.
Qed.

Lemma set2_nonneg {A : Type} (g : list (list A)) (x y : Z) (v : A) :
  0 ≤ x → 0 ≤ y →
  set2 g x y v = match at2 g x y with
                 | Some _ => Done (put2 g x y v)
                 | None => Raise IndexError
                 end.
Proof.
  intros Hx Hy. unfold set2, put2. rewrite at2_nonneg, getitem_nonneg by done.
  destruct (g !! Z.to_nat x) as [col|] eqn:Ecol; simpl; [|done].
  rewrite setitem_nonneg by done.
  destruct (col !! Z.to_nat y) eqn:Ey; simpl; [|done].
  rewrite setitem_nonneg, Ecol by done. f_equal.
  apply list_eq. intros i. destruct (decide (i = Z.to_nat x)) as [->|Hne].
  - rewrite list_lookup_insert_eq by (by eapply lookup_lt_Some).
    by rewrite list_lookup_alter_eq, Ecol.
  - by rewrite list_lookup_insert_ne, list_lookup_alter_ne.
Qed.

Lemma at2_is_Some {A : Type} (w h : Z) (g : list (list A)) (x y : Z) :
  rect w h g → inb w h x y → is_Some (at2 g x y).
Proof.
  intros [Hw Hh] [Hx Hy]. rewrite at2_nonneg by lia.
  destruct (g !! Z.to_nat x) as [col|] eqn:Ecol.
  - apply lookup_lt_is_Some.
    rewrite Forall_lookup in Hh. specialize (Hh _ _ Ecol). simpl in Hh. lia.
  - apply lookup_ge_None in Ecol. lia.
Qed.

Lemma at2_inb {A : Type} (w h : Z) (g : list (list A)) (x y : Z) (c : A) :
  rect w h g → at2 g x y = Some c → inb w h x y.
Proof.
  intros [Hw Hh] Hat. unfold at2 in Hat.
  destruct (Z.leb_spec 0 x); [|done]. destruct (Z.leb_spec 0 y); [|done].
  simpl in Hat. destruct (g !! Z.to_nat x) as [col|] eqn:Ecol; [|done].
  rewrite Forall_lookup in Hh. specialize (Hh _ _ Ecol). simpl in Hh.
  apply lookup_lt_Some in Ecol, Hat. unfold inb. lia.
Qed.

Lemma rect_put2 {A : Type} (w h : Z) (g : list (list A)) (x y : Z) (v : A) :
  rect w h g → rect w h (put2 g x y v).
Proof.
  intros [Hw Hh]. unfold put2. split.
  - by rewrite length_alter.
  - rewrite Forall_lookup in Hh. apply Forall_lookup. intros i col Hi.
    destruct (decide (i = Z.to_nat x)) as [->|Hne].
    + rewrite list_lookup_alter_eq in Hi.
      destruct (g !! Z.to_nat x) as [col0|] eqn:E; simplify_eq/=.
      rewrite length_insert. by eapply Hh.
    + rewrite list_lookup_alter_ne in Hi by done. by eapply Hh.
Qed.

Lemma at2_put2_eq {A : Type} (g : list (list A)) (x y : Z) (v c : A) :
  at2 g x y = Some c → at2 (put2 g x y v) x y = Some v.
Proof.
  unfold at2, put2. destruct ((0 <=? x) && (0 <=? y)); [|done].
  rewrite list_lookup_alter_eq.
  destruct (g !! Z.to_nat x) as [col|]; simpl; [|done].
  intros Hc. apply list_lookup_insert_eq. by eapply lookup_lt_Some.
Qed.

Lemma at2_put2_ne {A : Type} (g : list (list A)) (x y x' y' : Z) (v : A) :
  0 ≤ x → 0 ≤ y → (x, y) ≠ (x', y') →
  at2 (put2 g x y v) x' y' = at2 g x' y'.
Proof.
  intros Hx Hy Hne. unfold at2, put2.
  destruct (Z.leb_spec 0 x'); [|done]. destruct (Z.leb_spec 0 y'); [|done]. simpl.
  destruct (decide (Z.to_nat x = Z.to_nat x')) as [E|E].
  - rewrite <- E, list_lookup_alter_eq.
    destruct (g !! Z.to_nat x) as [col|]; simpl; [|done].
    apply list_lookup_insert_ne. intros E'.
    apply Hne. f_equal; lia.
  - by rewrite list_lookup_alter_ne.
Qed.

Lemma rect_fresh_grid {A : Type} (w h : Z) (v : A) :
  0 ≤ w → 0 ≤ h → rect w h (fresh_grid w h v).
Proof.
  intros Hw Hh. unfold fresh_grid. split.
  - rewrite length_replicate. lia.
  - apply Forall_replicate. rewrite length_replicate. lia.
Qed.

Lemma at2_fresh_grid {A : Type} (w h : Z) (v : A) (x y : Z) :
  inb w h x y → at2 (fresh_grid w h v) x y = Some v.
Proof.
  intros [Hx Hy]. rewrite at2_nonneg by lia. unfold fresh_grid.
  rewrite lookup_replicate_2 by lia. apply lookup_replicate_2. lia.
Qed.

(** * Loops *)

(** A loop whose turns all succeed and keep an invariant. *)
Lemma for_invariant {A St : Type} (body : A → St → outcome St)
    (I : list A → St → Prop) (l : list A) (s : St) :
  I [] s →
  (∀ pre a post s1, l = pre ++ a :: post → I pre s1 →
     ∃ s2, body a s1 = Done s2 ∧ I (pre ++ [a]) s2) →
  ∃ s', for_ body l s = Done s' ∧ I l s'.
Proof.
  intros H0 Hstep.
  assert (∀ post pre s1, l = pre ++ post → I pre s1 →
            ∃ s', for_ body post s1 = Done s' ∧ I l s') as Hgen.
  { induction post as [|a post IH]; intros pre s1 El Hpre; simpl.
    - exists s1. rewrite app_nil_r in El. by subst.
    - destruct (Hstep pre a post s1 El Hpre) as (s2 & -> & H2).
      apply (IH (pre ++ [a])); [|done]. by rewrite <- app_assoc. }
  by apply (Hgen l []).
Qed.

Lemma for_app {A St : Type} (body : A → St → outcome St) (l1 l2 : list A) (s : St) :
  for_ body (l1 ++ l2) s = do s1 <- for_ body l1 s; for_ body l2 s1.
Proof.
  revert s. induction l1 as [|a l1 IH]; intros s; simpl; [done|].
  destruct (body a s); simpl; [apply IH|done].
Qed.

Lemma for_ext {A St : Type} (f g : A → St → outcome St) (l : list A) (s : St) :
  (∀ a s, a ∈ l → f a s = g a s) → for_ f l s = for_ g l s.
Proof.
  revert s. induction l as [|a l IH]; intros s Hfg; simpl; [done|].
  rewrite Hfg by left. destruct (g a s); [|done].
  apply IH. intros. apply Hfg. by right.
Qed.

(** A loop on [St] that mirrors, through [φ], a loop on [T] whose states
    satisfy [P]. *)
Lemma for_mirror {A St T : Type} (φ : T → St) (P : T → Prop)
    (f : A → St → outcome St) (g : A → T → outcome T) (l : list A) (t : T) :
  P t →
  (∀ a t, a ∈ l → P t →
     f a (φ t) = (do t' <- g a t; Done (φ t')) ∧ ∀ t', g a t = Done t' → P t') →
  for_ f l (φ t) = (do t' <- for_ g l t; Done (φ t'))
  ∧ ∀ t', for_ g l t = Done t' → P t'.
Proof.
  revert t. induction l as [|a l IH]; intros t Ht Hfg; simpl.
  - split; [done|]. by intros ? [= <-].
  - destruct (Hfg a t) as [-> Hpres]; [left|done|].
    destruct (g a t) as [t1|e]; simpl; [|done].
    apply IH; [by apply Hpres|]. intros. apply Hfg; [by right|done].
Qed.

(** Two loops that agree on the states satisfying [P]. *)
Lemma for_agree {A St : Type} (P : St → Prop)
    (f g : A → St → outcome St) (l : list A) (s : St) :
  P s →
  (∀ a s, a ∈ l → P s → f a s = g a s ∧ ∀ s', g a s = Done s' → P s') →
  for_ f l s = for_ g l s ∧ ∀ s', for_ g l s = Done s' → P s'.
Proof.
  revert s. induction l as [|a l IH]; intros s Hs Hfg; simpl.
  - split; [done|]. by intros ? [= <-].
  - destruct (Hfg a s) as [-> Hpres]; [left|done|].
    destruct (g a s) as [s1|e]; [|done].
    apply IH; [by apply Hpres|]. intros. apply Hfg; [by right|done].
Qed.

(** Two nested loops are one loop over the pairs. *)
Lemma for_nested {A B St : Type} (body : A → B → St → outcome St)
    (la : list A) (lb : list B) (s : St) :
  for_ (λ a s, for_ (body a) lb s) la s
  = for_ (λ p s, body p.1 p.2 s) (a ← la; (λ b, (a, b)) <$> lb) s.
Proof.
  revert s. induction la as [|a la IH]; intros s; simpl; [done|].
  rewrite for_app.
  assert (∀ s, for_ (λ p s, body p.1 p.2 s) ((λ b, (a, b)) <$> lb) s
               = for_ (body a) lb s) as ->.
  { clear. induction lb as [|b lb IH]; intros s; simpl; [done|].
    destruct (body a b s); [apply IH|done]. }
  destruct (for_ (body a) lb s); simpl; [apply IH|done].
Qed.

Lemma range2_block : range2 (-1) 2 = [-1; 0; 1].
Proof. reflexivity. Qed.

Lemma elem_of_cells (w h x y : Z) : (x, y) ∈ cells w h ↔ inb w h x y.
Proof.
  unfold cells, range, inb. rewrite list_elem_of_bind. split.
  - intros (x' & Hy & Hx). apply list_elem_of_fmap in Hy as (y' & ? & Hy).
    simplify_eq. apply elem_of_seqZ in Hx, Hy. lia.
  - intros [Hx Hy]. exists x. split.
    + apply list_elem_of_fmap. exists y. split; [done|]. apply elem_of_seqZ. lia.
    + apply elem_of_seqZ. lia.
Qed.

Lemma NoDup_cells (w h : Z) : NoDup (cells w h).
Proof.
  unfold cells, range. apply NoDup_bind.
  - intros x1 x2 p _ _ H1 H2.
    apply list_elem_of_fmap in H1 as (? & -> & _).
    apply list_elem_of_fmap in H2 as (? & ? & _). by simplify_eq.
  - intros x _. apply NoDup_fmap_2; [|apply NoDup_seqZ].
    intros ???. by simplify_eq.
  - apply NoDup_seqZ.
Qed.

Lemma length_cells (w h : Z) : 0 ≤ w → 0 ≤ h → Z.of_nat (length (cells w h)) = w * h.
Proof.
  intros Hw Hh. unfold cells, range.
  assert (∀ l : list Z, length (x ← l; (λ y, (x, y)) <$> seqZ 0 h)
                        = (length l * Z.to_nat h)%nat) as ->.
  { induction l as [|a l IH]; csimpl; [done|].
    rewrite length_app, length_fmap, length_seqZ, IH. done. }
  rewrite length_seqZ. lia.
Qed.

Lemma inbb_inb (w h x y : Z) : inbb w h x y = true ↔ inb w h x y.
Proof. unfold inbb, inb. rewrite !andb_true_iff. lia. Qed.

(** * Counting *)

Lemma filter_length_S {A : Type} `{!EqDecision A} (P Q : A → Prop)
    `{!∀ x, Decision (P x)} `{!∀ x, Decision (Q x)} (l : list A) (a : A) :
  NoDup l → a ∈ l → ¬ P a → Q a →
  (∀ x, x ∈ l → x ≠ a → (Q x ↔ P x)) →
  length (filter Q l) = S (length (filter P l)).
Proof.
  intros Hnd Ha HPa HQa Hsame.
  change (S (length (filter P l))) with (length (a :: filter P l)).
  apply Permutation_length, NoDup_Permutation.
  - by apply NoDup_filter.
  - apply NoDup_cons. split; [|by apply NoDup_filter].
    rewrite list_elem_of_filter. tauto.
  - intros x. rewrite elem_of_cons, !list_elem_of_filter.
    destruct (decide (x = a)) as [->|Hne]; [tauto|].
    split.
    + intros [HQ Hx]. right. split; [|done]. by apply Hsame.
    + intros [?|[HP Hx]]; [done|]. split; [|done]. by apply Hsame.
Qed.

Lemma filter_ne_length {A : Type} `{!EqDecision A} (l : list A) (a : A) :
  NoDup l → (length l ≤ S (length (filter (λ x, x ≠ a) l)))%nat.
Proof.
  induction 1 as [|x l Hx Hnd IH]; [simpl; lia|].
  rewrite filter_cons. destruct (decide (x ≠ a)) as [Hne|Heq]; simpl; [lia|].
  apply dec_stable in Heq as ->.
  assert (filter (λ x, x ≠ a) l = l) as ->; [|lia].
  clear IH Hnd. induction l as [|y l IH]; [done|].
  apply not_elem_of_cons in Hx as [Hne Hx].
  rewrite filter_cons, decide_True by done. f_equal. by apply IH.
Qed.

Lemma filter_none {A : Type} (P : A → Prop) `{!∀ x, Decision (P x)} (l : list A) :
  (∀ x, x ∈ l → ¬ P x) → filter P l = [].
Proof.
  induction l as [|a l IH]; intros Hno; [done|].
  rewrite filter_cons, decide_False by (apply Hno; left).
  apply IH. intros. apply Hno. by right.
Qed.

(** A loop that adds one for every element passing a test. *)
Lemma for_count {A : Type} (test : A → bool) (body : A → Z → outcome Z)
    (l : list A) (n : Z) :
  (∀ a n, a ∈ l → body a n = Done (n + (if test a then 1 else 0))) →
  for_ body l n = Done (n + Z.of_nat (length (filter (λ a, test a = true) l))).
Proof.
  revert n. induction l as [|a l IH]; intros n Hbody; simpl.
  - f_equal. lia.
  - rewrite Hbody by left. rewrite IH by (intros; apply Hbody; by right).
    rewrite filter_cons. f_equal.
    destruct (test a); [rewrite decide_True by done|rewrite decide_False by done];
      simpl; lia.
Qed.

Lemma NoDup_block : NoDup block.
Proof.
  unfold block, range2. apply NoDup_bind.
  - intros x1 x2 p _ _ H1 H2.
    apply list_elem_of_fmap in H1 as (? & -> & _).
    apply list_elem_of_fmap in H2 as (? & ? & _). by simplify_eq.
  - intros x _. apply NoDup_fmap_2; [|apply NoDup_seqZ].
    intros ???. by simplify_eq.
  - apply NoDup_seqZ.
Qed.

Lemma elem_of_block (d : Z * Z) : d ∈ block ↔ -1 ≤ d.1 ≤ 1 ∧ -1 ≤ d.2 ≤ 1.
Proof.
  destruct d as [dx dy]. unfold block, range2. rewrite list_elem_of_bind.
  cbn [fst snd]. split.
  - intros (x & Hy & Hx). apply list_elem_of_fmap in Hy as (y & ? & Hy).
    simplify_eq. apply elem_of_seqZ in Hx, Hy. lia.
  - intros [Hx Hy]. exists dx. split.
    + apply list_elem_of_fmap. exists dy. split; [done|]. apply elem_of_seqZ. lia.
    + apply elem_of_seqZ. lia.
Qed.

(** Counting over the neighbours is counting over the eight offsets that
    stay on the board. *)
Lemma neighbours_block (w h : Z) (f : Z * Z → bool) (p : Z * Z) :
  length (filter (λ q, f q = true) (neighbours w h p))
  = length (filter (λ d : Z * Z,
              (negb (d.1 =? 0) || negb (d.2 =? 0))
              && inbb w h (p.1 + d.1) (p.2 + d.2)
              && f (p.1 + d.1, p.2 + d.2) = true) block).
Proof.
  rewrite <- (length_fmap (λ d : Z * Z, (p.1 + d.1, p.2 + d.2))
                (filter _ block)).
  apply Permutation_length, NoDup_Permutation.
  - apply NoDup_filter, NoDup_filter, NoDup_cells.
  - apply NoDup_fmap_2; [|apply NoDup_filter, NoDup_block].
    intros [a b] [a' b'] [=]. f_equal; lia.
  - intros [qx qy]. unfold neighbours.
    rewrite list_elem_of_fmap, !list_elem_of_filter, elem_of_cells.
    setoid_rewrite list_elem_of_filter. setoid_rewrite elem_of_block.
    setoid_rewrite andb_true_iff. setoid_rewrite andb_true_iff.
    setoid_rewrite orb_true_iff. setoid_rewrite negb_true_iff.
    setoid_rewrite Z.eqb_neq. setoid_rewrite inbb_inb.
    unfold cheb, inb. destruct p as [px py]. simpl. split.
    + intros (Hf & Hd & Hin). exists (qx - px, qy - py). simpl.
      replace (px + (qx - px)) with qx by lia.
      replace (py + (qy - py)) with qy by lia. split_and!; try done; lia.
    + intros ([dx dy] & [= -> ->] & ((Hnz & Hin) & Hf) & Hd). simpl in *.
      split_and!; try done; lia.
Qed.

(** * Writing a grid twice, or writing back what was read *)

Lemma put2_put2 {A : Type} (g : list (list A)) (x y : Z) (a b : A) :
  put2 (put2 g x y a) x y b = put2 g x y b.
Proof.
  unfold put2. rewrite list_alter_alter_eq. apply list_alter_ext; [|done].
  intros col _. simpl. apply list_insert_insert_eq.
Qed.

Lemma put2_same {A : Type} (g : list (list A)) (x y : Z) (c : A) :
  at2 g x y = Some c → put2 g x y c = g.
Proof.
  unfold at2, put2. destruct ((0 <=? x) && (0 <=? y)); [|done].
  destruct (g !! Z.to_nat x) as [col|] eqn:Ecol; [|done]. intros Hc.
  rewrite <- (list_alter_id id g (Z.to_nat x)) at 2 by done.
  apply list_alter_ext; [|done].
  intros col' Hcol'. rewrite Ecol in Hcol'. injection Hcol' as <-.
  by apply list_insert_id.
Qed.

(** [at2] reaches every element of the grid. *)
Lemma at2_of_nat {A : Type} (g : list (list A)) (i j : nat) :
  at2 g (Z.of_nat i) (Z.of_nat j) = g !! i ≫= (.!! j).
Proof.
  rewrite at2_nonneg, !Nat2Z.id by lia. by destruct (g !! i).
Qed.

(** Draws that bring [n] different cells exist as long as the board has
    that many cells. *)
Lemma draws_exist (w h n : Z) :
  0 ≤ w → 0 ≤ h → 0 ≤ n ≤ w * h →
  ∃ draws : list (Z * Z),
    Forall (λ p, inb w h p.1 p.2) draws ∧ NoDup draws
    ∧ Z.of_nat (length draws) = n.
Proof.
  intros Hw Hh Hn. exists (take (Z.to_nat n) (cells w h)). split_and!.
  - apply Forall_take, Forall_forall. intros [x y] Hp. by apply elem_of_cells.
  - eapply sublist_NoDup; [apply NoDup_cells|apply sublist_take].
  - rewrite length_take_le; [lia|].
    pose proof (length_cells w h Hw Hh). lia.
Qed.

(** * The flood scheme *)

Lemma filter_length_le {A : Type} (P Q : A → Prop)
    `{!∀ x, Decision (P x)} `{!∀ x, Decision (Q x)} (l : list A) :
  (∀ x, x ∈ l → Q x → P x) →
  (length (filter Q l) ≤ length (filter P l))%nat.
Proof.
  induction l as [|x l IH]; intros HQP; [done|].
  rewrite !filter_cons.
  assert (length (filter Q l) ≤ length (filter P l))%nat
    by (apply IH; intros; apply HQP; [by right|done]).
  destruct (decide (Q x)) as [HQ|HQ].
  - rewrite decide_True by (apply HQP; [left|done]). simpl. lia.
  - destruct (decide (P x)); simpl; lia.
Qed.

Lemma filter_length_lt {A : Type} (P Q : A → Prop)
    `{!∀ x, Decision (P x)} `{!∀ x, Decision (Q x)} (l : list A) (a : A) :
  (∀ x, x ∈ l → Q x → P x) → a ∈ l → P a → ¬ Q a →
  (length (filter Q l) < length (filter P l))%nat.
Proof.
  intros HQP Ha HPa HQa.
  induction l as [|x l IH]; [by apply elem_of_nil in Ha|].
  rewrite !filter_cons. apply elem_of_cons in Ha as [<-|Ha].
  - rewrite decide_False, decide_True by done. simpl.
    assert (length (filter Q l) ≤ length (filter P l))%nat; [|lia].
    apply filter_length_le. intros; apply HQP; [by right|done].
  - assert (length (filter Q l) < length (filter P l))%nat
      by (apply IH; [intros; apply HQP; [by right|done]|done]).
    destruct (decide (Q x)) as [HQ|HQ].
    + rewrite decide_True by (apply HQP; [left|done]). simpl. lia.
    + destruct (decide (P x)); simpl; lia.
Qed.

Lemma near_block (w h : Z) (p q : Z * Z) :
  Flood.near w h p q ↔
  ∃ d, d ∈ block ∧ q = (p.1 + d.1, p.2 + d.2) ∧ inb w h q.1 q.2.
Proof.
  destruct p as [x y], q as [x' y']. unfold Flood.near, cheb. simpl. split.
  - intros [Hin Hd]. exists (x' - x, y' - y). simpl. split_and!; [|f_equal; lia|done].
    assert (x' - x = -1 ∨ x' - x = 0 ∨ x' - x = 1) as Hx by lia.
    assert (y' - y = -1 ∨ y' - y = 0 ∨ y' - y = 1) as Hy by lia.
    destruct Hx as [->|[->| ->]], Hy as [->|[->| ->]];
      apply list_elem_of_In; vm_compute; tauto.
  - intros ([dx dy] & Hd & ? & Hin). simplify_eq/=. split; [done|].
    assert (-1 ≤ dx ≤ 1 ∧ -1 ≤ dy ≤ 1) as [??]; [|lia].
    unfold block, range2 in Hd. apply list_elem_of_bind in Hd as (a & Hd & Ha).
    apply list_elem_of_fmap in Hd as (b & ? & Hb). simplify_eq.
    apply elem_of_seqZ in Ha, Hb. lia.
Qed.

Module FloodFacts.
Section Laws.
Context {St : Type}.
Variables w h : Z.
Variable covered : St → Z → Z → bool.
Variable spreads : St → Z → Z → bool.
Variable uncover : St → Z → Z → St.
Variable ok : St → Prop.

Hypothesis ok_uncover : ∀ s x y,
    ok s → inb w h x y → covered s x y = true → ok (uncover s x y).
Hypothesis covered_uncover : ∀ s x y x' y',
    ok s → inb w h x y → inb w h x' y' →
    covered (uncover s x y) x' y'
    = covered s x' y' && negb ((x =? x') && (y =? y')).
Hypothesis spreads_uncover : ∀ s x y x' y',
    ok s → inb w h x y → inb w h x' y' →
    spreads (uncover s x y) x' y' = spreads s x' y'.

Abbreviation flood := (Flood.flood w h covered spreads uncover).
Abbreviation reach := (Flood.reach w h covered spreads).
Abbreviation near := (Flood.near w h).
Abbreviation pending := (Flood.pending w h covered).
Abbreviation zero_region := (Flood.zero_region w h spreads).
Abbreviation region_with_border := (Flood.region_with_border w h spreads).
Abbreviation later := (Flood.later w h covered spreads).
Abbreviation flooded := (Flood.flooded w h covered spreads ok).

Lemma later_refl s : later s s.
  Proof. by intros x y _. Qed.

Lemma later_trans s1 s2 s3 : later s1 s2 → later s2 s3 → later s1 s3.
  Proof.
    intros H12 H23 x y Hin. destruct (H12 x y Hin), (H23 x y Hin).
    split; [auto|congruence].
  Qed.

Lemma later_uncover s x y : ok s → inb w h x y → later s (uncover s x y).
  Proof.
    intros Hok Hin x' y' Hin'. split.
    - rewrite covered_uncover by done. by intros [? _]%andb_true_iff.
    - by apply spreads_uncover.
  Qed.

Lemma pending_later s s' : later s s' → (pending s' ≤ pending s)%nat.
  Proof.
    intros Hl. apply filter_length_le. intros [x y] Hin%elem_of_cells.
    by apply Hl.
  Qed.

Lemma pending_uncover s x y :
    ok s → inb w h x y → covered s x y = true →
    (pending (uncover s x y) < pending s)%nat.
  Proof.
    intros Hok Hin Hc.
    apply (filter_length_lt _ _ _ (x, y)); simpl.
    - intros [x' y'] Hin'%elem_of_cells. by apply later_uncover.
    - by apply elem_of_cells.
    - done.
    - rewrite covered_uncover by done. rewrite !Z.eqb_refl, andb_false_r. done.
  Qed.

Lemma pending_le_cells s : (pending s ≤ length (cells w h))%nat.
  Proof. apply length_filter. Qed.

Lemma reach_later s s' p c : later s s' → reach s' p c → reach s p c.
  Proof.
    intros Hl. induction 1 as [p Hin Hc|p q r Hin Hc Hz Hn _ IH].
    - apply Flood.reach_here; [done|]. by apply Hl.
    - destruct (Hl _ _ Hin) as [Hl1 Hl2].
      eapply Flood.reach_step; eauto; congruence.
  Qed.

Lemma reach_inb s p c : reach s p c → inb w h c.1 c.2.
  Proof. by induction 1. Qed.

Lemma reach_covered s p c : reach s p c → covered s c.1 c.2 = true.
  Proof. by induction 1. Qed.

Lemma flood_block (depth : nat) (s : St) (x y : Z) :
    for_ (λ dx s,
      for_ (λ dy s,
        if inbb w h (x + dx) (y + dy)
        then flood depth s (x + dx) (y + dy) else Done s)
      (range2 (-1) 2) s) (range2 (-1) 2) s
    = for_ (λ d s,
        if inbb w h (x + d.1) (y + d.2)
        then flood depth s (x + d.1) (y + d.2) else Done s) block s.
  Proof.
    exact (for_nested (λ dx dy s, if inbb w h (x + dx) (y + dy)
                                  then flood depth s (x + dx) (y + dy) else Done s)
             (range2 (-1) 2) (range2 (-1) 2) s).
  Qed.

Lemma flood_step (depth : nat) (s : St) (x y : Z) :
    flood (S depth) s x y
    = if covered s x y then
        if spreads s x y then
          for_ (λ d s,
            if inbb w h (x + d.1) (y + d.2)
            then flood depth s (x + d.1) (y + d.2) else Done s)
          block (uncover s x y)
        else Done (uncover s x y)
      else Done s.
  Proof.
    rewrite <- flood_block. reflexivity.
  Qed.

Lemma covered_false_later s s' x y :
    later s s' → inb w h x y → covered s x y = false → covered s' x y = false.
  Proof.
    intros Hl Hin Hc. destruct (covered s' x y) eqn:E; [|done].
    apply Hl in E; [congruence|done].
  Qed.

Theorem flood_returns (depth : nat) : ∀ s x y,
    ok s → inb w h x y → (pending s < depth)%nat →
    ∃ s', flood depth s x y = Done s' ∧ flooded s (x, y) s'.
  Proof.
    induction depth as [|depth IH]; intros s x y Hok Hin Hfuel; [lia|].
    rewrite flood_step. destruct (covered s x y) eqn:Hc; cycle 1.
    { exists s. split; [done|].
      split; simpl; first [done | congruence | apply later_refl]. }
    pose proof (ok_uncover _ _ _ Hok Hin Hc) as Hok1.
    pose proof (later_uncover _ _ _ Hok Hin) as Hl1.
    pose proof (pending_uncover _ _ _ Hok Hin Hc) as Hp1.
    assert (covered (uncover s x y) x y = false) as Hc1.
    { rewrite covered_uncover, !Z.eqb_refl, andb_false_r by done. done. }
    assert (∀ c, inb w h c.1 c.2 → covered s c.1 c.2 = true →
              covered (uncover s x y) c.1 c.2 = false → c = (x, y)) as Hone.
    { intros [cx cy] Hinc Hcc. simpl in *. rewrite covered_uncover, Hcc by done.
      simpl. intros [Hx Hy]%negb_false_iff%andb_true_iff.
      f_equal; lia. }
    destruct (spreads s x y) eqn:Hz; cycle 1.
    { exists (uncover s x y). split; [done|]. split; simpl; try done.
      - intros c Hinc Hcc Hcc'. rewrite (Hone c Hinc Hcc Hcc').
        by apply Flood.reach_here.
      - intros c q Hinc Hcc Hcc' Hzc. rewrite (Hone c Hinc Hcc Hcc') in Hzc.
        simpl in Hzc. congruence. }
    set (s1 := uncover s x y) in *.
    destruct (for_invariant
      (λ d s, if inbb w h (x + d.1) (y + d.2)
              then flood depth s (x + d.1) (y + d.2) else Done s)
      (λ pre s2,
         ok s2 ∧ later s1 s2
         ∧ (∀ d, d ∈ pre → inb w h (x + d.1) (y + d.2) →
              covered s2 (x + d.1) (y + d.2) = false)
         ∧ (∀ c, inb w h c.1 c.2 → covered s1 c.1 c.2 = true →
              covered s2 c.1 c.2 = false → ∃ q, near (x, y) q ∧ reach s1 q c)
         ∧ (∀ c q, inb w h c.1 c.2 → covered s1 c.1 c.2 = true →
              covered s2 c.1 c.2 = false → spreads s1 c.1 c.2 = true →
              near c q → covered s2 q.1 q.2 = false))
      block s1) as (s' & Hrun & Hok' & Hl' & Hdone & Hsound & Hclosed).
    { split_and!; [done|apply later_refl|..].
      - intros d Hd. by apply elem_of_nil in Hd.
      - intros; congruence.
      - intros; congruence. }
    { intros pre d post s2 Hblock (Hok2 & Hl2 & Hdone & Hsound & Hclosed).
      destruct (inbb w h (x + d.1) (y + d.2)) eqn:Hind.
      - apply inbb_inb in Hind.
        destruct (IH s2 (x + d.1) (y + d.2) Hok2 Hind) as (s3 & Hrun & H3).
        { pose proof (pending_later _ _ Hl2). lia. }
        destruct H3 as [Hok3 Hl3 Hhere3 Hsound3 Hclosed3]. simpl in *.
        exists s3. split; [done|].
        pose proof (later_trans _ _ _ Hl2 Hl3) as Hl13.
        split_and!; [done|done|..].
        + intros d' [Hd'| ->%list_elem_of_singleton]%elem_of_app Hind'; [|done].
          apply (covered_false_later s2 s3); [done|done|by apply Hdone].
        + intros c Hinc Hc1c Hc3c.
          destruct (covered s2 c.1 c.2) eqn:Hc2c; [|by apply Hsound].
          exists (x + d.1, y + d.2). split.
          * apply near_block. exists d. simpl. split_and!; try done.
            rewrite Hblock. apply elem_of_app. right. left.
          * eapply reach_later; [exact Hl2|]. by apply Hsound3.
        + intros c q Hinc Hc1c Hc3c Hzc Hn.
          destruct (covered s2 c.1 c.2) eqn:Hc2c.
          * apply (Hclosed3 c q); try done.
            destruct (Hl2 _ _ Hinc) as [_ ->]. done.
          * eapply covered_false_later; [exact Hl3|apply Hn|].
            by apply (Hclosed c q).
      - exists s2. split; [done|]. split_and!; try done.
        intros d' [Hd'| ->%list_elem_of_singleton]%elem_of_app Hind'; [by apply Hdone|].
        apply inbb_inb in Hind'. congruence. }
    exists s'. split; [done|].
    pose proof (later_trans _ _ _ Hl1 Hl') as Hl.
    split; simpl; [done|done|..].
    - by apply (covered_false_later s1 s').
    - intros c Hinc Hcc Hcc'.
      destruct (covered s1 c.1 c.2) eqn:Hc1c.
      + destruct (Hsound c Hinc Hc1c Hcc') as (q & Hn & Hr).
        eapply Flood.reach_step; [exact Hin|exact Hc|exact Hz|exact Hn|].
        by apply (reach_later s s1).
      + rewrite (Hone c Hinc Hcc Hc1c). by apply Flood.reach_here.
    - intros c q Hinc Hcc Hcc' Hzc Hn.
      destruct (covered s1 c.1 c.2) eqn:Hc1c.
      + apply (Hclosed c q); try done.
        destruct (Hl1 _ _ Hinc) as [_ ->]. done.
      + rewrite (Hone c Hinc Hcc Hc1c) in Hn.
        apply near_block in Hn as (d & Hd & -> & Hinq). simpl in *.
        by apply Hdone.
  Qed.

  (** Whatever [uncover] keeps, a returning call keeps. *)
Lemma flood_keeps (P : St → Prop) (depth : nat) :
    (∀ s x y, P s → inb w h x y → P (uncover s x y)) →
    ∀ s x y s', P s → inb w h x y → flood depth s x y = Done s' → P s'.
  Proof.
    intros HP. induction depth as [|depth IH]; intros s x y s' Hs Hin Hrun; [done|].
    rewrite flood_step in Hrun.
    destruct (covered s x y); [|by simplify_eq].
    destruct (spreads s x y); [|simplify_eq; by apply HP].
    assert (P (uncover s x y)) as H1 by (by apply HP).
    revert H1 Hrun. generalize (uncover s x y). generalize block.
    induction l as [|a l IHl]; intros s0 H0; simpl; [by intros [= <-]|].
    destruct (inbb w h (x + a.1) (y + a.2)) eqn:Hina.
    - destruct (flood depth s0 (x + a.1) (y + a.2)) as [s2|] eqn:E; [|done].
      apply IHl. eapply IH; [exact H0| |exact E]. by apply inbb_inb.
    - by apply IHl.
  Qed.

  (** A call that returns is not changed by a larger depth budget. *)
Lemma flood_depth_mono (d : nat) : ∀ d' s x y s',
    (d ≤ d')%nat → flood d s x y = Done s' → flood d' s x y = Done s'.
  Proof.
    induction d as [|d IH]; intros d' s x y s' Hle Hrun; [done|].
    destruct d' as [|d']; [lia|]. rewrite flood_step in *.
    destruct (covered s x y); [|done]. destruct (spreads s x y); [|done].
    revert Hrun. generalize (uncover s x y). generalize block.
    induction l as [|a l IHl]; intros s0; simpl; [done|].
    destruct (inbb w h (x + a.1) (y + a.2)).
    - destruct (flood d s0 (x + a.1) (y + a.2)) as [s2|] eqn:E; [|done].
      erewrite IH; [|lia|exact E]. apply IHl.
    - apply IHl.
  Qed.

  (** Everything the call could get to is uncovered when it returns. *)
Lemma flooded_complete s p s' c :
    flooded s p s' → reach s p c → covered s' c.1 c.2 = false.
  Proof.
    intros [_ _ Hhere _ Hclosed] Hr.
    assert (∀ q c, reach s q c → covered s' q.1 q.2 = false →
              covered s' c.1 c.2 = false) as Hgen.
    { clear Hr c. induction 1 as [q|q r c Hinq Hcq Hzq Hn _ IH]; intros Hq; [done|].
      apply IH. by apply (Hclosed q r). }
    by apply (Hgen p).
  Qed.

Theorem flooded_exactly s p s' c :
    flooded s p s' → inb w h c.1 c.2 →
    (covered s' c.1 c.2 = true ↔ covered s c.1 c.2 = true ∧ ¬ reach s p c).
  Proof.
    intros Hf Hinc. split.
    - intros Hc'. split; [by apply (Flood.flooded_later _ _ _ _ _ _ _ _ Hf)|].
      intros Hr. apply (flooded_complete _ _ _ _ Hf) in Hr. congruence.
    - intros [Hc Hnr]. destruct (covered s' c.1 c.2) eqn:Hc'; [done|].
      destruct Hnr. by apply (Flood.flooded_sound _ _ _ _ _ _ _ _ Hf).
  Qed.

  (** A call on a covered cell leaves fewer covered cells. *)
Lemma flooded_pending_lt s p s' :
    flooded s p s' → inb w h p.1 p.2 → covered s p.1 p.2 = true →
    (pending s' < pending s)%nat.
  Proof.
    intros [_ Hl Hhere _ _] Hin Hc.
    apply (filter_length_lt _ _ _ p).
    - intros [x y] Hxy%elem_of_cells. by apply Hl.
    - destruct p. by apply elem_of_cells.
    - done.
    - by rewrite Hhere.
  Qed.

  (** ** Reached cells and the zero region *)

Lemma zero_region_spreads s p q :
    zero_region s p q → spreads s q.1 q.2 = true ∧ inb w h q.1 q.2.
  Proof. destruct 1 as [|q r _ Hn Hz]; [done|]. split; [done|apply Hn]. Qed.

Lemma reach_region s p q c :
    region_with_border s p q → reach s q c → region_with_border s p c.
  Proof.
    intros Hq Hr. revert Hq.
    induction Hr as [q|q r c Hinq Hcq Hzq Hn _ IH]; intros Hq; [done|].
    apply IH. destruct Hq as (q0 & Hq0 & Hn0).
    exists q. split; [|done]. by eapply Flood.zero_region_step.
  Qed.

Lemma near_refl p : inb w h p.1 p.2 → near p p.
  Proof. intros Hin. split; [done|]. unfold cheb. lia. Qed.

Lemma reach_in_region s p c :
    spreads s p.1 p.2 = true → reach s p c → region_with_border s p c.
  Proof.
    intros Hz Hr. eapply reach_region; [|exact Hr].
    pose proof (reach_covered _ _ _ Hr).
    assert (inb w h p.1 p.2) by (by destruct Hr).
    exists p. split; [by apply Flood.zero_region_start|by apply near_refl].
  Qed.

Lemma reach_snoc s p q r :
    reach s p q → spreads s q.1 q.2 = true → near q r →
    covered s r.1 r.2 = true → reach s p r.
  Proof.
    induction 1 as [q Hinq Hcq|p q0 q Hinp Hcp Hzp Hn _ IH]; intros Hzq Hnr Hcr.
    - eapply Flood.reach_step; eauto. apply Flood.reach_here; [apply Hnr|done].
    - eapply Flood.reach_step; eauto.
  Qed.

Lemma region_reach s p c :
    (∀ q, zero_region s p q → covered s q.1 q.2 = true) →
    region_with_border s p c → covered s c.1 c.2 = true → reach s p c.
  Proof.
    intros Hcov (q & Hq & Hn) Hc.
    assert (reach s p q) as Hr.
    { clear Hn. induction Hq as [Hin Hz|q r Hq IH Hn Hz].
      - apply Flood.reach_here; [done|]. apply Hcov. by apply Flood.zero_region_start.
      - eapply reach_snoc; [exact IH| |exact Hn|].
        + by apply zero_region_spreads in Hq as [? _].
        + apply Hcov. by eapply Flood.zero_region_step. }
    eapply reach_snoc; eauto. by apply zero_region_spreads in Hq as [? _].
  Qed.

  (** A reached cell is the start, or lies next to a zero cell. *)
Lemma reach_next_to_zero s p c :
    reach s p c → c = p ∨ ∃ q, spreads s q.1 q.2 = true ∧ near q c.
  Proof.
    induction 1 as [p|p q r Hinp Hcp Hzp Hn _ IH]; [by left|].
    right. destruct IH as [->|IH]; [|done]. by exists p.
  Qed.
End Laws.
End FloodFacts.

(** * nyankosweeper.py: the board *)
Module NyankoFacts.
Import Nyankosweeper.

Lemma get2_valid (w h : Z) (g : list (list Cell)) (x y : Z) :
  valid w h g → inb w h x y →
  ∃ c, at2 g x y = Some c ∧ get2 g x y = Done c ∧ 0 ≤ mark c < 3.
Proof.
  intros [Hrect Hmarks] Hin.
  destruct (at2_is_Some w h g x y Hrect Hin) as [c Hc].
  exists c. split; [done|]. split; [|by eapply Hmarks].
  destruct Hin. rewrite get2_nonneg, Hc by lia. done.
Qed.

Lemma valid_put2 (w h : Z) (g : list (list Cell)) (x y : Z) (c : Cell) :
  valid w h g → inb w h x y → 0 ≤ mark c < 3 → valid w h (put2 g x y c).
Proof.
  intros [Hrect Hmarks] Hin Hc. split; [by apply rect_put2|].
  intros x' y' c' Hat.
  pose proof (at2_inb w h _ _ _ _ (rect_put2 w h g x y c Hrect) Hat) as Hin'.
  destruct (decide ((x, y) = (x', y'))) as [[= <- <-]|Hne].
  - destruct (at2_is_Some w h g x y Hrect Hin) as [c0 Hc0].
    rewrite (at2_put2_eq _ _ _ _ _ Hc0) in Hat. by simplify_eq.
  - destruct Hin. rewrite at2_put2_ne in Hat by (done || lia). by eapply Hmarks.
Qed.

Lemma only_revealed_refl g : only_revealed g g.
Proof. intros x y c Hc. by left. Qed.

Lemma only_revealed_trans g1 g2 g3 :
  only_revealed g1 g2 → only_revealed g2 g3 → only_revealed g1 g3.
Proof.
  intros H12 H23 x y c Hc.
  destruct (H12 x y c Hc) as [Hc2|(Hr & Hm & Hc2)].
  - apply (H23 x y c Hc2).
  - destruct (H23 x y _ Hc2) as [Hc3|(Hr3 & _)]; [|done].
    right. by split_and!.
Qed.

Lemma only_revealed_uncover (w h : Z) g x y :
  valid w h g → inb w h x y → covered g x y = true →
  only_revealed g (uncover g x y).
Proof.
  intros Hv Hin Hcov x' y' c' Hc'. unfold uncover, covered in *.
  destruct (get2_valid w h g x y Hv Hin) as (c & Hc & _ & _). rewrite Hc in *.
  apply andb_true_iff in Hcov as [Hr%negb_true_iff Hm%Z.eqb_eq].
  destruct (decide ((x, y) = (x', y'))) as [[= <- <-]|Hne].
  - rewrite (at2_put2_eq _ _ _ _ _ Hc). rewrite Hc in Hc'. injection Hc' as <-.
    right. by split_and!.
  - destruct Hin. rewrite at2_put2_ne by (done || lia). by left.
Qed.

(** The laws of the flood scheme. *)
Section Laws.
Variables w h : Z.
Variable g0 : list (list Cell).
Abbreviation ok := (Nyankosweeper.ok w h g0).

Lemma ok_uncover g x y :
    ok g → inb w h x y → covered g x y = true → ok (uncover g x y).
  Proof.
    intros [Hv Hr] Hin Hcov. split.
    - unfold uncover.
      destruct (get2_valid w h g x y Hv Hin) as (c & Hc & _ & Hm). rewrite Hc.
      by apply valid_put2.
    - eapply only_revealed_trans; [done|]. by eapply only_revealed_uncover.
  Qed.

Lemma covered_uncover g x y x' y' :
    ok g → inb w h x y → inb w h x' y' →
    covered (uncover g x y) x' y'
    = covered g x' y' && negb ((x =? x') && (y =? y')).
  Proof.
    intros [Hv _] Hin Hin'. unfold covered, uncover.
    destruct (get2_valid w h g x y Hv Hin) as (c & Hc & _ & _). rewrite Hc.
    destruct (decide ((x, y) = (x', y'))) as [[= <- <-]|Hne].
    - rewrite (at2_put2_eq _ _ _ _ _ Hc), Hc, !Z.eqb_refl. simpl.
      by rewrite andb_false_r.
    - destruct Hin. rewrite at2_put2_ne by (done || lia).
      assert ((x =? x') && (y =? y') = false) as ->.
      { apply andb_false_iff. destruct (Z.eqb_spec x x'), (Z.eqb_spec y y'); auto.
        subst. done. }
      by rewrite andb_true_r.
  Qed.

Lemma spreads_uncover g x y x' y' :
    ok g → inb w h x y → inb w h x' y' →
    spreads (uncover g x y) x' y' = spreads g x' y'.
  Proof.
    intros [Hv _] Hin Hin'. unfold spreads, uncover.
    destruct (get2_valid w h g x y Hv Hin) as (c & Hc & _ & _). rewrite Hc.
    destruct (decide ((x, y) = (x', y'))) as [[= <- <-]|Hne].
    - by rewrite (at2_put2_eq _ _ _ _ _ Hc), Hc.
    - destruct Hin. by rewrite at2_put2_ne by (done || lia).
  Qed.
End Laws.

Lemma reveal_stops_covered (c : Cell) :
  0 ≤ mark c < 3 →
  reveal_stops c = Done (negb (negb (revealed c) && (mark c =? 0))).
Proof.
  intros Hm. unfold reveal_stops. destruct (revealed c); [done|].
  assert (mark c = 0 ∨ mark c = 1 ∨ mark c = 2) as [->|[->| ->]] by lia; reflexivity.
Qed.

(** [Board.reveal] is the flood scheme on the grid of the board. *)
Lemma reveal_flood (depth : nat) : ∀ w h m g x y,
  valid w h g → inb w h x y →
  reveal depth (mkBoard w h m g) x y
  = do g' <- Flood.flood w h covered spreads uncover depth g x y;
    Done (mkBoard w h m g').
Proof.
  induction depth as [|depth IH]; intros w h m g x y Hv Hin; [done|].
  rewrite FloodFacts.flood_step.
  destruct (get2_valid w h g x y Hv Hin) as (c & Hc & Hget & Hm).
  cbn [reveal grid]. rewrite Hget. cbn [bind].
  rewrite reveal_stops_covered by done. cbn [bind].
  unfold covered at 1, spreads at 1. rewrite Hc.
  destruct (negb (revealed c) && (mark c =? 0)) eqn:Hcov; cbn [negb]; [|done].
  destruct Hin as [Hx Hy].
  rewrite set2_nonneg, Hc by lia. cbn [bind with_grid width height mines].
  assert (uncover g x y = put2 g x y (set_revealed true c)) as Hu
    by (unfold uncover; by rewrite Hc).
  rewrite <- Hu.
  destruct ((adjacent c =? 0) && negb (mine c)); [|done].
  assert (valid w h (uncover g x y)) as Hv1.
  { rewrite Hu. by apply valid_put2. }
  rewrite <- FloodFacts.flood_block.
  generalize dependent (uncover g x y). intros g1 _ Hv1.
  apply (for_mirror (mkBoard w h m) (valid w h)); [done|].
  intros dx g2 _ Hv2.
  apply (for_mirror (mkBoard w h m) (valid w h)); [done|].
  intros dy g3 _ Hv3. cbn [width height].
  replace (((0 <=? x + dx) && (x + dx <? w)) && ((0 <=? y + dy) && (y + dy <? h)))
    with (inbb w h (x + dx) (y + dy)) by (unfold inbb; by rewrite !andb_assoc).
  destruct (inbb w h (x + dx) (y + dy)) eqn:Hin'.
  - apply inbb_inb in Hin'. split; [by apply IH|].
    intros g4 Hrun.
    eapply (FloodFacts.flood_keeps w h covered spreads uncover (valid w h));
      [|exact Hv3|exact Hin'|exact Hrun].
    intros s x0 y0 Hs Hin0. unfold uncover.
    destruct (get2_valid w h s x0 y0 Hs Hin0) as (c0 & Hc0 & _ & Hm0). rewrite Hc0.
    by apply valid_put2.
  - split; [done|]. by intros ? [= <-].
Qed.

Lemma pending_le (w h : Z) (g : list (list Cell)) :
  0 ≤ w → 0 ≤ h → Z.of_nat (Flood.pending w h covered g) ≤ w * h.
Proof.
  intros Hw Hh. rewrite <- (length_cells w h Hw Hh).
  apply inj_le, length_filter.
Qed.

(** A call of [Board.reveal] with depth to spare returns, and the board
    it returns is the old one with exactly the reached cells revealed. *)
Lemma reveal_returns (depth : nat) (b : Board) (x y : Z) :
  Board_ok b → inb (width b) (height b) x y → (cells_left b < depth)%nat →
  ∃ b', reveal depth b x y = Done b'
    ∧ width b' = width b ∧ height b' = height b ∧ mines b' = mines b
    ∧ Board_ok b'
    ∧ Flood.flooded (width b) (height b) covered spreads
        (ok (width b) (height b) (grid b)) (grid b) (x, y) (grid b').
Proof.
  destruct b as [w h m g]. unfold Board_ok, cells_left. simpl.
  intros Hv Hin Hd.
  destruct (FloodFacts.flood_returns w h covered spreads uncover (ok w h g)
              (ok_uncover w h g) (covered_uncover w h g) (spreads_uncover w h g)
              depth g x y) as (g' & Hrun & Hf); [|done|done|].
  { split; [done|apply only_revealed_refl]. }
  exists (mkBoard w h m g'). rewrite reveal_flood, Hrun by done. simpl.
  split_and!; try done. apply (Flood.flooded_ok _ _ _ _ _ _ _ _ Hf).
Qed.

Lemma reveal_cells (b b' : Board) (p : Z * Z) (cx cy : Z) (c : Cell) :
  Flood.flooded (width b) (height b) covered spreads
    (ok (width b) (height b) (grid b)) (grid b) p (grid b') →
  Board_ok b → cell_at b cx cy = Some c →
  (reached b p (cx, cy) →
     revealed c = false ∧ mark c = 0 ∧ cell_at b' cx cy = Some (set_revealed true c))
  ∧ (¬ reached b p (cx, cy) → cell_at b' cx cy = Some c).
Proof.
  intros Hf [Hrect _] Hc. unfold cell_at, reached in *.
  pose proof (at2_inb _ _ _ _ _ _ Hrect Hc) as Hin.
  destruct (Flood.flooded_ok _ _ _ _ _ _ _ _ Hf) as [_ Hkept].
  assert (covered (grid b) cx cy = negb (revealed c) && (mark c =? 0)) as Hcov
    by (unfold covered; by rewrite Hc).
  split.
  - intros Hr.
    pose proof (FloodFacts.reach_covered _ _ _ _ _ _ _ Hr) as Hc1.
    pose proof (FloodFacts.flooded_complete _ _ _ _ _ _ _ _ _ Hf Hr) as Hc2.
    simpl in *. rewrite Hcov in Hc1.
    apply andb_true_iff in Hc1 as [Hr1%negb_true_iff Hm1%Z.eqb_eq].
    destruct (Hkept cx cy c Hc) as [Hc'|(_ & _ & Hc')]; [|done].
    unfold covered in Hc2. rewrite Hc', Hr1, Hm1 in Hc2. done.
  - intros Hnr. destruct (Hkept cx cy c Hc) as [Hc'|(Hr1 & Hm1 & Hc')]; [done|].
    destruct Hnr. apply (Flood.flooded_sound _ _ _ _ _ _ _ _ Hf (cx, cy)); simpl.
    + done.
    + by rewrite Hcov, Hr1, Hm1.
    + unfold covered. by rewrite Hc'.
Qed.

(** On a board where the zero region around [p] is all covered, the
    reached cells are the covered cells of that region and its border. *)
Lemma reached_region (b : Board) (p c : Z * Z) :
  Board_ok b → spreads (grid b) p.1 p.2 = true →
  (∀ q, zero_region b p q → covered (grid b) q.1 q.2 = true) →
  (reached b p c ↔ covered (grid b) c.1 c.2 = true ∧ region_with_border b p c).
Proof.
  intros Hv Hz Hcov. unfold reached, region_with_border. split.
  - intros Hr. split; [by eapply FloodFacts.reach_covered|].
    by apply (FloodFacts.reach_in_region _ _ covered).
  - intros [Hc Hrb]. by apply FloodFacts.region_reach.
Qed.

(** The call does not depend on how much depth is to spare, does nothing
    on a cell that is revealed or marked, and otherwise leaves fewer
    cells to uncover. *)
Lemma reveal_total (b : Board) (x y : Z) :
  Board_ok b → inb (width b) (height b) x y →
  ∃ b', (∀ depth, (cells_left b < depth)%nat → reveal depth b x y = Done b')
    ∧ (covered (grid b) x y = false → b' = b)
    ∧ (covered (grid b) x y = true → (cells_left b' < cells_left b)%nat)
    ∧ Flood.flooded (width b) (height b) covered spreads
        (ok (width b) (height b) (grid b)) (grid b) (x, y) (grid b')
    ∧ width b' = width b ∧ height b' = height b ∧ mines b' = mines b
    ∧ Board_ok b'.
Proof.
  intros Hv Hin.
  destruct (reveal_returns (S (cells_left b)) b x y Hv Hin)
    as (b' & Hrun & Hw & Hh & Hm & Hv' & Hf); [lia|].
  exists b'. split_and!; try done.
  - intros depth Hd. destruct b as [w h m g].
    unfold cells_left, Board_ok in *. cbn [width height grid mines] in *.
    rewrite reveal_flood in Hrun by done. rewrite reveal_flood by done.
    destruct (Flood.flood w h covered spreads uncover
                (S (Flood.pending w h covered g)) g x y) as [g'|] eqn:E; [|done].
    rewrite (FloodFacts.flood_depth_mono _ _ _ _ _
               (S (Flood.pending w h covered g)) depth _ _ _ g' ltac:(lia) E).
    done.
  - intros Hc. destruct b as [w h m g].
    unfold cells_left, Board_ok in *. cbn [width height grid mines] in *.
    rewrite reveal_flood, FloodFacts.flood_step, Hc in Hrun by done.
    cbn [bind] in Hrun. congruence.
  - intros Hc. unfold cells_left. rewrite Hw, Hh.
    by apply (FloodFacts.flooded_pending_lt _ _ _ _ _ _ (x, y) _ Hf).
Qed.

(** Depth to spare is never more than one call per cell of the board. *)
Lemma cells_left_le (b : Board) :
  0 ≤ width b → 0 ≤ height b → Z.of_nat (cells_left b) ≤ width b * height b.
Proof. apply pending_le. Qed.
End NyankoFacts.

(** * minesweeper.py: the field *)
Module MineFacts.
Import Minesweeper.

Lemma xsize_pos : 0 < xsize.
Proof. done. Qed.
Lemma ysize_pos : 0 < ysize.
Proof. done. Qed.

Lemma get2_rect {A : Type} (w h : Z) (g : list (list A)) (x y : Z) :
  rect w h g → inb w h x y → ∃ c, at2 g x y = Some c ∧ get2 g x y = Done c.
Proof.
  intros Hrect Hin. destruct (at2_is_Some w h g x y Hrect Hin) as [c Hc].
  exists c. split; [done|]. destruct Hin. by rewrite get2_nonneg, Hc by lia.
Qed.

Lemma set2_rect {A : Type} (w h : Z) (g : list (list A)) (x y : Z) (v : A) :
  rect w h g → inb w h x y → set2 g x y v = Done (put2 g x y v).
Proof.
  intros Hrect Hin. destruct (at2_is_Some w h g x y Hrect Hin) as [c Hc].
  destruct Hin. by rewrite set2_nonneg, Hc by lia.
Qed.

Lemma field_guard (x y : Z) :
  (x >=? 0) && (y >=? 0) && (x <? xsize) && (y <? ysize) = inbb xsize ysize x y.
Proof.
  unfold inbb. apply eq_true_iff_eq.
  rewrite !andb_true_iff, !Z.geb_le, !Z.leb_le, !Z.ltb_lt. lia.
Qed.

Lemma only_revealed_refl_field w : only_revealed w w.
Proof. split_and!; [done..|]. intros x y m Hm. by left. Qed.

Lemma only_revealed_trans_field w1 w2 w3 :
  only_revealed w1 w2 → only_revealed w2 w3 → only_revealed w1 w3.
Proof.
  intros (Hm12 & Hv12 & H12) (Hm23 & Hv23 & H23). split_and!; [congruence..|].
  intros x y m Hm. destruct (H12 x y m Hm) as [Hm2|(Hne & Hm2)].
  - apply (H23 x y m Hm2).
  - right. split; [done|]. destruct (H23 x y _ Hm2) as [?|[? ?]]; done.
Qed.

Lemma valid_uncover w x y : valid w → valid (uncover w x y).
Proof. intros [Hv Hm]. split; [done|]. by apply rect_put2. Qed.

Lemma only_revealed_uncover_field w x y :
  valid w → inb xsize ysize x y → covered w x y = true →
  only_revealed w (uncover w x y).
Proof.
  intros [_ Hrect] Hin Hcov. split_and!; [done..|].
  intros x' y' m' Hm'. unfold covered in Hcov. simpl.
  destruct (at2_is_Some _ _ _ x y Hrect Hin) as [m Hm]. rewrite Hm in Hcov.
  destruct (decide ((x, y) = (x', y'))) as [[= <- <-]|Hne].
  - rewrite (at2_put2_eq _ _ _ _ _ Hm). rewrite Hm in Hm'. injection Hm' as <-.
    right. split; [|done]. intros ->. by rewrite Ascii.eqb_refl in Hcov.
  - destruct Hin. rewrite at2_put2_ne by (done || lia). by left.
Qed.

Section Laws.
Variable w0 : world.
Abbreviation ok := (Minesweeper.ok w0).

Lemma ok_uncover_field w x y :
    ok w → inb xsize ysize x y → covered w x y = true → ok (uncover w x y).
  Proof.
    intros [Hv Hr] Hin Hcov. split; [by apply valid_uncover|].
    eapply only_revealed_trans_field; [done|]. by apply only_revealed_uncover_field.
  Qed.

Lemma covered_uncover_field w x y x' y' :
    ok w → inb xsize ysize x y → inb xsize ysize x' y' →
    covered (uncover w x y) x' y'
    = covered w x' y' && negb ((x =? x') && (y =? y')).
  Proof.
    intros [[_ Hrect] _] Hin Hin'. unfold covered, uncover. simpl.
    destruct (at2_is_Some _ _ _ x y Hrect Hin) as [m Hm].
    destruct (decide ((x, y) = (x', y'))) as [[= <- <-]|Hne].
    - rewrite (at2_put2_eq _ _ _ _ _ Hm), Hm, !Z.eqb_refl, Ascii.eqb_refl. simpl.
      by rewrite andb_false_r.
    - destruct Hin. rewrite at2_put2_ne by (done || lia).
      assert ((x =? x') && (y =? y') = false) as ->.
      { apply andb_false_iff. destruct (Z.eqb_spec x x'), (Z.eqb_spec y y'); auto.
        subst. done. }
      by rewrite andb_true_r.
  Qed.

Lemma spreads_uncover_field w x y x' y' :
    ok w → inb xsize ysize x y → inb xsize ysize x' y' →
    spreads (uncover w x y) x' y' = spreads w x' y'.
  Proof. done. Qed.
End Laws.

(** [reveal] is the flood scheme on the globals. *)
Lemma reveal_flood_field (depth : nat) : ∀ w x y,
  valid w → inb xsize ysize x y →
  reveal depth w x y = Flood.flood xsize ysize covered spreads uncover depth w x y.
Proof.
  induction depth as [|depth IH]; intros w x y Hv Hin; [done|].
  rewrite FloodFacts.flood_step.
  destruct Hv as [Hvv Hmk].
  destruct (get2_rect _ _ _ x y Hvv Hin) as (v & Hv & Hgetv).
  destruct (get2_rect _ _ _ x y Hmk Hin) as (m & Hm & Hgetm).
  cbn [reveal]. rewrite Hgetv, Hgetm. cbn [bind].
  unfold covered at 1, spreads at 1. rewrite Hv, Hm.
  rewrite (set2_rect _ _ _ x y blank Hmk Hin). cbn [bind].
  change (with_mask w (put2 (mask w) x y blank)) with (uncover w x y).
  destruct (is_zero v), (negb (Ascii.eqb m blank)); cbn [negb andb]; try done.
  rewrite <- FloodFacts.flood_block.
  assert (valid (uncover w x y)) as Hv1 by (by apply valid_uncover).
  generalize dependent (uncover w x y). intros w1 Hv1.
  apply (for_agree valid); [done|]. intros dx w2 _ Hv2.
  apply (for_agree valid); [done|]. intros dy w3 _ Hv3.
  rewrite field_guard.
  destruct (inbb xsize ysize (x + dx) (y + dy)) eqn:Hin'.
  - apply inbb_inb in Hin'. split; [by apply IH|].
    intros w4 Hrun.
    eapply (FloodFacts.flood_keeps xsize ysize covered spreads uncover valid);
      [|exact Hv3|exact Hin'|exact Hrun].
    intros s x0 y0 Hs _. by apply valid_uncover.
  - split; [done|]. by intros ? [= <-].
Qed.

Lemma pending_le_field (w : world) : Z.of_nat (cells_left w) ≤ xsize * ysize.
Proof.
  rewrite <- (length_cells xsize ysize) by done.
  apply inj_le, length_filter.
Qed.

(** A call of [reveal] with depth to spare returns, having blanked the
    reached cells. *)
Lemma reveal_returns_field (depth : nat) (w : world) (x y : Z) :
  valid w → inb xsize ysize x y → (cells_left w < depth)%nat →
  ∃ w', reveal depth w x y = Done w'
    ∧ Flood.flooded xsize ysize covered spreads (ok w) w (x, y) w'.
Proof.
  intros Hv Hin Hd.
  destruct (FloodFacts.flood_returns xsize ysize covered spreads uncover (ok w)
              (ok_uncover_field w) (covered_uncover_field w) (spreads_uncover_field w)
              depth w x y) as (w' & Hrun & Hf); [|done|done|].
  { split; [done|apply only_revealed_refl_field]. }
  exists w'. by rewrite reveal_flood_field, Hrun.
Qed.

Lemma reveal_total_field (w : world) (x y : Z) :
  valid w → inb xsize ysize x y →
  ∃ w', (∀ depth, (cells_left w < depth)%nat → reveal depth w x y = Done w')
    ∧ (covered w x y = false → w' = w)
    ∧ (covered w x y = true → (cells_left w' < cells_left w)%nat)
    ∧ Flood.flooded xsize ysize covered spreads (ok w) w (x, y) w'.
Proof.
  intros Hv Hin.
  destruct (reveal_returns_field (S (cells_left w)) w x y Hv Hin)
    as (w' & Hrun & Hf); [lia|].
  exists w'. split_and!; try done.
  - intros depth Hd. rewrite reveal_flood_field in * by done.
    by apply (FloodFacts.flood_depth_mono _ _ _ _ _ (S (cells_left w))); [lia|].
  - intros Hc. rewrite reveal_flood_field, FloodFacts.flood_step, Hc in Hrun by done.
    congruence.
  - intros Hc. by apply (FloodFacts.flooded_pending_lt _ _ _ _ _ _ (x, y) _ Hf).
Qed.

Lemma reveal_cells_field (w w' : world) (p : Z * Z) (cx cy : Z) (m : ascii) :
  Flood.flooded xsize ysize covered spreads (ok w) w p w' →
  valid w → at2 (mask w) cx cy = Some m →
  (reached w p (cx, cy) → m ≠ blank ∧ at2 (mask w') cx cy = Some blank)
  ∧ (¬ reached w p (cx, cy) → at2 (mask w') cx cy = Some m).
Proof.
  intros Hf [_ Hrect] Hm. unfold reached in *.
  pose proof (at2_inb _ _ _ _ _ _ Hrect Hm) as Hin.
  destruct (Flood.flooded_ok _ _ _ _ _ _ _ _ Hf) as [_ (_ & _ & Hkept)].
  assert (covered w cx cy = negb (Ascii.eqb m blank)) as Hcov
    by (unfold covered; by rewrite Hm).
  split.
  - intros Hr.
    pose proof (FloodFacts.reach_covered _ _ _ _ _ _ _ Hr) as Hc1.
    pose proof (FloodFacts.flooded_complete _ _ _ _ _ _ _ _ _ Hf Hr) as Hc2.
    simpl in *. rewrite Hcov in Hc1.
    destruct (Hkept cx cy m Hm) as [Hm'|(? & Hm')]; [|done].
    unfold covered in Hc2. rewrite Hm', Hc1 in Hc2. done.
  - intros Hnr. destruct (Hkept cx cy m Hm) as [Hm'|(Hne & Hm')]; [done|].
    destruct Hnr. apply (Flood.flooded_sound _ _ _ _ _ _ _ _ Hf (cx, cy)); simpl.
    + done.
    + rewrite Hcov. apply negb_true_iff, Ascii.eqb_neq. done.
    + unfold covered. by rewrite Hm', Ascii.eqb_refl.
Qed.

Lemma reached_region_field (w : world) (p c : Z * Z) :
  spreads w p.1 p.2 = true →
  (∀ q, zero_region w p q → covered w q.1 q.2 = true) →
  (reached w p c ↔ covered w c.1 c.2 = true ∧ region_with_border w p c).
Proof.
  intros Hz Hcov. unfold reached, region_with_border. split.
  - intros Hr. split; [by eapply FloodFacts.reach_covered|].
    by apply (FloodFacts.reach_in_region _ _ covered).
  - intros [Hc Hrb]. by apply FloodFacts.region_reach.
Qed.
End MineFacts.

(** * nyankosweeper.py: building the board *)
Module NyankoBuild.
Import Nyankosweeper NyankoFacts.

Lemma is_mine_put2 (w h : Z) (g : list (list Cell)) (x y : Z) (c : Cell) (p : Z * Z) :
  valid w h g → inb w h x y →
  is_mine (put2 g x y c) p = if decide (p = (x, y)) then mine c else is_mine g p.
Proof.
  intros [Hrect _] Hin. unfold is_mine. destruct p as [px py]. simpl.
  destruct (at2_is_Some w h g x y Hrect Hin) as [c0 Hc0].
  destruct (decide ((px, py) = (x, y))) as [[= -> ->]|Hne].
  - by rewrite (at2_put2_eq _ _ _ _ _ Hc0).
  - destruct Hin. by rewrite at2_put2_ne by (lia || done).
Qed.

Lemma mine_cells_put (b : Board) (x y : Z) (c : Cell) :
  Board_ok b → inb (width b) (height b) x y →
  at2 (grid b) x y = Some c → mine c = false →
  length (mine_cells (with_grid b (put2 (grid b) x y (set_mine true c))))
  = S (length (mine_cells b)).
Proof.
  intros Hv Hin Hc Hm. unfold mine_cells. simpl.
  apply (filter_length_S _ _ _ (x, y)).
  - apply NoDup_cells.
  - by apply elem_of_cells.
  - unfold is_mine. simpl. rewrite Hc, Hm. done.
  - rewrite (is_mine_put2 _ _ _ _ _ _ _ Hv Hin), decide_True by done. done.
  - intros p _ Hne. by rewrite (is_mine_put2 _ _ _ _ _ _ _ Hv Hin), decide_False.
Qed.

(** [place_mines] ends as soon as the draws have brought enough different
    free cells, with as many mines on the board as were asked for. *)
Lemma place_mines_from_returns (draws : list (Z * Z)) :
  ∀ (b : Board) (placed : Z) (l : list (Z * Z)),
  Board_ok b →
  Forall (λ p, inb (width b) (height b) p.1 p.2) draws →
  Z.of_nat (length (mine_cells b)) = placed → placed ≤ mines b →
  NoDup l → l ⊆ draws → (∀ p, p ∈ l → is_mine (grid b) p = false) →
  mines b - placed ≤ Z.of_nat (length l) →
  ∃ b', place_mines_from b placed draws = Done b'
    ∧ width b' = width b ∧ height b' = height b ∧ mines b' = mines b
    ∧ Board_ok b'
    ∧ Z.of_nat (length (mine_cells b')) = mines b.
Proof.
  induction draws as [|[x y] rest IH];
    intros b placed l Hv Hdraws Hcount Hle Hnd Hsub Hfree Hlen.
  - simpl. destruct (Z.ltb_spec placed (mines b)) as [Hlt|Hge].
    + destruct l as [|p l]; [simpl in Hlen; lia|].
      assert (p ∈ @nil (Z * Z)) as Hp by (apply Hsub; left).
      by apply elem_of_nil in Hp.
    + exists b. split_and!; try done. lia.
  - simpl. destruct (Z.ltb_spec placed (mines b)) as [Hlt|Hge]; cycle 1.
    { exists b. split_and!; try done. lia. }
    apply Forall_cons in Hdraws as [Hin Hdraws]. simpl in Hin.
    destruct (get2_valid _ _ _ x y Hv Hin) as (c & Hc & -> & Hm). cbn [bind].
    destruct (mine c) eqn:Hmine; cbn [negb].
    + apply (IH b placed l); try done.
      intros p Hp. pose proof (Hsub p Hp) as [->|Hp']%elem_of_cons; [|done].
      specialize (Hfree _ Hp). unfold is_mine in Hfree. simpl in Hfree.
      rewrite Hc in Hfree. congruence.
    + destruct Hin as [Hx Hy]. rewrite set2_nonneg, Hc by lia. cbn [bind].
      assert (Board_ok (with_grid b (put2 (grid b) x y (set_mine true c)))) as Hv'.
      { apply valid_put2; done. }
      destruct (IH (with_grid b (put2 (grid b) x y (set_mine true c)))
                  (placed + 1) (filter (λ p, p ≠ (x, y)) l))
        as (b' & Hrun & Hw & Hh & Hmn & Hv'' & Hcnt); try done.
      * rewrite mine_cells_put by done. lia.
      * simpl. lia.
      * by apply NoDup_filter.
      * intros p [Hne Hp]%list_elem_of_filter.
        by pose proof (Hsub p Hp) as [->|Hp']%elem_of_cons.
      * intros p [Hne Hp]%list_elem_of_filter. simpl.
        rewrite (is_mine_put2 _ _ _ _ _ _ _ Hv (conj Hx Hy)), decide_False by done.
        by apply Hfree.
      * simpl. pose proof (filter_ne_length l (x, y) Hnd). lia.
      * exists b'. by split_and!.
Qed.

(** The sum of [calculate_adjacents] is the number of mines around. *)
Lemma count_around_mines (b : Board) (x y : Z) :
  Board_ok b → inb (width b) (height b) x y →
  count_around b (grid b) x y = Done (Z.of_nat (mines_around b (x, y))).
Proof.
  intros Hv Hin. unfold count_around, mines_around.
  rewrite neighbours_block.
  rewrite (for_nested (λ dx dy n,
    if (negb (dx =? 0) || negb (dy =? 0))
       && ((0 <=? x + dx) && (x + dx <? width b))
       && ((0 <=? y + dy) && (y + dy <? height b))
    then do c <- get2 (grid b) (x + dx) (y + dy); Done (n + (if mine c then 1 else 0))
    else Done n) [-1; 0; 1] [-1; 0; 1] 0).
  change (dx ← [-1; 0; 1]; (λ dy, (dx, dy)) <$> [-1; 0; 1]) with block.
  rewrite (for_count (λ d : Z * Z,
             (negb (d.1 =? 0) || negb (d.2 =? 0))
             && inbb (width b) (height b) (x + d.1) (y + d.2)
             && is_mine (grid b) (x + d.1, y + d.2))); [done|].
  intros [dx dy] n _. cbn [fst snd].
  replace ((negb (dx =? 0) || negb (dy =? 0))
           && ((0 <=? x + dx) && (x + dx <? width b))
           && ((0 <=? y + dy) && (y + dy <? height b)))
    with ((negb (dx =? 0) || negb (dy =? 0))
          && inbb (width b) (height b) (x + dx) (y + dy))
    by (unfold inbb; by rewrite !andb_assoc).
  destruct (negb (dx =? 0) || negb (dy =? 0)); cbn [andb]; [|f_equal; lia].
  destruct (inbb (width b) (height b) (x + dx) (y + dy)) eqn:Hin'; cbn [andb];
    [|f_equal; lia].
  apply inbb_inb in Hin'.
  destruct (get2_valid _ _ _ _ _ Hv Hin') as (c & Hc & -> & _). cbn [bind].
  unfold is_mine. cbn [fst snd]. by rewrite Hc.
Qed.

Lemma is_mine_same (w h : Z) (g g' : list (list Cell)) :
  rect w h g → rect w h g' →
  (∀ x y c, at2 g x y = Some c → ∃ c', at2 g' x y = Some c' ∧ mine c' = mine c) →
  ∀ p, is_mine g' p = is_mine g p.
Proof.
  intros Hr Hr' Hsame [x y]. unfold is_mine. simpl.
  destruct (at2 g x y) as [c|] eqn:Hc.
  - destruct (Hsame x y c Hc) as (c' & -> & ->). done.
  - destruct (at2 g' x y) as [c'|] eqn:Hc'; [|done].
    apply (at2_inb w h) in Hc'; [|done].
    destruct (at2_is_Some w h g x y Hr Hc') as [? ?]. congruence.
Qed.

Lemma mines_around_same (b b' : Board) :
  width b' = width b → height b' = height b →
  (∀ p, is_mine (grid b') p = is_mine (grid b) p) →
  ∀ p, mines_around b' p = mines_around b p.
Proof.
  intros Hw Hh Hsame p. unfold mines_around. rewrite Hw, Hh. f_equal.
  apply list_filter_iff. intros q. by rewrite Hsame.
Qed.

Lemma mine_cells_same (b b' : Board) :
  width b' = width b → height b' = height b →
  (∀ p, is_mine (grid b') p = is_mine (grid b) p) →
  mine_cells b' = mine_cells b.
Proof.
  intros Hw Hh Hsame. unfold mine_cells. rewrite Hw, Hh.
  apply list_filter_iff. intros q. by rewrite Hsame.
Qed.

(** [calculate_adjacents] returns, having written its count into every
    cell without a mine and left the rest as it was. *)
Lemma calculate_adjacents_returns (b : Board) :
  Board_ok b →
  ∃ b', calculate_adjacents b = Done b'
    ∧ width b' = width b ∧ height b' = height b ∧ mines b' = mines b
    ∧ Board_ok b'
    ∧ ∀ x y c, at2 (grid b) x y = Some c →
        at2 (grid b') x y
        = Some (if mine c then c
                else set_adjacent (Z.of_nat (mines_around b (x, y))) c).
Proof.
  intros Hv. unfold calculate_adjacents.
  set (final := λ (p : Z * Z) (c : Cell),
         if mine c then c else set_adjacent (Z.of_nat (mines_around b p)) c).
  rewrite (for_nested (λ x y g,
    do c <- get2 g x y;
    if mine c then Done g
    else do count <- count_around b g x y; set2 g x y (set_adjacent count c))
    (range (width b)) (range (height b)) (grid b)).
  change (x ← range (width b); (λ y, (x, y)) <$> range (height b))
    with (cells (width b) (height b)).
  destruct (for_invariant
    (λ (p : Z * Z) g,
       do c <- get2 g p.1 p.2;
       if mine c then Done g
       else do count <- count_around b g p.1 p.2;
            set2 g p.1 p.2 (set_adjacent count c))
    (λ pre g,
       valid (width b) (height b) g
       ∧ ∀ x y c, at2 (grid b) x y = Some c →
           at2 g x y = Some (if decide ((x, y) ∈ pre) then final (x, y) c else c))
    (cells (width b) (height b)) (grid b)) as (g' & Hrun & Hv' & Hcells).
  { split; [done|]. intros x y c Hc. rewrite decide_False; [done|].
    apply not_elem_of_nil. }
  { intros pre [x y] post g Hsplit [Hvg Hg]. cbn [fst snd].
    assert (inb (width b) (height b) x y) as Hin.
    { apply elem_of_cells. rewrite Hsplit. apply elem_of_app. right. left. }
    assert ((x, y) ∉ pre) as Hfresh.
    { pose proof (NoDup_cells (width b) (height b)) as Hnd.
      rewrite Hsplit in Hnd. apply NoDup_app in Hnd as (_ & Hnd & _).
      intros Hp. apply (Hnd _ Hp). left. }
    destruct (get2_valid _ _ _ x y Hv Hin) as (c & Hc & _ & Hm).
    pose proof (Hg x y c Hc) as Hgc. rewrite decide_False in Hgc by done.
    destruct Hin as [Hx Hy]. rewrite get2_nonneg, Hgc by lia. cbn [bind].
    assert (∀ p, is_mine g p = is_mine (grid b) p) as Hmines.
    { apply (is_mine_same (width b) (height b)); [apply Hv|apply Hvg|].
      intros x' y' c' Hc'. rewrite (Hg x' y' c' Hc').
      eexists; split; [done|]. destruct (decide _); [|done].
      unfold final. by destruct (mine c') eqn:E. }
    destruct (mine c) eqn:Hmine.
    - exists g. split; [done|]. split; [done|].
      intros x' y' c' Hc'. rewrite (Hg x' y' c' Hc').
      destruct (decide ((x', y') = (x, y))) as [[= -> ->]|Hne].
      + rewrite decide_False by done. rewrite decide_True
          by (apply elem_of_app; right; left).
        simplify_eq. unfold final. by rewrite Hmine.
      + f_equal. destruct (decide ((x', y') ∈ pre)) as [Hp|Hp].
        * rewrite decide_True; [done|]. apply elem_of_app. by left.
        * rewrite decide_False; [done|].
          intros [?|?%list_elem_of_singleton]%elem_of_app; done.
    - change (count_around b g x y)
        with (count_around (with_grid b g) (grid (with_grid b g)) x y).
      rewrite count_around_mines by done. cbn [bind].
      rewrite (mines_around_same b (with_grid b g)) by done.
      rewrite set2_nonneg, Hgc by lia.
      eexists. split; [done|]. split.
      + apply valid_put2; done.
      + intros x' y' c' Hc'.
        destruct (decide ((x', y') = (x, y))) as [[= -> ->]|Hne].
        * rewrite (at2_put2_eq _ _ _ _ _ Hgc). rewrite decide_True
            by (apply elem_of_app; right; left).
          simplify_eq. unfold final. by rewrite Hmine.
        * rewrite at2_put2_ne by (lia || done). rewrite (Hg x' y' c' Hc').
          f_equal. destruct (decide ((x', y') ∈ pre)) as [Hp|Hp].
          -- rewrite decide_True; [done|]. apply elem_of_app. by left.
          -- rewrite decide_False; [done|].
             intros [?|?%list_elem_of_singleton]%elem_of_app; done. }
  rewrite Hrun. cbn [bind]. eexists. split; [done|]. split_and!; try done.
  intros x y c Hc. simpl. rewrite (Hcells x y c Hc).
  rewrite decide_True; [done|].
  apply elem_of_cells. eapply at2_inb; [apply Hv|done].
Qed.

(** [Board(mines)]: with enough different cells among the draws the
    constructor returns a board of the configured size, with exactly
    [mines] mines and the right count in every other cell. *)
Lemma Board_init_returns (mines : Z) (draws l : list (Z * Z)) :
  0 ≤ mines →
  Forall (λ p, inb Config.XSIZE Config.BOARD_HEIGHT p.1 p.2) draws →
  NoDup l → l ⊆ draws → Z.of_nat (length l) = mines →
  ∃ b, Board_init mines draws = Done b
    ∧ width b = Config.XSIZE ∧ height b = Config.BOARD_HEIGHT
    ∧ Nyankosweeper.mines b = mines
    ∧ Board_ok b
    ∧ Z.of_nat (length (mine_cells b)) = mines
    ∧ counts_ok b.
Proof.
  intros Hm Hdraws Hnd Hsub Hlen. unfold Board_init, place_mines.
  set (b0 := mkBoard Config.XSIZE Config.BOARD_HEIGHT mines
               (fresh_grid Config.XSIZE Config.BOARD_HEIGHT Cell_init)).
  assert (∀ x y c, at2 (grid b0) x y = Some c → c = Cell_init) as Hfresh.
  { intros x y c Hc. simpl in Hc.
    assert (inb Config.XSIZE Config.BOARD_HEIGHT x y) as Hin.
    { eapply at2_inb; [|done]. by apply rect_fresh_grid. }
    rewrite at2_fresh_grid in Hc by done. congruence. }
  assert (Board_ok b0) as Hv0.
  { split; [by apply rect_fresh_grid|].
    intros x y c Hc. by rewrite (Hfresh x y c Hc). }
  assert (∀ p, is_mine (grid b0) p = false) as Hnomine.
  { intros [x y]. unfold is_mine. cbn [fst snd].
    destruct (at2 (grid b0) x y) as [c|] eqn:Hc; [|done].
    by rewrite (Hfresh x y c Hc). }
  assert (Z.of_nat (length (mine_cells b0)) = 0) as Hcnt0.
  { unfold mine_cells. rewrite filter_none; [done|].
    intros p _. by rewrite Hnomine. }
  destruct (place_mines_from_returns draws b0 0 l Hv0 Hdraws Hcnt0 Hm Hnd Hsub)
    as (b1 & -> & Hw1 & Hh1 & Hm1 & Hv1 & Hcnt1).
  { intros p _. apply Hnomine. }
  { simpl. lia. }
  cbn [bind].
  destruct (calculate_adjacents_returns b1 Hv1)
    as (b2 & -> & Hw2 & Hh2 & Hm2 & Hv2 & Hcells).
  assert (∀ p, is_mine (grid b2) p = is_mine (grid b1) p) as Hsame.
  { apply (is_mine_same (width b1) (height b1)); [apply Hv1| |].
    - rewrite <- Hw2, <- Hh2. apply Hv2.
    - intros x y c Hc. rewrite (Hcells x y c Hc). eexists. split; [done|].
      by destruct (mine c) eqn:E. }
  simpl in Hw1, Hh1, Hm1.
  exists b2. split; [done|]. split_and!; try congruence.
  - rewrite (mine_cells_same b1 b2) by done. exact Hcnt1.
  - intros x y c2 Hc2 Hmine.
    assert (inb (width b1) (height b1) x y) as Hin.
    { rewrite <- Hw2, <- Hh2. eapply at2_inb; [apply Hv2|done]. }
    destruct (get2_valid _ _ _ x y Hv1 Hin) as (c1 & Hc1 & _).
    rewrite (Hcells x y c1 Hc1) in Hc2. injection Hc2 as <-.
    destruct (mine c1) eqn:E; [congruence|]. simpl.
    by rewrite (mines_around_same b1 b2).
Qed.

Lemma place_mines_from_valid (draws : list (Z * Z)) :
  ∀ (b : Board) (placed : Z) (b' : Board),
  Board_ok b →
  Forall (λ p, inb (width b) (height b) p.1 p.2) draws →
  place_mines_from b placed draws = Done b' →
  Board_ok b' ∧ width b' = width b ∧ height b' = height b.
Proof.
  induction draws as [|[x y] rest IH]; intros b placed b' Hv Hdraws Hrun.
  - simpl in Hrun. destruct (placed <? mines b); by simplify_eq.
  - simpl in Hrun. destruct (placed <? mines b); [|by simplify_eq].
    apply Forall_cons in Hdraws as [Hin Hdraws]. simpl in Hin.
    destruct (get2_valid _ _ _ x y Hv Hin) as (c & Hc & Hget & Hm).
    rewrite Hget in Hrun. cbn [bind] in Hrun.
    destruct (mine c); cbn [negb] in Hrun; [by eapply IH|].
    destruct Hin as [Hx Hy]. rewrite set2_nonneg, Hc in Hrun by lia.
    cbn [bind] in Hrun.
    apply IH in Hrun; [done| |done]. apply valid_put2; done.
Qed.

Lemma calculate_adjacents_counts (b1 b2 : Board) :
  Board_ok b1 → calculate_adjacents b1 = Done b2 →
  Board_ok b2 ∧ counts_ok b2
  ∧ width b2 = width b1 ∧ height b2 = height b1
  ∧ ∀ p, is_mine (grid b2) p = is_mine (grid b1) p.
Proof.
  intros Hv1 Hrun.
  destruct (calculate_adjacents_returns b1 Hv1)
    as (b & Hrun' & Hw2 & Hh2 & Hm2 & Hv2 & Hcells).
  rewrite Hrun in Hrun'. injection Hrun' as <-.
  assert (∀ p, is_mine (grid b2) p = is_mine (grid b1) p) as Hsame.
  { apply (is_mine_same (width b1) (height b1)); [apply Hv1| |].
    - rewrite <- Hw2, <- Hh2. apply Hv2.
    - intros x y c Hc. rewrite (Hcells x y c Hc). eexists. split; [done|].
      by destruct (mine c) eqn:E. }
  split_and!; try done.
  intros x y c2 Hc2 Hmine.
  assert (inb (width b1) (height b1) x y) as Hin.
  { rewrite <- Hw2, <- Hh2. eapply at2_inb; [apply Hv2|done]. }
  destruct (get2_valid _ _ _ x y Hv1 Hin) as (c1 & Hc1 & _).
  rewrite (Hcells x y c1 Hc1) in Hc2. injection Hc2 as <-.
  destruct (mine c1) eqn:E; [congruence|]. simpl.
  by rewrite (mines_around_same b1 b2).
Qed.

(** Whatever the draws, a board that [Board(mines)] returns has the
    right count in every cell without a mine. *)
Lemma Board_init_counts (mines : Z) (draws : list (Z * Z)) (b : Board) :
  Forall (λ p, inb Config.XSIZE Config.BOARD_HEIGHT p.1 p.2) draws →
  Board_init mines draws = Done b →
  Board_ok b ∧ counts_ok b
  ∧ width b = Config.XSIZE ∧ height b = Config.BOARD_HEIGHT.
Proof.
  intros Hdraws Hrun. unfold Board_init, place_mines in Hrun.
  set (b0 := mkBoard Config.XSIZE Config.BOARD_HEIGHT mines
               (fresh_grid Config.XSIZE Config.BOARD_HEIGHT Cell_init)) in *.
  assert (Board_ok b0) as Hv0.
  { split; [by apply rect_fresh_grid|].
    intros x y c Hc. simpl in Hc.
    assert (inb Config.XSIZE Config.BOARD_HEIGHT x y) as Hin.
    { eapply at2_inb; [|done]. by apply rect_fresh_grid. }
    rewrite at2_fresh_grid in Hc by done. by simplify_eq. }
  destruct (place_mines_from b0 0 draws) as [b1|] eqn:Hplace; [|done].
  cbn [bind] in Hrun.
  apply place_mines_from_valid in Hplace as (Hv1 & Hw1 & Hh1); [|done..].
  destruct (calculate_adjacents_counts b1 b Hv1 Hrun) as (? & ? & Hw & Hh & _).
  unfold b0 in Hw1, Hh1. simpl in Hw1, Hh1.
  split_and!; try done; congruence.
Qed.
End NyankoBuild.

(** * minesweeper.py: building the field *)
Module MineBuild.
Import Minesweeper MineFacts.

Lemma is_mine_put2_field (w : world) (x y : Z) (v : value) (p : Z * Z) :
  valid w → inb xsize ysize x y →
  is_mine (with_vvram w (put2 (vvram w) x y v)) p
  = if decide (p = (x, y)) then is_star v else is_mine w p.
Proof.
  intros [Hrect _] Hin. unfold is_mine. destruct p as [px py]. simpl.
  destruct (at2_is_Some _ _ _ x y Hrect Hin) as [v0 Hv0].
  destruct (decide ((px, py) = (x, y))) as [[= -> ->]|Hne].
  - by rewrite (at2_put2_eq _ _ _ _ _ Hv0).
  - destruct Hin. by rewrite at2_put2_ne by (lia || done).
Qed.

Lemma uncounted_zero (w : world) (x y : Z) (v : value) :
  uncounted w → at2 (vvram w) x y = Some v → is_zero v = negb (is_star v).
Proof. intros Hu Hv. by destruct (Hu x y v Hv) as [->| ->]. Qed.

(** One turn of [putmines]: the draws bring a free cell, it gets a mine. *)
Lemma putmine_returns (draws : list (Z * Z)) : ∀ (w : world) (l : list (Z * Z)),
  valid w → uncounted w →
  Forall (λ p, inb xsize ysize p.1 p.2) draws →
  NoDup l → l ⊆ draws → (∀ p, p ∈ l → is_mine w p = false) →
  (0 < length l)%nat →
  ∃ w' rest l', putmine w draws = Done (w', rest)
    ∧ valid w' ∧ uncounted w'
    ∧ mines w' = mines w ∧ mask w' = mask w
    ∧ length (mine_cells w') = S (length (mine_cells w))
    ∧ Forall (λ p, inb xsize ysize p.1 p.2) rest
    ∧ NoDup l' ∧ l' ⊆ rest ∧ (∀ p, p ∈ l' → is_mine w' p = false)
    ∧ (length l ≤ S (length l'))%nat.
Proof.
  induction draws as [|[x y] rest IH]; intros w l Hv Hu Hdraws Hnd Hsub Hfree Hlen.
  - destruct l as [|p l]; [simpl in Hlen; lia|].
    assert (p ∈ @nil (Z * Z)) as Hp by (apply Hsub; left).
    by apply elem_of_nil in Hp.
  - apply Forall_cons in Hdraws as [Hin Hdraws]. simpl in Hin. simpl.
    destruct (get2_rect _ _ _ x y (proj1 Hv) Hin) as (v & Hv0 & ->). cbn [bind].
    rewrite (uncounted_zero w x y v Hu Hv0).
    destruct (is_star v) eqn:Hstar; cbn [negb].
    + apply (IH w l); try done.
      intros p Hp. pose proof (Hsub p Hp) as [->|Hp']%elem_of_cons; [|done].
      specialize (Hfree _ Hp). unfold is_mine in Hfree. simpl in Hfree.
      rewrite Hv0 in Hfree. congruence.
    + rewrite (set2_rect _ _ _ x y _ (proj1 Hv) Hin). cbn [bind].
      eexists _, rest, (filter (λ p, p ≠ (x, y)) l). split; [done|].
      assert (valid (with_vvram w (put2 (vvram w) x y (Str "*")))) as Hv'.
      { destruct Hv. split; [by apply rect_put2|done]. }
      split_and!; try done.
      * intros x' y' v' Hv''. simpl in Hv''.
        destruct (decide ((x, y) = (x', y'))) as [[= <- <-]|Hne].
        -- rewrite (at2_put2_eq _ _ _ _ _ Hv0) in Hv''. right. congruence.
        -- destruct Hin. rewrite at2_put2_ne in Hv'' by (lia || done).
           by eapply Hu.
      * unfold mine_cells. apply (filter_length_S _ _ _ (x, y)).
        -- apply NoDup_cells.
        -- by apply elem_of_cells.
        -- unfold is_mine. simpl. rewrite Hv0, Hstar. done.
        -- by rewrite is_mine_put2_field, decide_True.
        -- intros p _ Hne. by rewrite is_mine_put2_field, decide_False.
      * by apply NoDup_filter.
      * intros p [Hne Hp]%list_elem_of_filter.
        by pose proof (Hsub p Hp) as [->|Hp']%elem_of_cons.
      * intros p [Hne Hp]%list_elem_of_filter.
        rewrite is_mine_put2_field, decide_False by done. by apply Hfree.
      * apply filter_ne_length. done.
Qed.

(** [putmines(n)] returns once the draws have brought [n] different free
    cells, with [n] more mines on the field. *)
Lemma putmines_loop_returns (turns : list Z) :
  ∀ (w : world) (draws l : list (Z * Z)),
  valid w → uncounted w →
  Forall (λ p, inb xsize ysize p.1 p.2) draws →
  NoDup l → l ⊆ draws → (∀ p, p ∈ l → is_mine w p = false) →
  (length turns ≤ length l)%nat →
  ∃ w' rest, for_ (λ _ '(w, draws), putmine w draws) turns (w, draws) = Done (w', rest)
    ∧ valid w' ∧ uncounted w'
    ∧ mines w' = mines w ∧ mask w' = mask w
    ∧ length (mine_cells w') = (length (mine_cells w) + length turns)%nat.
Proof.
  induction turns as [|i turns IH]; intros w draws l Hv Hu Hdraws Hnd Hsub Hfree Hlen.
  - exists w, draws. simpl. split_and!; try done; lia.
  - simpl in Hlen. cbn [for_].
    destruct (putmine_returns draws w l) as
      (w1 & rest1 & l1 & -> & Hv1 & Hu1 & Hm1 & Hk1 & Hc1 & Hd1 & Hnd1 & Hsub1 & Hfree1 & Hlen1);
      try done; [lia|].
    destruct (IH w1 rest1 l1) as (w2 & rest2 & -> & Hv2 & Hu2 & Hm2 & Hk2 & Hc2);
      try done; [lia|].
    exists w2, rest2. split_and!; try done; try congruence.
    rewrite Hc2, Hc1. simpl. lia.
Qed.

(** The loop of [calccell] counts the mines around a cell with none in it. *)
Lemma calccell_count (w : world) (x y : Z) :
  valid w → inb xsize ysize x y → is_mine w (x, y) = false →
  for_ (λ dx cnt,
    for_ (λ dy cnt,
      if (x + dx >=? 0) && (y + dy >=? 0) && (x + dx <? xsize) && (y + dy <? ysize)
      then do u <- get2 (vvram w) (x + dx) (y + dy);
           Done (cnt + (if is_star u then 1 else 0))
      else Done cnt)
    (range2 (-1) 2) cnt)
  (range2 (-1) 2) 0
  = Done (Z.of_nat (mines_around w (x, y))).
Proof.
  intros Hv Hin Hself. unfold mines_around. rewrite neighbours_block.
  rewrite (for_nested (λ dx dy cnt,
    if (x + dx >=? 0) && (y + dy >=? 0) && (x + dx <? xsize) && (y + dy <? ysize)
    then do u <- get2 (vvram w) (x + dx) (y + dy);
         Done (cnt + (if is_star u then 1 else 0))
    else Done cnt) (range2 (-1) 2) (range2 (-1) 2) 0).
  change (dx ← range2 (-1) 2; (λ dy, (dx, dy)) <$> range2 (-1) 2) with block.
  rewrite (for_count (λ d : Z * Z,
             inbb xsize ysize (x + d.1) (y + d.2)
             && is_mine w (x + d.1, y + d.2))).
  - cbn [fst snd]. rewrite Z.add_0_l. do 3 f_equal. apply list_filter_iff. intros [dx dy]. cbn [fst snd].
    destruct (decide ((dx, dy) = (0, 0))) as [[= -> ->]|Hne].
    + rewrite !Z.add_0_r, Hself, andb_false_r. simpl. done.
    + assert (negb (dx =? 0) || negb (dy =? 0) = true) as ->; [|done].
      apply orb_true_iff. rewrite !negb_true_iff, !Z.eqb_neq.
      destruct (decide (dx = 0)) as [->|]; [right|by left].
      intros ->. done.
  - intros [dx dy] n _. cbn [fst snd]. rewrite field_guard.
    destruct (inbb xsize ysize (x + dx) (y + dy)) eqn:Hin'; cbn [andb];
      [|f_equal; lia].
    apply inbb_inb in Hin'.
    destruct (get2_rect _ _ _ _ _ (proj1 Hv) Hin') as (u & Hu & ->). cbn [bind].
    unfold is_mine. cbn [fst snd]. by rewrite Hu.
Qed.

Lemma is_mine_same_field (w w' : world) :
  valid w → valid w' →
  (∀ x y v, at2 (vvram w) x y = Some v →
     ∃ v', at2 (vvram w') x y = Some v' ∧ is_star v' = is_star v) →
  ∀ p, is_mine w' p = is_mine w p.
Proof.
  intros [Hr _] [Hr' _] Hsame [x y]. unfold is_mine. simpl.
  destruct (at2 (vvram w) x y) as [c|] eqn:Hc.
  - destruct (Hsame x y c Hc) as (c' & -> & ->). done.
  - destruct (at2 (vvram w') x y) as [c'|] eqn:Hc'; [|done].
    apply (at2_inb xsize ysize) in Hc'; [|done].
    destruct (at2_is_Some _ _ _ x y Hr Hc') as [? ?]. congruence.
Qed.

Lemma mines_around_same_field (w w' : world) :
  (∀ p, is_mine w' p = is_mine w p) → ∀ p, mines_around w' p = mines_around w p.
Proof.
  intros Hsame p. unfold mines_around. f_equal.
  apply list_filter_iff. intros q. by rewrite Hsame.
Qed.

Lemma mine_cells_same_field (w w' : world) :
  (∀ p, is_mine w' p = is_mine w p) → mine_cells w' = mine_cells w.
Proof.
  intros Hsame. unfold mine_cells. apply list_filter_iff. intros q. by rewrite Hsame.
Qed.

(** [calcfield()] returns, having replaced every 0 by the number of mines
    around the cell and left the mines where they are. *)
Lemma calcfield_returns (w : world) :
  valid w →
  ∃ w', calcfield w = Done w'
    ∧ valid w' ∧ mines w' = mines w ∧ mask w' = mask w
    ∧ ∀ x y v, at2 (vvram w) x y = Some v →
        at2 (vvram w') x y
        = Some (if is_zero v then Int (Z.of_nat (mines_around w (x, y))) else v).
Proof.
  intros Hv. unfold calcfield.
  set (final := λ (p : Z * Z) (v : value),
         if is_zero v then Int (Z.of_nat (mines_around w p)) else v).
  rewrite (for_nested (λ x y w, calccell w x y) (range xsize) (range ysize) w).
  change (x ← range xsize; (λ y, (x, y)) <$> range ysize) with (cells xsize ysize).
  destruct (for_invariant
    (λ (p : Z * Z) w, calccell w p.1 p.2)
    (λ pre w1,
       valid w1 ∧ mines w1 = mines w ∧ mask w1 = mask w
       ∧ ∀ x y v, at2 (vvram w) x y = Some v →
           at2 (vvram w1) x y
           = Some (if decide ((x, y) ∈ pre) then final (x, y) v else v))
    (cells xsize ysize) w) as (w' & Hrun & Hv' & Hm' & Hk' & Hcells).
  { split_and!; try done. }
  { intros pre [x y] post w1 Hsplit (Hv1 & Hm1 & Hk1 & Hg). cbn [fst snd].
    assert (inb xsize ysize x y) as Hin.
    { apply elem_of_cells. rewrite Hsplit. apply elem_of_app. right. left. }
    assert ((x, y) ∉ pre) as Hfresh.
    { pose proof (NoDup_cells xsize ysize) as Hnd.
      rewrite Hsplit in Hnd. apply NoDup_app in Hnd as (_ & Hnd & _).
      intros Hp. apply (Hnd _ Hp). left. }
    destruct (get2_rect _ _ _ x y (proj1 Hv) Hin) as (v & Hv0 & _).
    pose proof (Hg x y v Hv0) as Hgv. rewrite decide_False in Hgv by done.
    unfold calccell.
    destruct Hin as [Hx Hy]. rewrite get2_nonneg, Hgv by lia. cbn [bind].
    assert (∀ p, is_mine w1 p = is_mine w p) as Hmines.
    { apply is_mine_same_field; [done..|].
      intros x' y' v' Hv''. rewrite (Hg x' y' v' Hv'').
      eexists; split; [done|]. destruct (decide _); [|done].
      unfold final. by destruct v' as [[]|]. }
    destruct (is_zero v) eqn:Hzero.
    - rewrite calccell_count; [|done|done|].
      2:{ rewrite Hmines. unfold is_mine. cbn [fst snd]. rewrite Hv0.
          by destruct v as [[]|]. }
      cbn [bind]. rewrite (mines_around_same_field w w1) by done.
      rewrite set2_nonneg, Hgv by lia. cbn [bind].
      eexists. split; [done|]. split_and!; try done.
      + destruct Hv1. split; [by apply rect_put2|done].
      + intros x' y' v' Hv''. simpl.
        destruct (decide ((x', y') = (x, y))) as [[= -> ->]|Hne].
        * rewrite (at2_put2_eq _ _ _ _ _ Hgv). rewrite decide_True
            by (apply elem_of_app; right; left).
          simplify_eq. unfold final. by rewrite Hzero.
        * rewrite at2_put2_ne by (lia || done). rewrite (Hg x' y' v' Hv'').
          f_equal. destruct (decide ((x', y') ∈ pre)) as [Hp|Hp].
          -- rewrite decide_True; [done|]. apply elem_of_app. by left.
          -- rewrite decide_False; [done|].
             intros [?|?%list_elem_of_singleton]%elem_of_app; done.
    - exists w1. split; [done|]. split_and!; try done.
      intros x' y' v' Hv''. rewrite (Hg x' y' v' Hv'').
      destruct (decide ((x', y') = (x, y))) as [[= -> ->]|Hne].
      + rewrite decide_False by done. rewrite decide_True
          by (apply elem_of_app; right; left).
        simplify_eq. unfold final. by rewrite Hzero.
      + f_equal. destruct (decide ((x', y') ∈ pre)) as [Hp|Hp].
        * rewrite decide_True; [done|]. apply elem_of_app. by left.
        * rewrite decide_False; [done|].
          intros [?|?%list_elem_of_singleton]%elem_of_app; done. }
  exists w'. split; [done|]. split_and!; try done.
  intros x y v Hv0. rewrite (Hcells x y v Hv0).
  rewrite decide_True; [done|].
  apply elem_of_cells. apply (at2_inb _ _ (vvram w) _ _ v); [apply Hv|done].
Qed.

Lemma valid_world_init (n : Z) : valid (world_init n).
Proof. split; by apply rect_fresh_grid. Qed.

Lemma uncounted_world_init (n : Z) : uncounted (world_init n).
Proof.
  intros x y v Hv. simpl in Hv.
  assert (inb xsize ysize x y) as Hin.
  { eapply at2_inb; [|done]. by apply rect_fresh_grid. }
  rewrite at2_fresh_grid in Hv by done. left. congruence.
Qed.

(** [putmines(mines); calcfield()] on the initial globals. *)
Lemma field_returns (n : Z) (draws l : list (Z * Z)) :
  0 ≤ n →
  Forall (λ p, inb xsize ysize p.1 p.2) draws →
  NoDup l → l ⊆ draws → Z.of_nat (length l) = n →
  ∃ w1 rest w2,
    putmines n (world_init n) draws = Done (w1, rest)
    ∧ calcfield w1 = Done w2
    ∧ valid w2 ∧ mines w2 = n ∧ mask w2 = mask (world_init n)
    ∧ Z.of_nat (length (mine_cells w2)) = n
    ∧ counts_ok w2.
Proof.
  intros Hn Hdraws Hnd Hsub Hlen. unfold putmines.
  assert (∀ p, is_mine (world_init n) p = false) as Hnomine.
  { intros [x y]. unfold is_mine. cbn [fst snd].
    destruct (at2 (vvram (world_init n)) x y) as [v|] eqn:Hv; [|done].
    assert (inb xsize ysize x y) as Hin.
    { apply (at2_inb _ _ (vvram (world_init n)) _ _ v); [|done].
      apply valid_world_init. }
    simpl in Hv. rewrite at2_fresh_grid in Hv by done. by simplify_eq. }
  destruct (putmines_loop_returns (range n) (world_init n) draws l)
    as (w1 & rest & Hrun & Hv1 & Hu1 & Hm1 & Hk1 & Hc1).
  { apply valid_world_init. }
  { apply uncounted_world_init. }
  { done. }
  { done. }
  { done. }
  { intros p _. apply Hnomine. }
  { unfold range. rewrite length_seqZ. lia. }
  destruct (calcfield_returns w1 Hv1) as (w2 & Hrun2 & Hv2 & Hm2 & Hk2 & Hcells).
  assert (∀ p, is_mine w2 p = is_mine w1 p) as Hsame.
  { apply is_mine_same_field; [done..|].
    intros x y v Hv. rewrite (Hcells x y v Hv). eexists. split; [done|].
    by destruct v as [[]|]. }
  exists w1, rest, w2. split_and!; try done; try congruence.
  - by rewrite Hm2, Hm1.
  - rewrite (mine_cells_same_field w1 w2), Hc1 by done.
    unfold mine_cells at 1. rewrite filter_none by (intros p _; by rewrite Hnomine).
    unfold range. rewrite length_seqZ. simpl. lia.
  - intros x y v2 Hv2' Hstar.
    assert (inb xsize ysize x y) as Hin
      by (apply (at2_inb _ _ (vvram w2) _ _ v2); [apply Hv2|done]).
    destruct (get2_rect _ _ _ x y (proj1 Hv1) Hin) as (v1 & Hv1' & _).
    rewrite (Hcells x y v1 Hv1') in Hv2'. injection Hv2' as <-.
    rewrite (mines_around_same_field w1 w2) by done.
    destruct (Hu1 x y v1 Hv1') as [->| ->]; [done|]. simpl in Hstar. done.
Qed.

Lemma putmine_valid (draws : list (Z * Z)) : ∀ (w w' : world) (rest : list (Z * Z)),
  valid w → uncounted w →
  Forall (λ p, inb xsize ysize p.1 p.2) draws →
  putmine w draws = Done (w', rest) →
  valid w' ∧ uncounted w' ∧ Forall (λ p, inb xsize ysize p.1 p.2) rest.
Proof.
  induction draws as [|[x y] more IH]; intros w w' rest Hv Hu Hdraws Hrun; [done|].
  apply Forall_cons in Hdraws as [Hin Hdraws]. simpl in Hin, Hrun.
  destruct (get2_rect _ _ _ x y (proj1 Hv) Hin) as (v & Hv0 & Hget).
  rewrite Hget in Hrun. cbn [bind] in Hrun.
  destruct (is_zero v); [|by eapply IH].
  rewrite (set2_rect _ _ _ x y _ (proj1 Hv) Hin) in Hrun. cbn [bind] in Hrun.
  injection Hrun as <- <-. split_and!; [|intros x' y' v' Hv''|done].
  - destruct Hv. split; [by apply rect_put2|done].
  - simpl in Hv''.
    destruct (decide ((x, y) = (x', y'))) as [[= <- <-]|Hne].
    + rewrite (at2_put2_eq _ _ _ _ _ Hv0) in Hv''. right. congruence.
    + destruct Hin. rewrite at2_put2_ne in Hv'' by (lia || done). by eapply Hu.
Qed.

Lemma putmines_valid (n : Z) (w w' : world) (draws rest : list (Z * Z)) :
  valid w → uncounted w →
  Forall (λ p, inb xsize ysize p.1 p.2) draws →
  putmines n w draws = Done (w', rest) →
  valid w' ∧ uncounted w'.
Proof.
  unfold putmines. generalize (range n). intros turns. revert w draws.
  induction turns as [|i turns IH]; intros w draws Hv Hu Hdraws Hrun.
  - simpl in Hrun. by simplify_eq.
  - cbn [for_] in Hrun.
    destruct (putmine w draws) as [[w1 rest1]|] eqn:Hput; [|done].
    apply putmine_valid in Hput as (Hv1 & Hu1 & Hd1); [|done..].
    by eapply IH.
Qed.

Lemma calcfield_counts (w1 w2 : world) :
  valid w1 → uncounted w1 → calcfield w1 = Done w2 →
  valid w2 ∧ counts_ok w2 ∧ ∀ p, is_mine w2 p = is_mine w1 p.
Proof.
  intros Hv1 Hu1 Hrun.
  destruct (calcfield_returns w1 Hv1) as (w & Hrun2 & Hv2 & Hm2 & Hk2 & Hcells).
  rewrite Hrun in Hrun2. injection Hrun2 as <-.
  assert (∀ p, is_mine w2 p = is_mine w1 p) as Hsame.
  { apply is_mine_same_field; [done..|].
    intros x y v Hv. rewrite (Hcells x y v Hv). eexists. split; [done|].
    by destruct v as [[]|]. }
  split_and!; try done.
  intros x y v2 Hv2' Hstar.
  assert (inb xsize ysize x y) as Hin
    by (apply (at2_inb _ _ (vvram w2) _ _ v2); [apply Hv2|done]).
  destruct (get2_rect _ _ _ x y (proj1 Hv1) Hin) as (v1 & Hv1' & _).
  rewrite (Hcells x y v1 Hv1') in Hv2'. injection Hv2' as <-.
  rewrite (mines_around_same_field w1 w2) by done.
  destruct (Hu1 x y v1 Hv1') as [->| ->]; [done|]. simpl in Hstar. done.
Qed.
End MineBuild.

(** * nyankosweeper.py: marks, the win test and the turn loop *)
Module NyankoGame.
Import Nyankosweeper NyankoFacts.

(** [all_clear] says that every cell without a mine is revealed. *)
Lemma all_clear_spec (b : Board) :
  all_clear b = true ↔
  ∀ x y c, cell_at b x y = Some c → mine c = false → revealed c = true.
Proof.
  unfold all_clear, cell_at. split.
  - intros Hall x y c Hc Hm. unfold at2 in Hc.
    destruct ((0 <=? x) && (0 <=? y)); [|done].
    destruct (grid b !! Z.to_nat x) as [col|] eqn:Hcol; [|done].
    apply Is_true_true, forallb_True in Hall.
    rewrite Forall_lookup in Hall. specialize (Hall _ _ Hcol).
    apply forallb_True in Hall. rewrite Forall_lookup in Hall.
    specialize (Hall _ _ Hc). rewrite Hm, orb_false_r in Hall.
    by apply Is_true_true.
  - intros Hall. apply Is_true_true, forallb_True, Forall_lookup.
    intros i col Hcol. apply forallb_True, Forall_lookup. intros j c Hc.
    apply Is_true_true. destruct (mine c) eqn:Hm; [by rewrite orb_true_r|].
    rewrite orb_false_r. apply (Hall (Z.of_nat i) (Z.of_nat j)); [|done].
    rewrite at2_of_nat, Hcol. done.
Qed.

(** Revealing or hiding a mine does not change [all_clear]. *)
Lemma all_clear_mine (b : Board) (x y : Z) (c : Cell) (v : bool) :
  cell_at b x y = Some c → mine c = true →
  all_clear (with_grid b (put2 (grid b) x y (set_revealed v c))) = all_clear b.
Proof.
  intros Hc Hm. unfold cell_at in Hc.
  assert (0 ≤ x ∧ 0 ≤ y) as [Hx Hy].
  { unfold at2 in Hc. destruct (Z.leb_spec 0 x), (Z.leb_spec 0 y); done. }
  apply eq_true_iff_eq. rewrite !all_clear_spec. unfold cell_at. simpl.
  split; intros Hall x' y' c' Hc' Hm'.
  - destruct (decide ((x, y) = (x', y'))) as [[= <- <-]|Hne]; [congruence|].
    apply (Hall x' y'); [|done]. by rewrite at2_put2_ne.
  - destruct (decide ((x, y) = (x', y'))) as [[= <- <-]|Hne].
    + rewrite (at2_put2_eq _ _ _ _ _ Hc) in Hc'. simplify_eq. simpl in Hm'. congruence.
    + rewrite at2_put2_ne in Hc' by done. by apply (Hall x' y').
Qed.

(** ** Marks *)

Lemma toggle_mark_unrevealed (b : Board) (x y : Z) (c : Cell) :
  0 ≤ x → 0 ≤ y → cell_at b x y = Some c → revealed c = false →
  toggle_mark b x y
  = Done (with_grid b (put2 (grid b) x y (set_mark ((mark c + 1) `mod` 3) c))).
Proof.
  intros Hx Hy Hc Hr. unfold toggle_mark, cell_at in *.
  rewrite get2_nonneg, Hc by done. cbn [bind]. rewrite Hr. cbn [negb].
  rewrite set2_nonneg, Hc by done. done.
Qed.

Lemma toggle_mark_revealed (b : Board) (x y : Z) (c : Cell) :
  0 ≤ x → 0 ≤ y → cell_at b x y = Some c → revealed c = true →
  toggle_mark b x y = Done b.
Proof.
  intros Hx Hy Hc Hr. unfold toggle_mark, cell_at in *.
  rewrite get2_nonneg, Hc by done. cbn [bind]. by rewrite Hr.
Qed.

(** ** Calls of [reveal] that change nothing *)

Lemma reveal_stopped (depth : nat) (b : Board) (x y : Z) (c : Cell) :
  0 ≤ x → 0 ≤ y → cell_at b x y = Some c →
  revealed c = true ∨ mark c = 1 ∨ mark c = 2 →
  reveal (S depth) b x y = Done b.
Proof.
  intros Hx Hy Hc Hstop. unfold cell_at in Hc. cbn [reveal].
  rewrite get2_nonneg, Hc by done. cbn [bind]. unfold reveal_stops.
  destruct (revealed c); [done|].
  destruct Hstop as [?|[-> | ->]]; done.
Qed.

(** The reveal key on a cell without a mine that is marked or revealed. *)
Lemma handle_reveal_stopped (depth : nat) (gm : Game) (t : tty) (c : Cell) :
  0 ≤ cursor_x gm → 0 ≤ cursor_y gm →
  cell_at (board gm) (cursor_x gm) (cursor_y gm) = Some c →
  mine c = false → revealed c = true ∨ mark c = 1 ∨ mark c = 2 →
  handle_reveal (S depth) gm t = Done (gm, t).
Proof.
  intros Hx Hy Hc Hm Hstop. unfold handle_reveal.
  pose proof Hc as Hc'. unfold cell_at in Hc'.
  rewrite get2_nonneg, Hc' by done. cbn [bind]. rewrite Hm.
  rewrite (reveal_stopped depth _ _ _ c) by done. cbn [bind]. by destruct gm.
Qed.

(** ** The turn loop *)

Lemma handle_win_shown (gm gm' : Game) (t t' : tty) :
  handle_win gm t = Done (gm', t') →
  shown t' = shown t ++ ["You win. hit key"%string].
Proof.
  unfold handle_win. destruct (each_cell _ _); [|done]. cbn [bind].
  unfold getkey_raw, show_message. simpl. destruct (keys t); [done|].
  simpl. by intros [= <- <-].
Qed.

(** [Game.run] returns 0 after the win message, and 1 otherwise. *)
Lemma run_turns_code (turns depth : nat) : ∀ gm t code gm' t',
  run_turns turns depth gm t = Done (code, gm', t') →
  (code = 0 ∧ last (shown t') = Some "You win. hit key"%string) ∨ code = 1.
Proof.
  induction turns as [|turns IH]; intros gm t code gm' t' Hrun; [done|].
  cbn [run_turns] in Hrun.
  destruct (negb (game_over gm) && all_clear (board gm)).
  - destruct (handle_win gm t) as [[gm1 t1]|] eqn:Hwin; [|done].
    cbn [bind] in Hrun. injection Hrun as <- <- <-. left. split; [done|].
    rewrite (handle_win_shown _ _ _ _ Hwin). apply last_snoc.
  - destruct (getkey_raw t) as [[key t1]|]; [|done]. cbn [bind] in Hrun.
    destruct (handle_key depth gm key t1) as [[[continue gm2] t2]|]; [|done].
    cbn [bind] in Hrun. destruct continue; [by eapply IH|].
    injection Hrun as <- <- <-. by right.
Qed.

(** The script ends with status 0 whenever [Game.run] returns, whatever
    the code it returns. *)
Lemma run_exit_status (depth : nat) (argv : list word) (draws : list (Z * Z))
    (t : tty) (n : Z) (gm : Game) (r : Z * Game * tty) :
  get_mine_count argv = Done n → Game_init n draws = Done gm →
  Game_run depth gm t = Done r →
  exit_status (run depth argv draws t) = Some 0.
Proof.
  intros Hn Hgm Hrun. unfold run. rewrite Hn. cbn [bind].
  rewrite Hgm. cbn [bind]. by rewrite Hrun.
Qed.

(** More than 300 mines: the script stops before there is a game. *)
Lemma get_mine_count_too_many (prog : word) (n : Z) :
  Config.MAX_MINES < n →
  get_mine_count [prog; Numeral n] = Raise (SystemExit 1 "too many nyankos").
Proof.
  intros Hn. unfold get_mine_count. simpl.
  destruct (Z.gtb_spec n Config.MAX_MINES); [done|lia].
Qed.

Lemma get_mine_count_accepts (prog : word) (n : Z) :
  n ≤ Config.MAX_MINES → get_mine_count [prog; Numeral n] = Done n.
Proof.
  intros Hn. unfold get_mine_count. simpl.
  destruct (Z.gtb_spec n Config.MAX_MINES); [lia|done].
Qed.

(** ** No mine next to a zero cell *)

Lemma zero_no_mine_near (b : Board) (q c : Z * Z) :
  counts_ok b → spreads (grid b) q.1 q.2 = true →
  Flood.near (width b) (height b) q c → is_mine (grid b) c = false.
Proof.
  intros Hcounts Hz [Hin Hd]. unfold spreads in Hz.
  destruct (at2 (grid b) q.1 q.2) as [cq|] eqn:Hq; [|done].
  apply andb_true_iff in Hz as [Hadj%Z.eqb_eq Hm%negb_true_iff].
  pose proof (Hcounts q.1 q.2 cq Hq Hm) as Hcount. rewrite Hadj in Hcount.
  unfold mines_around in Hcount. rewrite <- surjective_pairing in Hcount.
  destruct (is_mine (grid b) c) eqn:Hc; [|done].
  assert (cheb q c = 0 ∨ cheb q c = 1) as [H0|H1] by (unfold cheb in *; lia).
  - assert (c = q) as ->.
    { destruct q, c. unfold cheb in H0. simpl in *. f_equal; lia. }
    unfold is_mine in Hc. rewrite Hq in Hc. congruence.
  - assert (c ∈ filter (λ q0, is_mine (grid b) q0 = true)
                  (neighbours (width b) (height b) q)) as Hmem.
    { apply list_elem_of_filter. split; [done|]. unfold neighbours.
      apply list_elem_of_filter. split; [done|]. destruct c. by apply elem_of_cells. }
    destruct (filter _ (neighbours (width b) (height b) q)); [|simpl in Hcount; lia].
    by apply elem_of_nil in Hmem.
Qed.

Lemma reached_no_mine (b : Board) (p c : Z * Z) :
  counts_ok b → is_mine (grid b) p = false →
  reached b p c → is_mine (grid b) c = false.
Proof.
  intros Hcounts Hp Hr.
  apply FloodFacts.reach_next_to_zero in Hr as [->|(q & Hz & Hn)]; [done|].
  by eapply zero_no_mine_near.
Qed.

(** ** A mine count of zero or less *)

Lemma Board_init_no_mines (n : Z) (draws : list (Z * Z)) :
  n ≤ 0 →
  ∃ b, Board_init n draws = Done b ∧ mine_cells b = [] ∧ Board_ok b
       ∧ width b = Config.XSIZE ∧ height b = Config.BOARD_HEIGHT.
Proof.
  intros Hn. unfold Board_init, place_mines.
  set (b0 := mkBoard Config.XSIZE Config.BOARD_HEIGHT n
               (fresh_grid Config.XSIZE Config.BOARD_HEIGHT Cell_init)).
  assert (∀ b, mines b ≤ 0 → place_mines_from b 0 draws = Done b) as Hplace.
  { intros b Hb. destruct draws; simpl; by destruct (Z.ltb_spec 0 (mines b)); [lia|]. }
  rewrite Hplace by done. cbn [bind].
  assert (∀ x y c, at2 (grid b0) x y = Some c → c = Cell_init) as Hfresh.
  { intros x y c Hc. simpl in Hc.
    assert (inb Config.XSIZE Config.BOARD_HEIGHT x y) as Hin.
    { eapply at2_inb; [|done]. by apply rect_fresh_grid. }
    rewrite at2_fresh_grid in Hc by done. congruence. }
  assert (Board_ok b0) as Hv0.
  { split; [by apply rect_fresh_grid|].
    intros x y c Hc. by rewrite (Hfresh x y c Hc). }
  destruct (NyankoBuild.calculate_adjacents_returns b0 Hv0)
    as (b & Hrun & Hw & Hh & _ & Hv & _).
  destruct (NyankoBuild.calculate_adjacents_counts b0 b Hv0 Hrun)
    as (_ & _ & _ & _ & Hsame).
  exists b. split; [exact Hrun|]. split; [|split; [exact Hv|split; [exact Hw|exact Hh]]].
  rewrite (NyankoBuild.mine_cells_same b0 b Hw Hh Hsame).
  unfold mine_cells. apply filter_none. intros [x y] _. unfold is_mine. cbn [fst snd].
  destruct (at2 (grid b0) x y) as [c|] eqn:Hc; [|by intros ?].
  rewrite (Hfresh x y c Hc). by intros ?.
Qed.
End NyankoGame.

(** * minesweeper.py: marks, the win test and the turn loop *)
Module MineGame.
Import Minesweeper MineFacts.

(** [endcheck] compares the number of cells masked ['#'] or ['@'] with
    [mines]. *)
Lemma endcheck_spec (w : world) :
  valid w →
  endcheck w
  = Done (Z.of_nat (length (filter (λ p, counted w p = true) (cells xsize ysize)))
          =? mines w).
Proof.
  intros [_ Hrect]. unfold endcheck.
  change (getitem aca 0) with (Done "#"%char).
  change (getitem aca 1) with (Done "@"%char). cbn [bind].
  rewrite (for_nested (λ x y c,
    do m <- get2 (mask w) x y;
    Done (c + (if Ascii.eqb m "#" || Ascii.eqb m "@" then 1 else 0)))
    (range xsize) (range ysize) 0).
  change (x ← range xsize; (λ y, (x, y)) <$> range ysize) with (cells xsize ysize).
  rewrite (for_count (counted w)); [by rewrite Z.add_0_l|].
  intros [x y] n Hin%elem_of_cells. cbn [fst snd].
  destruct (get2_rect _ _ _ x y Hrect Hin) as (m & Hm & ->). cbn [bind].
  unfold counted. cbn [fst snd]. by rewrite Hm.
Qed.

(** ** Marks *)

Lemma toggle_marked (w : world) (x y : Z) (m : ascii) :
  0 ≤ x → 0 ≤ y → at2 (mask w) x y = Some m →
  m = "#"%char ∨ m = "@"%char ∨ m = "?"%char →
  toggle w x y = Done (with_mask w (put2 (mask w) x y (next_mark m))).
Proof.
  intros Hx Hy Hm Hmark. unfold toggle.
  rewrite get2_nonneg, Hm by done. cbn [bind].
  destruct Hmark as [->|[->| ->]].
  - change (index_of aca "#") with (Done 0). cbn [bind].
    change (getitem aca ((0 + 1) `mod` 3)) with (Done "@"%char). cbn [bind].
    by rewrite set2_nonneg, Hm.
  - change (index_of aca "@") with (Done 1). cbn [bind].
    change (getitem aca ((1 + 1) `mod` 3)) with (Done "?"%char). cbn [bind].
    by rewrite set2_nonneg, Hm.
  - change (index_of aca "?") with (Done 2). cbn [bind].
    change (getitem aca ((2 + 1) `mod` 3)) with (Done "#"%char). cbn [bind].
    by rewrite set2_nonneg, Hm.
Qed.

(** ** Calls of [reveal] on a blank or on a marked cell *)

Lemma reveal_blank (depth : nat) (w : world) (x y : Z) (v : value) :
  0 ≤ x → 0 ≤ y → at2 (vvram w) x y = Some v → at2 (mask w) x y = Some blank →
  reveal (S depth) w x y = Done w.
Proof.
  intros Hx Hy Hv Hm. cbn [reveal].
  rewrite !get2_nonneg, Hv, Hm by done. cbn [bind].
  rewrite Ascii.eqb_refl. cbn [negb]. by rewrite !andb_false_r.
Qed.

Lemma reveal_blanks_cell (depth : nat) (w : world) (x y : Z) :
  valid w → inb xsize ysize x y → (cells_left w < depth)%nat →
  ∃ w', reveal depth w x y = Done w' ∧ at2 (mask w') x y = Some blank.
Proof.
  intros Hv Hin Hd.
  destruct (reveal_returns_field depth w x y Hv Hin Hd) as (w' & Hrun & Hf).
  exists w'. split; [done|].
  destruct (Flood.flooded_ok _ _ _ _ _ _ _ _ Hf) as [[_ Hrect] _].
  pose proof (Flood.flooded_here _ _ _ _ _ _ _ _ Hf) as Hhere.
  simpl in Hhere. unfold covered in Hhere.
  destruct (at2_is_Some _ _ _ x y Hrect Hin) as [m Hm]. rewrite Hm in *.
  apply negb_false_iff, Ascii.eqb_eq in Hhere. by subst.
Qed.

(** ** The turn loop *)

Lemma mainloop_from_eq (depth : nat) (pending : list string) (x y : Z)
    (w : world) (log : list string) :
  mainloop_from depth pending x y w log
  = do won <- endcheck w;
    if won then
      do '(_, t) <- getkey (show_message "You win. hit key" (mkTty pending log));
      Done (0, (x, y), w, t)
    else
      match pending with
      | [] => Raise NoMoreKeys
      | k :: rest =>
          let c := keymap k in
          if String.eqb c "4" then
            mainloop_from depth rest (x - (if negb (x =? 0) then 1 else 0)) y w log
          else if String.eqb c "6" then
            mainloop_from depth rest (x + (if negb (x =? xsize - 1) then 1 else 0)) y w log
          else if String.eqb c "8" then
            mainloop_from depth rest x (y - (if negb (y =? 0) then 1 else 0)) w log
          else if String.eqb c "2" then
            mainloop_from depth rest x (y + (if negb (y =? ysize - 1) then 1 else 0)) w log
          else
            do m <- (if String.eqb c "z" then get2 (mask w) x y else Done blank);
            if String.eqb c "z" && negb (Ascii.eqb m blank) then
              do w <- toggle w x y;
              mainloop_from depth rest x y w log
            else if String.eqb c " " then
              do v <- get2 (vvram w) x y;
              if is_star v then
                do '(_, t) <- getkey (show_message "You lose. hit key" (mkTty rest log));
                Done (-1, (x, y), w, t)
              else
                do w <- reveal depth w x y;
                mainloop_from depth rest x y w log
            else if String.eqb c "q" then Done (1, (x, y), w, mkTty rest log)
            else mainloop_from depth rest x y w log
      end.
Proof. by destruct pending. Qed.

(** [mainloop] returns 0 after the win message, -1 after the loss message
    with the cursor on a mine, and 1 on ['q']. *)
Lemma mainloop_from_code (depth : nat) (pending : list string) :
  ∀ x y w log code xy w' t',
  mainloop_from depth pending x y w log = Done (code, xy, w', t') →
  (code = 0 ∧ endcheck w' = Done true
     ∧ shown t' = log ++ ["You win. hit key"%string])
  ∨ (code = -1 ∧ (∃ v, get2 (vvram w') xy.1 xy.2 = Done v ∧ is_star v = true)
     ∧ shown t' = log ++ ["You lose. hit key"%string])
  ∨ (code = 1 ∧ shown t' = log).
Proof.
  induction pending as [|k rest IH]; intros x y w log code xy w' t' Hrun;
    rewrite mainloop_from_eq in Hrun;
    destruct (endcheck w) as [[]|] eqn:Hend; cbn [bind] in Hrun; try done.
  - unfold getkey, getkey_raw, show_message in Hrun. simpl in Hrun.
    injection Hrun as <- <- <- <-. left. by split_and!.
  - cbv zeta in Hrun.
    repeat (match type of Hrun with
            | context [if (keymap k =? ?s)%string then _ else _] =>
                destruct (keymap k =? s)%string eqn:?
            end; [by eapply IH|]).
    cbn [andb] in Hrun.
    match type of Hrun with
    | context [(keymap k =? "z")%string] => destruct (keymap k =? "z")%string eqn:Hz
    end.
    + destruct (get2 (mask w) x y) as [m|]; [|done]. cbn [bind andb] in Hrun.
      destruct (negb (Ascii.eqb m blank)).
      * destruct (toggle w x y); [|done]. by eapply IH.
      * match type of Hrun with
        | context [(keymap k =? " ")%string] =>
            assert ((keymap k =? " ")%string = false) as Hsp
        end.
        { apply String.eqb_eq in Hz. by rewrite Hz. }
        rewrite Hsp in Hrun.
        destruct (keymap k =? "q")%string; [|by eapply IH].
        injection Hrun as <- <- <- <-. right. right. done.
    + cbn [bind andb] in Hrun.
      destruct (keymap k =? " ")%string.
      * destruct (get2 (vvram w) x y) as [v|] eqn:Hv; [|done]. cbn [bind] in Hrun.
        destruct (is_star v) eqn:Hstar.
        -- unfold getkey, getkey_raw, show_message in Hrun. simpl in Hrun.
           destruct rest as [|k' rest']; [done|]. simpl in Hrun.
           injection Hrun as <- <- <- <-. right. left. split_and!; try done.
           by exists v.
        -- destruct (reveal depth w x y); [|done]. by eapply IH.
      * destruct (keymap k =? "q")%string; [|by eapply IH].
        injection Hrun as <- <- <- <-. right. right. done.
Qed.

(** The reveal key on a mine: the loss message, one more key, and
    [mainloop] returns -1 with the rest of the keys unread. *)
Lemma mainloop_from_lost (depth : nat) (k : string) (rest : list string)
    (x y : Z) (w : world) (log : list string) (v : value) :
  endcheck w = Done false →
  get2 (vvram w) x y = Done v → is_star v = true →
  mainloop_from depth (" "%string :: k :: rest) x y w log
  = Done (-1, (x, y), w, mkTty rest (log ++ ["You lose. hit key"%string])).
Proof.
  intros Hend Hv Hstar. rewrite mainloop_from_eq, Hend. cbn [bind].
  cbv zeta. change (keymap " ") with " "%string. cbn [String.eqb Ascii.eqb].
  simpl (_ =? _)%string. cbn [bind andb]. rewrite Hv. cbn [bind]. by rewrite Hstar.
Qed.

(** The script ends with status 0 whenever [mainloop] returns, whatever
    the code it returns. *)
Lemma script_exit_status (depth : nat) (argv : list word) (draws rest : list (Z * Z))
    (t : tty) (n : Z) (w1 w2 : world) (r : Z * (Z * Z) * world * tty) :
  startup argv = Done n →
  putmines n (world_init n) draws = Done (w1, rest) →
  calcfield w1 = Done w2 →
  mainloop depth w2 t = Done r →
  exit_status (script depth argv draws t) = Some 0.
Proof.
  intros Hn Hput Hcalc Hrun. unfold script, game. rewrite Hn. cbn [bind].
  change (mines (world_init n)) with n. rewrite Hput. cbn [bind].
  rewrite Hcalc. cbn [bind]. by rewrite Hrun.
Qed.

Lemma startup_too_many (prog : word) (n : Z) :
  300 < n → startup [prog; Numeral n] = Raise (SystemExit 1 "too many mines").
Proof.
  intros Hn. unfold startup. simpl. destruct (Z.gtb_spec n 300); [done|lia].
Qed.

Lemma startup_accepts (prog : word) (n : Z) :
  n ≤ 300 → startup [prog; Numeral n] = Done n.
Proof.
  intros Hn. unfold startup. simpl. destruct (Z.gtb_spec n 300); [lia|done].
Qed.

(** ** No mine next to a zero cell *)

Lemma zero_no_mine_near_field (w : world) (q c : Z * Z) :
  valid w → counts_ok w → spreads w q.1 q.2 = true →
  Flood.near xsize ysize q c → is_mine w c = false.
Proof.
  intros Hv Hcounts Hz [Hin Hd]. unfold spreads in Hz.
  destruct (at2 (vvram w) q.1 q.2) as [v|] eqn:Hq; [|done].
  assert (is_star v = false) as Hstar by (by destruct v as [[]|]).
  pose proof (Hcounts q.1 q.2 v Hq Hstar) as Hcount.
  destruct v as [[]|]; try done. injection Hcount as Hcount.
  unfold mines_around in Hcount. rewrite <- surjective_pairing in Hcount.
  destruct (is_mine w c) eqn:Hc; [|done].
  assert (cheb q c = 0 ∨ cheb q c = 1) as [H0|H1] by (unfold cheb in *; lia).
  - assert (c = q) as ->.
    { destruct q, c. unfold cheb in H0. simpl in *. f_equal; lia. }
    unfold is_mine in Hc. rewrite Hq in Hc. done.
  - assert (c ∈ filter (λ q0, is_mine w q0 = true) (neighbours xsize ysize q)) as Hmem.
    { apply list_elem_of_filter. split; [done|]. unfold neighbours.
      apply list_elem_of_filter. split; [done|]. destruct c. by apply elem_of_cells. }
    destruct (filter _ (neighbours xsize ysize q)); [|simpl in Hcount; lia].
    by apply elem_of_nil in Hmem.
Qed.

Lemma reached_no_mine_field (w : world) (p c : Z * Z) :
  valid w → counts_ok w → is_mine w p = false →
  reached w p c → is_mine w c = false.
Proof.
  intros Hv Hcounts Hp Hr.
  apply FloodFacts.reach_next_to_zero in Hr as [->|(q & Hz & Hn)]; [done|].
  by eapply zero_no_mine_near_field.
Qed.
End MineGame.

(** * The properties of the specification *)

Lemma board_empty_init : Nyankosweeper.Board_init 0 [] = Done Plays.board_empty.
Proof. vm_compute. reflexivity. Qed.

Lemma board_empty_ok :
  Nyankosweeper.Board_ok Plays.board_empty ∧ Nyankosweeper.counts_ok Plays.board_empty.
Proof.
  destruct (NyankoBuild.Board_init_counts 0 [] Plays.board_empty) as (? & ? & _).
  - constructor.
  - exact board_empty_init.
  - split; assumption.
Qed.

Lemma board_flagged_toggle :
  Nyankosweeper.toggle_mark Plays.board_empty 20 11 = Done Plays.board_flagged.
Proof. vm_compute. reflexivity. Qed.

Lemma game_centre_init : Nyankosweeper.Game_init 1 [(20, 11)] = Done Plays.game_centre.
Proof. vm_compute. reflexivity. Qed.

Lemma game_centre_ok :
  Nyankosweeper.Board_ok (Nyankosweeper.board Plays.game_centre)
  ∧ Nyankosweeper.counts_ok (Nyankosweeper.board Plays.game_centre).
Proof.
  destruct (NyankoBuild.Board_init_counts 1 [(20, 11)]
              (Nyankosweeper.board Plays.game_centre)) as (? & ? & _).
  - repeat constructor; simpl; lia.
  - vm_compute. reflexivity.
  - split; assumption.
Qed.

Lemma field_of_ok (n : Z) (draws l : list (Z * Z)) :
  0 ≤ n →
  Forall (λ p, inb Minesweeper.xsize Minesweeper.ysize p.1 p.2) draws →
  NoDup l → l ⊆ draws → Z.of_nat (length l) = n →
  Minesweeper.valid (Plays.field_of n draws)
  ∧ Minesweeper.counts_ok (Plays.field_of n draws)
  ∧ Minesweeper.mines (Plays.field_of n draws) = n.
Proof.
  intros Hn Hdraws Hnd Hsub Hlen.
  destruct (MineBuild.field_returns n draws l Hn Hdraws Hnd Hsub Hlen)
    as (w1 & rest & w2 & Hput & Hcalc & Hv & Hm & _ & _ & Hc).
  unfold Plays.field_of. rewrite Hput, Hcalc. split; [|split]; assumption.
Qed.

Lemma field_centre_eq : Plays.field_centre = Plays.field_of 1 [(20, 11)].
Proof. vm_compute. reflexivity. Qed.

Lemma field_origin_eq : Plays.field_origin = Plays.field_of 1 [(0, 0)].
Proof. vm_compute. reflexivity. Qed.

Lemma field_corner_eq : Plays.field_corner = Plays.field_of 2 [(0, 1); (1, 0)].
Proof. vm_compute. reflexivity. Qed.

Lemma field_centre_ok :
  Minesweeper.valid Plays.field_centre ∧ Minesweeper.counts_ok Plays.field_centre.
Proof.
  rewrite field_centre_eq.
  destruct (field_of_ok 1 [(20, 11)] [(20, 11)]) as (? & ? & _).
  - lia.
  - repeat constructor; simpl; lia.
  - apply NoDup_singleton.
  - intros p Hp. exact Hp.
  - reflexivity.
  - split; assumption.
Qed.

Lemma field_origin_ok :
  Minesweeper.valid Plays.field_origin ∧ Minesweeper.counts_ok Plays.field_origin.
Proof.
  rewrite field_origin_eq.
  destruct (field_of_ok 1 [(0, 0)] [(0, 0)]) as (? & ? & _).
  - lia.
  - repeat constructor; simpl; lia.
  - apply NoDup_singleton.
  - intros p Hp. exact Hp.
  - reflexivity.
  - split; assumption.
Qed.

(** ** C8: the recursive reveal terminates *)

(** C8. The recursive flood-fill reveal terminates on every valid board
    and every cell of it, in both games.  The call returns for every
    depth budget above the number of cells still to uncover, which is at
    most the number of cells of the grid, and always with the same
    result; a call on a cell that is already revealed (or, in
    nyankosweeper, marked) returns the board unchanged; any other call
    leaves strictly fewer cells to uncover. *)
Theorem reveal_terminates :
  (∀ (b : Nyankosweeper.Board) (x y : Z),
     Nyankosweeper.Board_ok b →
     inb (Nyankosweeper.width b) (Nyankosweeper.height b) x y →
     ∃ b',
       (∀ depth, (Nyankosweeper.cells_left b < depth)%nat →
          Nyankosweeper.reveal depth b x y = Done b')
       ∧ Z.of_nat (Nyankosweeper.cells_left b)
         ≤ Nyankosweeper.width b * Nyankosweeper.height b
       ∧ (Nyankosweeper.covered (Nyankosweeper.grid b) x y = false → b' = b)
       ∧ (Nyankosweeper.covered (Nyankosweeper.grid b) x y = true →
            (Nyankosweeper.cells_left b' < Nyankosweeper.cells_left b)%nat))
  ∧ (∀ (w : Minesweeper.world) (x y : Z),
       Minesweeper.valid w → inb Minesweeper.xsize Minesweeper.ysize x y →
       ∃ w',
         (∀ depth, (Minesweeper.cells_left w < depth)%nat →
            Minesweeper.reveal depth w x y = Done w')
         ∧ Z.of_nat (Minesweeper.cells_left w)
           ≤ Minesweeper.xsize * Minesweeper.ysize
         ∧ (Minesweeper.covered w x y = false → w' = w)
         ∧ (Minesweeper.covered w x y = true →
              (Minesweeper.cells_left w' < Minesweeper.cells_left w)%nat)).
Proof.
  split.
  - intros b x y Hv Hin.
    destruct (NyankoFacts.reveal_total b x y Hv Hin) as (b' & Hrun & Hsame & Hlt & _).
    exists b'. split_and!; try done.
    apply NyankoFacts.cells_left_le; destruct Hin; lia.
  - intros w x y Hv Hin.
    destruct (MineFacts.reveal_total_field w x y Hv Hin) as (w' & Hrun & Hsame & Hlt & _).
    exists w'. split_and!; try done. apply MineFacts.pending_le_field.
Qed.

Lemma reveal_terminates_witness :
  (∃ b', (∀ depth,
            (Nyankosweeper.cells_left (Nyankosweeper.board Plays.game_centre) < depth)%nat →
            Nyankosweeper.reveal depth (Nyankosweeper.board Plays.game_centre) 0 0
            = Done b')
         ∧ Z.of_nat (Nyankosweeper.cells_left (Nyankosweeper.board Plays.game_centre))
           ≤ 40 * 22)
  ∧ (∃ w', (∀ depth, (Minesweeper.cells_left Plays.field_centre < depth)%nat →
              Minesweeper.reveal depth Plays.field_centre 0 0 = Done w')
           ∧ Z.of_nat (Minesweeper.cells_left Plays.field_centre) ≤ 40 * 23).
Proof.
  split.
  - destruct (proj1 reveal_terminates (Nyankosweeper.board Plays.game_centre) 0 0)
      as (b' & Hrun & Hle & _).
    + exact (proj1 game_centre_ok).
    + vm_compute. repeat split; discriminate.
    + exists b'. split; [exact Hrun|exact Hle].
  - destruct (proj2 reveal_terminates Plays.field_centre 0 0)
      as (w' & Hrun & Hle & _).
    + exact (proj1 field_centre_ok).
    + vm_compute. repeat split; discriminate.
    + exists w'. split; [exact Hrun|exact Hle].
Defined.

(** ** C2: what one call of reveal uncovers *)

(** A flag inside the zero region: the flagged cell (20, 11) of the
    empty board lies in the zero region around (19, 11), and the call on
    (19, 11) leaves it unrevealed. *)
Lemma reveal_leaves_flagged_zero_cell :
  ∃ c b' c',
    Nyankosweeper.cell_at Plays.board_flagged 19 11 = Some c
    ∧ Nyankosweeper.mine c = false ∧ Nyankosweeper.adjacent c = 0
    ∧ Nyankosweeper.revealed c = false ∧ Nyankosweeper.mark c = 0
    ∧ Nyankosweeper.region_with_border Plays.board_flagged (19, 11) (20, 11)
    ∧ Nyankosweeper.reveal 1000 Plays.board_flagged 19 11 = Done b'
    ∧ Nyankosweeper.cell_at b' 20 11 = Some c'
    ∧ Nyankosweeper.mine c' = false ∧ Nyankosweeper.revealed c' = false.
Proof.
  eexists _, _, _. split_and!.
  - vm_compute. reflexivity.
  - reflexivity.
  - reflexivity.
  - reflexivity.
  - reflexivity.
  - exists (19, 11). split.
    + apply Flood.zero_region_start; [vm_compute; repeat split; discriminate|].
      vm_compute. reflexivity.
    + split; [vm_compute; repeat split; discriminate|].
      vm_compute. discriminate.
  - vm_compute. reflexivity.
  - vm_compute. reflexivity.
  - reflexivity.
  - reflexivity.
Qed.

(** C2 (amended). One call of reveal, with enough depth, on a cell of a
    valid board returns the board in which exactly the reached cells have
    become revealed and nothing else has changed.  The reached cells are
    the cell itself if it is unrevealed (and, in nyankosweeper, unmarked),
    and whatever is reached from the neighbours of such a cell when it has
    adjacent_count 0 and no mine: revealed cells and, in nyankosweeper,
    marked cells are neither uncovered nor passed.  When the start has
    adjacent_count 0 and no cell of its connected zero region is revealed
    or marked, the reached cells are the unrevealed, unmarked cells of
    that region and of its border.  With the counts of the constructor
    and a start without a mine, no reached cell has a mine. *)
Theorem reveal_uncovers_reached :
  (∀ (depth : nat) (b : Nyankosweeper.Board) (x y : Z),
     Nyankosweeper.Board_ok b →
     inb (Nyankosweeper.width b) (Nyankosweeper.height b) x y →
     (Nyankosweeper.cells_left b < depth)%nat →
     ∃ b', Nyankosweeper.reveal depth b x y = Done b'
       ∧ Nyankosweeper.width b' = Nyankosweeper.width b
       ∧ Nyankosweeper.height b' = Nyankosweeper.height b
       ∧ (∀ cx cy c, Nyankosweeper.cell_at b cx cy = Some c →
            (Nyankosweeper.reached b (x, y) (cx, cy) →
               Nyankosweeper.cell_at b' cx cy
               = Some (Nyankosweeper.set_revealed true c))
            ∧ (¬ Nyankosweeper.reached b (x, y) (cx, cy) →
                 Nyankosweeper.cell_at b' cx cy = Some c))
       ∧ (Nyankosweeper.spreads (Nyankosweeper.grid b) x y = true →
          (∀ q, Nyankosweeper.zero_region b (x, y) q →
             Nyankosweeper.covered (Nyankosweeper.grid b) q.1 q.2 = true) →
          ∀ c, Nyankosweeper.reached b (x, y) c
               ↔ Nyankosweeper.covered (Nyankosweeper.grid b) c.1 c.2 = true
                 ∧ Nyankosweeper.region_with_border b (x, y) c)
       ∧ (Nyankosweeper.counts_ok b →
          Nyankosweeper.is_mine (Nyankosweeper.grid b) (x, y) = false →
          ∀ c, Nyankosweeper.reached b (x, y) c →
               Nyankosweeper.is_mine (Nyankosweeper.grid b) c = false))
  ∧ (∀ (depth : nat) (w : Minesweeper.world) (x y : Z),
       Minesweeper.valid w → inb Minesweeper.xsize Minesweeper.ysize x y →
       (Minesweeper.cells_left w < depth)%nat →
       ∃ w', Minesweeper.reveal depth w x y = Done w'
         ∧ Minesweeper.vvram w' = Minesweeper.vvram w
         ∧ (∀ cx cy m, at2 (Minesweeper.mask w) cx cy = Some m →
              (Minesweeper.reached w (x, y) (cx, cy) →
                 at2 (Minesweeper.mask w') cx cy = Some Minesweeper.blank)
              ∧ (¬ Minesweeper.reached w (x, y) (cx, cy) →
                   at2 (Minesweeper.mask w') cx cy = Some m))
         ∧ (Minesweeper.spreads w x y = true →
            (∀ q, Minesweeper.zero_region w (x, y) q →
               Minesweeper.covered w q.1 q.2 = true) →
            ∀ c, Minesweeper.reached w (x, y) c
                 ↔ Minesweeper.covered w c.1 c.2 = true
                   ∧ Minesweeper.region_with_border w (x, y) c)
         ∧ (Minesweeper.counts_ok w → Minesweeper.is_mine w (x, y) = false →
            ∀ c, Minesweeper.reached w (x, y) c → Minesweeper.is_mine w c = false)).
Proof.
  split.
  - intros depth b x y Hv Hin Hd.
    destruct (NyankoFacts.reveal_returns depth b x y Hv Hin Hd)
      as (b' & Hrun & Hw & Hh & _ & _ & Hf).
    exists b'. split_and!; try done.
    + intros cx cy c Hc.
      destruct (NyankoFacts.reveal_cells b b' (x, y) cx cy c Hf Hv Hc) as [Hyes Hno].
      split; [|done]. intros Hr. by destruct (Hyes Hr) as (_ & _ & ?).
    + intros Hz Hcov c. by apply NyankoFacts.reached_region.
    + intros Hcounts Hm c. by apply NyankoGame.reached_no_mine.
  - intros depth w x y Hv Hin Hd.
    destruct (MineFacts.reveal_returns_field depth w x y Hv Hin Hd) as (w' & Hrun & Hf).
    exists w'. split_and!; try done.
    + by destruct (Flood.flooded_ok _ _ _ _ _ _ _ _ Hf) as [_ (_ & ? & _)].
    + intros cx cy m Hm.
      destruct (MineFacts.reveal_cells_field w w' (x, y) cx cy m Hf Hv Hm) as [Hyes Hno].
      split; [|done]. intros Hr. by destruct (Hyes Hr) as (_ & ?).
    + intros Hz Hcov c. by apply MineFacts.reached_region_field.
    + intros Hcounts Hm c. by apply MineGame.reached_no_mine_field.
Qed.

Lemma reveal_uncovers_reached_witness :
  (∃ b', Nyankosweeper.reveal 1000 (Nyankosweeper.board Plays.game_centre) 0 0 = Done b'
         ∧ ∀ c, Nyankosweeper.reached (Nyankosweeper.board Plays.game_centre) (0, 0) c →
                Nyankosweeper.is_mine
                  (Nyankosweeper.grid (Nyankosweeper.board Plays.game_centre)) c = false)
  ∧ (∃ w', Minesweeper.reveal 1000 Plays.field_centre 0 0 = Done w'
           ∧ ∀ c, Minesweeper.reached Plays.field_centre (0, 0) c →
                  Minesweeper.is_mine Plays.field_centre c = false).
Proof.
  split.
  - destruct (proj1 reveal_uncovers_reached 1000%nat
                (Nyankosweeper.board Plays.game_centre) 0 0)
      as (b' & Hrun & _ & _ & _ & _ & Hsafe).
    + exact (proj1 game_centre_ok).
    + vm_compute. repeat split; discriminate.
    + apply Nat.ltb_lt. vm_compute. reflexivity.
    + exists b'. split; [exact Hrun|]. apply Hsafe.
      * exact (proj2 game_centre_ok).
      * vm_compute. reflexivity.
  - destruct (proj2 reveal_uncovers_reached 1000%nat Plays.field_centre 0 0)
      as (w' & Hrun & _ & _ & _ & Hsafe).
    + exact (proj1 field_centre_ok).
    + vm_compute. repeat split; discriminate.
    + apply Nat.ltb_lt. vm_compute. reflexivity.
    + exists w'. split; [exact Hrun|]. apply Hsafe.
      * exact (proj2 field_centre_ok).
      * vm_compute. reflexivity.
Defined.

(** ** C7: the mark cycle *)

(** C7. On an unrevealed cell the mark goes round None, Flag, Question
    and back ([0, 1, 2] in nyankosweeper, ['#', '@', '?'] in
    minesweeper): three toggles in a row give back the very board they
    started from.  On a revealed cell the toggle changes nothing. *)
Theorem toggle_cycles :
  (∀ (b : Nyankosweeper.Board) (x y : Z) (c : Nyankosweeper.Cell),
     Nyankosweeper.Board_ok b →
     inb (Nyankosweeper.width b) (Nyankosweeper.height b) x y →
     Nyankosweeper.cell_at b x y = Some c →
     (Nyankosweeper.revealed c = false →
        ∃ b1 b2,
          Nyankosweeper.toggle_mark b x y = Done b1
          ∧ Nyankosweeper.toggle_mark b1 x y = Done b2
          ∧ Nyankosweeper.toggle_mark b2 x y = Done b
          ∧ Nyankosweeper.cell_at b1 x y
            = Some (Nyankosweeper.set_mark ((Nyankosweeper.mark c + 1) `mod` 3) c)
          ∧ Nyankosweeper.cell_at b2 x y
            = Some (Nyankosweeper.set_mark ((Nyankosweeper.mark c + 2) `mod` 3) c))
     ∧ (Nyankosweeper.revealed c = true →
          Nyankosweeper.toggle_mark b x y = Done b))
  ∧ (∀ (w : Minesweeper.world) (x y : Z) (m : ascii),
       Minesweeper.valid w → inb Minesweeper.xsize Minesweeper.ysize x y →
       at2 (Minesweeper.mask w) x y = Some m →
       (m = "#"%char ∨ m = "@"%char ∨ m = "?"%char →
          ∃ w1 w2,
            Minesweeper.toggle w x y = Done w1
            ∧ Minesweeper.toggle w1 x y = Done w2
            ∧ Minesweeper.toggle w2 x y = Done w
            ∧ at2 (Minesweeper.mask w1) x y = Some (Minesweeper.next_mark m)
            ∧ at2 (Minesweeper.mask w2) x y
              = Some (Minesweeper.next_mark (Minesweeper.next_mark m)))
       ∧ (m = Minesweeper.blank →
            ∀ depth rest log, Minesweeper.endcheck w = Done false →
              Minesweeper.mainloop_from depth ("z"%string :: rest) x y w log
              = Minesweeper.mainloop_from depth rest x y w log)).
Proof.
  split.
  - intros b x y c [Hrect Hmarks] [Hx Hy] Hc. split.
    + intros Hr. pose proof (Hmarks x y c Hc) as Hm.
      set (c1 := Nyankosweeper.set_mark ((Nyankosweeper.mark c + 1) `mod` 3) c).
      set (c2 := Nyankosweeper.set_mark ((Nyankosweeper.mark c1 + 1) `mod` 3) c1).
      set (g := Nyankosweeper.grid b) in *.
      exists (Nyankosweeper.with_grid b (put2 g x y c1)),
             (Nyankosweeper.with_grid b (put2 g x y c2)).
      assert (at2 (put2 g x y c1) x y = Some c1) as Hc1 by (by eapply at2_put2_eq).
      assert (at2 (put2 g x y c2) x y = Some c2) as Hc2 by (by eapply at2_put2_eq).
      assert (c2 = Nyankosweeper.set_mark ((Nyankosweeper.mark c + 2) `mod` 3) c) as Ec2.
      { unfold c2, c1, Nyankosweeper.set_mark. simpl. f_equal.
        rewrite Zplus_mod_idemp_l. f_equal. lia. }
      split_and!.
      * rewrite (NyankoGame.toggle_mark_unrevealed b x y c) by (done || lia). done.
      * rewrite (NyankoGame.toggle_mark_unrevealed _ x y c1) by (done || lia).
        unfold Nyankosweeper.with_grid.
        cbn [Nyankosweeper.grid Nyankosweeper.width Nyankosweeper.height
             Nyankosweeper.mines].
        by rewrite put2_put2.
      * rewrite (NyankoGame.toggle_mark_unrevealed _ x y c2) by (done || lia).
        unfold Nyankosweeper.with_grid.
        cbn [Nyankosweeper.grid Nyankosweeper.width Nyankosweeper.height
             Nyankosweeper.mines].
        rewrite put2_put2.
        assert (Nyankosweeper.set_mark ((Nyankosweeper.mark c2 + 1) `mod` 3) c2 = c)
          as ->.
        { unfold c2, c1, Nyankosweeper.set_mark. destruct c as [mn rv mk ad].
          simpl in *. f_equal.
          assert (mk = 0 ∨ mk = 1 ∨ mk = 2) as [->|[->| ->]] by lia; reflexivity. }
        rewrite put2_same by done. by destruct b.
      * done.
      * unfold Nyankosweeper.cell_at. simpl. by rewrite Hc2, Ec2.
    + intros Hr. apply (NyankoGame.toggle_mark_revealed b x y c); (done || lia).
  - intros w x y m [Hvv Hmk] [Hx Hy] Hm. split.
    + intros Hmark.
      set (m1 := Minesweeper.next_mark m).
      set (m2 := Minesweeper.next_mark m1).
      set (g := Minesweeper.mask w) in *.
      exists (Minesweeper.with_mask w (put2 g x y m1)),
             (Minesweeper.with_mask w (put2 g x y m2)).
      assert (at2 (put2 g x y m1) x y = Some m1) as Hm1 by (by eapply at2_put2_eq).
      assert (at2 (put2 g x y m2) x y = Some m2) as Hm2 by (by eapply at2_put2_eq).
      assert (m1 = "#"%char ∨ m1 = "@"%char ∨ m1 = "?"%char) as Hmark1.
      { unfold m1. destruct Hmark as [->|[->| ->]]; vm_compute; auto. }
      assert (m2 = "#"%char ∨ m2 = "@"%char ∨ m2 = "?"%char) as Hmark2.
      { unfold m2. destruct Hmark1 as [->|[->| ->]]; vm_compute; auto. }
      assert (Minesweeper.next_mark m2 = m) as Hback.
      { unfold m2, m1. destruct Hmark as [->|[->| ->]]; reflexivity. }
      split_and!.
      * by rewrite (MineGame.toggle_marked w x y m) by (done || lia).
      * rewrite (MineGame.toggle_marked _ x y m1) by (done || lia).
        unfold Minesweeper.with_mask.
        cbn [Minesweeper.mask Minesweeper.vvram Minesweeper.mines].
        by rewrite put2_put2.
      * rewrite (MineGame.toggle_marked _ x y m2) by (done || lia).
        unfold Minesweeper.with_mask.
        cbn [Minesweeper.mask Minesweeper.vvram Minesweeper.mines].
        rewrite put2_put2, Hback, put2_same by done. by destruct w.
      * done.
      * done.
    + intros -> depth rest log Hend.
      rewrite (MineGame.mainloop_from_eq depth ("z"%string :: rest)), Hend.
      cbn [bind]. cbv zeta. change (Minesweeper.keymap "z") with "z"%string.
      simpl (_ =? _)%string. cbn [bind andb].
      rewrite get2_nonneg, Hm by lia. cbn [bind].
      rewrite Ascii.eqb_refl. reflexivity.
Qed.

Lemma toggle_cycles_witness :
  (∃ b1 b2,
     Nyankosweeper.toggle_mark Plays.board_empty 20 11 = Done b1
     ∧ Nyankosweeper.toggle_mark b1 20 11 = Done b2
     ∧ Nyankosweeper.toggle_mark b2 20 11 = Done Plays.board_empty)
  ∧ (∃ w1 w2,
       Minesweeper.toggle Plays.field_centre 20 11 = Done w1
       ∧ Minesweeper.toggle w1 20 11 = Done w2
       ∧ Minesweeper.toggle w2 20 11 = Done Plays.field_centre).
Proof.
  split.
  - destruct (proj1 toggle_cycles Plays.board_empty 20 11 Nyankosweeper.Cell_init)
      as [Hcycle _].
    + exact (proj1 board_empty_ok).
    + vm_compute. repeat split; discriminate.
    + vm_compute. reflexivity.
    + destruct Hcycle as (b1 & b2 & H1 & H2 & H3 & _); [reflexivity|].
      exists b1, b2. split; [exact H1|split; [exact H2|exact H3]].
  - destruct (proj2 toggle_cycles Plays.field_centre 20 11 "#"%char) as [Hcycle _].
    + exact (proj1 field_centre_ok).
    + vm_compute. repeat split; discriminate.
    + vm_compute. reflexivity.
    + destruct Hcycle as (w1 & w2 & H1 & H2 & H3 & _); [left; reflexivity|].
      exists w1, w2. split; [exact H1|split; [exact H2|exact H3]].
Defined.

(** ** C3: reveal on a marked or a revealed cell *)

(** In minesweeper.py a flag does not stop the reveal key: on the field
    with its one mine at (0, 0), the keys ['z'] and [' '] at the start
    cell (20, 11) leave that cell uncovered. *)
Lemma reveal_key_uncovers_flagged_cell :
  ∃ w1 w2 t,
    Minesweeper.toggle Plays.field_origin 20 11 = Done w1
    ∧ at2 (Minesweeper.mask w1) 20 11 = Some "@"%char
    ∧ at2 (Minesweeper.vvram w1) 20 11 = Some (Minesweeper.Int 0)
    ∧ Minesweeper.reveal 1000 w1 20 11 = Done w2
    ∧ at2 (Minesweeper.mask w2) 20 11 = Some Minesweeper.blank
    ∧ Minesweeper.mainloop 1000 Plays.field_origin (mkTty ["z"; " "; "q"] [])%string
      = Done (0, (20, 11), w2, t).
Proof.
  eexists _, _, _. split_and!.
  - vm_compute. reflexivity.
  - vm_compute. reflexivity.
  - vm_compute. reflexivity.
  - vm_compute. reflexivity.
  - vm_compute. reflexivity.
  - vm_compute. reflexivity.
Qed.

(** C3 (amended). In nyankosweeper, [Board.reveal] on a cell that is
    revealed, flagged or question-marked returns the board unchanged, and
    so does the reveal key on such a cell when it has no mine.  In
    minesweeper.py [reveal] on an uncovered cell returns the globals
    unchanged, but a mark stops nothing: whatever the mask of the cell,
    the call leaves it uncovered. *)
Theorem reveal_on_marked_or_revealed :
  (∀ (depth : nat) (b : Nyankosweeper.Board) (x y : Z) (c : Nyankosweeper.Cell),
     0 ≤ x → 0 ≤ y → Nyankosweeper.cell_at b x y = Some c →
     Nyankosweeper.revealed c = true
     ∨ Nyankosweeper.mark c = 1 ∨ Nyankosweeper.mark c = 2 →
     Nyankosweeper.reveal (S depth) b x y = Done b)
  ∧ (∀ (depth : nat) (gm : Nyankosweeper.Game) (t : tty) (c : Nyankosweeper.Cell),
       0 ≤ Nyankosweeper.cursor_x gm → 0 ≤ Nyankosweeper.cursor_y gm →
       Nyankosweeper.cell_at (Nyankosweeper.board gm)
         (Nyankosweeper.cursor_x gm) (Nyankosweeper.cursor_y gm) = Some c →
       Nyankosweeper.mine c = false →
       Nyankosweeper.revealed c = true
       ∨ Nyankosweeper.mark c = 1 ∨ Nyankosweeper.mark c = 2 →
       Nyankosweeper.handle_key (S depth) gm " " t = Done (true, gm, t))
  ∧ (∀ (depth : nat) (w : Minesweeper.world) (x y : Z) (v : Minesweeper.value),
       0 ≤ x → 0 ≤ y → at2 (Minesweeper.vvram w) x y = Some v →
       at2 (Minesweeper.mask w) x y = Some Minesweeper.blank →
       Minesweeper.reveal (S depth) w x y = Done w)
  ∧ (∀ (depth : nat) (w : Minesweeper.world) (x y : Z),
       Minesweeper.valid w → inb Minesweeper.xsize Minesweeper.ysize x y →
       (Minesweeper.cells_left w < depth)%nat →
       ∃ w', Minesweeper.reveal depth w x y = Done w'
             ∧ at2 (Minesweeper.mask w') x y = Some Minesweeper.blank).
Proof.
  split_and!.
  - intros depth b x y c Hx Hy Hc Hstop. by eapply NyankoGame.reveal_stopped.
  - intros depth gm t c Hx Hy Hc Hm Hstop. unfold Nyankosweeper.handle_key.
    change (Nyankosweeper.dict_get Nyankosweeper.Config.KEY_BINDINGS " ")
      with (@None string).
    simpl (_ =? _)%string. cbn [orb].
    by rewrite (NyankoGame.handle_reveal_stopped depth gm t c).
  - intros depth w x y v Hx Hy Hv Hm. by eapply MineGame.reveal_blank.
  - intros depth w x y Hv Hin Hd. by apply MineGame.reveal_blanks_cell.
Qed.

Lemma reveal_on_marked_or_revealed_witness :
  Nyankosweeper.reveal 1 Plays.board_flagged 20 11 = Done Plays.board_flagged
  ∧ ∃ w', Minesweeper.reveal 1000 Plays.field_centre 20 11 = Done w'
          ∧ at2 (Minesweeper.mask w') 20 11 = Some Minesweeper.blank.
Proof.
  split.
  - apply (proj1 reveal_on_marked_or_revealed 0%nat Plays.board_flagged 20 11
             (Nyankosweeper.set_mark 1 Nyankosweeper.Cell_init)).
    + lia.
    + lia.
    + vm_compute. reflexivity.
    + right. left. reflexivity.
  - apply (proj2 (proj2 (proj2 reveal_on_marked_or_revealed))
             1000%nat Plays.field_centre 20 11).
    + exact (proj1 field_centre_ok).
    + vm_compute. repeat split; discriminate.
    + apply Nat.ltb_lt. vm_compute. reflexivity.
Defined.

(** ** C1: the win test *)

(** C1. [Board.all_clear] (nyankosweeper) is the win test of the
    specification: it holds exactly when every cell without a mine is
    revealed, and
    revealing or hiding a mine does not change it.  [endcheck]
    (minesweeper.py) is not: it compares the number of cells masked ['#']
    or ['@'] with [mines], so a ['?'] is counted as if the cell were
    uncovered.  With mines at (0, 1) and (1, 0), a reveal at the start and
    a ['?'] on the corner (0, 0) make [mainloop] return 0, a win, while
    the corner, which has no mine, is still covered; with the mine at the
    start cell marked ['?'] and every other cell uncovered, [endcheck] is
    false and the game goes on. *)
Theorem win_test :
  (∀ b : Nyankosweeper.Board,
     Nyankosweeper.all_clear b = true ↔
     ∀ x y c, Nyankosweeper.cell_at b x y = Some c →
              Nyankosweeper.mine c = false → Nyankosweeper.revealed c = true)
  ∧ (∀ (b : Nyankosweeper.Board) (x y : Z) (c : Nyankosweeper.Cell) (v : bool),
       Nyankosweeper.cell_at b x y = Some c → Nyankosweeper.mine c = true →
       Nyankosweeper.all_clear
         (Nyankosweeper.with_grid b
            (put2 (Nyankosweeper.grid b) x y (Nyankosweeper.set_revealed v c)))
       = Nyankosweeper.all_clear b)
  ∧ (∀ w : Minesweeper.world,
       Minesweeper.valid w →
       Minesweeper.endcheck w
       = Done (Z.of_nat (length (filter (λ p, Minesweeper.counted w p = true)
                                   (cells Minesweeper.xsize Minesweeper.ysize)))
               =? Minesweeper.mines w))
  ∧ (∃ w t,
       Minesweeper.mainloop 1000 Plays.field_corner (mkTty Plays.keys_corner [])
       = Done (0, (0, 0), w, t)
       ∧ Minesweeper.endcheck w = Done true
       ∧ at2 (Minesweeper.vvram w) 0 0 = Some (Minesweeper.Int 2)
       ∧ at2 (Minesweeper.mask w) 0 0 = Some "?"%char)
  ∧ (∃ w t,
       Minesweeper.mainloop 1000 Plays.field_centre
         (mkTty ["z"; "z"; "4"; "4"; " "; "q"] [])%string
       = Done (1, (18, 11), w, t)
       ∧ Minesweeper.endcheck w = Done false
       ∧ Minesweeper.mine_cells w = [(20, 11)]
       ∧ filter (λ p, Minesweeper.covered w p.1 p.2 = true)
           (cells Minesweeper.xsize Minesweeper.ysize) = [(20, 11)]).
Proof.
  split_and!.
  - apply NyankoGame.all_clear_spec.
  - apply NyankoGame.all_clear_mine.
  - apply MineGame.endcheck_spec.
  - eexists _, _.
    split; [vm_compute; reflexivity|].
    split; [vm_compute; reflexivity|].
    split; [vm_compute; reflexivity|vm_compute; reflexivity].
  - eexists _, _.
    split; [vm_compute; reflexivity|].
    split; [vm_compute; reflexivity|].
    split; [vm_compute; reflexivity|vm_compute; reflexivity].
Qed.

Lemma win_test_witness :
  Nyankosweeper.all_clear
    (Nyankosweeper.with_grid (Nyankosweeper.board Plays.game_centre)
       (put2 (Nyankosweeper.grid (Nyankosweeper.board Plays.game_centre)) 20 11
          (Nyankosweeper.set_revealed true
             (Nyankosweeper.mkCell true false 0 0))))
  = Nyankosweeper.all_clear (Nyankosweeper.board Plays.game_centre)
  ∧ Minesweeper.endcheck Plays.field_centre
    = Done (Z.of_nat (length (filter
                        (λ p, Minesweeper.counted Plays.field_centre p = true)
                        (cells Minesweeper.xsize Minesweeper.ysize)))
            =? Minesweeper.mines Plays.field_centre).
Proof.
  split.
  - apply (proj1 (proj2 win_test) (Nyankosweeper.board Plays.game_centre) 20 11
             (Nyankosweeper.mkCell true false 0 0) true).
    + vm_compute. reflexivity.
    + reflexivity.
  - apply (proj1 (proj2 (proj2 win_test)) Plays.field_centre).
    exact (proj1 field_centre_ok).
Defined.

(** ** C4: the adjacent counts *)



(** ** C5: the number of mines *)

(** C5. On any draws of the random source that lie within the board and
    bring [mines] different cells (the list [l]), construction returns
    with exactly [mines] cells marked as mines; [mine_cells] lists every
    mine cell of the board once.  Such draws exist for every mine count
    from 0 up to the number of cells. *)
Theorem mines_placed :
  (∀ (mines : Z) (draws l : list (Z * Z)),
     0 ≤ mines →
     Forall (λ p, inb Nyankosweeper.Config.XSIZE
                    Nyankosweeper.Config.BOARD_HEIGHT p.1 p.2) draws →
     NoDup l → l ⊆ draws → Z.of_nat (length l) = mines →
     ∃ b, Nyankosweeper.Board_init mines draws = Done b
          ∧ Z.of_nat (length (Nyankosweeper.mine_cells b)) = mines
          ∧ NoDup (Nyankosweeper.mine_cells b)
          ∧ ∀ p, p ∈ Nyankosweeper.mine_cells b
                 ↔ Nyankosweeper.is_mine (Nyankosweeper.grid b) p = true
                   ∧ inb Nyankosweeper.Config.XSIZE
                       Nyankosweeper.Config.BOARD_HEIGHT p.1 p.2)
  ∧ (∀ (mines : Z) (draws l : list (Z * Z)),
       0 ≤ mines →
       Forall (λ p, inb Minesweeper.xsize Minesweeper.ysize p.1 p.2) draws →
       NoDup l → l ⊆ draws → Z.of_nat (length l) = mines →
       ∃ w rest,
         Minesweeper.putmines mines (Minesweeper.world_init mines) draws
         = Done (w, rest)
         ∧ Z.of_nat (length (Minesweeper.mine_cells w)) = mines
         ∧ NoDup (Minesweeper.mine_cells w)
         ∧ ∀ p, p ∈ Minesweeper.mine_cells w
                ↔ Minesweeper.is_mine w p = true
                  ∧ inb Minesweeper.xsize Minesweeper.ysize p.1 p.2)
  ∧ (∀ mines : Z,
       0 ≤ mines < Nyankosweeper.Config.XSIZE * Nyankosweeper.Config.BOARD_HEIGHT →
       ∃ draws : list (Z * Z),
         Forall (λ p, inb Nyankosweeper.Config.XSIZE
                        Nyankosweeper.Config.BOARD_HEIGHT p.1 p.2) draws
         ∧ NoDup draws ∧ Z.of_nat (length draws) = mines)
  ∧ (∀ mines : Z,
       0 ≤ mines < Minesweeper.xsize * Minesweeper.ysize →
       ∃ draws : list (Z * Z),
         Forall (λ p, inb Minesweeper.xsize Minesweeper.ysize p.1 p.2) draws
         ∧ NoDup draws ∧ Z.of_nat (length draws) = mines).
Proof.
  split; [|split; [|split]].
  - intros mines draws l Hm Hdraws Hnd Hsub Hlen.
    destruct (NyankoBuild.Board_init_returns mines draws l Hm Hdraws Hnd Hsub Hlen)
      as (b & Hrun & Hw & Hh & _ & _ & Hcnt & _).
    exists b. split; [exact Hrun|]. split; [exact Hcnt|]. split.
    + apply NoDup_filter, NoDup_cells.
    + intros [x y]. unfold Nyankosweeper.mine_cells.
      rewrite list_elem_of_filter, elem_of_cells, Hw, Hh. done.
  - intros mines draws l Hm Hdraws Hnd Hsub Hlen.
    destruct (MineBuild.putmines_loop_returns (range mines)
                (Minesweeper.world_init mines) draws l)
      as (w & rest & Hrun & _ & _ & _ & _ & Hcnt).
    + apply MineBuild.valid_world_init.
    + apply MineBuild.uncounted_world_init.
    + exact Hdraws.
    + exact Hnd.
    + exact Hsub.
    + intros [x y] _. unfold Minesweeper.is_mine. cbn [fst snd].
      destruct (at2 (Minesweeper.vvram (Minesweeper.world_init mines)) x y)
        as [v|] eqn:Hv; [|reflexivity].
      assert (inb Minesweeper.xsize Minesweeper.ysize x y) as Hin.
      { apply (at2_inb _ _ (Minesweeper.vvram (Minesweeper.world_init mines)) _ _ v);
          [apply MineBuild.valid_world_init|exact Hv]. }
      unfold Minesweeper.world_init in Hv. cbn [Minesweeper.vvram] in Hv.
      rewrite at2_fresh_grid in Hv by exact Hin. by injection Hv as <-.
    + unfold range. rewrite length_seqZ. lia.
    + exists w, rest. split; [exact Hrun|]. split.
      * rewrite Hcnt. unfold Minesweeper.mine_cells at 1.
        rewrite filter_none.
        -- unfold range. rewrite length_seqZ. simpl. lia.
        -- intros [x y] _. unfold Minesweeper.is_mine. cbn [fst snd].
           destruct (at2 (Minesweeper.vvram (Minesweeper.world_init mines)) x y)
             as [v|] eqn:Hv; [|by intros ?].
           assert (inb Minesweeper.xsize Minesweeper.ysize x y) as Hin.
           { apply (at2_inb _ _ (Minesweeper.vvram (Minesweeper.world_init mines))
                      _ _ v);
               [apply MineBuild.valid_world_init|exact Hv]. }
           unfold Minesweeper.world_init in Hv. cbn [Minesweeper.vvram] in Hv.
           rewrite at2_fresh_grid in Hv by exact Hin. injection Hv as <-.
           by intros ?.
      * split; [apply NoDup_filter, NoDup_cells|].
        intros [x y]. unfold Minesweeper.mine_cells.
        rewrite list_elem_of_filter, elem_of_cells. done.
  - intros mines Hm. apply draws_exist; [done|done|lia].
  - intros mines Hm. apply draws_exist; [done|done|lia].
Qed.

Lemma mines_placed_witness :
  (∃ b, Nyankosweeper.Board_init 1 [(20, 11)] = Done b
        ∧ Z.of_nat (length (Nyankosweeper.mine_cells b)) = 1)
  ∧ (∃ w rest,
       Minesweeper.putmines 1 (Minesweeper.world_init 1) [(20, 11)] = Done (w, rest)
       ∧ Z.of_nat (length (Minesweeper.mine_cells w)) = 1).
Proof.
  split.
  - destruct (proj1 mines_placed 1 [(20, 11)] [(20, 11)]) as (b & Hrun & Hcnt & _).
    + lia.
    + repeat constructor; simpl; lia.
    + apply NoDup_singleton.
    + intros p Hp. exact Hp.
    + reflexivity.
    + exists b. split; [exact Hrun|exact Hcnt].
  - destruct (proj1 (proj2 mines_placed) 1 [(20, 11)] [(20, 11)])
      as (w & rest & Hrun & Hcnt & _).
    + lia.
    + repeat constructor; simpl; lia.
    + apply NoDup_singleton.
    + intros p Hp. exact Hp.
    + reflexivity.
    + exists w, rest. split; [exact Hrun|exact Hcnt].
Defined.

(** ** C6: the mine count on the command line *)

(** A negative mine count is not refused: [nyankosweeper.py -1] and
    [minesweeper.py -1] build a board without mines and play. *)
Lemma negative_mine_count_accepted :
  Nyankosweeper.get_mine_count [Text "nyankosweeper.py"; Numeral (-1)] = Done (-1)
  ∧ (∃ b, Nyankosweeper.Board_init (-1) [] = Done b
          ∧ Nyankosweeper.mine_cells b = [])
  ∧ Nyankosweeper.run 1000 [Text "nyankosweeper.py"; Numeral (-1)] []
      (mkTty ["q"%string] []) = Done tt
  ∧ Minesweeper.startup [Text "minesweeper.py"; Numeral (-1)] = Done (-1)
  ∧ (∃ w, Minesweeper.putmines (-1) (Minesweeper.world_init (-1)) [] = Done (w, [])
          ∧ Minesweeper.mine_cells w = [])
  ∧ Minesweeper.script 1000 [Text "minesweeper.py"; Numeral (-1)] []
      (mkTty ["q"%string] []) = Done tt.
Proof.
  split; [vm_compute; reflexivity|].
  split; [eexists; split; [vm_compute; reflexivity|vm_compute; reflexivity]|].
  split; [vm_compute; reflexivity|].
  split; [vm_compute; reflexivity|].
  split; [eexists; split; [vm_compute; reflexivity|vm_compute; reflexivity]|].
  vm_compute; reflexivity.
Qed.

(** C6 (amended). A mine count above 300, and so every mine count of at
    least width*height, is refused: the script prints its message and
    exits with status 1 before any board is built, whatever the draws and
    the keys; nyankosweeper does the same for an argument that is not a
    number.  A mine count of zero or less is accepted, and construction
    returns a board without mines. *)
Theorem mine_count_check :
  (∀ (depth : nat) (prog : word) (n : Z) (draws : list (Z * Z)) (t : tty),
     Nyankosweeper.Config.XSIZE * Nyankosweeper.Config.BOARD_HEIGHT ≤ n
     ∨ Nyankosweeper.Config.MAX_MINES < n →
     Nyankosweeper.run depth [prog; Numeral n] draws t
     = Raise (SystemExit 1 "too many nyankos")
     ∧ exit_status (Nyankosweeper.run depth [prog; Numeral n] draws t) = Some 1)
  ∧ (∀ (depth : nat) (prog : word) (s : string) (draws : list (Z * Z)) (t : tty),
       Nyankosweeper.run depth [prog; Text s] draws t
       = Raise (SystemExit 1 "not a number"))
  ∧ (∀ (prog : word) (n : Z) (draws : list (Z * Z)),
       n ≤ 0 →
       Nyankosweeper.get_mine_count [prog; Numeral n] = Done n
       ∧ ∃ b, Nyankosweeper.Board_init n draws = Done b
              ∧ Nyankosweeper.mine_cells b = [])
  ∧ (∀ (depth : nat) (prog : word) (n : Z) (draws : list (Z * Z)) (t : tty),
       Minesweeper.xsize * Minesweeper.ysize ≤ n ∨ 300 < n →
       Minesweeper.script depth [prog; Numeral n] draws t
       = Raise (SystemExit 1 "too many mines")
       ∧ exit_status (Minesweeper.script depth [prog; Numeral n] draws t) = Some 1)
  ∧ (∀ (prog : word) (n : Z) (draws : list (Z * Z)),
       n ≤ 0 →
       Minesweeper.startup [prog; Numeral n] = Done n
       ∧ Minesweeper.putmines n (Minesweeper.world_init n) draws
         = Done (Minesweeper.world_init n, draws)).
Proof.
  split; [|split; [|split; [|split]]].
  - intros depth prog n draws t Hn.
    assert (Nyankosweeper.Config.MAX_MINES < n) as Hmax.
    { destruct Hn as [Hn|Hn]; [|exact Hn].
      unfold Nyankosweeper.Config.XSIZE, Nyankosweeper.Config.BOARD_HEIGHT,
        Nyankosweeper.Config.MAX_MINES in *. lia. }
    unfold Nyankosweeper.run.
    rewrite (NyankoGame.get_mine_count_too_many prog n Hmax). split; reflexivity.
  - intros depth prog s draws t. reflexivity.
  - intros prog n draws Hn. split.
    + apply NyankoGame.get_mine_count_accepts.
      unfold Nyankosweeper.Config.MAX_MINES. lia.
    + destruct (NyankoGame.Board_init_no_mines n draws Hn) as (b & Hrun & Hnone & _).
      exists b. split; [exact Hrun|exact Hnone].
  - intros depth prog n draws t Hn.
    assert (300 < n) as Hmax.
    { destruct Hn as [Hn|Hn]; [|exact Hn].
      unfold Minesweeper.xsize, Minesweeper.ysize in Hn. lia. }
    unfold Minesweeper.script.
    rewrite (MineGame.startup_too_many prog n Hmax). split; reflexivity.
  - intros prog n draws Hn. split.
    + apply MineGame.startup_accepts. lia.
    + unfold Minesweeper.putmines, range. rewrite seqZ_nil by lia. reflexivity.
Qed.

Lemma mine_count_check_witness :
  Nyankosweeper.run 1000 [Text "nyankosweeper.py"; Numeral 880] []
    (mkTty [] []) = Raise (SystemExit 1 "too many nyankos")
  ∧ Minesweeper.script 1000 [Text "minesweeper.py"; Numeral 920] []
      (mkTty [] []) = Raise (SystemExit 1 "too many mines").
Proof.
  split.
  - apply (proj1 mine_count_check 1000%nat (Text "nyankosweeper.py") 880 []
             (mkTty [] [])).
    left. vm_compute. discriminate.
  - apply (proj1 (proj2 (proj2 (proj2 mine_count_check))) 1000%nat
             (Text "minesweeper.py") 920 [] (mkTty [] [])).
    left. vm_compute. discriminate.
Defined.

(** ** C9: the exit status *)

(** The exit status is 0 after a quit and after a loss: [Game.run]
    returns 1 on ['q'] and [mainloop] returns -1 on a mine, and both
    scripts end with status 0. *)
Lemma exit_status_zero_on_quit_and_loss :
  Nyankosweeper.Game_run 1000 Plays.game_centre (mkTty ["q"%string] [])
  = Done (1, Plays.game_centre, mkTty [] [])
  ∧ exit_status
      (Nyankosweeper.run 1000 [Text "nyankosweeper.py"; Numeral 1] [(20, 11)]
         (mkTty ["q"%string] [])) = Some 0
  ∧ Minesweeper.mainloop 1000 Plays.field_centre (mkTty [" "; "x"]%string [])
    = Done (-1, (20, 11), Plays.field_centre, mkTty [] ["You lose. hit key"%string])
  ∧ exit_status
      (Minesweeper.script 1000 [Text "minesweeper.py"; Numeral 1] [(20, 11)]
         (mkTty [" "; "x"]%string [])) = Some 0.
Proof.
  split; [vm_compute; reflexivity|].
  split; [vm_compute; reflexivity|].
  split; [vm_compute; reflexivity|].
  vm_compute; reflexivity.
Qed.

(** C9 (amended). The turn loop returns a code: [Game.run] returns 0
    after the win message and 1 otherwise, [mainloop] returns 0 after the
    win message, -1 after the loss message with the cursor on a mine, and
    1 on quit.  The caller drops the code: whenever the turn loop returns,
    the script ends with exit status 0. *)
Theorem exit_status_after_game :
  (∀ (depth : nat) (argv : list word) (draws : list (Z * Z)) (t : tty)
     (n : Z) (gm : Nyankosweeper.Game)
     (code : Z) (gm' : Nyankosweeper.Game) (t' : tty),
     Nyankosweeper.get_mine_count argv = Done n →
     Nyankosweeper.Game_init n draws = Done gm →
     Nyankosweeper.Game_run depth gm t = Done (code, gm', t') →
     exit_status (Nyankosweeper.run depth argv draws t) = Some 0
     ∧ ((code = 0 ∧ last (shown t') = Some "You win. hit key"%string) ∨ code = 1))
  ∧ (∀ (depth : nat) (argv : list word) (draws rest : list (Z * Z)) (t : tty)
       (n : Z) (w1 w2 : Minesweeper.world)
       (code : Z) (xy : Z * Z) (w' : Minesweeper.world) (t' : tty),
       Minesweeper.startup argv = Done n →
       Minesweeper.putmines n (Minesweeper.world_init n) draws = Done (w1, rest) →
       Minesweeper.calcfield w1 = Done w2 →
       Minesweeper.mainloop depth w2 t = Done (code, xy, w', t') →
       exit_status (Minesweeper.script depth argv draws t) = Some 0
       ∧ ((code = 0 ∧ Minesweeper.endcheck w' = Done true
             ∧ shown t' = shown t ++ ["You win. hit key"%string])
          ∨ (code = -1
             ∧ (∃ v, get2 (Minesweeper.vvram w') xy.1 xy.2 = Done v
                     ∧ Minesweeper.is_star v = true)
             ∧ shown t' = shown t ++ ["You lose. hit key"%string])
          ∨ (code = 1 ∧ shown t' = shown t))).
Proof.
  split.
  - intros depth argv draws t n gm code gm' t' Hn Hgm Hrun. split.
    + by eapply NyankoGame.run_exit_status.
    + by eapply NyankoGame.run_turns_code.
  - intros depth argv draws rest t n w1 w2 code xy w' t' Hn Hput Hcalc Hrun. split.
    + by eapply MineGame.script_exit_status.
    + by eapply MineGame.mainloop_from_code.
Qed.

Lemma exit_status_after_game_witness :
  exit_status
    (Nyankosweeper.run 1000 [Text "nyankosweeper.py"; Numeral 1] [(20, 11)]
       (mkTty ["q"%string] [])) = Some 0
  ∧ ((1 = 0 ∧ last (shown (mkTty [] [])) = Some "You win. hit key"%string) ∨ 1 = 1).
Proof.
  apply (proj1 exit_status_after_game 1000%nat
           [Text "nyankosweeper.py"; Numeral 1] [(20, 11)] (mkTty ["q"%string] [])
           1 Plays.game_centre 1 Plays.game_centre (mkTty [] [])).
  - vm_compute. reflexivity.
  - vm_compute. reflexivity.
  - vm_compute. reflexivity.
Defined.

(** ** C10: after a loss *)

(** C10. In minesweeper.py the reveal key on a mine shows the loss
    message, reads one more key and makes [mainloop] return -1: the keys
    after that one are left unread.  In nyankosweeper the loop goes on
    after that key: with the mine under the cursor, the keys [' '], ['x'],
    ['4'], ['q'] end with the cursor moved from 20 to 19 by the ['4'] and
    with the code 1 of the ['q'], both read after the loss. *)
Theorem lost_game :
  (∀ (depth : nat) (k : string) (rest : list string) (x y : Z)
     (w : Minesweeper.world) (log : list string) (v : Minesweeper.value),
     Minesweeper.endcheck w = Done false →
     get2 (Minesweeper.vvram w) x y = Done v → Minesweeper.is_star v = true →
     Minesweeper.mainloop_from depth (" "%string :: k :: rest) x y w log
     = Done (-1, (x, y), w, mkTty rest (log ++ ["You lose. hit key"%string])))
  ∧ (∃ gm,
       Nyankosweeper.Game_run 1000 Plays.game_centre
         (mkTty [" "; "x"; "4"; "q"]%string [])
       = Done (1, gm, mkTty [] ["You lose. hit key"%string])
       ∧ Nyankosweeper.game_over gm = true
       ∧ Nyankosweeper.cursor_x Plays.game_centre = 20
       ∧ Nyankosweeper.cursor_x gm = 19).
Proof.
  split.
  - intros depth k rest x y w log v Hend Hv Hstar.
    by apply (MineGame.mainloop_from_lost depth k rest x y w log v).
  - eexists. split; [vm_compute; reflexivity|].
    split; [reflexivity|]. split; reflexivity.
Qed.

Lemma lost_game_witness :
  Minesweeper.mainloop_from 1000 [" "; "x"; "4"; "q"]%string 20 11
    Plays.field_centre []
  = Done (-1, (20, 11), Plays.field_centre,
          mkTty ["4"; "q"]%string ([] ++ ["You lose. hit key"%string])).
Proof.
  apply (proj1 lost_game 1000%nat "x"%string ["4"; "q"]%string 20 11
           Plays.field_centre [] (Minesweeper.Str "*")).
  - vm_compute. reflexivity.
  - vm_compute. reflexivity.
  - reflexivity.
Defined.

(** * Two calls of the flood scheme *)

(** Two grids of the same size with the same cells are equal. *)
Lemma grid_ext {A : Type} (w h : Z) (g g' : list (list A)) :
  rect w h g → rect w h g' →
  (∀ x y, inb w h x y → at2 g x y = at2 g' x y) → g = g'.
Proof.
  intros [Hw Hh] [Hw' Hh'] Heq. apply list_eq. intros i.
  destruct (decide (i < length g)%nat) as [Hi|Hi].
  - destruct (lookup_lt_is_Some_2 g i Hi) as [col Hcol].
    assert (i < length g')%nat as Hi' by lia.
    destruct (lookup_lt_is_Some_2 g' i Hi') as [col' Hcol'].
    rewrite Hcol, Hcol'. f_equal.
    pose proof (Forall_lookup_1 _ _ _ _ Hh Hcol) as Hl. simpl in Hl.
    pose proof (Forall_lookup_1 _ _ _ _ Hh' Hcol') as Hl'. simpl in Hl'.
    apply list_eq. intros j.
    destruct (decide (j < length col)%nat) as [Hj|Hj].
    + specialize (Heq (Z.of_nat i) (Z.of_nat j)).
      rewrite !at2_of_nat, Hcol, Hcol' in Heq. simpl in Heq. apply Heq.
      unfold inb. lia.
    + rewrite !lookup_ge_None_2 by lia. done.
  - rewrite !lookup_ge_None_2 by lia. done.
Qed.

Lemma getitem_elem_of {A : Type} (l : list A) (i : Z) (a : A) :
  getitem l i = Done a → a ∈ l.
Proof.
  unfold getitem, subscript.
  destruct ((0 <=? _) && (_ <? _)); [|done]. cbn [bind].
  destruct (l !! _) eqn:E; [|done]. intros [= <-].
  by eapply list_elem_of_lookup_2.
Qed.

Lemma getitem_in_range {A : Type} (l : list A) (i : Z) :
  0 ≤ i < Z.of_nat (length l) → ∃ a, getitem l i = Done a.
Proof.
  intros Hi. rewrite getitem_nonneg by lia.
  destruct (lookup_lt_is_Some_2 l (Z.to_nat i)) as [a ->]; [lia|]. eauto.
Qed.

(** Counting the elements of a list by cases. *)
Lemma filter_length_split {A : Type} (P Q R : A → Prop)
    `{!∀ x, Decision (P x)} `{!∀ x, Decision (Q x)} `{!∀ x, Decision (R x)}
    (l : list A) :
  (∀ x, x ∈ l → (P x ↔ Q x ∨ R x)) → (∀ x, x ∈ l → Q x → R x → False) →
  length (filter P l) = (length (filter Q l) + length (filter R l))%nat.
Proof.
  induction l as [|x l IH]; intros Hiff Hdis; [done|].
  rewrite !filter_cons.
  assert (length (filter P l) = (length (filter Q l) + length (filter R l))%nat)
    as IH'.
  { apply IH; intros; [apply Hiff|eapply Hdis]; try done; by right. }
  pose proof (Hiff x ltac:(left)) as Hx.
  pose proof (Hdis x ltac:(left)) as Hd.
  destruct (decide (P x)), (decide (Q x)), (decide (R x)); simpl; try lia; tauto.
Qed.

Module FloodOrder.
Section Order.
Context {St : Type}.
Variables w h : Z.
Variable covered : St → Z → Z → bool.
Variable spreads : St → Z → Z → bool.
Variables ok1 ok2 : St → Prop.

Abbreviation reach := (Flood.reach w h covered spreads).

  (** After a call on [p] and then one on [q], whatever the second call
      would have reached in the first state is uncovered: a path of the
      first state goes on from every cell that either call uncovered. *)
Lemma flooded_passes s p s1 q s2 a c :
    Flood.flooded w h covered spreads ok1 s p s1 →
    Flood.flooded w h covered spreads ok2 s1 q s2 →
    reach s a c → covered s2 a.1 a.2 = false → covered s2 c.1 c.2 = false.
  Proof.
    intros H1 H2 Hr.
    induction Hr as [a Hin Hc|a b c Hin Hc Hz Hn Hr IH]; [done|].
    intros Ha. apply IH.
    pose proof (Flood.flooded_later _ _ _ _ _ _ _ _ H1) as Hl1.
    pose proof (Flood.flooded_later _ _ _ _ _ _ _ _ H2) as Hl2.
    destruct (covered s1 a.1 a.2) eqn:Hc1.
    - apply (Flood.flooded_closed _ _ _ _ _ _ _ _ H2 a b); try done.
      rewrite <- Hz. by apply Hl1.
    - assert (covered s1 b.1 b.2 = false) as Hb
        by (by apply (Flood.flooded_closed _ _ _ _ _ _ _ _ H1 a b)).
      destruct (covered s2 b.1 b.2) eqn:E; [|done].
      apply Hl2 in E; [congruence|apply Hn].
  Qed.

  (** The cells still covered after the two calls: those that were
      covered and that neither call reaches in the first state. *)
Theorem flooded_twice s p s1 q s2 c :
    Flood.flooded w h covered spreads ok1 s p s1 →
    Flood.flooded w h covered spreads ok2 s1 q s2 →
    inb w h c.1 c.2 →
    (covered s2 c.1 c.2 = true ↔
     covered s c.1 c.2 = true ∧ ¬ reach s p c ∧ ¬ reach s q c).
  Proof.
    intros H1 H2 Hin.
    pose proof (Flood.flooded_later _ _ _ _ _ _ _ _ H1) as Hl1.
    pose proof (Flood.flooded_later _ _ _ _ _ _ _ _ H2) as Hl2.
    split.
    - intros Hc2.
      assert (covered s1 c.1 c.2 = true) as Hc1 by (by apply Hl2).
      assert (covered s c.1 c.2 = true) as Hc by (by apply Hl1).
      split; [done|]. split.
      + intros Hr.
        pose proof (FloodFacts.flooded_complete _ _ _ _ _ _ _ _ _ H1 Hr).
        congruence.
      + intros Hr.
        assert (covered s2 c.1 c.2 = false); [|congruence].
        apply (flooded_passes s p s1 q s2 q c H1 H2 Hr).
        apply (Flood.flooded_here _ _ _ _ _ _ _ _ H2).
    - intros (Hc & Hnp & Hnq).
      assert (covered s1 c.1 c.2 = true) as Hc1.
      { destruct (covered s1 c.1 c.2) eqn:E; [done|].
        destruct Hnp. by apply (Flood.flooded_sound _ _ _ _ _ _ _ _ H1). }
      destruct (covered s2 c.1 c.2) eqn:E; [done|].
      destruct Hnq.
      assert (reach s1 q c) as Hr
        by (by apply (Flood.flooded_sound _ _ _ _ _ _ _ _ H2)).
      by apply (FloodFacts.reach_later _ _ _ _ s s1).
  Qed.
End Order.
End FloodOrder.

(** * Two floods side by side *)

Lemma for_agree_rel {A St1 St2 : Type} (R : St1 → St2 → Prop)
    (f1 : A → St1 → outcome St1) (f2 : A → St2 → outcome St2) (l : list A) :
  (∀ a s1 s2, a ∈ l → R s1 s2 → outcomes_agree R (f1 a s1) (f2 a s2)) →
  ∀ s1 s2, R s1 s2 → outcomes_agree R (for_ f1 l s1) (for_ f2 l s2).
Proof.
  intros Hstep. induction l as [|a l IH]; intros s1 s2 HR; simpl; [done|].
  pose proof (Hstep a s1 s2 ltac:(left) HR) as Ha.
  destruct (f1 a s1), (f2 a s2); simpl in Ha; try done.
  apply IH; [|done]. intros b t1 t2 Hb. apply Hstep. by right.
Qed.

Module FloodPair.
Section Pair.
Context {St1 St2 : Type}.
Variables w h : Z.
Variable covered1 : St1 → Z → Z → bool.
Variable spreads1 : St1 → Z → Z → bool.
Variable uncover1 : St1 → Z → Z → St1.
Variable covered2 : St2 → Z → Z → bool.
Variable spreads2 : St2 → Z → Z → bool.
Variable uncover2 : St2 → Z → Z → St2.
Variable R : St1 → St2 → Prop.

Hypothesis R_covered : ∀ s1 s2 x y,
    R s1 s2 → inb w h x y → covered1 s1 x y = covered2 s2 x y.
Hypothesis R_spreads : ∀ s1 s2 x y,
    R s1 s2 → inb w h x y → spreads1 s1 x y = spreads2 s2 x y.
Hypothesis R_uncover : ∀ s1 s2 x y,
    R s1 s2 → inb w h x y → covered1 s1 x y = true →
    R (uncover1 s1 x y) (uncover2 s2 x y).

  (** Two floods from related states go the same way. *)
Lemma flood_pair (depth : nat) : ∀ s1 s2 x y,
    R s1 s2 → inb w h x y →
    outcomes_agree R
      (Flood.flood w h covered1 spreads1 uncover1 depth s1 x y)
      (Flood.flood w h covered2 spreads2 uncover2 depth s2 x y).
  Proof.
    induction depth as [|depth IH]; intros s1 s2 x y HR Hin; [done|].
    rewrite !FloodFacts.flood_step.
    rewrite <- (R_covered s1 s2 x y HR Hin), <- (R_spreads s1 s2 x y HR Hin).
    destruct (covered1 s1 x y) eqn:Hc; [|done].
    destruct (spreads1 s1 x y); [|by apply R_uncover].
    apply for_agree_rel; [|by apply R_uncover].
    intros d t1 t2 _ Ht.
    destruct (inbb w h (x + d.1) (y + d.2)) eqn:E; [|done].
    apply IH; [done|by apply inbb_inb].
  Qed.
End Pair.
End FloodPair.

(** * nyankosweeper.py: what play keeps, and the screen *)
Module NyankoPlay.
Import Nyankosweeper NyankoFacts NyankoBuild NyankoGame.

(** ** Boards with the same mines and counts *)

Lemma keeps_refl b : keeps b b.
Proof. split_and!; try done. intros x y c Hc. by exists c. Qed.

Lemma keeps_trans b1 b2 b3 : keeps b1 b2 → keeps b2 b3 → keeps b1 b3.
Proof.
  intros (Hw & Hh & Hm & H12) (Hw' & Hh' & Hm' & H23).
  split_and!; try congruence.
  intros x y c Hc. destruct (H12 x y c Hc) as (c2 & Hc2 & Hmine & Hadj & Hrev).
  destruct (H23 x y c2 Hc2) as (c3 & Hc3 & Hmine3 & Hadj3 & Hrev3).
  exists c3. split_and!; try congruence.
  intros Hm0 Hr. apply Hrev3; [congruence|]. by apply Hrev.
Qed.

Lemma keeps_is_mine b b' :
  Board_ok b → Board_ok b' → keeps b b' →
  ∀ p, is_mine (grid b') p = is_mine (grid b) p.
Proof.
  intros Hv Hv' (Hw & Hh & _ & Hk).
  apply (is_mine_same (width b) (height b)).
  - apply Hv.
  - rewrite <- Hw, <- Hh. apply Hv'.
  - intros x y c Hc. destruct (Hk x y c Hc) as (c' & ? & ? & _). eauto.
Qed.

(** A cell of [b'] is the image of the cell of [b] at the same place. *)
Lemma keeps_cell b b' x y c' :
  Board_ok b → Board_ok b' → keeps b b' → at2 (grid b') x y = Some c' →
  ∃ c, at2 (grid b) x y = Some c
    ∧ mine c' = mine c ∧ adjacent c' = adjacent c
    ∧ (mine c = false → revealed c = true → revealed c' = true).
Proof.
  intros Hv Hv' (Hw & Hh & _ & Hcells) Hc'.
  assert (inb (width b) (height b) x y) as Hin.
  { rewrite <- Hw, <- Hh. eapply at2_inb; [apply Hv'|done]. }
  destruct (get2_valid _ _ _ x y Hv Hin) as (c & Hcb & _).
  destruct (Hcells x y c Hcb) as (c2 & Hc2 & Hm2 & Ha2 & Hr2).
  assert (c2 = c') by congruence. subst c2. by exists c.
Qed.

Lemma counts_ok_keeps b b' :
  Board_ok b → Board_ok b' → keeps b b' → counts_ok b → counts_ok b'.
Proof.
  intros Hv Hv' Hk Hc x y c' Hc' Hmine.
  destruct (keeps_cell b b' x y c' Hv Hv' Hk Hc') as (c & Hcb & Hm & Ha & _).
  assert (mine c = false) as Hmc by congruence.
  rewrite Ha, (Hc x y c Hcb Hmc).
  f_equal. symmetry. pose proof Hk as (Hw & Hh & _).
  apply mines_around_same; [done|done|]. by apply keeps_is_mine.
Qed.

Lemma all_clear_keeps b b' :
  Board_ok b → Board_ok b' → keeps b b' →
  all_clear b = true → all_clear b' = true.
Proof.
  intros Hv Hv' Hk Hall. apply all_clear_spec. intros x y c' Hc' Hmine.
  destruct (keeps_cell b b' x y c' Hv Hv' Hk Hc') as (c & Hcb & Hm & _ & Hr).
  apply Hr; [congruence|].
  apply (proj1 (all_clear_spec b) Hall x y c Hcb). congruence.
Qed.

Lemma only_revealed_keeps b b' :
  width b' = width b → height b' = height b → mines b' = mines b →
  only_revealed (grid b) (grid b') → keeps b b'.
Proof.
  intros Hw Hh Hm Ho. split_and!; try done.
  intros x y c Hc. destruct (Ho x y c Hc) as [Hc'|(Hr & Hmk & Hc')].
  - exists c. by split_and!.
  - exists (set_revealed true c). by split_and!.
Qed.

(** ** The loops over all the cells *)

Lemma each_cell_returns (f : Cell → Cell) (b : Board) :
  Board_ok b → (∀ c, 0 ≤ mark c < 3 → 0 ≤ mark (f c) < 3) →
  ∃ b', each_cell f b = Done b'
    ∧ width b' = width b ∧ height b' = height b ∧ mines b' = mines b
    ∧ Board_ok b'
    ∧ ∀ x y c, at2 (grid b) x y = Some c → at2 (grid b') x y = Some (f c).
Proof.
  intros Hv Hf. unfold each_cell.
  rewrite (for_nested (λ x y g, do c <- get2 g x y; set2 g x y (f c))
    (range (width b)) (range (height b)) (grid b)).
  change (x ← range (width b); (λ y, (x, y)) <$> range (height b))
    with (cells (width b) (height b)).
  destruct (for_invariant
    (λ (p : Z * Z) g, do c <- get2 g p.1 p.2; set2 g p.1 p.2 (f c))
    (λ pre g,
       valid (width b) (height b) g
       ∧ ∀ x y c, at2 (grid b) x y = Some c →
           at2 g x y = Some (if decide ((x, y) ∈ pre) then f c else c))
    (cells (width b) (height b)) (grid b)) as (g' & Hrun & Hv' & Hcells).
  { split; [done|]. intros x y c Hc. rewrite decide_False; [done|].
    apply not_elem_of_nil. }
  { intros pre [x y] post g Hsplit [Hvg Hg]. cbn [fst snd].
    assert (inb (width b) (height b) x y) as Hin.
    { apply elem_of_cells. rewrite Hsplit. apply elem_of_app. right. left. }
    assert ((x, y) ∉ pre) as Hfresh.
    { pose proof (NoDup_cells (width b) (height b)) as Hnd.
      rewrite Hsplit in Hnd. apply NoDup_app in Hnd as (_ & Hnd & _).
      intros Hp. apply (Hnd _ Hp). left. }
    destruct (get2_valid _ _ _ x y Hv Hin) as (c & Hc & _ & Hm).
    pose proof (Hg x y c Hc) as Hgc. rewrite decide_False in Hgc by done.
    pose proof Hin as [Hx Hy].
    rewrite get2_nonneg, Hgc by lia. cbn [bind].
    rewrite set2_nonneg, Hgc by lia.
    eexists. split; [done|]. split.
    - apply valid_put2; [done|done|]. by apply Hf.
    - intros x' y' c' Hc'.
      destruct (decide ((x', y') = (x, y))) as [[= -> ->]|Hne].
      + rewrite decide_True by (apply elem_of_app; right; left).
        simplify_eq. by eapply at2_put2_eq.
      + rewrite at2_put2_ne by (try lia; congruence).
        rewrite (Hg x' y' c' Hc'). f_equal.
        destruct (decide ((x', y') ∈ pre)) as [Hp|Hp].
        * rewrite decide_True; [done|]. apply elem_of_app. by left.
        * rewrite decide_False; [done|].
          intros [?|?%list_elem_of_singleton]%elem_of_app; done. }
  rewrite Hrun. cbn [bind]. eexists. split; [done|]. simpl.
  split_and!; try done.
  intros x y c Hc. rewrite (Hcells x y c Hc). rewrite decide_True; [done|].
  apply elem_of_cells. eapply at2_inb; [apply Hv|done].
Qed.

(** [reveal_all(show_mines=True)]: every cell is revealed but the
    flagged mines. *)
Lemma reveal_all_returns (gm : Game) :
  Board_ok (board gm) →
  ∃ b', reveal_all true gm
        = Done (mkGame b' (cursor_x gm) (cursor_y gm) (game_over gm))
    ∧ Board_ok b' ∧ keeps (board gm) b' ∧ all_clear b' = true
    ∧ ∀ x y c, cell_at (board gm) x y = Some c →
        cell_at b' x y
        = Some (if mine c && (mark c =? 1) then c else set_revealed true c).
Proof.
  intros Hv. unfold reveal_all.
  destruct (each_cell_returns
    (λ cell, if true then
               if mine cell then
                 if negb (mark cell =? 1) then set_revealed true cell else cell
               else set_revealed true cell
             else set_revealed true cell) (board gm) Hv)
    as (b' & -> & Hw & Hh & Hm & Hv' & Hcells).
  { intros c Hc. destruct (mine c), (mark c =? 1); done. }
  cbn [bind]. exists b'. split; [done|]. split; [done|].
  assert (keeps (board gm) b') as Hk.
  { split_and!; try done. intros x y c Hc. rewrite (Hcells x y c Hc).
    eexists. split; [done|].
    destruct (mine c) eqn:E1, (mark c =? 1) eqn:E2; simpl; by split_and!. }
  split; [done|]. split.
  - apply all_clear_spec. intros x y c' Hc' Hmine.
    destruct (keeps_cell _ _ x y c' Hv Hv' Hk Hc') as (c & Hcb & Hmc & _).
    unfold cell_at in Hc'. rewrite (Hcells x y c Hcb) in Hc'.
    injection Hc' as <-. rewrite Hmine in Hmc. by rewrite <- Hmc.
  - intros x y c Hc. unfold cell_at in *. rewrite (Hcells x y c Hc).
    by destruct (mine c), (mark c =? 1).
Qed.

(** The loop of [handle_win]: the mines flagged and hidden, the rest
    revealed. *)
Lemma handle_win_cells (b : Board) :
  Board_ok b →
  ∃ b', each_cell (λ cell, if mine cell then set_revealed false (set_mark 1 cell)
                           else set_revealed true cell) b = Done b'
    ∧ Board_ok b' ∧ keeps b b'
    ∧ ∀ x y c, cell_at b x y = Some c →
        cell_at b' x y
        = Some (if mine c then set_revealed false (set_mark 1 c)
                else set_revealed true c).
Proof.
  intros Hv.
  destruct (each_cell_returns
    (λ cell, if mine cell then set_revealed false (set_mark 1 cell)
             else set_revealed true cell) b Hv)
    as (b' & -> & Hw & Hh & Hm & Hv' & Hcells).
  { intros c Hc. destruct (mine c); simpl; [lia|done]. }
  exists b'. split; [done|]. split; [done|]. split; [|done].
  split_and!; try done. intros x y c Hc. rewrite (Hcells x y c Hc).
  eexists. split; [done|]. destruct (mine c) eqn:E; simpl; by split_and!.
Qed.

(** ** The steps of a turn *)

Lemma toggle_mark_keeps (b : Board) (x y : Z) :
  Board_ok b → inb (width b) (height b) x y →
  ∃ b', toggle_mark b x y = Done b' ∧ Board_ok b' ∧ keeps b b'.
Proof.
  intros Hv Hin. destruct (get2_valid _ _ _ x y Hv Hin) as (c & Hc & Hget & Hm).
  pose proof Hin as [Hx Hy].
  destruct (revealed c) eqn:Hr.
  - rewrite (toggle_mark_revealed b x y c) by (done || lia).
    exists b. split; [done|]. split; [done|apply keeps_refl].
  - rewrite (toggle_mark_unrevealed b x y c) by (done || lia).
    eexists. split; [done|]. split.
    + apply valid_put2; [done|done|]. simpl.
      apply Z.mod_pos_bound. lia.
    + split_and!; try done. intros x' y' c' Hc'. simpl.
      destruct (decide ((x', y') = (x, y))) as [[= -> ->]|Hne].
      * rewrite (at2_put2_eq _ _ _ _ c) by done. simplify_eq.
        eexists. split; [done|]. by split_and!.
      * rewrite at2_put2_ne by (try lia; congruence). by exists c'.
Qed.

Lemma reveal_keeps (depth : nat) (b : Board) (x y : Z) :
  Board_ok b → inb (width b) (height b) x y →
  width b * height b < Z.of_nat depth →
  ∃ b', reveal depth b x y = Done b' ∧ Board_ok b' ∧ keeps b b'.
Proof.
  intros Hv Hin Hd.
  assert (cells_left b < depth)%nat as Hlt.
  { pose proof (cells_left_le b). unfold inb in Hin. lia. }
  destruct (reveal_returns depth b x y Hv Hin Hlt)
    as (b' & Hrun & Hw & Hh & Hm & Hv' & Hf).
  exists b'. split; [done|]. split; [done|].
  apply only_revealed_keeps; try done.
  apply (Flood.flooded_ok _ _ _ _ _ _ _ _ Hf).
Qed.

(** A key bound to a direction moves the cursor, clamped to the board. *)
Lemma handle_key_move (depth : nat) (gm : Game) (key : string) (t : tty)
    (action : string) :
  dict_get Config.KEY_BINDINGS key = Some action →
  ∃ dx dy,
    (dx, dy) ∈ [(-1, 0); (1, 0); (0, -1); (0, 1)]
    ∧ dict_get Config.DIRECTIONS action = Some (dx, dy)
    ∧ handle_key depth gm key t
      = Done (true,
              mkGame (board gm)
                (Z.max 0 (Z.min (width (board gm) - 1) (cursor_x gm + dx)))
                (Z.max 0 (Z.min (height (board gm) - 1) (cursor_y gm + dy)))
                (game_over gm), t).
Proof.
  intros Hk. unfold handle_key. rewrite Hk.
  assert (action ∈ ["LEFT"; "RIGHT"; "UP"; "DOWN"]%string) as Ha.
  { unfold Config.KEY_BINDINGS in Hk. cbn [dict_get] in Hk.
    repeat case_match; simplify_eq; apply list_elem_of_In; simpl; tauto. }
  apply list_elem_of_In in Ha. simpl in Ha.
  destruct Ha as [<-|[<-|[<-|[<-|[]]]]].
  - exists (-1), 0. split; [apply list_elem_of_In; simpl; tauto|]. split; reflexivity.
  - exists 1, 0. split; [apply list_elem_of_In; simpl; tauto|]. split; reflexivity.
  - exists 0, (-1). split; [apply list_elem_of_In; simpl; tauto|]. split; reflexivity.
  - exists 0, 1. split; [apply list_elem_of_In; simpl; tauto|]. split; reflexivity.
Qed.

(** The reveal key on a mine: the game is over, whatever the mark of the
    cell, and one more key is read. *)
Lemma handle_reveal_mine (depth : nat) (gm : Game) (t : tty) (c : Cell) :
  Board_ok (board gm) →
  inb (width (board gm)) (height (board gm)) (cursor_x gm) (cursor_y gm) →
  cell_at (board gm) (cursor_x gm) (cursor_y gm) = Some c → mine c = true →
  ∃ b', Board_ok b' ∧ keeps (board gm) b' ∧ all_clear b' = true
    ∧ (∀ x y c, cell_at (board gm) x y = Some c →
         cell_at b' x y
         = Some (if mine c && (mark c =? 1) then c else set_revealed true c))
    ∧ handle_reveal depth gm t
      = match keys t with
        | [] => Raise NoMoreKeys
        | _ :: rest =>
            Done (mkGame b' (cursor_x gm) (cursor_y gm) true,
                  mkTty rest (shown t ++ ["You lose. hit key"%string]))
        end.
Proof.
  intros Hv Hin Hc Hmine.
  destruct (reveal_all_returns
              (mkGame (board gm) (cursor_x gm) (cursor_y gm) true) Hv)
    as (b' & Hrun & Hv' & Hk & Hall & Hcells).
  exists b'. split; [done|]. split; [done|]. split; [done|]. split; [done|].
  unfold handle_reveal. destruct Hin as [Hx Hy].
  unfold cell_at in Hc. rewrite get2_nonneg, Hc by lia. cbn [bind].
  rewrite Hmine, Hrun. cbn [bind cursor_x cursor_y game_over].
  unfold getkey_raw, show_message. cbn [keys shown].
  by destruct (keys t).
Qed.

(** [game_over] is never reset. *)
Lemma handle_key_game_over (depth : nat) (gm gm' : Game) (key : string)
    (t t' : tty) (continue : bool) :
  handle_key depth gm key t = Done (continue, gm', t') →
  game_over gm = true → game_over gm' = true.
Proof.
  unfold handle_key. intros Hrun Hover.
  destruct (dict_get Config.KEY_BINDINGS key) as [action|].
  { destruct (dict_get Config.DIRECTIONS action) as [[dx dy]|]; by simplify_eq. }
  destruct (String.eqb key "z" || String.eqb key "m").
  { destruct (toggle_mark _ _ _); by simplify_eq/=. }
  destruct (String.eqb key " ").
  { unfold handle_reveal in Hrun.
    destruct (get2 _ _ _) as [c|]; [|done]. cbn [bind] in Hrun.
    destruct (mine c).
    - unfold reveal_all in Hrun.
      destruct (each_cell _ _); [|done]. cbn [bind] in Hrun.
      destruct (getkey_raw _) as [[k t1]|]; by simplify_eq/=.
    - destruct (reveal _ _ _ _); by simplify_eq/=. }
  destruct (String.eqb key "q"); by simplify_eq.
Qed.

(** ** Hidden mines *)

Lemma toggle_mark_hidden (b b' : Board) (x y : Z) :
  Board_ok b → inb (width b) (height b) x y → mines_hidden b →
  toggle_mark b x y = Done b' → mines_hidden b'.
Proof.
  intros Hv Hin Hh Hrun.
  destruct (get2_valid _ _ _ x y Hv Hin) as (c & Hc & _ & _).
  pose proof Hin as [Hx Hy].
  destruct (revealed c) eqn:Hr.
  - rewrite (toggle_mark_revealed b x y c) in Hrun by (done || lia).
    by simplify_eq.
  - rewrite (toggle_mark_unrevealed b x y c) in Hrun by (done || lia).
    injection Hrun as <-.
    intros x' y' c' Hc' Hmine. unfold cell_at in Hc'.
    cbn [grid with_grid] in Hc'.
    destruct (decide ((x', y') = (x, y))) as [[= -> ->]|Hne].
    + rewrite (at2_put2_eq _ _ _ _ c) in Hc' by done. by simplify_eq.
    + rewrite at2_put2_ne in Hc' by (try lia; congruence). by eapply Hh.
Qed.

Lemma reveal_hidden (depth : nat) (b b' : Board) (x y : Z) :
  Board_ok b → counts_ok b → inb (width b) (height b) x y →
  is_mine (grid b) (x, y) = false → (cells_left b < depth)%nat →
  mines_hidden b → reveal depth b x y = Done b' → mines_hidden b'.
Proof.
  intros Hv Hcnt Hin Hsafe Hd Hh Hrun.
  destruct (reveal_returns depth b x y Hv Hin Hd)
    as (b2 & Hrun2 & Hw & Hhh & Hm & Hv2 & Hf).
  rewrite Hrun in Hrun2. injection Hrun2 as <-.
  destruct (Flood.flooded_ok _ _ _ _ _ _ _ _ Hf) as [_ Ho].
  intros cx cy c' Hc' Hmine. unfold cell_at in Hc'.
  assert (inb (width b) (height b) cx cy) as Hinc.
  { rewrite <- Hw, <- Hhh. eapply at2_inb; [apply Hv2|done]. }
  destruct (get2_valid _ _ _ cx cy Hv Hinc) as (c & Hc & _).
  destruct (Ho cx cy c Hc) as [Hsame|(Hr & Hmk & Hnew)].
  - assert (c' = c) by congruence. subst. by eapply Hh.
  - assert (c' = set_revealed true c) by congruence. subst. simpl in Hmine.
    exfalso.
    assert (reached b (x, y) (cx, cy)) as Hreach.
    { apply (Flood.flooded_sound _ _ _ _ _ _ _ _ Hf); cbn [fst snd]; [done| |].
      - unfold covered. by rewrite Hc, Hr, Hmk.
      - unfold covered. by rewrite Hnew. }
    pose proof (reached_no_mine b (x, y) (cx, cy) Hcnt Hsafe Hreach) as Hno.
    unfold is_mine in Hno. cbn [fst snd] in Hno. rewrite Hc in Hno. congruence.
Qed.

Lemma place_mines_from_unrevealed (draws : list (Z * Z)) :
  ∀ (b : Board) (placed : Z) (b' : Board),
  Board_ok b →
  Forall (λ p, inb (width b) (height b) p.1 p.2) draws →
  (∀ x y c, at2 (grid b) x y = Some c → revealed c = false) →
  place_mines_from b placed draws = Done b' →
  ∀ x y c, at2 (grid b') x y = Some c → revealed c = false.
Proof.
  induction draws as [|[x y] rest IH]; intros b placed b' Hv Hdraws Hu Hrun.
  - simpl in Hrun. destruct (placed <? mines b); by simplify_eq.
  - simpl in Hrun. destruct (placed <? mines b); [|by simplify_eq].
    apply Forall_cons in Hdraws as [Hin Hdraws]. simpl in Hin.
    destruct (get2_valid _ _ _ x y Hv Hin) as (c & Hc & Hget & Hm).
    rewrite Hget in Hrun. cbn [bind] in Hrun.
    destruct (mine c); cbn [negb] in Hrun; [by eapply IH|].
    pose proof Hin as [Hx Hy].
    rewrite set2_nonneg, Hc in Hrun by lia. cbn [bind] in Hrun.
    apply (IH (with_grid b (put2 (grid b) x y (set_mine true c)))
             (placed + 1) b'); [|done| |done].
    + apply valid_put2; done.
    + intros x' y' c' Hc'. cbn [grid with_grid] in Hc'.
      destruct (decide ((x', y') = (x, y))) as [[= -> ->]|Hne].
      * rewrite (at2_put2_eq _ _ _ _ c) in Hc' by done. simplify_eq.
        simpl. by eapply Hu.
      * rewrite at2_put2_ne in Hc' by (try lia; congruence). by eapply Hu.
Qed.

(** [Board.__init__] reveals nothing. *)
Lemma Board_init_unrevealed (n : Z) (draws : list (Z * Z)) (b : Board) :
  Forall (λ p, inb Config.XSIZE Config.BOARD_HEIGHT p.1 p.2) draws →
  Board_init n draws = Done b →
  ∀ x y c, at2 (grid b) x y = Some c → revealed c = false.
Proof.
  intros Hdraws Hrun. unfold Board_init, place_mines in Hrun.
  set (b0 := mkBoard Config.XSIZE Config.BOARD_HEIGHT n
               (fresh_grid Config.XSIZE Config.BOARD_HEIGHT Cell_init)) in *.
  assert (∀ x y c, at2 (grid b0) x y = Some c → c = Cell_init) as Hfresh.
  { intros x y c Hc. simpl in Hc.
    assert (inb Config.XSIZE Config.BOARD_HEIGHT x y) as Hin.
    { eapply at2_inb; [|done]. by apply rect_fresh_grid. }
    rewrite at2_fresh_grid in Hc by done. by simplify_eq. }
  assert (Board_ok b0) as Hv0.
  { split; [by apply rect_fresh_grid|].
    intros x y c Hc. by rewrite (Hfresh x y c Hc). }
  destruct (place_mines_from b0 0 draws) as [b1|] eqn:Hplace; [|done].
  cbn [bind] in Hrun.
  assert (∀ x y c, at2 (grid b1) x y = Some c → revealed c = false) as Hu1.
  { apply (place_mines_from_unrevealed draws b0 0 b1 Hv0 Hdraws); [|done].
    intros x y c Hc. by rewrite (Hfresh x y c Hc). }
  destruct (place_mines_from_valid draws b0 0 b1 Hv0 Hdraws Hplace)
    as (Hv1 & Hw1 & Hh1).
  destruct (calculate_adjacents_returns b1 Hv1)
    as (b2 & Hrun2 & Hw & Hh & _ & Hv2 & Hcells).
  rewrite Hrun in Hrun2. injection Hrun2 as <-.
  intros x y c' Hc'.
  assert (inb (width b1) (height b1) x y) as Hin.
  { rewrite <- Hw, <- Hh. eapply at2_inb; [apply Hv2|done]. }
  destruct (get2_valid _ _ _ x y Hv1 Hin) as (c & Hc & _).
  rewrite (Hcells x y c Hc) in Hc'. injection Hc' as <-.
  pose proof (Hu1 x y c Hc) as Hr. by destruct (mine c).
Qed.

(** One key: the game stays in play, and no key is put back. *)
Lemma handle_key_ok (depth : nat) (gm : Game) (key : string) (t : tty) :
  Game_ok gm →
  width (board gm) * height (board gm) < Z.of_nat depth →
  handle_key depth gm key t = Raise NoMoreKeys
  ∨ ∃ continue gm' t',
      handle_key depth gm key t = Done (continue, gm', t')
      ∧ Game_ok gm' ∧ keeps (board gm) (board gm')
      ∧ (length (keys t') ≤ length (keys t))%nat.
Proof.
  intros (Hv & Hcnt & Hin & Hhid & Hover) Hd.
  assert (cells_left (board gm) < depth)%nat as Hlt.
  { pose proof (cells_left_le (board gm)). unfold inb in Hin. lia. }
  destruct (dict_get Config.KEY_BINDINGS key) as [action|] eqn:Hk.
  { destruct (handle_key_move depth gm key t action Hk)
      as (dx & dy & Hdir & _ & ->).
    right. do 3 eexists. split; [done|]. split; [|split; [apply keeps_refl|done]].
    split; [done|]. split; [done|]. split; [|split; done].
    cbn [board cursor_x cursor_y]. unfold inb in *. lia. }
  unfold handle_key. rewrite Hk.
  destruct (String.eqb key "z" || String.eqb key "m").
  { destruct (toggle_mark_keeps (board gm) (cursor_x gm) (cursor_y gm) Hv Hin)
      as (b' & Hrun & Hv' & Hkp).
    rewrite Hrun. cbn [bind]. right. do 3 eexists. split; [done|].
    split; [|split; [done|done]].
    pose proof Hkp as (Hw & Hh & _).
    split; [|split; [|split; [|split]]]; cbn [board cursor_x cursor_y game_over].
    - done.
    - by apply (counts_ok_keeps (board gm)).
    - by rewrite Hw, Hh.
    - intros Ho.
      by apply (toggle_mark_hidden (board gm) b' _ _ Hv Hin (Hhid Ho)).
    - intros Ho. apply (all_clear_keeps (board gm)); auto. }
  destruct (String.eqb key " ").
  { destruct (get2_valid _ _ _ _ _ Hv Hin) as (c & Hc & Hget & _).
    destruct (mine c) eqn:Hmine.
    - destruct (handle_reveal_mine depth gm t c Hv Hin Hc Hmine)
        as (b' & Hv' & Hkp & Hall & _ & ->).
      destruct (keys t) as [|k rest] eqn:Hkeys; [by left|].
      cbn [bind]. right. do 3 eexists. split; [done|].
      pose proof Hkp as (Hw & Hh & _).
      split; [|split; [done|cbn; lia]].
      split; [|split; [|split; [|split]]]; cbn [board cursor_x cursor_y game_over].
      + done.
      + by apply (counts_ok_keeps (board gm)).
      + by rewrite Hw, Hh.
      + done.
      + done.
    - destruct (reveal_keeps depth (board gm) (cursor_x gm) (cursor_y gm)
                  Hv Hin Hd) as (b' & Hrun & Hv' & Hkp).
      unfold handle_reveal. rewrite Hget. cbn [bind]. rewrite Hmine, Hrun.
      cbn [bind]. right. do 3 eexists. split; [done|].
      pose proof Hkp as (Hw & Hh & _).
      split; [|split; [done|done]].
      split; [|split; [|split; [|split]]]; cbn [board cursor_x cursor_y game_over].
      + done.
      + by apply (counts_ok_keeps (board gm)).
      + by rewrite Hw, Hh.
      + intros Ho.
        apply (reveal_hidden depth (board gm) b' (cursor_x gm) (cursor_y gm));
          try done; [|by apply Hhid].
        unfold is_mine. cbn [fst snd]. by rewrite Hc.
      + intros Ho. apply (all_clear_keeps (board gm)); auto. }
  destruct (String.eqb key "q").
  - right. do 3 eexists. split; [done|].
    split; [done|]. split; [apply keeps_refl|done].
  - right. do 3 eexists. split; [done|].
    split; [done|]. split; [apply keeps_refl|done].
Qed.

(** [handle_win] on a game in play. *)
Lemma handle_win_ok (gm : Game) (t : tty) :
  Game_ok gm →
  ∃ b', Board_ok b' ∧ keeps (board gm) b' ∧ mines_hidden b'
    ∧ (∀ x y c, cell_at (board gm) x y = Some c →
         cell_at b' x y
         = Some (if mine c then set_revealed false (set_mark 1 c)
                 else set_revealed true c))
    ∧ handle_win gm t
      = match keys t with
        | [] => Raise NoMoreKeys
        | _ :: rest =>
            Done (mkGame b' (cursor_x gm) (cursor_y gm) (game_over gm),
                  mkTty rest (shown t ++ ["You win. hit key"%string]))
        end.
Proof.
  intros (Hv & _).
  destruct (handle_win_cells (board gm) Hv) as (b' & Hrun & Hv' & Hk & Hcells).
  exists b'. split; [done|]. split; [done|]. split.
  { intros x y c' Hc' Hmine.
    destruct (keeps_cell _ _ x y c' Hv Hv' Hk Hc') as (c & Hcb & Hmc & _).
    unfold cell_at in *. rewrite (Hcells x y c Hcb) in Hc'.
    injection Hc' as <-. rewrite Hmine in Hmc. by rewrite <- Hmc. }
  split; [done|].
  unfold handle_win. rewrite Hrun. cbn [bind].
  unfold getkey_raw, show_message. cbn [keys shown].
  by destruct (keys t).
Qed.

(** The turn loop keeps the game in play: it returns, or waits for a key. *)
Lemma run_turns_ok (turns depth : nat) : ∀ (gm : Game) (t : tty),
  Game_ok gm →
  width (board gm) * height (board gm) < Z.of_nat depth →
  (length (keys t) < turns)%nat →
  run_turns turns depth gm t = Raise NoMoreKeys
  ∨ ∃ code gm' t',
      run_turns turns depth gm t = Done (code, gm', t')
      ∧ Game_ok gm' ∧ keeps (board gm) (board gm').
Proof.
  induction turns as [|turns IH]; intros gm t Hok Hd Hlen; [lia|].
  cbn [run_turns].
  destruct (negb (game_over gm) && all_clear (board gm)) eqn:Hwin.
  - destruct (handle_win_ok gm t Hok) as (b' & Hv' & Hk & Hhid' & _ & ->).
    destruct (keys t) as [|k rest]; [by left|]. cbn [bind].
    right. do 3 eexists. split; [done|]. split; [|done].
    destruct Hok as (Hv & Hcnt & Hin & Hhid & Hover).
    pose proof Hk as (Hw & Hh & _).
    split; [|split; [|split; [|split]]]; cbn [board cursor_x cursor_y game_over].
    + done.
    + by apply (counts_ok_keeps (board gm)).
    + by rewrite Hw, Hh.
    + done.
    + intros Ho. rewrite Ho in Hwin. done.
  - unfold getkey_raw. destruct (keys t) as [|k rest] eqn:Hkeys; [by left|].
    cbn [bind].
    destruct (handle_key_ok depth gm k (mkTty rest (shown t)) Hok Hd)
      as [->|(continue & gm1 & t1 & -> & Hok1 & Hk1 & Hlen1)]; [by left|].
    cbn [bind]. destruct continue.
    + pose proof Hk1 as (Hw & Hh & _).
      destruct (IH gm1 t1 Hok1) as [->|(code & gm' & t' & -> & Hok' & Hk')].
      * by rewrite Hw, Hh.
      * cbn [keys] in Hlen1. simpl in Hlen. lia.
      * by left.
      * right. do 3 eexists. split; [done|]. split; [done|].
        by apply (keeps_trans _ (board gm1)).
    + right. do 3 eexists. split; [done|]. done.
Qed.

(** The game that [Game.__init__] builds is in play. *)
Lemma Game_init_ok (n : Z) (draws : list (Z * Z)) (gm : Game) :
  Forall (λ p, inb Config.XSIZE Config.BOARD_HEIGHT p.1 p.2) draws →
  Game_init n draws = Done gm →
  Game_ok gm ∧ width (board gm) = Config.XSIZE
  ∧ height (board gm) = Config.BOARD_HEIGHT ∧ game_over gm = false.
Proof.
  intros Hdraws Hrun. unfold Game_init in Hrun.
  destruct (Board_init n draws) as [b|] eqn:Hb; [|done]. cbn [bind] in Hrun.
  destruct (Board_init_counts n draws b Hdraws Hb) as (Hv & Hcnt & Hw & Hh).
  injection Hrun as <-. cbn [board cursor_x cursor_y game_over].
  split_and!; try done. unfold Game_ok. cbn [board cursor_x cursor_y game_over].
  split; [done|]. split; [done|]. split; [|split; [|done]].
  2:{ intros _ x y c Hc _. by apply (Board_init_unrevealed n draws b Hdraws Hb x y). }
  rewrite Hw, Hh.
  unfold inb, Config.XSIZE, Config.BOARD_HEIGHT.
  change (40 `div` 2) with 20. change (22 `div` 2) with 11. lia.
Qed.

(** [place_mines] on draws within the board: the board, or no draws left. *)
Lemma place_mines_from_outcome (draws : list (Z * Z)) :
  ∀ (b : Board) (placed : Z),
  Board_ok b →
  Forall (λ p, inb (width b) (height b) p.1 p.2) draws →
  place_mines_from b placed draws = Raise NoMoreDraws
  ∨ ∃ b', place_mines_from b placed draws = Done b'.
Proof.
  induction draws as [|[x y] rest IH]; intros b placed Hv Hdraws.
  - simpl. destruct (placed <? mines b); eauto.
  - simpl. destruct (placed <? mines b); [|eauto].
    apply Forall_cons in Hdraws as [Hin Hdraws]. simpl in Hin.
    destruct (get2_valid _ _ _ x y Hv Hin) as (c & Hc & Hget & Hm).
    rewrite Hget. cbn [bind].
    destruct (mine c); cbn [negb]; [by apply IH|].
    destruct Hin as [Hx Hy]. rewrite set2_nonneg, Hc by lia. cbn [bind].
    apply IH; [|done]. apply valid_put2; done.
Qed.

(** [Board.__init__] on draws within the board. *)
Lemma Board_init_outcome (n : Z) (draws : list (Z * Z)) :
  Forall (λ p, inb Config.XSIZE Config.BOARD_HEIGHT p.1 p.2) draws →
  Board_init n draws = Raise NoMoreDraws ∨ ∃ b, Board_init n draws = Done b.
Proof.
  intros Hdraws. unfold Board_init, place_mines.
  set (b0 := mkBoard Config.XSIZE Config.BOARD_HEIGHT n
               (fresh_grid Config.XSIZE Config.BOARD_HEIGHT Cell_init)).
  assert (Board_ok b0) as Hv0.
  { split; [by apply rect_fresh_grid|].
    intros x y c Hc. simpl in Hc.
    assert (inb Config.XSIZE Config.BOARD_HEIGHT x y) as Hin.
    { eapply at2_inb; [|done]. by apply rect_fresh_grid. }
    rewrite at2_fresh_grid in Hc by done. by simplify_eq. }
  destruct (place_mines_from_outcome draws b0 0 Hv0 Hdraws)
    as [->|(b1 & Hplace)]; [by left|].
  rewrite Hplace. cbn [bind]. right.
  destruct (place_mines_from_valid draws b0 0 b1 Hv0 Hdraws Hplace) as (Hv1 & _).
  destruct (calculate_adjacents_returns b1 Hv1) as (b & -> & _). eauto.
Qed.

(** What [get_mine_count] makes of a command line. *)
Lemma get_mine_count_outcome (argv : list word) :
  (∃ n, get_mine_count argv = Done n ∧ n ≤ Config.MAX_MINES
        ∧ (length argv ≠ 2%nat → n = 56))
  ∨ (length argv = 2%nat
     ∧ (get_mine_count argv = Raise (SystemExit 1 "too many nyankos")
        ∨ get_mine_count argv = Raise (SystemExit 1 "not a number"))).
Proof.
  unfold get_mine_count.
  destruct (Z.eqb_spec (Z.of_nat (length argv)) 2) as [Hlen|Hlen].
  - destruct argv as [|a [|b [|c argv]]]; simpl in Hlen; try lia.
    change (getitem [a; b] 1) with (Done b). cbn [bind].
    destruct b as [n|s]; cbn [int].
    + destruct (Z.gtb_spec n Config.MAX_MINES).
      * right. split; [done|]. by left.
      * left. exists n. split; [done|]. split; [lia|done].
    + right. split; [done|]. by right.
  - left. exists 56. split; [done|]. split; [done|done].
Qed.

(** ** The screen *)

(** [display] returns a glyph for every cell of a game in play. *)
Lemma display_returns (over : bool) (c : Cell) :
  0 ≤ mark c < 3 → (mine c = false → 0 ≤ adjacent c) →
  ∃ s, display over c = Done s.
Proof.
  intros Hm Ha. unfold display.
  destruct (revealed c); cbn [negb].
  - destruct (mine c); [eauto|].
    destruct (adjacent c <? _) eqn:E; [|eauto].
    apply getitem_in_range. split; [by apply Ha|]. by apply Z.ltb_lt.
  - destruct (over && negb (mine c) && (mark c =? 1)); [eauto|].
    apply getitem_in_range. simpl. lia.
Qed.

(** The wrong-flag glyph needs a covered cell without a mine in a game
    that is over. *)
Lemma display_wrong_flag (over : bool) (c : Cell) :
  display over c = Done "Ｘ"%string →
  over = true ∧ revealed c = false ∧ mine c = false ∧ mark c = 1.
Proof.
  unfold display. destruct (revealed c); cbn [negb].
  - destruct (mine c); [done|].
    destruct (adjacent c <? _); [|done].
    intros Hg%getitem_elem_of. apply list_elem_of_In in Hg. simpl in Hg.
    repeat (destruct Hg as [Hg|Hg]; [done|]). done.
  - destruct over, (mine c), (mark c =? 1) eqn:E; cbn [andb negb];
      try (intros Hg%getitem_elem_of; apply list_elem_of_In in Hg;
           simpl in Hg; repeat (destruct Hg as [Hg|Hg]; [done|]); done).
    intros _. split_and!; try done. by apply Z.eqb_eq.
Qed.

(** While the game is on, two cells that look the same are displayed
    the same. *)
Lemma display_shows_same (c1 c2 : Cell) :
  shows_same c1 c2 → display false c1 = display false c2.
Proof.
  intros (Hr & Hm & Hc). unfold display. rewrite <- Hr.
  destruct (revealed c1); cbn [negb andb].
  - destruct (Hc eq_refl) as [Hmine Hadj]. rewrite <- Hmine.
    destruct (mine c1); [done|]. by rewrite <- Hadj.
  - by rewrite Hm.
Qed.

(** [draw] as one loop over the cells. *)
Lemma draw_cells (gm : Game) (scr : list write) :
  draw gm scr
  = for_ (λ p scr, draw_cell p.1 p.2 gm scr)
      (cells (width (board gm)) (height (board gm))) scr.
Proof.
  unfold draw.
  by rewrite (for_nested (λ x y scr, draw_cell x y gm scr)).
Qed.

Lemma draw_returns (gm : Game) (scr : list write) :
  Game_ok gm →
  ∃ ws, draw gm scr = Done (scr ++ ws)
    ∧ Forall2 (drawn_as gm) (cells (width (board gm)) (height (board gm))) ws.
Proof.
  intros (Hv & Hcnt & Hin & _ & Hover). rewrite draw_cells.
  destruct (for_invariant
    (λ (p : Z * Z) scr, draw_cell p.1 p.2 gm scr)
    (λ pre s, ∃ ws, s = scr ++ ws ∧ Forall2 (drawn_as gm) pre ws)
    (cells (width (board gm)) (height (board gm))) scr)
    as (s' & Hrun & ws & -> & Hws).
  { exists []. split; [by rewrite app_nil_r|constructor]. }
  { intros pre [x y] post s Hsplit (ws & -> & Hws). cbn [fst snd].
    assert (inb (width (board gm)) (height (board gm)) x y) as Hxy.
    { apply elem_of_cells. rewrite Hsplit. apply elem_of_app. right. left. }
    destruct (get2_valid _ _ _ x y Hv Hxy) as (c & Hc & Hget & Hm).
    destruct (display_returns (game_over gm) c Hm) as [s Hs].
    { intros Hmine. rewrite (Hcnt x y c Hc Hmine). lia. }
    unfold draw_cell. rewrite Hget. cbn [bind]. rewrite Hs. cbn [bind].
    eexists. split; [done|]. unfold addstr.
    exists (ws ++ [mkWrite y (x * 2) s ((x =? cursor_x gm) && (y =? cursor_y gm))]).
    split; [by rewrite app_assoc|].
    apply Forall2_app; [done|]. constructor; [|constructor].
    unfold drawn_as. cbn. split; [done|]. split; [done|]. split.
    - destruct (decide ((x, y) = (cursor_x gm, cursor_y gm))) as [[= -> ->]|Hne].
      + rewrite bool_decide_true by done. by rewrite !Z.eqb_refl.
      + rewrite bool_decide_false by done.
        destruct (Z.eqb_spec x (cursor_x gm)), (Z.eqb_spec y (cursor_y gm));
          try done. congruence.
    - by exists c. }
  exists ws. by rewrite Hrun.
Qed.

(** In a game in play no cell is drawn as a wrong flag. *)
Lemma drawn_no_wrong_flag (gm : Game) (l : list (Z * Z)) (ws : list write) :
  Game_ok gm → Forall2 (drawn_as gm) l ws →
  Forall (λ wr, w_text wr ≠ "Ｘ"%string) ws.
Proof.
  intros (Hv & _ & _ & _ & Hover) Hws.
  induction Hws as [|p wr l ws Hp _ IH]; constructor; [|done].
  destruct Hp as (_ & _ & _ & c & Hc & Hd). intros Heq. rewrite Heq in Hd.
  apply display_wrong_flag in Hd as (Ho & Hr & Hm & _).
  pose proof (proj1 (all_clear_spec _) (Hover Ho) _ _ c Hc Hm). congruence.
Qed.

(** The glyph of a mine needs a revealed cell with a mine. *)
Lemma display_mine (over : bool) (c : Cell) :
  display over c = Done "😺"%string → revealed c = true ∧ mine c = true.
Proof.
  unfold display. destruct (revealed c); cbn [negb].
  - destruct (mine c); [done|]. destruct (adjacent c <? _); [|done].
    intros Hg%getitem_elem_of. apply list_elem_of_In in Hg. simpl in Hg.
    repeat (destruct Hg as [Hg|Hg]; [done|]). done.
  - destruct (over && negb (mine c) && (mark c =? 1)); [done|].
    intros Hg%getitem_elem_of. apply list_elem_of_In in Hg. simpl in Hg.
    repeat (destruct Hg as [Hg|Hg]; [done|]). done.
Qed.

(** While the game is on no cell is drawn as a mine. *)
Lemma drawn_no_mine (gm : Game) (l : list (Z * Z)) (ws : list write) :
  Game_ok gm → game_over gm = false → Forall2 (drawn_as gm) l ws →
  Forall (λ wr, w_text wr ≠ "😺"%string) ws.
Proof.
  intros (Hv & _ & _ & Hhid & _) Hon Hws.
  induction Hws as [|p wr l ws Hp _ IH]; constructor; [|done].
  destruct Hp as (_ & _ & _ & c & Hc & Hd). intros Heq. rewrite Heq in Hd.
  apply display_mine in Hd as (Hr & Hm).
  pose proof (Hhid Hon _ _ c Hc Hm). congruence.
Qed.

(** Among the writes of [draw], one is reversed. *)
Lemma one_reversed (gm : Game) (l : list (Z * Z)) (ws : list write) :
  Forall2 (drawn_as gm) l ws → NoDup l →
  length (filter (λ wr, w_reverse wr = true) ws)
  = if decide ((cursor_x gm, cursor_y gm) ∈ l) then 1%nat else 0%nat.
Proof.
  induction 1 as [|p wr l ws Hp Hl IH]; intros Hnd.
  - rewrite decide_False; [done|]. apply not_elem_of_nil.
  - apply NoDup_cons in Hnd as [Hfresh Hnd]. rewrite filter_cons.
    destruct Hp as (_ & _ & Hrev & _). specialize (IH Hnd).
    destruct (decide (p = (cursor_x gm, cursor_y gm))) as [->|Hne].
    + rewrite bool_decide_true in Hrev by done.
      rewrite decide_True by done. rewrite decide_True by left.
      simpl. rewrite IH. by rewrite decide_False.
    + rewrite bool_decide_false in Hrev by done.
      rewrite decide_False by congruence. rewrite IH.
      destruct (decide ((cursor_x gm, cursor_y gm) ∈ l)) as [Hc|Hc].
      * rewrite decide_True; [done|]. by right.
      * rewrite decide_False; [done|].
        intros [?|?]%elem_of_cons; [congruence|done].
Qed.

(** ** Two reveals *)

(** The cell that two calls of [reveal] leave at a place. *)
Lemma reveal_twice_cells (b b1 b2 : Board) (p q : Z * Z) :
  Board_ok b → Board_ok b1 →
  width b1 = width b → height b1 = height b →
  Flood.flooded (width b) (height b) covered spreads
    (ok (width b) (height b) (grid b)) (grid b) p (grid b1) →
  Flood.flooded (width b) (height b) covered spreads
    (ok (width b) (height b) (grid b1)) (grid b1) q (grid b2) →
  ∀ x y c, cell_at b x y = Some c →
    (covered (grid b2) x y = true → cell_at b2 x y = Some c)
    ∧ (covered (grid b2) x y = false →
       cell_at b2 x y
       = Some (if covered (grid b) x y then set_revealed true c else c)).
Proof.
  intros Hv Hv1 Hw Hh H1 H2 x y c Hc.
  destruct (Flood.flooded_ok _ _ _ _ _ _ _ _ H1) as [_ Ho1].
  destruct (Flood.flooded_ok _ _ _ _ _ _ _ _ H2) as [_ Ho2].
  unfold cell_at in *.
  assert (covered (grid b) x y = negb (revealed c) && (mark c =? 0)) as Hcov
    by (unfold covered; by rewrite Hc).
  destruct (Ho1 x y c Hc) as [Hc1|(Hr & Hm & Hc1)];
    (destruct (Ho2 x y _ Hc1) as [Hc2|(Hr2 & Hm2 & Hc2)]);
    unfold covered at 1 2; rewrite Hc2, Hcov; simpl in *.
  - split; [done|]. intros Hn. by rewrite Hn.
  - rewrite Hr2, Hm2. simpl. done.
  - rewrite Hr, Hm. simpl. done.
  - done.
Qed.

(** Two reveals in either order leave the same board. *)
Lemma reveal_order (depth : nat) (b : Board) (x y x' y' : Z) :
  Board_ok b →
  inb (width b) (height b) x y → inb (width b) (height b) x' y' →
  width b * height b < Z.of_nat depth →
  ∃ b2, (do b1 <- reveal depth b x y; reveal depth b1 x' y') = Done b2
    ∧ (do b1 <- reveal depth b x' y'; reveal depth b1 x y) = Done b2
    ∧ Board_ok b2 ∧ keeps b b2
    ∧ ∀ cx cy c, cell_at b cx cy = Some c →
        (reached b (x, y) (cx, cy) ∨ reached b (x', y') (cx, cy) →
           cell_at b2 cx cy = Some (set_revealed true c))
        ∧ (¬ reached b (x, y) (cx, cy) → ¬ reached b (x', y') (cx, cy) →
             cell_at b2 cx cy = Some c).
Proof.
  intros Hv Hp Hq Hd.
  assert (∀ b0, Board_ok b0 → width b0 = width b → height b0 = height b →
            (cells_left b0 < depth)%nat) as Hdepth.
  { intros b0 _ Hw0 Hh0. pose proof (cells_left_le b0).
    rewrite Hw0, Hh0 in *. unfold inb in Hp. lia. }
  (* one order, then the other *)
  assert (∀ p q : Z * Z,
            inb (width b) (height b) p.1 p.2 → inb (width b) (height b) q.1 q.2 →
            ∃ b2, (do b1 <- reveal depth b p.1 p.2; reveal depth b1 q.1 q.2) = Done b2
              ∧ width b2 = width b ∧ height b2 = height b ∧ mines b2 = mines b
              ∧ Board_ok b2 ∧ only_revealed (grid b) (grid b2)
              ∧ (∀ c, inb (width b) (height b) c.1 c.2 →
                   (covered (grid b2) c.1 c.2 = true ↔
                    covered (grid b) c.1 c.2 = true
                    ∧ ¬ reached b p c ∧ ¬ reached b q c))
              ∧ ∀ cx cy c, cell_at b cx cy = Some c →
                  (covered (grid b2) cx cy = true → cell_at b2 cx cy = Some c)
                  ∧ (covered (grid b2) cx cy = false →
                     cell_at b2 cx cy
                     = Some (if covered (grid b) cx cy
                             then set_revealed true c else c))) as Hboth.
  { intros p q Hinp Hinq.
    destruct (reveal_returns depth b p.1 p.2 Hv Hinp)
      as (b1 & -> & Hw1 & Hh1 & Hm1 & Hv1 & Hf1); [by apply Hdepth|].
    cbn [bind].
    destruct (reveal_returns depth b1 q.1 q.2 Hv1)
      as (b2 & -> & Hw2 & Hh2 & Hm2 & Hv2 & Hf2);
      [by rewrite Hw1, Hh1|by apply Hdepth|].
    rewrite Hw1, Hh1 in Hf2. rewrite <- surjective_pairing in Hf1, Hf2.
    exists b2. split; [done|]. split_and!; try congruence.
    - destruct (Flood.flooded_ok _ _ _ _ _ _ _ _ Hf1) as [_ Ho1].
      destruct (Flood.flooded_ok _ _ _ _ _ _ _ _ Hf2) as [_ Ho2].
      by eapply only_revealed_trans.
    - intros c Hc.
      apply (FloodOrder.flooded_twice _ _ _ _ _ _ _ _ _ _ _ c Hf1 Hf2 Hc).
    - by apply (reveal_twice_cells b b1 b2 p q). }
  destruct (Hboth (x, y) (x', y') Hp Hq)
    as (b2 & Hrun & Hw & Hh & Hm & Hv2 & Ho & Hcov & Hcells).
  destruct (Hboth (x', y') (x, y) Hq Hp)
    as (b2' & Hrun' & Hw' & Hh' & Hm' & Hv2' & Ho' & Hcov' & Hcells').
  cbn [fst snd] in Hrun, Hrun'.
  assert (b2' = b2) as ->.
  { assert (grid b2' = grid b2) as Hg.
    { apply (grid_ext (width b) (height b)).
      - rewrite <- Hw', <- Hh'. apply Hv2'.
      - rewrite <- Hw, <- Hh. apply Hv2.
      - intros cx cy Hc.
        destruct (get2_valid _ _ _ cx cy Hv Hc) as (c & Hcb & _).
        assert (covered (grid b2') cx cy = covered (grid b2) cx cy) as Heq.
        { apply eq_true_iff_eq.
          rewrite (Hcov (cx, cy) Hc), (Hcov' (cx, cy) Hc). tauto. }
        destruct (Hcells cx cy c Hcb) as [Ht Hf].
        destruct (Hcells' cx cy c Hcb) as [Ht' Hf'].
        unfold cell_at in *. rewrite Heq in Ht', Hf'.
        destruct (covered (grid b2) cx cy).
        + by rewrite Ht, Ht'.
        + by rewrite Hf, Hf'. }
    destruct b2, b2'. simpl in *. congruence. }
  exists b2. split; [done|]. split; [done|]. split; [done|].
  split; [by apply only_revealed_keeps|].
  intros cx cy c Hc.
  assert (inb (width b) (height b) cx cy) as Hin
    by (eapply at2_inb; [apply Hv|done]).
  destruct (Hcells cx cy c Hc) as [Ht Hf].
  pose proof (Hcov (cx, cy) Hin) as Hiff. cbn [fst snd] in Hiff.
  split.
  - intros Hr.
    assert (covered (grid b) cx cy = true) as Hcb.
    { destruct Hr as [Hr|Hr];
        apply (FloodFacts.reach_covered _ _ _ _ _ _ _ Hr). }
    rewrite Hcb in Hf. apply Hf.
    destruct (covered (grid b2) cx cy); [|done].
    destruct Hiff as [Hiff _]. destruct (Hiff eq_refl) as (_ & ? & ?).
    destruct Hr; done.
  - intros Hnp Hnq.
    destruct (covered (grid b) cx cy) eqn:Hcb.
    + apply Ht. apply Hiff. done.
    + destruct (covered (grid b2) cx cy) eqn:Hc2; [by apply Ht|by apply Hf].
Qed.

End NyankoPlay.

(** * minesweeper.py: what play keeps, and the screen *)
Module MinePlay.
Import Minesweeper MineFacts MineBuild MineGame.

(** ** Fields in play *)

Lemma is_mine_vvram (w w' : world) :
  vvram w' = vvram w → ∀ p, is_mine w' p = is_mine w p.
Proof. intros H p. unfold is_mine. by rewrite H. Qed.

Lemma counts_ok_vvram (w w' : world) :
  vvram w' = vvram w → counts_ok w → counts_ok w'.
Proof.
  intros H Hc x y v Hv Hs. rewrite H in Hv. rewrite (Hc x y v Hv Hs).
  do 2 f_equal. symmetry. apply mines_around_same_field. by apply is_mine_vvram.
Qed.

Lemma mark_cases (m : ascii) :
  m ∈ blank :: aca →
  m = blank ∨ m = "#"%char ∨ m = "@"%char ∨ m = "?"%char.
Proof.
  intros H. apply list_elem_of_In in H. unfold aca in H. simpl in H.
  destruct H as [<-|[<-|[<-|[<-|[]]]]]; tauto.
Qed.

Lemma is_mine_inb (w : world) (p : Z * Z) :
  valid w → is_mine w p = true → inb xsize ysize p.1 p.2.
Proof.
  intros [Hv _] Hp. unfold is_mine in Hp.
  destruct (at2 (vvram w) p.1 p.2) eqn:Ev; [|done].
  by apply (at2_inb _ _ (vvram w) p.1 p.2 v).
Qed.

(** A mark on a covered cell of a field in play. *)
Lemma toggle_playable (w : world) (x y : Z) :
  playable w → inb xsize ysize x y → covered w x y = true →
  ∃ w', toggle w x y = Done w' ∧ playable w'
    ∧ mines w' = mines w ∧ vvram w' = vvram w.
Proof.
  intros (Hv & Hcnt & Hmk & Hcov) Hin Hc.
  destruct Hv as [Hrv Hrm].
  destruct (at2_is_Some _ _ _ x y Hrm Hin) as [m Hm].
  pose proof Hin as [Hx Hy].
  assert (m = "#"%char ∨ m = "@"%char ∨ m = "?"%char) as Hcase.
  { unfold covered in Hc. rewrite Hm in Hc.
    destruct (mark_cases m (Hmk x y m Hm)) as [->|?]; [done|done]. }
  rewrite (toggle_marked w x y m) by (done || lia).
  eexists. split; [done|]. split; [|done].
  split; [|split; [|split]].
  - split; [done|]. by apply rect_put2.
  - by apply (counts_ok_vvram w).
  - intros x' y' m' Hm'. cbn [mask with_mask] in Hm'.
    destruct (decide ((x', y') = (x, y))) as [[= -> ->]|Hne].
    + rewrite (at2_put2_eq _ _ _ _ m) in Hm' by done. injection Hm' as <-.
      destruct Hcase as [->|[->| ->]]; apply list_elem_of_In; vm_compute; tauto.
    + rewrite at2_put2_ne in Hm' by (try lia; congruence). by eapply Hmk.
  - intros [px py] Hp. specialize (Hcov (px, py) Hp).
    unfold covered in *. cbn [mask with_mask fst snd] in *.
    destruct (decide ((px, py) = (x, y))) as [[= -> ->]|Hne].
    + rewrite (at2_put2_eq _ _ _ _ m) by done.
      destruct Hcase as [->|[->| ->]]; done.
    + by rewrite at2_put2_ne by (try lia; congruence).
Qed.

(** A reveal from a cell without a mine on a field in play. *)
Lemma reveal_playable (depth : nat) (w : world) (x y : Z) :
  playable w → inb xsize ysize x y → is_mine w (x, y) = false →
  xsize * ysize < Z.of_nat depth →
  ∃ w', reveal depth w x y = Done w' ∧ playable w'
    ∧ mines w' = mines w ∧ vvram w' = vvram w.
Proof.
  intros (Hv & Hcnt & Hmk & Hcov) Hin Hsafe Hd.
  assert (cells_left w < depth)%nat as Hlt by (pose proof (pending_le_field w); lia).
  destruct (reveal_returns_field depth w x y Hv Hin Hlt) as (w' & Hrun & Hf).
  destruct (Flood.flooded_ok _ _ _ _ _ _ _ _ Hf) as [Hv' (Hm' & Hvv' & Hcells)].
  exists w'. split; [done|]. split; [|done].
  split; [done|]. split; [by apply (counts_ok_vvram w)|]. split.
  - intros cx cy m' Hm1.
    assert (inb xsize ysize cx cy) as Hc
      by (apply (at2_inb _ _ (mask w') cx cy m'); [apply Hv'|done]).
    destruct (at2_is_Some _ _ _ cx cy (proj2 Hv) Hc) as [m Hm].
    destruct (Hcells cx cy m Hm) as [Hsame|[_ Hb]].
    + assert (m' = m) by congruence. subst. by eapply Hmk.
    + assert (m' = blank) by congruence. subst. left.
  - intros p Hp. rewrite (is_mine_vvram w w' Hvv') in Hp.
    destruct (covered w' p.1 p.2) eqn:E; [done|].
    pose proof (is_mine_inb w p Hv Hp) as Hinp.
    assert (reached w (x, y) p) as Hr.
    { apply (Flood.flooded_sound _ _ _ _ _ _ _ _ Hf); [done|by apply Hcov|done]. }
    pose proof (reached_no_mine_field w (x, y) p Hv Hcnt Hsafe Hr). congruence.
Qed.

(** [mainloop] keeps the field in play and the cursor on it: it returns,
    or waits for a key. *)
Lemma mainloop_from_playable (depth : nat) (pending : list string) :
  ∀ (x y : Z) (w : world) (log : list string),
  playable w → inb xsize ysize x y → xsize * ysize < Z.of_nat depth →
  mainloop_from depth pending x y w log = Raise NoMoreKeys
  ∨ ∃ code xy w' t',
      mainloop_from depth pending x y w log = Done (code, xy, w', t')
      ∧ playable w' ∧ inb xsize ysize xy.1 xy.2
      ∧ mines w' = mines w ∧ vvram w' = vvram w.
Proof.
  pose proof xsize_pos as Hxs. pose proof ysize_pos as Hys.
  induction pending as [|k rest IH]; intros x y w log Hp Hin Hd;
    rewrite mainloop_from_eq, (endcheck_spec w (proj1 Hp)); cbn [bind].
  - destruct (_ =? mines w); by left.
  - destruct (_ =? mines w).
    { unfold getkey, getkey_raw, show_message. cbn [keys shown bind].
      right. eexists _, _, _, _. split; [done|]. done. }
    cbv zeta.
    assert (∀ x' y' w',
              playable w' → inb xsize ysize x' y' →
              mines w' = mines w → vvram w' = vvram w →
              mainloop_from depth rest x' y' w' log = Raise NoMoreKeys
              ∨ ∃ code xy w2 t',
                  mainloop_from depth rest x' y' w' log = Done (code, xy, w2, t')
                  ∧ playable w2 ∧ inb xsize ysize xy.1 xy.2
                  ∧ mines w2 = mines w ∧ vvram w2 = vvram w) as Hnext.
    { intros x' y' w' Hp' Hin' Hm' Hv'.
      destruct (IH x' y' w' log Hp' Hin' Hd)
        as [->|(code & xy & w2 & t' & -> & ? & ? & ? & ?)]; [by left|].
      right. eexists _, _, _, _. split; [done|]. split_and!; try done; congruence. }
    destruct (String.eqb (keymap k) "4").
    { apply Hnext; try done. unfold inb in *.
      destruct (Z.eqb_spec x 0); cbn [negb]; lia. }
    destruct (String.eqb (keymap k) "6").
    { apply Hnext; try done. unfold inb in *.
      destruct (Z.eqb_spec x (xsize - 1)); cbn [negb]; lia. }
    destruct (String.eqb (keymap k) "8").
    { apply Hnext; try done. unfold inb in *.
      destruct (Z.eqb_spec y 0); cbn [negb]; lia. }
    destruct (String.eqb (keymap k) "2").
    { apply Hnext; try done. unfold inb in *.
      destruct (Z.eqb_spec y (ysize - 1)); cbn [negb]; lia. }
    destruct (String.eqb (keymap k) "z") eqn:Ez.
    + destruct (get2_rect _ _ _ x y (proj2 (proj1 Hp)) Hin) as (m & Hm & ->).
      cbn [bind andb].
      destruct (Ascii.eqb m blank) eqn:Eb; cbn [negb].
      * apply String.eqb_eq in Ez. rewrite Ez.
        change (String.eqb "z" " ") with false.
        change (String.eqb "z" "q") with false. cbv iota.
        by apply Hnext.
      * destruct (toggle_playable w x y Hp Hin) as (w' & -> & Hp' & Hm' & Hv').
        { unfold covered. by rewrite Hm, Eb. }
        cbn [bind]. by apply Hnext.
    + cbn [bind andb].
      destruct (String.eqb (keymap k) " ").
      * destruct (get2_rect _ _ _ x y (proj1 (proj1 Hp)) Hin) as (v & Hv & ->).
        cbn [bind]. destruct (is_star v) eqn:Estar.
        -- unfold getkey, getkey_raw, show_message. cbn [keys shown bind].
           destruct rest as [|k' rest']; [by left|]. cbn [bind].
           right. eexists _, _, _, _. split; [done|]. done.
        -- destruct (reveal_playable depth w x y Hp Hin) as (w' & -> & Hp' & Hm' & Hv');
             [unfold is_mine; cbn [fst snd]; by rewrite Hv|done|].
           cbn [bind]. by apply Hnext.
      * destruct (String.eqb (keymap k) "q").
        -- right. eexists _, _, _, _. split; [done|]. done.
        -- by apply Hnext.
Qed.

(** ** The field that [game] builds *)

Lemma putmine_mask (draws : list (Z * Z)) : ∀ (w w' : world) (rest : list (Z * Z)),
  putmine w draws = Done (w', rest) → mask w' = mask w ∧ mines w' = mines w.
Proof.
  induction draws as [|[x y] ds IH]; intros w w' rest Hrun; [done|].
  simpl in Hrun. destruct (get2 (vvram w) x y) as [v|]; [|done].
  cbn [bind] in Hrun. destruct (is_zero v).
  - destruct (set2 _ _ _ _) as [vv|]; [|done]. cbn [bind] in Hrun.
    by simplify_eq.
  - exact (IH _ _ _ Hrun).
Qed.

Lemma putmines_mask (n : Z) (w w' : world) (draws rest : list (Z * Z)) :
  putmines n w draws = Done (w', rest) → mask w' = mask w ∧ mines w' = mines w.
Proof.
  unfold putmines. generalize (range n). intros turns. revert w draws.
  induction turns as [|i turns IH]; intros w draws Hrun; simpl in Hrun.
  - by simplify_eq.
  - destruct (putmine w draws) as [[w1 d1]|] eqn:E; [|done].
    destruct (putmine_mask _ _ _ _ E) as [? ?].
    destruct (IH _ _ Hrun) as [? ?]. split; congruence.
Qed.

(** [putmines] on draws within the field: the field, or no draws left. *)
Lemma putmine_outcome (draws : list (Z * Z)) : ∀ (w : world),
  valid w → Forall (λ p, inb xsize ysize p.1 p.2) draws →
  putmine w draws = Raise NoMoreDraws
  ∨ ∃ w' rest, putmine w draws = Done (w', rest).
Proof.
  induction draws as [|[x y] ds IH]; intros w Hv Hdraws; [by left|].
  apply Forall_cons in Hdraws as [Hin Hdraws]. simpl in Hin. simpl.
  destruct (get2_rect _ _ _ x y (proj1 Hv) Hin) as (v & Hv1 & ->). cbn [bind].
  destruct (is_zero v); [|by apply IH].
  rewrite (set2_rect _ _ _ x y _ (proj1 Hv) Hin). cbn [bind]. eauto.
Qed.

Lemma putmines_outcome (n : Z) (w : world) (draws : list (Z * Z)) :
  valid w → uncounted w → Forall (λ p, inb xsize ysize p.1 p.2) draws →
  putmines n w draws = Raise NoMoreDraws
  ∨ ∃ w' rest, putmines n w draws = Done (w', rest).
Proof.
  unfold putmines. generalize (range n). intros turns. revert w draws.
  induction turns as [|i turns IH]; intros w draws Hv Hu Hdraws; simpl; [eauto|].
  destruct (putmine_outcome draws w Hv Hdraws) as [->|(w1 & d1 & E)]; [by left|].
  rewrite E. destruct (putmine_valid draws w w1 d1 Hv Hu Hdraws E) as (? & ? & ?).
  by apply IH.
Qed.

Lemma field_playable (n : Z) (draws rest : list (Z * Z)) (w1 w2 : world) :
  Forall (λ p, inb xsize ysize p.1 p.2) draws →
  putmines n (world_init n) draws = Done (w1, rest) →
  calcfield w1 = Done w2 →
  playable w2 ∧ mines w2 = n
  ∧ ∀ p, is_mine w2 p = is_mine w1 p.
Proof.
  intros Hdraws Hput Hcalc.
  destruct (putmines_valid n _ _ _ _ (valid_world_init n)
              (uncounted_world_init n) Hdraws Hput) as [Hv1 Hu1].
  destruct (putmines_mask _ _ _ _ _ Hput) as [Hmask1 Hmines1].
  destruct (calcfield_counts w1 w2 Hv1 Hu1 Hcalc) as (Hv2 & Hcnt2 & Hsame).
  destruct (calcfield_returns w1 Hv1) as (w & Hrun & _ & Hmines2 & Hmask2 & _).
  rewrite Hcalc in Hrun. injection Hrun as <-.
  assert (∀ x y m, at2 (mask w2) x y = Some m → m = "#"%char) as Hall.
  { intros x y m Hm. rewrite Hmask2, Hmask1 in Hm. cbn [mask world_init] in Hm.
    assert (inb xsize ysize x y) as Hin.
    { apply (at2_inb _ _ (fresh_grid xsize ysize "#"%char) x y m); [|done].
      by apply rect_fresh_grid. }
    rewrite at2_fresh_grid in Hm by done. congruence. }
  split; [|split; [by rewrite Hmines2, Hmines1|done]].
  split; [done|]. split; [done|]. split.
  - intros x y m Hm. rewrite (Hall x y m Hm).
    apply list_elem_of_In. vm_compute. tauto.
  - intros p Hp. pose proof (is_mine_inb w2 p Hv2 Hp) as Hin.
    destruct (at2_is_Some _ _ _ p.1 p.2 (proj2 Hv2) Hin) as [m Hm].
    unfold covered. rewrite Hm. by rewrite (Hall _ _ m Hm).
Qed.

(** What the script makes of a command line. *)
Lemma startup_outcome (argv : list word) :
  (∃ n, startup argv = Done n ∧ n ≤ 300 ∧ (length argv ≠ 2%nat → n = 60))
  ∨ (length argv = 2%nat
     ∧ (startup argv = Raise (SystemExit 1 "too many mines")
        ∨ startup argv = Raise ValueError)).
Proof.
  unfold startup.
  destruct (Z.eqb_spec (Z.of_nat (length argv)) 2) as [Hlen|Hlen].
  - destruct argv as [|a [|b [|c argv]]]; simpl in Hlen; try lia.
    change (getitem [a; b] 1) with (Done b). cbn [bind].
    destruct b as [n|s]; cbn [int bind].
    + destruct (Z.gtb_spec n 300).
      * right. split; [done|]. by left.
      * left. exists n. split; [done|]. split; [lia|done].
    + right. split; [done|]. by right.
  - left. exists 60. split; [done|]. split; [done|done].
Qed.

(** [game()] on draws within the field and a field without mines yet:
    it returns, or the draws or the keys run out. *)
Lemma game_outcome (depth : nat) (n : Z) (draws : list (Z * Z)) (t : tty) :
  Forall (λ p, inb xsize ysize p.1 p.2) draws →
  xsize * ysize < Z.of_nat depth →
  game depth (world_init n) draws t = Done tt
  ∨ game depth (world_init n) draws t = Raise NoMoreDraws
  ∨ game depth (world_init n) draws t = Raise NoMoreKeys.
Proof.
  intros Hdraws Hd. unfold game. cbn [mines world_init].
  destruct (putmines_outcome n (world_init n) draws (valid_world_init n)
              (uncounted_world_init n) Hdraws) as [->|(w1 & rest & Hput)];
    [by right; left|].
  rewrite Hput. cbn [bind].
  destruct (putmines_valid n _ _ _ _ (valid_world_init n)
              (uncounted_world_init n) Hdraws Hput) as [Hv1 Hu1].
  destruct (calcfield_returns w1 Hv1) as (w2 & Hcalc & _).
  rewrite Hcalc. cbn [bind].
  destruct (field_playable n draws rest w1 w2 Hdraws Hput Hcalc) as (Hp & _).
  unfold mainloop.
  destruct (mainloop_from_playable depth (keys t) (xsize `div` 2) (ysize `div` 2)
              w2 (shown t) Hp) as [->|(code & xy & w' & t' & -> & _)].
  - unfold inb, xsize, ysize. change (40 `div` 2) with 20.
    change (23 `div` 2) with 11. lia.
  - done.
  - by right; right.
  - by left.
Qed.

(** ** The win test, counted *)

(** The number of mines around a cell is at most eight. *)
Lemma mines_around_le (w : world) (p : Z * Z) : (mines_around w p ≤ 8)%nat.
Proof.
  unfold mines_around. rewrite (neighbours_block xsize ysize (is_mine w) p).
  etrans.
  - apply (filter_length_le
             (λ d : Z * Z, negb (d.1 =? 0) || negb (d.2 =? 0) = true)).
    intros d _ Hd. apply andb_true_iff in Hd as [Hd _].
    by apply andb_true_iff in Hd as [Hd _].
  - vm_compute. lia.
Qed.

(** On a field in play whose [mines] is its number of mines, [endcheck]
    compares the covered cells without a mine with the cells marked
    ['?']. *)
Lemma endcheck_balance (w : world) :
  playable w → mines w = Z.of_nat (length (mine_cells w)) →
  endcheck w
  = Done (Z.of_nat (length (filter (λ p, covered_safe w p = true)
                              (cells xsize ysize)))
          =? Z.of_nat (length (filter (λ p, questioned w p = true)
                                 (cells xsize ysize)))).
Proof.
  intros (Hv & Hcnt & Hmk & Hcov) Hmines.
  rewrite (endcheck_spec w Hv). f_equal. rewrite Hmines. unfold mine_cells.
  assert (∀ p, p ∈ cells xsize ysize →
            ∃ m, at2 (mask w) p.1 p.2 = Some m
                 ∧ (m = blank ∨ m = "#"%char ∨ m = "@"%char ∨ m = "?"%char))
    as Hcell.
  { intros [x y] Hin%elem_of_cells.
    destruct (at2_is_Some _ _ _ x y (proj2 Hv) Hin) as [m Hm].
    exists m. split; [done|]. apply mark_cases. by eapply Hmk. }
  assert (length (filter (λ p : Z * Z, covered w p.1 p.2 = true) (cells xsize ysize))
          = (length (filter (λ p, counted w p = true) (cells xsize ysize))
             + length (filter (λ p, questioned w p = true) (cells xsize ysize)))%nat)
    as H1.
  { apply filter_length_split.
    - intros p Hp. destruct (Hcell p Hp) as (m & Hm & Hcase).
      unfold covered, counted, questioned. rewrite Hm.
      destruct Hcase as [->|[->|[->| ->]]]; cbn; intuition congruence.
    - intros p Hp. destruct (Hcell p Hp) as (m & Hm & Hcase).
      unfold counted, questioned. rewrite Hm.
      destruct Hcase as [->|[->|[->| ->]]]; cbn; congruence. }
  assert (length (filter (λ p : Z * Z, covered w p.1 p.2 = true) (cells xsize ysize))
          = (length (filter (λ p, is_mine w p = true) (cells xsize ysize))
             + length (filter (λ p, covered_safe w p = true) (cells xsize ysize)))%nat)
    as H2.
  { apply filter_length_split.
    - intros p Hp. unfold covered_safe. specialize (Hcov p).
      destruct (is_mine w p), (covered w p.1 p.2); cbn [andb negb];
        intuition congruence.
    - intros p _. unfold covered_safe.
      destruct (is_mine w p), (covered w p.1 p.2); cbn [andb negb]; congruence. }
  destruct (Z.eqb_spec
    (Z.of_nat (length (filter (λ p, counted w p = true) (cells xsize ysize))))
    (Z.of_nat (length (filter (λ p, is_mine w p = true) (cells xsize ysize)))));
  destruct (Z.eqb_spec
    (Z.of_nat (length (filter (λ p, covered_safe w p = true) (cells xsize ysize))))
    (Z.of_nat (length (filter (λ p, questioned w p = true) (cells xsize ysize)))));
  try done; lia.
Qed.

(** Without a ['?'] on the field, [endcheck] is the win test. *)
Lemma endcheck_no_question (w : world) :
  playable w → mines w = Z.of_nat (length (mine_cells w)) →
  (∀ p, questioned w p = false) →
  (endcheck w = Done true ↔
   ∀ p, inb xsize ysize p.1 p.2 → is_mine w p = false →
        covered w p.1 p.2 = false).
Proof.
  intros Hp Hm Hq. rewrite (endcheck_balance w Hp Hm).
  rewrite (filter_none (λ p, questioned w p = true))
    by (intros p _; by rewrite Hq).
  change (Z.of_nat (length (@nil (Z * Z)))) with 0. split.
  - intros [= H]. apply Z.eqb_eq in H.
    intros p Hin Hmine. destruct (covered w p.1 p.2) eqn:E; [|done].
    assert (p ∈ filter (λ p, covered_safe w p = true) (cells xsize ysize)) as Hp'.
    { apply list_elem_of_filter. split.
      - unfold covered_safe. by rewrite E, Hmine.
      - destruct p. by apply elem_of_cells. }
    rewrite (nil_length_inv (filter _ _)) in Hp' by lia.
    by apply elem_of_nil in Hp'.
  - intros Hall. f_equal. apply Z.eqb_eq. rewrite filter_none; [done|].
    intros [x y] Hin%elem_of_cells. unfold covered_safe. cbn [fst snd].
    destruct (is_mine w (x, y)) eqn:E.
    + by rewrite andb_false_r.
    + pose proof (Hall (x, y) Hin E) as Hc. cbn [fst snd] in Hc. by rewrite Hc.
Qed.

Lemma is_mine_world_init (n : Z) (p : Z * Z) : is_mine (world_init n) p = false.
Proof.
  unfold is_mine. cbn [vvram world_init].
  destruct (at2 _ p.1 p.2) as [v|] eqn:E; [|done].
  assert (inb xsize ysize p.1 p.2) as Hin.
  { apply (at2_inb _ _ (fresh_grid xsize ysize (Int 0)) p.1 p.2 v); [|done].
    by apply rect_fresh_grid. }
  rewrite at2_fresh_grid in E by done. by simplify_eq.
Qed.

(** With a negative [mines] and no mine on the field [mainloop] returns
    on ['q'] only. *)
Lemma mainloop_from_no_win (depth : nat) (pending : list string) (x y : Z)
    (w : world) (log : list string) code xy w' t' :
  playable w → inb xsize ysize x y → xsize * ysize < Z.of_nat depth →
  mines w < 0 → mine_cells w = [] →
  mainloop_from depth pending x y w log = Done (code, xy, w', t') → code = 1.
Proof.
  intros Hp Hin Hd Hneg Hnone Hrun.
  destruct (mainloop_from_playable depth pending x y w log Hp Hin Hd)
    as [H|(c & xy2 & w2 & t2 & H & Hp' & Hin' & Hm' & Hv')];
    rewrite H in Hrun; [done|].
  injection Hrun as -> -> -> ->.
  destruct (mainloop_from_code depth pending x y w log code xy w' t' H)
    as [(-> & He & _)|[(-> & (v & Hget & Hstar) & _)|(-> & _)]]; [| |done].
  - rewrite (endcheck_spec w' (proj1 Hp')) in He. injection He as He.
    apply Z.eqb_eq in He. lia.
  - exfalso. rewrite get2_nonneg in Hget by apply Hin'.
    assert (is_mine w xy = true) as Hmine.
    { unfold is_mine. rewrite <- Hv'.
      destruct (at2 (vvram w') xy.1 xy.2); by simplify_eq. }
    assert (xy ∈ mine_cells w) as Hcell.
    { apply list_elem_of_filter. split; [done|].
      destruct xy. by apply elem_of_cells. }
    rewrite Hnone in Hcell. by apply elem_of_nil in Hcell.
Qed.

(** ** The screen *)

Lemma each_app {A St : Type} (body : A → St → drawn St) (l1 l2 : list A) (s : St) :
  each body (l1 ++ l2) s = and_then (each body l1 s) (each body l2).
Proof.
  revert s. induction l1 as [|a l1 IH]; intros s; simpl; [done|].
  destruct (body a s); simpl; [apply IH|done|done].
Qed.

Lemma each_nested {A B St : Type} (body : A → B → St → drawn St)
    (la : list A) (lb : list B) (s : St) :
  each (λ a s, each (body a) lb s) la s
  = each (λ p s, body p.1 p.2 s) (a ← la; (λ b, (a, b)) <$> lb) s.
Proof.
  revert s. induction la as [|a la IH]; intros s; simpl; [done|].
  rewrite each_app.
  assert (∀ s, each (λ p s, body p.1 p.2 s) ((λ b, (a, b)) <$> lb) s
               = each (body a) lb s) as ->.
  { clear. induction lb as [|b lb IH]; intros s; simpl; [done|].
    destruct (body a b s); simpl; [apply IH|done|done]. }
  destruct (each (body a) lb s); simpl; [apply IH|done|done].
Qed.

Lemma each_invariant {A St : Type} (body : A → St → drawn St)
    (I : list A → St → Prop) (l : list A) (s : St) :
  I [] s →
  (∀ pre a post s1, l = pre ++ a :: post → I pre s1 →
     ∃ s2, body a s1 = Drawn s2 ∧ I (pre ++ [a]) s2) →
  ∃ s', each body l s = Drawn s' ∧ I l s'.
Proof.
  intros H0 Hstep.
  assert (∀ post pre s1, l = pre ++ post → I pre s1 →
            ∃ s', each body post s1 = Drawn s' ∧ I l s') as Hgen.
  { induction post as [|a post IH]; intros pre s1 El Hpre; simpl.
    - exists s1. rewrite app_nil_r in El. by subst.
    - destruct (Hstep pre a post s1 El Hpre) as (s2 & -> & H2). simpl.
      apply (IH (pre ++ [a])); [|done]. by rewrite <- app_assoc. }
  by apply (Hgen l []).
Qed.

(** A loop whose body raises [TypeError] at one element, and nothing
    else anywhere, raises [TypeError]. *)
Lemma each_type_error {A St : Type} (body : A → St → drawn St)
    (l : list A) (a : A) :
  a ∈ l → (∀ s, body a s = TypeError) →
  (∀ b s e, b ∈ l → body b s ≠ Failed e) →
  ∀ s, each body l s = TypeError.
Proof.
  intros Ha Hfail Hno.
  induction l as [|x l IH]; intros s; [by apply elem_of_nil in Ha|].
  simpl. destruct (body x s) as [s'| |e] eqn:E; simpl.
  - apply elem_of_cons in Ha as [->|Ha]; [by rewrite Hfail in E|].
    apply IH; [done|]. intros b s0 e Hb. apply Hno. by right.
  - done.
  - destruct (Hno x s e); [left|done].
Qed.

Lemma retchar_eq (w : world) (x y : Z) (m : ascii) (v : value) :
  0 ≤ x → 0 ≤ y → at2 (mask w) x y = Some m → at2 (vvram w) x y = Some v →
  retchar w x y
  = if Ascii.eqb m "#" then Drawn (Some "＃"%string)
    else if Ascii.eqb m "@" then Drawn (Some "＠"%string)
    else if Ascii.eqb m "?" then Drawn (Some "？"%string)
    else match v with
         | Int n =>
             if n =? 0 then Drawn (Some "　"%string)
             else if (n >=? 1) && (n <=? 9)
                  then render s <- lift (getitem itod n); Drawn (Some s)
                  else Drawn None
         | Str _ => TypeError
         end.
Proof.
  intros Hx Hy Hm Hv. unfold retchar.
  rewrite get2_nonneg, Hm by done. cbn [lift and_then].
  change (getitem aca 0) with (Done "#"%char). cbn [lift and_then].
  destruct (Ascii.eqb m "#"); [reflexivity|].
  change (getitem aca 1) with (Done "@"%char). cbn [lift and_then].
  destruct (Ascii.eqb m "@"); [reflexivity|].
  change (getitem aca 2) with (Done "?"%char). cbn [lift and_then].
  destruct (Ascii.eqb m "?"); [reflexivity|].
  rewrite get2_nonneg, Hv by done. reflexivity.
Qed.

(** On a valid field [retchar] gives a glyph or [None], or raises
    [TypeError]: no subscript is out of range. *)
Lemma retchar_no_failure (w : world) (x y : Z) (e : exn) :
  valid w → inb xsize ysize x y → retchar w x y ≠ Failed e.
Proof.
  intros [Hrv Hrm] Hin.
  destruct (at2_is_Some _ _ _ x y Hrm Hin) as [m Hm].
  destruct (at2_is_Some _ _ _ x y Hrv Hin) as [v Hv].
  destruct Hin as [Hx Hy]. rewrite (retchar_eq w x y m v) by (done || lia).
  destruct (Ascii.eqb m "#"); [done|]. destruct (Ascii.eqb m "@"); [done|].
  destruct (Ascii.eqb m "?"); [done|]. destruct v as [n|s]; [|done].
  destruct (n =? 0); [done|].
  destruct ((n >=? 1) && (n <=? 9)) eqn:E; [|done].
  apply andb_true_iff in E as [E1 E2].
  destruct (getitem_in_range itod n) as [s ->]; [simpl; lia|]. done.
Qed.

(** The glyph of a cell of a field in play. *)
Lemma retchar_playable (w : world) (x y : Z) :
  playable w → inb xsize ysize x y → ∃ s, retchar w x y = Drawn (Some s).
Proof.
  intros (Hv & Hcnt & Hmk & Hcov) Hin.
  destruct (at2_is_Some _ _ _ x y (proj2 Hv) Hin) as [m Hm].
  destruct (at2_is_Some _ _ _ x y (proj1 Hv) Hin) as [v Hvx].
  pose proof Hin as [Hx Hy]. rewrite (retchar_eq w x y m v) by (done || lia).
  destruct (mark_cases m (Hmk x y m Hm)) as [->|[->|[->| ->]]];
    [|by eexists..].
  change (Ascii.eqb blank "#") with false. change (Ascii.eqb blank "@") with false.
  change (Ascii.eqb blank "?") with false. cbv iota.
  assert (is_star v = false) as Hs.
  { destruct (is_star v) eqn:E; [|done].
    assert (is_mine w (x, y) = true) as Hmine
      by (unfold is_mine; cbn [fst snd]; by rewrite Hvx).
    apply Hcov in Hmine. unfold covered in Hmine. cbn [fst snd] in Hmine.
    by rewrite Hm in Hmine. }
  rewrite (Hcnt x y v Hvx Hs).
  pose proof (mines_around_le w (x, y)) as Hle.
  destruct (Z.eqb_spec (Z.of_nat (mines_around w (x, y))) 0) as [H0|H0];
    [by eexists|].
  destruct (Z.geb_spec (Z.of_nat (mines_around w (x, y))) 1) as [H1|H1]; [|lia].
  destruct (Z.leb_spec (Z.of_nat (mines_around w (x, y))) 9) as [H9|H9]; [|lia].
  cbn [andb].
  destruct (getitem_in_range itod (Z.of_nat (mines_around w (x, y))))
    as [s ->]; [simpl; lia|]. by eexists.
Qed.

(** [retchar] on an uncovered mine raises. *)
Lemma retchar_mine (w : world) (x y : Z) :
  valid w → inb xsize ysize x y →
  is_mine w (x, y) = true → covered w x y = false →
  retchar w x y = TypeError.
Proof.
  intros [Hrv Hrm] Hin Hmine Hc.
  destruct (at2_is_Some _ _ _ x y Hrm Hin) as [m Hm].
  destruct (at2_is_Some _ _ _ x y Hrv Hin) as [v Hv].
  destruct Hin as [Hx Hy]. rewrite (retchar_eq w x y m v) by (done || lia).
  unfold covered in Hc. rewrite Hm in Hc.
  destruct (Ascii.eqb_spec m blank) as [Hb|Hb]; [|done]. rewrite Hb.
  change (Ascii.eqb blank "#") with false. change (Ascii.eqb blank "@") with false.
  change (Ascii.eqb blank "?") with false. cbv iota.
  unfold is_mine in Hmine. cbn [fst snd] in Hmine. rewrite Hv in Hmine.
  by destruct v.
Qed.

Lemma drawscreen_cells (w : world) (scr : list write) :
  drawscreen w scr
  = each (λ p scr, drawchar w p.1 p.2 scr) (cells xsize ysize) scr.
Proof.
  unfold drawscreen.
  by rewrite (each_nested (λ x y scr, drawchar w x y scr)).
Qed.

(** On a field in play [drawscreen] writes every cell, reversed. *)
Lemma drawscreen_returns (w : world) (scr : list write) :
  playable w →
  ∃ ws, drawscreen w scr = Drawn (scr ++ ws)
    ∧ Forall2 (drawn_char w) (cells xsize ysize) ws.
Proof.
  intros Hp. rewrite drawscreen_cells.
  destruct (each_invariant
    (λ (p : Z * Z) scr, drawchar w p.1 p.2 scr)
    (λ pre s, ∃ ws, s = scr ++ ws ∧ Forall2 (drawn_char w) pre ws)
    (cells xsize ysize) scr) as (s' & Hrun & ws & -> & Hws).
  { exists []. split; [by rewrite app_nil_r|constructor]. }
  { intros pre [x y] post s Hsplit (ws & -> & Hws). cbn [fst snd].
    assert (inb xsize ysize x y) as Hxy.
    { apply elem_of_cells. rewrite Hsplit. apply elem_of_app. right. left. }
    destruct (retchar_playable w x y Hp Hxy) as [g Hg].
    unfold drawchar. rewrite Hg. cbn [and_then putchar].
    eexists. split; [done|]. unfold addstr.
    exists (ws ++ [mkWrite y (x * 2) g true]).
    split; [by rewrite app_assoc|].
    apply Forall2_app; [done|]. constructor; [|constructor].
    by split_and!. }
  exists ws. by rewrite Hrun.
Qed.

(** [cursor] writes the cell under the cursor, not reversed. *)
Lemma cursor_returns (w : world) (x y : Z) (scr : list write) :
  playable w → inb xsize ysize x y →
  ∃ g, retchar w x y = Drawn (Some g)
       ∧ cursor w x y scr = Drawn (scr ++ [mkWrite y (x * 2) g false]).
Proof.
  intros Hp Hin. destruct (retchar_playable w x y Hp Hin) as [g Hg].
  exists g. split; [done|]. unfold cursor. by rewrite Hg.
Qed.

(** With a mine uncovered [drawscreen] raises [TypeError]. *)
Lemma drawscreen_type_error (w : world) (x y : Z) (scr : list write) :
  valid w → inb xsize ysize x y →
  is_mine w (x, y) = true → covered w x y = false →
  drawscreen w scr = TypeError.
Proof.
  intros Hv Hin Hmine Hc. rewrite drawscreen_cells.
  apply (each_type_error _ _ (x, y)).
  - by apply elem_of_cells.
  - intros s. cbn [fst snd]. unfold drawchar.
    by rewrite (retchar_mine w x y Hv Hin Hmine Hc).
  - intros [cx cy] s e Hcell%elem_of_cells. cbn [fst snd]. unfold drawchar.
    pose proof (retchar_no_failure w cx cy) as Hno.
    destruct (retchar w cx cy) as [[g|]| |e'] eqn:E; cbn [and_then putchar];
      try done.
    by destruct (Hno e' Hv Hcell).
Qed.

(** [printmines] writes every cell of a counted field, the mines as
    ['＊']. *)
Lemma printmines_returns (w : world) (scr : list write) :
  valid w → counts_ok w →
  ∃ ws, printmines w scr = Drawn (scr ++ ws)
    ∧ Forall2 (λ p wr,
        w_row wr = p.2 ∧ w_col wr = p.1 * 2 ∧ w_reverse wr = true
        ∧ (w_text wr = "＊"%string ↔ is_mine w p = true))
      (cells xsize ysize) ws.
Proof.
  intros Hv Hcnt. unfold printmines.
  rewrite (each_nested (λ x y scr,
    render c <- lift (get2 (vvram w) x y);
    if is_star c then putchar x y (Some "＊"%string) scr
    else
      match c with
      | Int n =>
          if n =? 0 then putchar x y (Some "　"%string) scr
          else if (n >=? 1) && (n <=? 9)
               then render s <- lift (getitem itod n); putchar x y (Some s) scr
               else Drawn scr
      | Str _ => TypeError
      end)).
  change (x ← range xsize; (λ y, (x, y)) <$> range ysize) with (cells xsize ysize).
  destruct (each_invariant
    (λ (p : Z * Z) scr,
       render c <- lift (get2 (vvram w) p.1 p.2);
       if is_star c then putchar p.1 p.2 (Some "＊"%string) scr
       else
         match c with
         | Int n =>
             if n =? 0 then putchar p.1 p.2 (Some "　"%string) scr
             else if (n >=? 1) && (n <=? 9)
                  then render s <- lift (getitem itod n);
                       putchar p.1 p.2 (Some s) scr
                  else Drawn scr
         | Str _ => TypeError
         end)
    (λ pre s, ∃ ws, s = scr ++ ws
       ∧ Forall2 (λ p wr,
           w_row wr = p.2 ∧ w_col wr = p.1 * 2 ∧ w_reverse wr = true
           ∧ (w_text wr = "＊"%string ↔ is_mine w p = true)) pre ws)
    (cells xsize ysize) scr) as (s' & Hrun & ws & -> & Hws).
  { exists []. split; [by rewrite app_nil_r|constructor]. }
  { intros pre [x y] post s Hsplit (ws & -> & Hws). cbn [fst snd].
    assert (inb xsize ysize x y) as Hxy.
    { apply elem_of_cells. rewrite Hsplit. apply elem_of_app. right. left. }
    destruct (get2_rect _ _ _ x y (proj1 Hv) Hxy) as (v & Hvx & ->).
    cbn [lift and_then].
    assert (∀ g, (g = "＊"%string ↔ is_mine w (x, y) = true) →
              ∃ s2, Drawn (addstr y (x * 2) g true (scr ++ ws)) = Drawn s2
                ∧ ∃ ws', s2 = scr ++ ws'
                  ∧ Forall2 (λ p wr,
                      w_row wr = p.2 ∧ w_col wr = p.1 * 2 ∧ w_reverse wr = true
                      ∧ (w_text wr = "＊"%string ↔ is_mine w p = true))
                    (pre ++ [(x, y)]) ws') as Hput.
    { intros g Hg. eexists. split; [done|]. unfold addstr.
      exists (ws ++ [mkWrite y (x * 2) g true]).
      split; [by rewrite app_assoc|].
      apply Forall2_app; [done|]. constructor; [|constructor].
      by split_and!. }
    assert (is_mine w (x, y) = is_star v) as Hmine
      by (unfold is_mine; cbn [fst snd]; by rewrite Hvx).
    destruct (is_star v) eqn:Es.
    - apply Hput. by rewrite Hmine.
    - rewrite (Hcnt x y v Hvx Es).
      pose proof (mines_around_le w (x, y)) as Hle.
      destruct (Z.of_nat (mines_around w (x, y)) =? 0) eqn:E0.
      + apply Hput. rewrite Hmine. split; [done|done].
      + apply Z.eqb_neq in E0.
        destruct (Z.geb_spec (Z.of_nat (mines_around w (x, y))) 1) as [H1|H1];
          [|lia].
        destruct (Z.leb_spec (Z.of_nat (mines_around w (x, y))) 9) as [H9|H9];
          [|lia].
        cbn [andb].
        destruct (getitem_in_range itod (Z.of_nat (mines_around w (x, y))))
          as [g Hg]; [simpl; lia|].
        rewrite Hg. cbn [lift and_then]. apply Hput. rewrite Hmine.
        split; [|done]. intros ->.
        apply getitem_elem_of, list_elem_of_In in Hg. simpl in Hg.
        repeat (destruct Hg as [Hg|Hg]; [done|]). done. }
  exists ws. by rewrite Hrun.
Qed.

(** ** Two reveals *)

Lemma reveal_twice_mask (w w1 w2 : world) (p q : Z * Z) :
  Flood.flooded xsize ysize covered spreads (ok w) w p w1 →
  Flood.flooded xsize ysize covered spreads (ok w1) w1 q w2 →
  ∀ x y m, at2 (mask w) x y = Some m →
    at2 (mask w2) x y = Some (if covered w2 x y then m else blank).
Proof.
  intros H1 H2 x y m Hm.
  destruct (Flood.flooded_ok _ _ _ _ _ _ _ _ H1) as [_ (_ & _ & Ho1)].
  destruct (Flood.flooded_ok _ _ _ _ _ _ _ _ H2) as [_ (_ & _ & Ho2)].
  unfold covered.
  destruct (Ho1 x y m Hm) as [Hm1|[Hne Hm1]];
    (destruct (Ho2 x y _ Hm1) as [Hm2|[Hne2 Hm2]]); rewrite Hm2.
  - by destruct (Ascii.eqb_spec m blank) as [->|].
  - by rewrite Ascii.eqb_refl.
  - by rewrite Ascii.eqb_refl.
  - done.
Qed.

(** Two reveals in either order leave the same field. *)
Lemma reveal_order_field (depth : nat) (w : world) (x y x' y' : Z) :
  valid w →
  inb xsize ysize x y → inb xsize ysize x' y' →
  xsize * ysize < Z.of_nat depth →
  ∃ w2, (do w1 <- reveal depth w x y; reveal depth w1 x' y') = Done w2
    ∧ (do w1 <- reveal depth w x' y'; reveal depth w1 x y) = Done w2
    ∧ valid w2 ∧ mines w2 = mines w ∧ vvram w2 = vvram w
    ∧ ∀ cx cy m, at2 (mask w) cx cy = Some m →
        (reached w (x, y) (cx, cy) ∨ reached w (x', y') (cx, cy) →
           at2 (mask w2) cx cy = Some blank)
        ∧ (¬ reached w (x, y) (cx, cy) → ¬ reached w (x', y') (cx, cy) →
             at2 (mask w2) cx cy = Some m).
Proof.
  intros Hv Hp Hq Hd.
  assert (∀ w0, (cells_left w0 < depth)%nat) as Hdepth.
  { intros w0. pose proof (pending_le_field w0). lia. }
  assert (∀ p q : Z * Z,
            inb xsize ysize p.1 p.2 → inb xsize ysize q.1 q.2 →
            ∃ w2, (do w1 <- reveal depth w p.1 p.2; reveal depth w1 q.1 q.2) = Done w2
              ∧ valid w2 ∧ mines w2 = mines w ∧ vvram w2 = vvram w
              ∧ (∀ c, inb xsize ysize c.1 c.2 →
                   (covered w2 c.1 c.2 = true ↔
                    covered w c.1 c.2 = true
                    ∧ ¬ reached w p c ∧ ¬ reached w q c))
              ∧ ∀ cx cy m, at2 (mask w) cx cy = Some m →
                  at2 (mask w2) cx cy
                  = Some (if covered w2 cx cy then m else blank)) as Hboth.
  { intros p q Hinp Hinq.
    destruct (reveal_returns_field depth w p.1 p.2 Hv Hinp (Hdepth _))
      as (w1 & -> & Hf1).
    cbn [bind].
    destruct (Flood.flooded_ok _ _ _ _ _ _ _ _ Hf1) as [Hv1 (Hm1 & Hvv1 & _)].
    destruct (reveal_returns_field depth w1 q.1 q.2 Hv1 Hinq (Hdepth _))
      as (w2 & -> & Hf2).
    destruct (Flood.flooded_ok _ _ _ _ _ _ _ _ Hf2) as [Hv2 (Hm2 & Hvv2 & _)].
    rewrite <- surjective_pairing in Hf1, Hf2.
    exists w2. split; [done|]. split; [done|].
    split; [congruence|]. split; [congruence|]. split.
    - intros c Hc.
      apply (FloodOrder.flooded_twice _ _ _ _ _ _ _ _ _ _ _ c Hf1 Hf2 Hc).
    - by apply (reveal_twice_mask w w1 w2 p q). }
  destruct (Hboth (x, y) (x', y') Hp Hq)
    as (w2 & Hrun & Hv2 & Hm & Hvv & Hcov & Hcells).
  destruct (Hboth (x', y') (x, y) Hq Hp)
    as (w2' & Hrun' & Hv2' & Hm' & Hvv' & Hcov' & Hcells').
  cbn [fst snd] in Hrun, Hrun'.
  assert (w2' = w2) as ->.
  { assert (mask w2' = mask w2) as Hg.
    { apply (grid_ext xsize ysize); [apply Hv2'|apply Hv2|].
      intros cx cy Hc.
      destruct (at2_is_Some _ _ _ cx cy (proj2 Hv) Hc) as [m Hmc].
      assert (covered w2' cx cy = covered w2 cx cy) as Heq.
      { apply eq_true_iff_eq.
        rewrite (Hcov (cx, cy) Hc), (Hcov' (cx, cy) Hc). tauto. }
      by rewrite (Hcells cx cy m Hmc), (Hcells' cx cy m Hmc), Heq. }
    destruct w2, w2'. simpl in *. congruence. }
  exists w2. split; [done|]. split; [done|].
  split; [done|]. split; [done|]. split; [done|].
  intros cx cy m Hmc.
  assert (inb xsize ysize cx cy) as Hin
    by (apply (at2_inb _ _ (mask w) cx cy m); [apply Hv|done]).
  pose proof (Hcov (cx, cy) Hin) as Hiff. cbn [fst snd] in Hiff.
  rewrite (Hcells cx cy m Hmc). split.
  - intros Hr. destruct (covered w2 cx cy); [|done].
    destruct Hiff as [Hiff _]. destruct (Hiff eq_refl) as (_ & ? & ?).
    destruct Hr; done.
  - intros Hnp Hnq. destruct (covered w2 cx cy) eqn:Hc2; [done|].
    destruct (covered w cx cy) eqn:Hcw.
    + assert (false = true); [|done]. apply Hiff. done.
    + unfold covered in Hcw. rewrite Hmc in Hcw.
      by destruct (Ascii.eqb_spec m blank) as [->|].
Qed.

End MinePlay.

(** * Further properties of the code *)

(** ** The games of the examples are in play *)

Lemma game_centre_in_play : Nyankosweeper.Game_ok Plays.game_centre.
Proof.
  destruct (NyankoPlay.Game_init_ok 1 [(20, 11)] Plays.game_centre) as [Hok _].
  - repeat constructor; simpl; lia.
  - vm_compute. reflexivity.
  - exact Hok.
Qed.

Lemma game_empty_in_play : Nyankosweeper.Game_ok Plays.game_empty.
Proof.
  destruct (NyankoPlay.Game_init_ok 0 [] Plays.game_empty) as [Hok _].
  - constructor.
  - vm_compute. reflexivity.
  - exact Hok.
Qed.

Lemma game_cleared_key :
  Nyankosweeper.handle_key 1000 Plays.game_empty " " (mkTty [] [])
  = Done (true, Plays.game_cleared, mkTty [] []).
Proof. vm_compute. reflexivity. Qed.

Lemma game_cleared_in_play : Nyankosweeper.Game_ok Plays.game_cleared.
Proof.
  destruct (NyankoPlay.handle_key_ok 1000 Plays.game_empty " " (mkTty [] [])
              game_empty_in_play) as [Hno|(c & gm & t & Hrun & Hok & _)].
  - vm_compute. reflexivity.
  - rewrite game_cleared_key in Hno. discriminate Hno.
  - rewrite game_cleared_key in Hrun. injection Hrun as _ <- _. exact Hok.
Qed.

Lemma field_of_playable (n : Z) (draws l : list (Z * Z)) :
  0 ≤ n →
  Forall (λ p, inb Minesweeper.xsize Minesweeper.ysize p.1 p.2) draws →
  NoDup l → l ⊆ draws → Z.of_nat (length l) = n →
  Minesweeper.playable (Plays.field_of n draws)
  ∧ Minesweeper.mines (Plays.field_of n draws)
    = Z.of_nat (length (Minesweeper.mine_cells (Plays.field_of n draws))).
Proof.
  intros Hn Hdraws Hnd Hsub Hlen.
  destruct (MineBuild.field_returns n draws l Hn Hdraws Hnd Hsub Hlen)
    as (w1 & rest & w2 & Hput & Hcalc & _ & Hm & _ & Hcount & _).
  destruct (MinePlay.field_playable n draws rest w1 w2 Hdraws Hput Hcalc)
    as (Hp & _).
  unfold Plays.field_of. rewrite Hput, Hcalc.
  split; [exact Hp|]. rewrite Hm, Hcount. reflexivity.
Qed.

Lemma field_centre_playable :
  Minesweeper.playable Plays.field_centre
  ∧ Minesweeper.mines Plays.field_centre
    = Z.of_nat (length (Minesweeper.mine_cells Plays.field_centre)).
Proof.
  rewrite field_centre_eq.
  apply (field_of_playable 1 [(20, 11)] [(20, 11)]).
  - lia.
  - repeat constructor; simpl; lia.
  - apply NoDup_singleton.
  - intros p Hp. exact Hp.
  - reflexivity.
Qed.

(** ** The cursor *)

(** X1. In nyankosweeper a key bound to a direction moves the cursor by
    one cell along one axis when that cell is on the board, and leaves
    the game as it is when it is not: the cursor never wraps round and
    never leaves the board.  The board and [game_over] are untouched and
    no key is read. *)
Theorem cursor_moves_one_step (depth : nat) (gm : Nyankosweeper.Game)
    (key action : string) (t : tty) :
  inb (Nyankosweeper.width (Nyankosweeper.board gm))
      (Nyankosweeper.height (Nyankosweeper.board gm))
      (Nyankosweeper.cursor_x gm) (Nyankosweeper.cursor_y gm) →
  Nyankosweeper.dict_get Nyankosweeper.Config.KEY_BINDINGS key = Some action →
  ∃ dx dy,
    Nyankosweeper.dict_get Nyankosweeper.Config.DIRECTIONS action = Some (dx, dy)
    ∧ Z.abs dx + Z.abs dy = 1
    ∧ Nyankosweeper.handle_key depth gm key t
      = Done (true,
              (if inbb (Nyankosweeper.width (Nyankosweeper.board gm))
                       (Nyankosweeper.height (Nyankosweeper.board gm))
                       (Nyankosweeper.cursor_x gm + dx)
                       (Nyankosweeper.cursor_y gm + dy)
               then Nyankosweeper.mkGame (Nyankosweeper.board gm)
                      (Nyankosweeper.cursor_x gm + dx)
                      (Nyankosweeper.cursor_y gm + dy)
                      (Nyankosweeper.game_over gm)
               else gm), t).
Proof.
  intros Hin Hk.
  destruct (NyankoPlay.handle_key_move depth gm key t action Hk)
    as (dx & dy & Hd & Hdir & ->).
  exists dx, dy. split; [exact Hdir|].
  destruct gm as [b cx cy over]. cbn in Hin |- *.
  destruct (inbb (Nyankosweeper.width b) (Nyankosweeper.height b)
              (cx + dx) (cy + dy)) eqn:E.
  - apply inbb_inb in E. unfold inb in *.
    apply list_elem_of_In in Hd. simpl in Hd.
    destruct Hd as [[= <- <-]|[[= <- <-]|[[= <- <-]|[[= <- <-]|[]]]]];
      (split; [reflexivity|]); do 4 f_equal; lia.
  - assert (¬ inb (Nyankosweeper.width b) (Nyankosweeper.height b)
              (cx + dx) (cy + dy)) as Hout.
    { intros H%inbb_inb. congruence. }
    unfold inb in *.
    apply list_elem_of_In in Hd. simpl in Hd.
    destruct Hd as [[= <- <-]|[[= <- <-]|[[= <- <-]|[[= <- <-]|[]]]]];
      (split; [reflexivity|]); do 4 f_equal; lia.
Qed.

Lemma cursor_moves_one_step_witness :
  ∃ dx dy,
    Nyankosweeper.dict_get Nyankosweeper.Config.DIRECTIONS "LEFT" = Some (dx, dy)
    ∧ Z.abs dx + Z.abs dy = 1
    ∧ Nyankosweeper.handle_key 1 Plays.game_centre "4" (mkTty [] [])
      = Done (true,
              (if inbb (Nyankosweeper.width (Nyankosweeper.board Plays.game_centre))
                       (Nyankosweeper.height (Nyankosweeper.board Plays.game_centre))
                       (Nyankosweeper.cursor_x Plays.game_centre + dx)
                       (Nyankosweeper.cursor_y Plays.game_centre + dy)
               then Nyankosweeper.mkGame (Nyankosweeper.board Plays.game_centre)
                      (Nyankosweeper.cursor_x Plays.game_centre + dx)
                      (Nyankosweeper.cursor_y Plays.game_centre + dy)
                      (Nyankosweeper.game_over Plays.game_centre)
               else Plays.game_centre), mkTty [] []).
Proof.
  apply (cursor_moves_one_step 1 Plays.game_centre "4" "LEFT" (mkTty [] [])).
  - vm_compute. repeat split; discriminate.
  - reflexivity.
Defined.

(** ** Play never fails *)



(** X3. nyankosweeper.py as a whole, on draws of the random source that
    lie within the board and with a depth budget above the number of
    cells: [run] returns, or the draws or the keys run out, or the
    script has exited with status 1 on its argument.  No subscript is
    ever out of range and the recursion of [reveal] never runs out of
    depth.  Without an argument, or with more than one, the mine count
    is 56; a count that is accepted is at most 300. *)
Theorem nyankosweeper_outcomes (depth : nat) (argv : list word)
    (draws : list (Z * Z)) (t : tty) :
  Forall (λ p, inb Nyankosweeper.Config.XSIZE
                 Nyankosweeper.Config.BOARD_HEIGHT p.1 p.2) draws →
  Nyankosweeper.Config.XSIZE * Nyankosweeper.Config.BOARD_HEIGHT
  < Z.of_nat depth →
  (Nyankosweeper.run depth argv draws t = Done tt
   ∨ Nyankosweeper.run depth argv draws t = Raise NoMoreDraws
   ∨ Nyankosweeper.run depth argv draws t = Raise NoMoreKeys
   ∨ Nyankosweeper.run depth argv draws t
     = Raise (SystemExit 1 "too many nyankos")
   ∨ Nyankosweeper.run depth argv draws t
     = Raise (SystemExit 1 "not a number"))
  ∧ (length argv ≠ 2%nat → Nyankosweeper.get_mine_count argv = Done 56)
  ∧ (∀ n, Nyankosweeper.get_mine_count argv = Done n →
          n ≤ Nyankosweeper.Config.MAX_MINES).
Proof.
  intros Hdraws Hd.
  destruct (NyankoPlay.get_mine_count_outcome argv)
    as [(n & Hn & Hmax & Hdef)|(Hlen & [Hmany|Hnot])].
  - split; [|split].
    + unfold Nyankosweeper.run. rewrite Hn. cbn [bind].
      unfold Nyankosweeper.Game_init.
      destruct (NyankoPlay.Board_init_outcome n draws Hdraws) as [Hb|(b & Hb)].
      { rewrite Hb. right. left. reflexivity. }
      assert (Nyankosweeper.Game_init n draws
              = Done (Nyankosweeper.mkGame b
                        (Nyankosweeper.width b `div` 2)
                        (Nyankosweeper.height b `div` 2) false)) as Hinit
        by (unfold Nyankosweeper.Game_init; rewrite Hb; reflexivity).
      rewrite Hb. cbn [bind].
      destruct (NyankoPlay.Game_init_ok n draws _ Hdraws Hinit)
        as (Hok & Hw & Hh & _).
      destruct (NyankoPlay.run_turns_ok (S (length (keys t))) depth _ t Hok)
        as [Hrun|(code & gm' & t' & Hrun & _)].
      * rewrite Hw, Hh. exact Hd.
      * lia.
      * unfold Nyankosweeper.Game_run. rewrite Hrun. right. right. left. reflexivity.
      * unfold Nyankosweeper.Game_run. rewrite Hrun. left. reflexivity.
    + intros Hlen. rewrite Hn. f_equal. apply Hdef. exact Hlen.
    + intros m Hm. rewrite Hn in Hm. injection Hm as <-. exact Hmax.
  - split; [|split].
    + unfold Nyankosweeper.run. rewrite Hmany. do 3 right. left. reflexivity.
    + intros Hne. contradiction.
    + intros m Hm. rewrite Hmany in Hm. discriminate Hm.
  - split; [|split].
    + unfold Nyankosweeper.run. rewrite Hnot. do 4 right. reflexivity.
    + intros Hne. contradiction.
    + intros m Hm. rewrite Hnot in Hm. discriminate Hm.
Qed.

Lemma nyankosweeper_outcomes_witness :
  (Nyankosweeper.run 1000 [Text "nyankosweeper.py"] [(20, 11)]
     (mkTty ["q"%string] []) = Done tt
   ∨ Nyankosweeper.run 1000 [Text "nyankosweeper.py"] [(20, 11)]
       (mkTty ["q"%string] []) = Raise NoMoreDraws
   ∨ Nyankosweeper.run 1000 [Text "nyankosweeper.py"] [(20, 11)]
       (mkTty ["q"%string] []) = Raise NoMoreKeys
   ∨ Nyankosweeper.run 1000 [Text "nyankosweeper.py"] [(20, 11)]
       (mkTty ["q"%string] []) = Raise (SystemExit 1 "too many nyankos")
   ∨ Nyankosweeper.run 1000 [Text "nyankosweeper.py"] [(20, 11)]
       (mkTty ["q"%string] []) = Raise (SystemExit 1 "not a number"))
  ∧ (length [Text "nyankosweeper.py"] ≠ 2%nat →
     Nyankosweeper.get_mine_count [Text "nyankosweeper.py"] = Done 56)
  ∧ (∀ n, Nyankosweeper.get_mine_count [Text "nyankosweeper.py"] = Done n →
          n ≤ Nyankosweeper.Config.MAX_MINES).
Proof.
  apply (nyankosweeper_outcomes 1000 [Text "nyankosweeper.py"] [(20, 11)]
           (mkTty ["q"%string] [])).
  - repeat constructor; simpl; lia.
  - vm_compute. reflexivity.
Defined.

(** ** After a loss, and at a win *)

(** X4. A lost game cannot be won.  Once [game_over] is set,
    [Game.run] never resets it and never returns 0: it returns 1, on
    ['q'], or goes on reading keys.  This holds although after a loss
    every cell without a mine is revealed, so that [all_clear] is true. *)
Theorem lost_game_cannot_be_won (turns depth : nat) (gm : Nyankosweeper.Game)
    (t : tty) (code : Z) (gm' : Nyankosweeper.Game) (t' : tty) :
  Nyankosweeper.game_over gm = true →
  Nyankosweeper.run_turns turns depth gm t = Done (code, gm', t') →
  code = 1 ∧ Nyankosweeper.game_over gm' = true.
Proof.
  revert gm t code gm' t'.
  induction turns as [|turns IH]; intros gm t code gm' t' Hover Hrun;
    [discriminate Hrun|].
  cbn [Nyankosweeper.run_turns] in Hrun. rewrite Hover in Hrun.
  cbn [negb andb] in Hrun.
  destruct (getkey_raw t) as [[k t1]|]; [|discriminate Hrun].
  cbn [bind] in Hrun.
  destruct (Nyankosweeper.handle_key depth gm k t1)
    as [[[continue gm1] t2]|] eqn:Hkey; [|discriminate Hrun].
  cbn [bind] in Hrun.
  pose proof (NyankoPlay.handle_key_game_over _ _ _ _ _ _ _ Hkey Hover) as Hover1.
  destruct continue.
  - exact (IH gm1 t2 code gm' t' Hover1 Hrun).
  - injection Hrun as <- <- <-. split; [reflexivity|exact Hover1].
Qed.

Lemma lost_game_cannot_be_won_witness :
  (1 = 1 ∧ Nyankosweeper.game_over
             (Nyankosweeper.mkGame (Nyankosweeper.board Plays.game_cleared)
                19 11 true) = true).
Proof.
  apply (lost_game_cannot_be_won 3 0
           (Nyankosweeper.mkGame (Nyankosweeper.board Plays.game_cleared) 20 11 true)
           (mkTty ["4"; "q"]%string []) 1
           (Nyankosweeper.mkGame (Nyankosweeper.board Plays.game_cleared) 19 11 true)
           (mkTty [] [])).
  - reflexivity.
  - vm_compute. reflexivity.
Defined.

(** X5. The reveal key on a mine loses the game whatever the mark of the
    cell: a flag does not protect it.  [game_over] is set, the message
    is shown, one more key is read, and [reveal_all] has revealed every
    cell but the flagged mines, which stay as they are; nothing else of
    a cell changes, and [all_clear] holds of the board that is left. *)
Theorem reveal_key_on_a_mine (depth : nat) (gm : Nyankosweeper.Game) (t : tty)
    (c : Nyankosweeper.Cell) (k : string) (rest : list string) :
  Nyankosweeper.Board_ok (Nyankosweeper.board gm) →
  inb (Nyankosweeper.width (Nyankosweeper.board gm))
      (Nyankosweeper.height (Nyankosweeper.board gm))
      (Nyankosweeper.cursor_x gm) (Nyankosweeper.cursor_y gm) →
  Nyankosweeper.cell_at (Nyankosweeper.board gm)
    (Nyankosweeper.cursor_x gm) (Nyankosweeper.cursor_y gm) = Some c →
  Nyankosweeper.mine c = true →
  keys t = k :: rest →
  ∃ b',
    Nyankosweeper.handle_key depth gm " " t
    = Done (true,
            Nyankosweeper.mkGame b' (Nyankosweeper.cursor_x gm)
              (Nyankosweeper.cursor_y gm) true,
            mkTty rest (shown t ++ ["You lose. hit key"%string]))
    ∧ Nyankosweeper.all_clear b' = true
    ∧ ∀ x y c, Nyankosweeper.cell_at (Nyankosweeper.board gm) x y = Some c →
        Nyankosweeper.cell_at b' x y
        = Some (if Nyankosweeper.mine c && (Nyankosweeper.mark c =? 1) then c
                else Nyankosweeper.set_revealed true c).
Proof.
  intros Hv Hin Hc Hmine Hkeys.
  destruct (NyankoPlay.handle_reveal_mine depth gm t c Hv Hin Hc Hmine)
    as (b' & _ & _ & Hall & Hcells & Hrun).
  exists b'. split; [|split; [exact Hall|exact Hcells]].
  unfold Nyankosweeper.handle_key.
  change (Nyankosweeper.dict_get Nyankosweeper.Config.KEY_BINDINGS " ")
    with (@None string).
  change (String.eqb " " "z" || String.eqb " " "m") with false.
  change (String.eqb " " " ") with true. cbv iota.
  rewrite Hrun, Hkeys. reflexivity.
Qed.

Lemma reveal_key_on_a_mine_witness :
  ∃ b',
    Nyankosweeper.handle_key 0 Plays.game_centre " " (mkTty ["x"%string] [])
    = Done (true,
            Nyankosweeper.mkGame b' (Nyankosweeper.cursor_x Plays.game_centre)
              (Nyankosweeper.cursor_y Plays.game_centre) true,
            mkTty [] (shown (mkTty ["x"%string] []) ++ ["You lose. hit key"%string]))
    ∧ Nyankosweeper.all_clear b' = true
    ∧ ∀ x y c,
        Nyankosweeper.cell_at (Nyankosweeper.board Plays.game_centre) x y = Some c →
        Nyankosweeper.cell_at b' x y
        = Some (if Nyankosweeper.mine c && (Nyankosweeper.mark c =? 1) then c
                else Nyankosweeper.set_revealed true c).
Proof.
  apply (reveal_key_on_a_mine 0 Plays.game_centre (mkTty ["x"%string] [])
           (Nyankosweeper.mkCell true false 0 0) "x" []).
  - exact (proj1 game_centre_ok).
  - vm_compute. repeat split; discriminate.
  - vm_compute. reflexivity.
  - reflexivity.
  - reflexivity.
Defined.

(** X6. When every cell without a mine is revealed and the game is not
    over, [Game.run] shows the win message, reads one key and returns 0.
    [handle_win] has set the mark of every mine to the flag and hidden
    it; the cells without a mine are as they were, and the board is
    still clear. *)
Theorem win_flags_the_mines (depth : nat) (gm : Nyankosweeper.Game) (t : tty)
    (k : string) (rest : list string) :
  Nyankosweeper.Game_ok gm →
  Nyankosweeper.game_over gm = false →
  Nyankosweeper.all_clear (Nyankosweeper.board gm) = true →
  keys t = k :: rest →
  ∃ b',
    Nyankosweeper.Game_run depth gm t
    = Done (0,
            Nyankosweeper.mkGame b' (Nyankosweeper.cursor_x gm)
              (Nyankosweeper.cursor_y gm) false,
            mkTty rest (shown t ++ ["You win. hit key"%string]))
    ∧ Nyankosweeper.all_clear b' = true
    ∧ ∀ x y c, Nyankosweeper.cell_at (Nyankosweeper.board gm) x y = Some c →
        Nyankosweeper.cell_at b' x y
        = Some (if Nyankosweeper.mine c
                then Nyankosweeper.set_revealed false (Nyankosweeper.set_mark 1 c)
                else c).
Proof.
  intros Hok Hover Hall Hkeys.
  destruct (NyankoPlay.handle_win_ok gm t Hok)
    as (b' & Hv' & Hk & _ & Hcells & Hrun).
  exists b'. split; [|split].
  - unfold Nyankosweeper.Game_run. cbn [Nyankosweeper.run_turns].
    rewrite Hover, Hall. cbn [negb andb]. rewrite Hrun, Hkeys, Hover. reflexivity.
  - apply (NyankoPlay.all_clear_keeps (Nyankosweeper.board gm)).
    + apply Hok.
    + exact Hv'.
    + exact Hk.
    + exact Hall.
  - intros x y c Hc. rewrite (Hcells x y c Hc). f_equal.
    destruct (Nyankosweeper.mine c) eqn:Hmine; [reflexivity|].
    pose proof (proj1 (NyankoGame.all_clear_spec (Nyankosweeper.board gm))
                  Hall x y c Hc Hmine) as Hr.
    destruct c as [m r mk a]. cbn in Hr |- *. rewrite Hr. reflexivity.
Qed.

Lemma win_flags_the_mines_witness :
  ∃ b',
    Nyankosweeper.Game_run 0 Plays.game_cleared (mkTty ["x"%string] [])
    = Done (0,
            Nyankosweeper.mkGame b' (Nyankosweeper.cursor_x Plays.game_cleared)
              (Nyankosweeper.cursor_y Plays.game_cleared) false,
            mkTty [] (shown (mkTty ["x"%string] []) ++ ["You win. hit key"%string]))
    ∧ Nyankosweeper.all_clear b' = true
    ∧ ∀ x y c,
        Nyankosweeper.cell_at (Nyankosweeper.board Plays.game_cleared) x y = Some c →
        Nyankosweeper.cell_at b' x y
        = Some (if Nyankosweeper.mine c
                then Nyankosweeper.set_revealed false (Nyankosweeper.set_mark 1 c)
                else c).
Proof.
  apply (win_flags_the_mines 0 Plays.game_cleared (mkTty ["x"%string] []) "x" []).
  - exact game_cleared_in_play.
  - reflexivity.
  - vm_compute. reflexivity.
  - reflexivity.
Defined.

(** X7. In nyankosweeper a mark never changes whether the board is
    clear: [toggle_mark] on a cell of a valid board returns a board of
    which [all_clear] says what it said before.  No flag and no question
    mark can win or delay a win. *)
Theorem marks_do_not_change_the_win_test (b : Nyankosweeper.Board) (x y : Z) :
  Nyankosweeper.Board_ok b →
  inb (Nyankosweeper.width b) (Nyankosweeper.height b) x y →
  ∃ b', Nyankosweeper.toggle_mark b x y = Done b'
        ∧ Nyankosweeper.all_clear b' = Nyankosweeper.all_clear b.
Proof.
  intros Hv Hin.
  destruct (NyankoFacts.get2_valid _ _ _ x y Hv Hin) as (c & Hc & _ & _).
  pose proof Hin as [Hx Hy].
  destruct (Nyankosweeper.revealed c) eqn:Hr.
  - rewrite (NyankoGame.toggle_mark_revealed b x y c) by (lia || assumption).
    exists b. split; reflexivity.
  - rewrite (NyankoGame.toggle_mark_unrevealed b x y c) by (lia || assumption).
    eexists. split; [reflexivity|].
    apply eq_true_iff_eq. rewrite !NyankoGame.all_clear_spec.
    unfold Nyankosweeper.cell_at.
    cbn [Nyankosweeper.grid Nyankosweeper.with_grid].
    split; intros Hall x' y' c' Hc' Hmine.
    + destruct (decide ((x', y') = (x, y))) as [[= -> ->]|Hne].
      * assert (c' = c) by congruence. subst c'.
        specialize (Hall x y (Nyankosweeper.set_mark
                                ((Nyankosweeper.mark c + 1) `mod` 3) c)).
        rewrite (at2_put2_eq _ _ _ _ c) in Hall by exact Hc.
        exact (Hall eq_refl Hmine).
      * apply (Hall x' y' c'); [|exact Hmine].
        rewrite at2_put2_ne by (lia || congruence). exact Hc'.
    + destruct (decide ((x', y') = (x, y))) as [[= -> ->]|Hne].
      * rewrite (at2_put2_eq _ _ _ _ c) in Hc' by exact Hc.
        injection Hc' as <-. cbn in Hmine |- *. exact (Hall x y c Hc Hmine).
      * rewrite at2_put2_ne in Hc' by (lia || congruence).
        exact (Hall x' y' c' Hc' Hmine).
Qed.

Lemma marks_do_not_change_the_win_test_witness :
  ∃ b', Nyankosweeper.toggle_mark (Nyankosweeper.board Plays.game_cleared) 0 0
        = Done b'
        ∧ Nyankosweeper.all_clear b'
          = Nyankosweeper.all_clear (Nyankosweeper.board Plays.game_cleared).
Proof.
  apply (marks_do_not_change_the_win_test
           (Nyankosweeper.board Plays.game_cleared) 0 0).
  - destruct game_cleared_in_play as (Hv & _). exact Hv.
  - vm_compute. repeat split; discriminate.
Defined.

(** ** The screen of nyankosweeper *)

Lemma game_lost_run :
  Nyankosweeper.Game_run 1000 Plays.game_centre (mkTty [" "; "x"; "q"]%string [])
  = Done (1, Plays.game_lost, mkTty [] ["You lose. hit key"%string]).
Proof. vm_compute. reflexivity. Qed.

(** X8. [Renderer.draw] on a game in play never fails.  It writes every
    cell of the board once, column by column: the cell (x, y) at row y
    and column 2x, with the glyph that [Cell.display] gives for it; and
    exactly one of these writes is reversed, the one of the cell under
    the cursor. *)
Theorem draw_writes_every_cell (gm : Nyankosweeper.Game) (scr : list write) :
  Nyankosweeper.Game_ok gm →
  ∃ ws, Nyankosweeper.draw gm scr = Done (scr ++ ws)
    ∧ Forall2 (Nyankosweeper.drawn_as gm)
        (cells (Nyankosweeper.width (Nyankosweeper.board gm))
               (Nyankosweeper.height (Nyankosweeper.board gm))) ws
    ∧ length (filter (λ wr, w_reverse wr = true) ws) = 1%nat.
Proof.
  intros Hok. destruct (NyankoPlay.draw_returns gm scr Hok) as (ws & Hrun & Hws).
  exists ws. split; [exact Hrun|]. split; [exact Hws|].
  rewrite (NyankoPlay.one_reversed gm _ ws Hws (NoDup_cells _ _)).
  rewrite decide_True; [reflexivity|].
  apply elem_of_cells. destruct Hok as (_ & _ & Hin & _). exact Hin.
Qed.

Lemma draw_writes_every_cell_witness :
  ∃ ws, Nyankosweeper.draw Plays.game_centre [] = Done ([] ++ ws)
    ∧ Forall2 (Nyankosweeper.drawn_as Plays.game_centre)
        (cells (Nyankosweeper.width (Nyankosweeper.board Plays.game_centre))
               (Nyankosweeper.height (Nyankosweeper.board Plays.game_centre))) ws
    ∧ length (filter (λ wr, w_reverse wr = true) ws) = 1%nat.
Proof.
  apply (draw_writes_every_cell Plays.game_centre []).
  exact game_centre_in_play.
Defined.

(** X9. The glyph for a wrong flag never reaches the screen.
    [Cell.display] gives it for a covered, flagged cell without a mine
    once the game is over; but [game_over] is set only in
    [handle_reveal], which at once reveals every cell without a mine,
    and nothing hides such a cell again.  So whatever state [Game.run]
    gets to from a game that [Game.__init__] has built, [draw] writes no
    such glyph. *)
Theorem wrong_flag_never_drawn (n : Z) (draws : list (Z * Z))
    (gm0 : Nyankosweeper.Game) (depth : nat) (t : tty)
    (code : Z) (gm : Nyankosweeper.Game) (t' : tty) (scr : list write) :
  Forall (λ p, inb Nyankosweeper.Config.XSIZE
                 Nyankosweeper.Config.BOARD_HEIGHT p.1 p.2) draws →
  Nyankosweeper.Game_init n draws = Done gm0 →
  Nyankosweeper.Config.XSIZE * Nyankosweeper.Config.BOARD_HEIGHT
  < Z.of_nat depth →
  Nyankosweeper.Game_run depth gm0 t = Done (code, gm, t') →
  ∃ ws, Nyankosweeper.draw gm scr = Done (scr ++ ws)
    ∧ Forall (λ wr, w_text wr ≠ "Ｘ"%string) ws.
Proof.
  intros Hdraws Hinit Hd Hrun.
  destruct (NyankoPlay.Game_init_ok n draws gm0 Hdraws Hinit) as (Hok0 & Hw & Hh & _).
  assert (Nyankosweeper.Game_ok gm) as Hok.
  { unfold Nyankosweeper.Game_run in Hrun.
    destruct (NyankoPlay.run_turns_ok (S (length (keys t))) depth gm0 t Hok0)
      as [Hno|(c & g & t2 & Hrun' & Hok & _)].
    - rewrite Hw, Hh. exact Hd.
    - lia.
    - rewrite Hno in Hrun. discriminate Hrun.
    - rewrite Hrun' in Hrun. injection Hrun as _ <- _. exact Hok. }
  destruct (NyankoPlay.draw_returns gm scr Hok) as (ws & Hdraw & Hws).
  exists ws. split; [exact Hdraw|].
  exact (NyankoPlay.drawn_no_wrong_flag gm _ ws Hok Hws).
Qed.

Lemma wrong_flag_never_drawn_witness :
  ∃ ws, Nyankosweeper.draw Plays.game_lost [] = Done ([] ++ ws)
    ∧ Forall (λ wr, w_text wr ≠ "Ｘ"%string) ws.
Proof.
  apply (wrong_flag_never_drawn 1 [(20, 11)] Plays.game_centre 1000
           (mkTty [" "; "x"; "q"]%string []) 1 Plays.game_lost
           (mkTty [] ["You lose. hit key"%string]) []).
  - repeat constructor; simpl; lia.
  - exact game_centre_init.
  - vm_compute. reflexivity.
  - exact game_lost_run.
Defined.

(** X10. While the game is on, no mine is shown.  In whatever state
    [Game.run] gets to from a game that [Game.__init__] has built on
    draws within the board, as long as [game_over] is not set no cell
    with a mine is revealed, and [draw] writes no mine glyph: the reveal
    key on a cell without a mine never reaches a mine, and [handle_win]
    hides every mine. *)
Theorem mines_stay_hidden (n : Z) (draws : list (Z * Z))
    (gm0 : Nyankosweeper.Game) (depth : nat) (t : tty)
    (code : Z) (gm : Nyankosweeper.Game) (t' : tty) (scr : list write) :
  Forall (λ p, inb Nyankosweeper.Config.XSIZE
                 Nyankosweeper.Config.BOARD_HEIGHT p.1 p.2) draws →
  Nyankosweeper.Game_init n draws = Done gm0 →
  Nyankosweeper.Config.XSIZE * Nyankosweeper.Config.BOARD_HEIGHT
  < Z.of_nat depth →
  Nyankosweeper.Game_run depth gm0 t = Done (code, gm, t') →
  Nyankosweeper.game_over gm = false →
  Nyankosweeper.mines_hidden (Nyankosweeper.board gm)
  ∧ ∃ ws, Nyankosweeper.draw gm scr = Done (scr ++ ws)
      ∧ Forall (λ wr, w_text wr ≠ "😺"%string) ws.
Proof.
  intros Hdraws Hinit Hd Hrun Hon.
  destruct (NyankoPlay.Game_init_ok n draws gm0 Hdraws Hinit) as (Hok0 & Hw & Hh & _).
  assert (Nyankosweeper.Game_ok gm) as Hok.
  { unfold Nyankosweeper.Game_run in Hrun.
    destruct (NyankoPlay.run_turns_ok (S (length (keys t))) depth gm0 t Hok0)
      as [Hno|(c & g & t2 & Hrun' & Hok & _)].
    - rewrite Hw, Hh. exact Hd.
    - lia.
    - rewrite Hno in Hrun. discriminate Hrun.
    - rewrite Hrun' in Hrun. injection Hrun as _ <- _. exact Hok. }
  split.
  - destruct Hok as (_ & _ & _ & Hhid & _). exact (Hhid Hon).
  - destruct (NyankoPlay.draw_returns gm scr Hok) as (ws & Hdraw & Hws).
    exists ws. split; [exact Hdraw|].
    exact (NyankoPlay.drawn_no_mine gm _ ws Hok Hon Hws).
Qed.

Lemma mines_stay_hidden_witness :
  Nyankosweeper.mines_hidden (Nyankosweeper.board Plays.game_played)
  ∧ ∃ ws, Nyankosweeper.draw Plays.game_played [] = Done ([] ++ ws)
      ∧ Forall (λ wr, w_text wr ≠ "😺"%string) ws.
Proof.
  apply (mines_stay_hidden 1 [(20, 11)] Plays.game_centre 1000
           (mkTty ["4"; "4"; " "; "q"]%string []) 0 Plays.game_played
           (mkTty [] ["You win. hit key"%string]) []).
  - repeat constructor; simpl; lia.
  - exact game_centre_init.
  - vm_compute. reflexivity.
  - vm_compute. reflexivity.
  - reflexivity.
Defined.

(** X11. While the game is on, the screen tells nothing of a covered
    cell but its mark.  Two games of the same size, with the cursor at
    the same place, that agree on which cells are revealed, on the marks
    of the covered cells and on the content of the revealed ones, are
    drawn by the same calls: where the mines are under covered cells,
    and what their counts are, makes no difference to [draw]. *)
Theorem draw_shows_only_the_view (gm1 gm2 : Nyankosweeper.Game)
    (scr : list write) :
  Nyankosweeper.same_view gm1 gm2 →
  Nyankosweeper.draw gm1 scr = Nyankosweeper.draw gm2 scr.
Proof.
  intros (Hw & Hh & Hcx & Hcy & Ho1 & Ho2 & Hcells).
  rewrite !NyankoPlay.draw_cells, <- Hw, <- Hh. apply for_ext.
  intros [x y] s Hxy%elem_of_cells. cbn [fst snd].
  unfold Nyankosweeper.draw_cell. destruct Hxy as [Hx Hy].
  rewrite !get2_nonneg by lia. specialize (Hcells x y).
  unfold Nyankosweeper.cell_at in Hcells.
  destruct (at2 (Nyankosweeper.grid (Nyankosweeper.board gm1)) x y) as [c1|],
           (at2 (Nyankosweeper.grid (Nyankosweeper.board gm2)) x y) as [c2|];
    try contradiction; [|reflexivity].
  cbn [bind]. rewrite Ho1, Ho2, (NyankoPlay.display_shows_same c1 c2 Hcells).
  rewrite Hcx, Hcy. reflexivity.
Qed.

Lemma draw_shows_only_the_view_witness :
  Nyankosweeper.draw Plays.game_empty []
  = Nyankosweeper.draw Plays.game_hidden_mine [].
Proof.
  apply (draw_shows_only_the_view Plays.game_empty Plays.game_hidden_mine []).
  unfold Nyankosweeper.same_view.
  split; [reflexivity|]. split; [reflexivity|]. split; [reflexivity|].
  split; [reflexivity|]. split; [reflexivity|]. split; [reflexivity|].
  intros x y. unfold Nyankosweeper.cell_at, Plays.game_empty, Plays.game_hidden_mine.
  cbn [Nyankosweeper.board Nyankosweeper.grid Nyankosweeper.with_grid].
  destruct (decide ((0, 0) = (x, y))) as [[= <- <-]|Hne].
  - rewrite (at2_put2_eq (Nyankosweeper.grid Plays.board_empty) 0 0
               (Nyankosweeper.mkCell true false 0 0) Nyankosweeper.Cell_init)
      by (vm_compute; reflexivity).
    replace (at2 (Nyankosweeper.grid Plays.board_empty) 0 0)
      with (Some Nyankosweeper.Cell_init) by (vm_compute; reflexivity).
    split; [reflexivity|]. split; [intros _; reflexivity|]. intros H.
    discriminate H.
  - rewrite (at2_put2_ne (Nyankosweeper.grid Plays.board_empty) 0 0 x y)
      by (lia || exact Hne).
    destruct (at2 (Nyankosweeper.grid Plays.board_empty) x y) as [c|]; [|exact I].
    split; [reflexivity|]. split; [intros _; reflexivity|].
    intros _. split; [reflexivity|]. intros _. reflexivity.
Defined.

(** ** Reveal and the counts *)

(** X12. The order of two reveals does not matter.  On a valid board,
    with a depth budget above the number of cells, revealing at one cell
    and then at another returns the same board as revealing in the other
    order, in both games: the cells reached from either of the two in
    the board they start from are uncovered, and nothing else has
    changed. *)
Theorem reveal_order_does_not_matter :
  (∀ (depth : nat) (b : Nyankosweeper.Board) (x y x' y' : Z),
     Nyankosweeper.Board_ok b →
     inb (Nyankosweeper.width b) (Nyankosweeper.height b) x y →
     inb (Nyankosweeper.width b) (Nyankosweeper.height b) x' y' →
     Nyankosweeper.width b * Nyankosweeper.height b < Z.of_nat depth →
     ∃ b2,
       (do b1 <- Nyankosweeper.reveal depth b x y;
        Nyankosweeper.reveal depth b1 x' y') = Done b2
       ∧ (do b1 <- Nyankosweeper.reveal depth b x' y';
          Nyankosweeper.reveal depth b1 x y) = Done b2
       ∧ ∀ cx cy c, Nyankosweeper.cell_at b cx cy = Some c →
           (Nyankosweeper.reached b (x, y) (cx, cy)
            ∨ Nyankosweeper.reached b (x', y') (cx, cy) →
              Nyankosweeper.cell_at b2 cx cy
              = Some (Nyankosweeper.set_revealed true c))
           ∧ (¬ Nyankosweeper.reached b (x, y) (cx, cy) →
              ¬ Nyankosweeper.reached b (x', y') (cx, cy) →
              Nyankosweeper.cell_at b2 cx cy = Some c))
  ∧ (∀ (depth : nat) (w : Minesweeper.world) (x y x' y' : Z),
       Minesweeper.valid w →
       inb Minesweeper.xsize Minesweeper.ysize x y →
       inb Minesweeper.xsize Minesweeper.ysize x' y' →
       Minesweeper.xsize * Minesweeper.ysize < Z.of_nat depth →
       ∃ w2,
         (do w1 <- Minesweeper.reveal depth w x y;
          Minesweeper.reveal depth w1 x' y') = Done w2
         ∧ (do w1 <- Minesweeper.reveal depth w x' y';
            Minesweeper.reveal depth w1 x y) = Done w2
         ∧ Minesweeper.vvram w2 = Minesweeper.vvram w
         ∧ ∀ cx cy m, at2 (Minesweeper.mask w) cx cy = Some m →
             (Minesweeper.reached w (x, y) (cx, cy)
              ∨ Minesweeper.reached w (x', y') (cx, cy) →
                at2 (Minesweeper.mask w2) cx cy = Some Minesweeper.blank)
             ∧ (¬ Minesweeper.reached w (x, y) (cx, cy) →
                ¬ Minesweeper.reached w (x', y') (cx, cy) →
                at2 (Minesweeper.mask w2) cx cy = Some m)).
Proof.
  split.
  - intros depth b x y x' y' Hv Hp Hq Hd.
    destruct (NyankoPlay.reveal_order depth b x y x' y' Hv Hp Hq Hd)
      as (b2 & H1 & H2 & _ & _ & Hcells).
    exists b2. split; [exact H1|]. split; [exact H2|exact Hcells].
  - intros depth w x y x' y' Hv Hp Hq Hd.
    destruct (MinePlay.reveal_order_field depth w x y x' y' Hv Hp Hq Hd)
      as (w2 & H1 & H2 & _ & _ & Hvv & Hcells).
    exists w2. split; [exact H1|]. split; [exact H2|].
    split; [exact Hvv|exact Hcells].
Qed.

Lemma reveal_order_does_not_matter_witness :
  (∃ b2,
     (do b1 <- Nyankosweeper.reveal 1000 (Nyankosweeper.board Plays.game_centre) 0 0;
      Nyankosweeper.reveal 1000 b1 20 11) = Done b2
     ∧ (do b1 <- Nyankosweeper.reveal 1000 (Nyankosweeper.board Plays.game_centre)
                   20 11;
        Nyankosweeper.reveal 1000 b1 0 0) = Done b2)
  ∧ (∃ w2,
       (do w1 <- Minesweeper.reveal 1000 Plays.field_centre 0 0;
        Minesweeper.reveal 1000 w1 20 11) = Done w2
       ∧ (do w1 <- Minesweeper.reveal 1000 Plays.field_centre 20 11;
          Minesweeper.reveal 1000 w1 0 0) = Done w2).
Proof.
  split.
  - destruct (proj1 reveal_order_does_not_matter 1000%nat
                (Nyankosweeper.board Plays.game_centre) 0 0 20 11)
      as (b2 & H1 & H2 & _).
    + exact (proj1 game_centre_ok).
    + vm_compute. repeat split; discriminate.
    + vm_compute. repeat split; discriminate.
    + vm_compute. reflexivity.
    + exists b2. split; [exact H1|exact H2].
  - destruct (proj2 reveal_order_does_not_matter 1000%nat
                Plays.field_centre 0 0 20 11) as (w2 & H1 & H2 & _).
    + exact (proj1 field_centre_ok).
    + vm_compute. repeat split; discriminate.
    + vm_compute. repeat split; discriminate.
    + vm_compute. reflexivity.
    + exists w2. split; [exact H1|exact H2].
Defined.

(** X13. The counts are stable.  On a board that carries its counts,
    [calculate_adjacents] returns the very same board, and so does
    [calcfield] on a field of minesweeper.py: counting a second time
    changes nothing. *)
Theorem counting_again_changes_nothing :
  (∀ b : Nyankosweeper.Board,
     Nyankosweeper.Board_ok b → Nyankosweeper.counts_ok b →
     Nyankosweeper.calculate_adjacents b = Done b)
  ∧ (∀ w : Minesweeper.world,
       Minesweeper.valid w → Minesweeper.counts_ok w →
       Minesweeper.calcfield w = Done w).
Proof.
  split.
  - intros b Hv Hcnt.
    destruct (NyankoBuild.calculate_adjacents_returns b Hv)
      as (b' & -> & Hw & Hh & Hm & Hv' & Hcells).
    f_equal.
    assert (Nyankosweeper.grid b' = Nyankosweeper.grid b) as Hg.
    { apply (grid_ext (Nyankosweeper.width b) (Nyankosweeper.height b)).
      - rewrite <- Hw, <- Hh. apply Hv'.
      - apply Hv.
      - intros x y Hin.
        destruct (NyankoFacts.get2_valid _ _ _ x y Hv Hin) as (c & Hc & _).
        rewrite (Hcells x y c Hc), Hc. f_equal.
        destruct (Nyankosweeper.mine c) eqn:E; [reflexivity|].
        rewrite <- (Hcnt x y c Hc E). destruct c. reflexivity. }
    destruct b, b'. cbn in Hw, Hh, Hm, Hg. congruence.
  - intros w Hv Hcnt.
    destruct (MineBuild.calcfield_returns w Hv)
      as (w' & -> & Hv' & Hm & Hmask & Hcells).
    f_equal.
    assert (Minesweeper.vvram w' = Minesweeper.vvram w) as Hvv.
    { apply (grid_ext Minesweeper.xsize Minesweeper.ysize);
        [apply Hv'|apply Hv|].
      intros x y Hin.
      destruct (at2_is_Some _ _ _ x y (proj1 Hv) Hin) as [v Hvx].
      rewrite (Hcells x y v Hvx), Hvx. f_equal.
      destruct (Minesweeper.is_zero v) eqn:Ez; [|reflexivity].
      assert (Minesweeper.is_star v = false) as Hs
        by (destruct v as [[]|]; reflexivity || discriminate Ez).
      rewrite <- (Hcnt x y v Hvx Hs). reflexivity. }
    destruct w, w'. cbn in Hm, Hmask, Hvv. congruence.
Qed.

Lemma counting_again_changes_nothing_witness :
  Nyankosweeper.calculate_adjacents (Nyankosweeper.board Plays.game_centre)
  = Done (Nyankosweeper.board Plays.game_centre)
  ∧ Minesweeper.calcfield Plays.field_centre = Done Plays.field_centre.
Proof.
  split.
  - apply (proj1 counting_again_changes_nothing).
    + exact (proj1 game_centre_ok).
    + exact (proj2 game_centre_ok).
  - apply (proj2 counting_again_changes_nothing).
    + exact (proj1 field_centre_ok).
    + exact (proj2 field_centre_ok).
Defined.

(** ** minesweeper.py in play *)

(** X14. A game of minesweeper.py stays in play.  The field that
    [putmines] and [calcfield] build is in play: both grids have the
    size of the field, the counts are in place, [mask] holds only marks
    and blanks, and every mine is covered.  From a field in play, with
    the cursor on the field and a depth budget above the number of
    cells, [mainloop] raises nothing: it returns, or it waits for a key.
    The field it returns is in play again, with the same [vvram] and
    [mines], and the cursor is still on the field: no mine is ever
    uncovered, and no key moves the cursor off the field. *)
Theorem mainloop_keeps_the_field :
  (∀ (n : Z) (draws rest : list (Z * Z)) (w1 w2 : Minesweeper.world),
     Forall (λ p, inb Minesweeper.xsize Minesweeper.ysize p.1 p.2) draws →
     Minesweeper.putmines n (Minesweeper.world_init n) draws = Done (w1, rest) →
     Minesweeper.calcfield w1 = Done w2 →
     Minesweeper.playable w2)
  ∧ (∀ (depth : nat) (pending : list string) (x y : Z)
       (w : Minesweeper.world) (log : list string),
       Minesweeper.playable w →
       inb Minesweeper.xsize Minesweeper.ysize x y →
       Minesweeper.xsize * Minesweeper.ysize < Z.of_nat depth →
       Minesweeper.mainloop_from depth pending x y w log = Raise NoMoreKeys
       ∨ ∃ code xy w' t',
           Minesweeper.mainloop_from depth pending x y w log
           = Done (code, xy, w', t')
           ∧ Minesweeper.playable w'
           ∧ inb Minesweeper.xsize Minesweeper.ysize xy.1 xy.2
           ∧ Minesweeper.mines w' = Minesweeper.mines w
           ∧ Minesweeper.vvram w' = Minesweeper.vvram w).
Proof.
  split.
  - intros n draws rest w1 w2 Hdraws Hput Hcalc.
    destruct (MinePlay.field_playable n draws rest w1 w2 Hdraws Hput Hcalc)
      as (Hp & _).
    exact Hp.
  - intros depth pending x y w log Hp Hin Hd.
    exact (MinePlay.mainloop_from_playable depth pending x y w log Hp Hin Hd).
Qed.

Lemma mainloop_keeps_the_field_witness :
  Minesweeper.mainloop_from 1000 ["4"; "z"; " "; "q"]%string 20 11
    Plays.field_centre [] = Raise NoMoreKeys
  ∨ ∃ code xy w' t',
      Minesweeper.mainloop_from 1000 ["4"; "z"; " "; "q"]%string 20 11
        Plays.field_centre [] = Done (code, xy, w', t')
      ∧ Minesweeper.playable w'
      ∧ inb Minesweeper.xsize Minesweeper.ysize xy.1 xy.2
      ∧ Minesweeper.mines w' = Minesweeper.mines Plays.field_centre
      ∧ Minesweeper.vvram w' = Minesweeper.vvram Plays.field_centre.
Proof.
  apply (proj2 mainloop_keeps_the_field 1000%nat).
  - exact (proj1 field_centre_playable).
  - vm_compute. repeat split; discriminate.
  - vm_compute. reflexivity.
Defined.

(** X15. minesweeper.py as a whole, on draws of the random source that
    lie within the field and with a depth budget above the number of
    cells: the script returns, or the draws or the keys run out, or it
    has exited with status 1 on a mine count above 300, or [int] has
    raised [ValueError] on an argument that is not a number, which the
    script does not catch.  No subscript is ever out of range and the
    recursion of [reveal] never runs out of depth.  Without an argument,
    or with more than one, the mine count is 60. *)
Theorem minesweeper_outcomes (depth : nat) (argv : list word)
    (draws : list (Z * Z)) (t : tty) :
  Forall (λ p, inb Minesweeper.xsize Minesweeper.ysize p.1 p.2) draws →
  Minesweeper.xsize * Minesweeper.ysize < Z.of_nat depth →
  (Minesweeper.script depth argv draws t = Done tt
   ∨ Minesweeper.script depth argv draws t = Raise NoMoreDraws
   ∨ Minesweeper.script depth argv draws t = Raise NoMoreKeys
   ∨ Minesweeper.script depth argv draws t
     = Raise (SystemExit 1 "too many mines")
   ∨ Minesweeper.script depth argv draws t = Raise ValueError)
  ∧ (length argv ≠ 2%nat → Minesweeper.startup argv = Done 60)
  ∧ (∀ n, Minesweeper.startup argv = Done n → n ≤ 300).
Proof.
  intros Hdraws Hd.
  destruct (MinePlay.startup_outcome argv)
    as [(n & Hn & Hmax & Hdef)|(Hlen & [Hmany|Hnot])].
  - split; [|split].
    + unfold Minesweeper.script. rewrite Hn. cbn [bind].
      destruct (MinePlay.game_outcome depth n draws t Hdraws Hd)
        as [H|[H|H]]; rewrite H.
      * left. reflexivity.
      * right. left. reflexivity.
      * right. right. left. reflexivity.
    + intros Hlen. rewrite Hn. f_equal. apply Hdef. exact Hlen.
    + intros m Hm. rewrite Hn in Hm. injection Hm as <-. exact Hmax.
  - split; [|split].
    + unfold Minesweeper.script. rewrite Hmany. do 3 right. left. reflexivity.
    + intros Hne. contradiction.
    + intros m Hm. rewrite Hmany in Hm. discriminate Hm.
  - split; [|split].
    + unfold Minesweeper.script. rewrite Hnot. do 4 right. reflexivity.
    + intros Hne. contradiction.
    + intros m Hm. rewrite Hnot in Hm. discriminate Hm.
Qed.

Lemma minesweeper_outcomes_witness :
  (Minesweeper.script 1000 [Text "minesweeper.py"; Text "many"] [(20, 11)]
     (mkTty ["q"%string] []) = Done tt
   ∨ Minesweeper.script 1000 [Text "minesweeper.py"; Text "many"] [(20, 11)]
       (mkTty ["q"%string] []) = Raise NoMoreDraws
   ∨ Minesweeper.script 1000 [Text "minesweeper.py"; Text "many"] [(20, 11)]
       (mkTty ["q"%string] []) = Raise NoMoreKeys
   ∨ Minesweeper.script 1000 [Text "minesweeper.py"; Text "many"] [(20, 11)]
       (mkTty ["q"%string] []) = Raise (SystemExit 1 "too many mines")
   ∨ Minesweeper.script 1000 [Text "minesweeper.py"; Text "many"] [(20, 11)]
       (mkTty ["q"%string] []) = Raise ValueError)
  ∧ (length [Text "minesweeper.py"; Text "many"] ≠ 2%nat →
     Minesweeper.startup [Text "minesweeper.py"; Text "many"] = Done 60)
  ∧ (∀ n, Minesweeper.startup [Text "minesweeper.py"; Text "many"] = Done n →
          n ≤ 300).
Proof.
  apply (minesweeper_outcomes 1000 [Text "minesweeper.py"; Text "many"]
           [(20, 11)] (mkTty ["q"%string] [])).
  - repeat constructor; simpl; lia.
  - vm_compute. reflexivity.
Defined.

(** ** The screen of minesweeper.py *)

(** X16. [drawscreen] and [cursor] never fail on a field in play:
    [drawscreen] writes every cell once, reversed, the cell (x, y) at
    row y and column 2x with the glyph of [retchar], and [cursor] writes
    the cell under the cursor again, not reversed.  On a valid field
    with an uncovered mine [drawscreen] raises [TypeError], in
    [retchar], which compares the ['*'] with 1: that play never uncovers
    a mine is what keeps the screen from failing. *)
Theorem drawscreen_in_play :
  (∀ (w : Minesweeper.world) (scr : list write),
     Minesweeper.playable w →
     ∃ ws, Minesweeper.drawscreen w scr = Minesweeper.Drawn (scr ++ ws)
       ∧ Forall2 (Minesweeper.drawn_char w)
           (cells Minesweeper.xsize Minesweeper.ysize) ws)
  ∧ (∀ (w : Minesweeper.world) (x y : Z) (scr : list write),
       Minesweeper.playable w →
       inb Minesweeper.xsize Minesweeper.ysize x y →
       ∃ g, Minesweeper.retchar w x y = Minesweeper.Drawn (Some g)
            ∧ Minesweeper.cursor w x y scr
              = Minesweeper.Drawn (scr ++ [mkWrite y (x * 2) g false]))
  ∧ (∀ (w : Minesweeper.world) (x y : Z) (scr : list write),
       Minesweeper.valid w →
       inb Minesweeper.xsize Minesweeper.ysize x y →
       Minesweeper.is_mine w (x, y) = true →
       Minesweeper.covered w x y = false →
       Minesweeper.drawscreen w scr = Minesweeper.TypeError).
Proof.
  split; [|split].
  - intros w scr Hp. exact (MinePlay.drawscreen_returns w scr Hp).
  - intros w x y scr Hp Hin. exact (MinePlay.cursor_returns w x y scr Hp Hin).
  - intros w x y scr Hv Hin Hmine Hc.
    exact (MinePlay.drawscreen_type_error w x y scr Hv Hin Hmine Hc).
Qed.

Lemma drawscreen_in_play_witness :
  (∃ ws, Minesweeper.drawscreen Plays.field_centre []
         = Minesweeper.Drawn ([] ++ ws)
     ∧ Forall2 (Minesweeper.drawn_char Plays.field_centre)
         (cells Minesweeper.xsize Minesweeper.ysize) ws)
  ∧ Minesweeper.drawscreen (Minesweeper.uncover Plays.field_centre 20 11) []
    = Minesweeper.TypeError.
Proof.
  split.
  - apply (proj1 drawscreen_in_play Plays.field_centre []).
    exact (proj1 field_centre_playable).
  - apply (proj2 (proj2 drawscreen_in_play)
             (Minesweeper.uncover Plays.field_centre 20 11) 20 11 []).
    + apply MineFacts.valid_uncover. exact (proj1 field_centre_ok).
    + vm_compute. repeat split; discriminate.
    + vm_compute. reflexivity.
    + vm_compute. reflexivity.
Defined.

(** X17. [printmines], which draws the field after a loss, never fails
    on a valid field that carries its counts, whatever is covered: it
    writes every cell once, reversed, and the glyph of a cell is ['＊']
    exactly when the cell has a mine. *)
Theorem printmines_marks_the_mines (w : Minesweeper.world) (scr : list write) :
  Minesweeper.valid w → Minesweeper.counts_ok w →
  ∃ ws, Minesweeper.printmines w scr = Minesweeper.Drawn (scr ++ ws)
    ∧ Forall2 (λ p wr,
        w_row wr = p.2 ∧ w_col wr = p.1 * 2 ∧ w_reverse wr = true
        ∧ (w_text wr = "＊"%string ↔ Minesweeper.is_mine w p = true))
      (cells Minesweeper.xsize Minesweeper.ysize) ws.
Proof.
  intros Hv Hc. exact (MinePlay.printmines_returns w scr Hv Hc).
Qed.

Lemma printmines_marks_the_mines_witness :
  ∃ ws, Minesweeper.printmines Plays.field_centre []
        = Minesweeper.Drawn ([] ++ ws)
    ∧ Forall2 (λ p wr,
        w_row wr = p.2 ∧ w_col wr = p.1 * 2 ∧ w_reverse wr = true
        ∧ (w_text wr = "＊"%string
           ↔ Minesweeper.is_mine Plays.field_centre p = true))
      (cells Minesweeper.xsize Minesweeper.ysize) ws.
Proof.
  apply (printmines_marks_the_mines Plays.field_centre []).
  - exact (proj1 field_centre_ok).
  - exact (proj2 field_centre_ok).
Defined.

(** ** The win test of minesweeper.py *)

(** X18. What [endcheck] tests.  On a field in play whose [mines] is the
    number of its mines, [endcheck] holds exactly when there are as many
    covered cells without a mine as there are cells marked ['?'].  So as
    long as no cell is marked ['?'] it is the win test: it holds exactly
    when every cell without a mine is uncovered. *)
Theorem endcheck_counts_question_marks (w : Minesweeper.world) :
  Minesweeper.playable w →
  Minesweeper.mines w = Z.of_nat (length (Minesweeper.mine_cells w)) →
  Minesweeper.endcheck w
  = Done (Z.of_nat (length (filter (λ p, Minesweeper.covered_safe w p = true)
                              (cells Minesweeper.xsize Minesweeper.ysize)))
          =? Z.of_nat (length (filter (λ p, Minesweeper.questioned w p = true)
                                 (cells Minesweeper.xsize Minesweeper.ysize))))
  ∧ ((∀ p, Minesweeper.questioned w p = false) →
     (Minesweeper.endcheck w = Done true ↔
      ∀ p, inb Minesweeper.xsize Minesweeper.ysize p.1 p.2 →
           Minesweeper.is_mine w p = false →
           Minesweeper.covered w p.1 p.2 = false)).
Proof.
  intros Hp Hm. split.
  - exact (MinePlay.endcheck_balance w Hp Hm).
  - intros Hq. exact (MinePlay.endcheck_no_question w Hp Hm Hq).
Qed.

Lemma endcheck_counts_question_marks_witness :
  Minesweeper.endcheck Plays.field_centre
  = Done (Z.of_nat (length (filter
                      (λ p, Minesweeper.covered_safe Plays.field_centre p = true)
                      (cells Minesweeper.xsize Minesweeper.ysize)))
          =? Z.of_nat (length (filter
                         (λ p, Minesweeper.questioned Plays.field_centre p = true)
                         (cells Minesweeper.xsize Minesweeper.ysize)))).
Proof.
  apply (endcheck_counts_question_marks Plays.field_centre).
  - exact (proj1 field_centre_playable).
  - exact (proj2 field_centre_playable).
Defined.

(** X19. minesweeper.py with a negative mine count cannot be won, nor
    lost.  [putmines] draws nothing and [calcfield] returns a field
    without a mine whose [mines] is the negative count; [endcheck]
    compares a number of cells with it, so it never holds, and no cell
    has a mine to lose on: whenever [mainloop] returns, it returns 1,
    on ['q']. *)
Theorem negative_count_is_never_won (n : Z) (draws : list (Z * Z))
    (depth : nat) (t : tty) :
  n < 0 →
  Minesweeper.xsize * Minesweeper.ysize < Z.of_nat depth →
  ∃ w,
    Minesweeper.putmines n (Minesweeper.world_init n) draws
    = Done (Minesweeper.world_init n, draws)
    ∧ Minesweeper.calcfield (Minesweeper.world_init n) = Done w
    ∧ Minesweeper.mines w = n ∧ Minesweeper.mine_cells w = []
    ∧ ∀ code xy w' t',
        Minesweeper.mainloop depth w t = Done (code, xy, w', t') → code = 1.
Proof.
  intros Hn Hd.
  assert (∀ ds, Minesweeper.putmines n (Minesweeper.world_init n) ds
                = Done (Minesweeper.world_init n, ds)) as Hput.
  { intros ds. unfold Minesweeper.putmines, range. rewrite seqZ_nil by lia.
    reflexivity. }
  destruct (MineBuild.calcfield_returns (Minesweeper.world_init n)
              (MineBuild.valid_world_init n)) as (w & Hcalc & _).
  destruct (MinePlay.field_playable n [] [] (Minesweeper.world_init n) w)
    as (Hp & Hm & Hsame); [constructor|apply Hput|exact Hcalc|].
  assert (Minesweeper.mine_cells w = []) as Hnone.
  { apply filter_none. intros p _.
    rewrite Hsame, MinePlay.is_mine_world_init. discriminate. }
  exists w. split; [apply Hput|]. split; [exact Hcalc|].
  split; [exact Hm|]. split; [exact Hnone|].
  intros code xy w' t' Hrun. unfold Minesweeper.mainloop in Hrun.
  apply (MinePlay.mainloop_from_no_win depth (keys t)
           (Minesweeper.xsize `div` 2) (Minesweeper.ysize `div` 2)
           w (shown t) code xy w' t' Hp); try assumption.
  - unfold inb, Minesweeper.xsize, Minesweeper.ysize.
    change (40 `div` 2) with 20. change (23 `div` 2) with 11. lia.
  - lia.
Qed.

Lemma negative_count_is_never_won_witness :
  ∃ w,
    Minesweeper.putmines (-1) (Minesweeper.world_init (-1)) []
    = Done (Minesweeper.world_init (-1), [])
    ∧ Minesweeper.calcfield (Minesweeper.world_init (-1)) = Done w
    ∧ Minesweeper.mines w = -1 ∧ Minesweeper.mine_cells w = []
    ∧ ∀ code xy w' t',
        Minesweeper.mainloop 1000 w (mkTty [" "; "q"]%string [])
        = Done (code, xy, w', t') → code = 1.
Proof.
  apply (negative_count_is_never_won (-1) [] 1000 (mkTty [" "; "q"]%string [])).
  - lia.
  - vm_compute. reflexivity.
Defined.

(** ** The cursor of minesweeper.py *)

(** X20. In minesweeper.py the keys ['4'], ['6'], ['8'], ['2'] and the
    arrow keys, which [getkey] reads as these digits, move the cursor by
    one cell when that cell is on the field and leave it where it is at
    the edge; the field is untouched and the loop goes on with the next
    key. *)
Theorem cursor_keys_move_one_step (depth : nat) (k : string)
    (rest : list string) (x y dx dy : Z) (w : Minesweeper.world)
    (log : list string) :
  Minesweeper.endcheck w = Done false →
  inb Minesweeper.xsize Minesweeper.ysize x y →
  (k, (dx, dy)) ∈ [("4", (-1, 0)); ("KEY_LEFT", (-1, 0));
                   ("6", (1, 0)); ("KEY_RIGHT", (1, 0));
                   ("8", (0, -1)); ("KEY_UP", (0, -1));
                   ("2", (0, 1)); ("KEY_DOWN", (0, 1))]%string →
  Minesweeper.mainloop_from depth (k :: rest) x y w log
  = if inbb Minesweeper.xsize Minesweeper.ysize (x + dx) (y + dy)
    then Minesweeper.mainloop_from depth rest (x + dx) (y + dy) w log
    else Minesweeper.mainloop_from depth rest x y w log.
Proof.
  intros Hend Hin Hk.
  rewrite MineGame.mainloop_from_eq, Hend. cbn [bind]. cbv zeta.
  destruct (inbb Minesweeper.xsize Minesweeper.ysize (x + dx) (y + dy)) eqn:E.
  - apply inbb_inb in E. unfold inb in *.
    apply list_elem_of_In in Hk. simpl in Hk.
    destruct Hk as [Hk|[Hk|[Hk|[Hk|[Hk|[Hk|[Hk|[Hk|[]]]]]]]]];
      injection Hk as <- <- <-; simpl (Minesweeper.keymap _);
      simpl (String.eqb _ _); cbv iota.
    + destruct (Z.eqb_spec x 0); cbn [negb]; f_equal; lia.
    + destruct (Z.eqb_spec x 0); cbn [negb]; f_equal; lia.
    + destruct (Z.eqb_spec x (Minesweeper.xsize - 1)); cbn [negb]; f_equal; lia.
    + destruct (Z.eqb_spec x (Minesweeper.xsize - 1)); cbn [negb]; f_equal; lia.
    + destruct (Z.eqb_spec y 0); cbn [negb]; f_equal; lia.
    + destruct (Z.eqb_spec y 0); cbn [negb]; f_equal; lia.
    + destruct (Z.eqb_spec y (Minesweeper.ysize - 1)); cbn [negb]; f_equal; lia.
    + destruct (Z.eqb_spec y (Minesweeper.ysize - 1)); cbn [negb]; f_equal; lia.
  - assert (¬ inb Minesweeper.xsize Minesweeper.ysize (x + dx) (y + dy)) as Hout.
    { intros H%inbb_inb. congruence. }
    unfold inb in *.
    apply list_elem_of_In in Hk. simpl in Hk.
    destruct Hk as [Hk|[Hk|[Hk|[Hk|[Hk|[Hk|[Hk|[Hk|[]]]]]]]]];
      injection Hk as <- <- <-; simpl (Minesweeper.keymap _);
      simpl (String.eqb _ _); cbv iota.
    + destruct (Z.eqb_spec x 0); cbn [negb]; f_equal; lia.
    + destruct (Z.eqb_spec x 0); cbn [negb]; f_equal; lia.
    + destruct (Z.eqb_spec x (Minesweeper.xsize - 1)); cbn [negb]; f_equal; lia.
    + destruct (Z.eqb_spec x (Minesweeper.xsize - 1)); cbn [negb]; f_equal; lia.
    + destruct (Z.eqb_spec y 0); cbn [negb]; f_equal; lia.
    + destruct (Z.eqb_spec y 0); cbn [negb]; f_equal; lia.
    + destruct (Z.eqb_spec y (Minesweeper.ysize - 1)); cbn [negb]; f_equal; lia.
    + destruct (Z.eqb_spec y (Minesweeper.ysize - 1)); cbn [negb]; f_equal; lia.
Qed.

Lemma cursor_keys_move_one_step_witness :
  Minesweeper.mainloop_from 1000 ["KEY_LEFT"; "q"]%string 0 11
    Plays.field_centre []
  = if inbb Minesweeper.xsize Minesweeper.ysize (0 + -1) (11 + 0)
    then Minesweeper.mainloop_from 1000 ["q"%string] (0 + -1) (11 + 0)
           Plays.field_centre []
    else Minesweeper.mainloop_from 1000 ["q"%string] 0 11 Plays.field_centre [].
Proof.
  apply (cursor_keys_move_one_step 1000 "KEY_LEFT" ["q"%string] 0 11 (-1) 0
           Plays.field_centre []).
  - vm_compute. reflexivity.
  - vm_compute. repeat split; discriminate.
  - apply list_elem_of_In. simpl. right. left. reflexivity.
Defined.

(** ** The two games side by side *)

Lemma mirrors_covered g w x y :
  mirrors g w → inb Minesweeper.xsize Minesweeper.ysize x y →
  Nyankosweeper.covered g x y = Minesweeper.covered w x y.
Proof.
  intros (_ & _ & Hcells) Hin.
  destruct (Hcells x y Hin) as (c & v & m & Hc & Hv & Hm & Hmk & Hr & _).
  unfold Nyankosweeper.covered, Minesweeper.covered.
  rewrite Hc, Hm, Hr, Hmk. apply andb_true_r.
Qed.

Lemma mirrors_spreads g w x y :
  mirrors g w → inb Minesweeper.xsize Minesweeper.ysize x y →
  Nyankosweeper.spreads g x y = Minesweeper.spreads w x y.
Proof.
  intros (_ & _ & Hcells) Hin.
  destruct (Hcells x y Hin) as (c & v & m & Hc & Hv & Hm & _ & _ & Hmine & Hadj).
  unfold Nyankosweeper.spreads, Minesweeper.spreads. rewrite Hc, Hv.
  destruct (Nyankosweeper.mine c) eqn:E.
  - rewrite andb_false_r. destruct v as [n|s]; [discriminate Hmine|reflexivity].
  - rewrite (Hadj eq_refl), andb_true_r.
    destruct (Nyankosweeper.adjacent c); reflexivity.
Qed.

Lemma mirrors_uncover g w x y :
  mirrors g w → inb Minesweeper.xsize Minesweeper.ysize x y →
  Nyankosweeper.covered g x y = true →
  mirrors (Nyankosweeper.uncover g x y) (Minesweeper.uncover w x y).
Proof.
  intros (Hv1 & Hv2 & Hcells) Hin _.
  destruct (Hcells x y Hin) as (c & v & m & Hc & Hv & Hm & Hmk & Hr & Hmine & Hadj).
  pose proof Hin as [Hx Hy].
  unfold Nyankosweeper.uncover. rewrite Hc. split; [|split].
  - apply NyankoFacts.valid_put2; [exact Hv1|exact Hin|]. cbn. lia.
  - apply MineFacts.valid_uncover. exact Hv2.
  - intros x' y' Hin'. unfold Minesweeper.uncover.
    cbn [Minesweeper.vvram Minesweeper.mask Minesweeper.with_mask].
    destruct (decide ((x, y) = (x', y'))) as [[= <- <-]|Hne].
    + exists (Nyankosweeper.set_revealed true c), v, Minesweeper.blank.
      rewrite (at2_put2_eq g x y _ c Hc).
      rewrite (at2_put2_eq (Minesweeper.mask w) x y _ m Hm).
      split; [reflexivity|]. split; [exact Hv|]. split; [reflexivity|].
      split; [exact Hmk|]. split; [reflexivity|]. split; [exact Hmine|exact Hadj].
    + rewrite !at2_put2_ne by (lia || exact Hne). exact (Hcells x' y' Hin').
Qed.

(** X21. The two scripts reveal alike.  Take a grid of nyankosweeper
    without marks, of the size of the field of minesweeper.py, and
    globals of minesweeper.py that show the same field: the same mines
    and counts, a cell revealed where the mask is blank.  Then
    [Board.reveal] and [reveal] on the same cell, with the same depth
    budget, both return, and the board and the globals they return show
    the same field again; or both run out of depth. *)
Theorem reveals_agree (depth : nat) (k : Z)
    (g : list (list Nyankosweeper.Cell)) (w : Minesweeper.world) (x y : Z) :
  mirrors g w →
  inb Minesweeper.xsize Minesweeper.ysize x y →
  outcomes_agree
    (λ b w', Nyankosweeper.width b = Minesweeper.xsize
             ∧ Nyankosweeper.height b = Minesweeper.ysize
             ∧ Nyankosweeper.mines b = k
             ∧ mirrors (Nyankosweeper.grid b) w')
    (Nyankosweeper.reveal depth
       (Nyankosweeper.mkBoard Minesweeper.xsize Minesweeper.ysize k g) x y)
    (Minesweeper.reveal depth w x y).
Proof.
  intros Hm Hin.
  rewrite (NyankoFacts.reveal_flood depth _ _ k g x y (proj1 Hm) Hin).
  rewrite (MineFacts.reveal_flood_field depth w x y (proj1 (proj2 Hm)) Hin).
  pose proof (FloodPair.flood_pair Minesweeper.xsize Minesweeper.ysize
                Nyankosweeper.covered Nyankosweeper.spreads Nyankosweeper.uncover
                Minesweeper.covered Minesweeper.spreads Minesweeper.uncover
                mirrors mirrors_covered mirrors_spreads mirrors_uncover
                depth g w x y Hm Hin) as Hpair.
  destruct (Flood.flood Minesweeper.xsize Minesweeper.ysize
              Nyankosweeper.covered Nyankosweeper.spreads Nyankosweeper.uncover
              depth g x y) as [g'|e1];
    destruct (Flood.flood Minesweeper.xsize Minesweeper.ysize
                Minesweeper.covered Minesweeper.spreads Minesweeper.uncover
                depth w x y) as [w'|e2];
    cbn in Hpair |- *; try contradiction.
  - split; [reflexivity|]. split; [reflexivity|]. split; [reflexivity|exact Hpair].
  - exact Hpair.
Qed.

Lemma fresh_field_mirrors :
  mirrors (fresh_grid Minesweeper.xsize Minesweeper.ysize Nyankosweeper.Cell_init)
    (Minesweeper.world_init 0).
Proof.
  split; [|split].
  - split; [apply rect_fresh_grid; [apply Z.lt_le_incl, MineFacts.xsize_pos
                                   |apply Z.lt_le_incl, MineFacts.ysize_pos]|].
    intros x y c Hc.
    assert (inb Minesweeper.xsize Minesweeper.ysize x y) as Hin.
    { apply (at2_inb _ _ _ x y c
               (rect_fresh_grid Minesweeper.xsize Minesweeper.ysize
                  Nyankosweeper.Cell_init
                  (Z.lt_le_incl _ _ MineFacts.xsize_pos)
                  (Z.lt_le_incl _ _ MineFacts.ysize_pos)) Hc). }
    rewrite at2_fresh_grid in Hc by exact Hin. injection Hc as <-. cbn. lia.
  - apply MineBuild.valid_world_init.
  - intros x y Hin.
    exists Nyankosweeper.Cell_init, (Minesweeper.Int 0), "#"%char.
    cbn [Minesweeper.vvram Minesweeper.mask Minesweeper.world_init].
    rewrite !at2_fresh_grid by exact Hin.
    repeat split; reflexivity.
Qed.

Lemma reveals_agree_witness :
  outcomes_agree
    (λ b w', Nyankosweeper.width b = Minesweeper.xsize
             ∧ Nyankosweeper.height b = Minesweeper.ysize
             ∧ Nyankosweeper.mines b = 0
             ∧ mirrors (Nyankosweeper.grid b) w')
    (Nyankosweeper.reveal 1000
       (Nyankosweeper.mkBoard Minesweeper.xsize Minesweeper.ysize 0
          (fresh_grid Minesweeper.xsize Minesweeper.ysize
             Nyankosweeper.Cell_init)) 20 11)
    (Minesweeper.reveal 1000 (Minesweeper.world_init 0) 20 11).
Proof.
  apply (reveals_agree 1000 0).
  - exact fresh_field_mirrors.
  - vm_compute. repeat split; discriminate.
Defined.
